(* ===== verification/_CoqProject ===== *)
-Q . S2P
Prelude.v
PyText.v
Config.v
Logs.v
Wire.v
TlsEnums.v
Naming.v
ClientHello.v
Extensions.v
IpAddress.v
Syn.v
Frames.v
FrameSpec.v
HttpFields.v
Hashes.v
Capture.v
Fingerprints.v
Uri.v
Http1.v
Validation.v
Adapter.v
Session.v
SessionLemmas.v
SessionSpec.v
SessionRequest.v
SessionReady.v
SessionEnds.v
SessionTransport.v
Client.v
Report.v
Json.v
JsonSpec.v
ReportSpec.v
Streams.v
Redirect.v
Tls.v
Connection.v
HandshakeSpec.v
ConnectionSpec.v
ConnectionEnds.v
ResponseSpec.v
RequestSpec.v
Lifecycle.v
Storage.v
Server.v
PolicySpec.v
ServerSpec.v
LogSpec.v
ServerEnds.v
Serving.v
Main.v
