(* ===== verification/Prelude.v ===== *)
(** * solvetls: a verification development

    solvetls is a server that shows its clients their own fingerprints.  A client connects
    over TLS; the server reads the ClientHello off the wire before OpenSSL sees it, reads
    one request over HTTP/1.1 or HTTP/2, and answers with a JSON report of what it saw: the
    saved SYN packet, the hello with its JA3 and JA4, the request head or the HTTP/2 frames
    with their Akamai fingerprint.  A second port redirects plain HTTP.  Reports are stored
    in MongoDB if it is configured.

    ** How the program is modelled

    A Python [bytes] or [str] is a list of integers, an exception is a value of [exn], a
    function that may raise returns [result], and a method is a computation of [M S], where
    [S] is the object it works on: state passing with exceptions that keep the state, as a
    Python object keeps the attributes that were assigned before a [raise].  An [await] is a
    call of an interface that may return or raise anything, [CancelledError] included: what
    is proved of a handler holds at every interleaving with its peer, clock and other tasks.
    Third-party code and the operating system are classes of operations (h2, hpack and the
    [sleep(0)] of applying SETTINGS in Adapter.v, the streams in Streams.v, OpenSSL in Tls.v, the database driver in
    Storage.v); [h2.utilities.validate_headers] is the parameter [h2_validate].  Where a
    theorem relies on documented behaviour of such code, the laws are a class or record of
    their own ([Reading], [Decrypting], [Resting], [Interleaved], [h2_finite],
    [transport_finite]), and a concrete instance witnesses them.

    ** The files and what they model

    - Prelude.v: results, exceptions, the monad and its rules: [wp] (what holds when a
      computation returns or raises), [stable] (a preorder that every run moves along),
      [confined], [finite] and [finite_in] (no fuel runs out).  PyText.v: operations of
      [str], [bytes], [int] and dictionaries, and JSON values.  IpAddress.v, Hashes.v, Json.v: [socket] and
      [ipaddress], [hashlib], [json.dumps]; JsonSpec.v: a reader of JSON that inverts it.
    - Wire.v: wire/reader.py, and the classes [parses] and [WireFormat] that its clients are
      verified against.  TlsEnums.v, Naming.v: tls/enums.py, wire/naming.py.
    - ClientHello.v, Extensions.v, Syn.v: tls/clienthello.py, tls/extensions.py,
      tcpip/syn.py.  Fingerprints.v: fingerprints.py.
    - Frames.v: http2/frames.py, the frame reader and builder; FrameSpec.v: their contract.
    - HttpFields.v, Uri.v, Http1.v: http_fields.py, uri.py, http1.py.  Validation.v:
      http2/validation.py.
    - Adapter.v: http2/adapter.py.  Capture.v, Session.v: http2/session.py; its contracts
      are in SessionLemmas.v, SessionSpec.v (what is captured and delivered),
      SessionRequest.v (the request that is kept), SessionReady.v (it is complete when it is
      handed over), SessionEnds.v (its loops end) and SessionTransport.v (what it does to
      its transport).
    - Client.v, Connection.v: connection.py, the handshake, both protocols' requests, reading
      and writing through TLS, and closing; HandshakeSpec.v, RequestSpec.v,
      ResponseSpec.v, ConnectionSpec.v (closing) and ConnectionEnds.v (its loops end):
      its contracts.  Streams.v and Tls.v: what it stands on.
    - Report.v: report.py; ReportSpec.v: its text.  Redirect.v: redirect.py.  Storage.v:
      storage.py.
    - Lifecycle.v: the state of server.py's [SolveTLS] that tasks share, as a step relation
      over the segments between two [await]s.  Serving.v: its methods [start],
      [serve_forever] and [close] as they are written, which refine that relation.
      Server.v: its handler of one client, on that state, the connection, the storage and
      the calls of its logger, with steps of the other tasks wherever it waits;
      PolicySpec.v, ServerSpec.v, LogSpec.v: its contracts (the answer, the whole handler,
      what is logged); ServerEnds.v: it ends.
    - Config.v, Logs.v, Main.v: constants.py, logs.py, main.py.

    The logs of calls beside a third party ([logged], [heard], [traced], [logged_database])
    are instances of its class over any other instance: they observe a run and change
    nothing of it.

    A definition has the name of the function it models; a method is named without its
    class.  A nested block of a long method is a definition of its own, named after what it
    does.  The parts meet as in the code: [_handle_client] runs [do_tls_handshake] and
    [handle_http] on the connection, whose [Link] is the [HTTP2Transport] of the session,
    whose capture is what [build_report] renders; [on_session] models that the connection
    and its session share the capture object.

    ** What is proved

    - The octets of a client are understood exactly.  The frame reader accepts exactly the
      wire format and nothing is lost or read twice ([payload_exact], [parse_frame_sound],
      [parse_frame_complete]); so do the hello and extension parsers
      ([client_hello_roundtrip], [client_hello_sound], [decode_extension_refines]), the
      HTTP/1.1 head ([parse_request_exact], [framing_unambiguous]), authorities
      ([validate_authority_exact]) and HTTP/2 fields ([validate_fields_exact]).
    - The report is true.  OpenSSL and the report get the client's own octets
      ([handshake_replay]); the request or the frames are the client's
      plaintext ([http1_request_faithful], [http2_capture_faithful], [receive_lossless]);
      the report can always be built ([request_reported]); the body of the response reads
      back as the report, which keeps apart what was observed and fits the document that
      is stored ([report_published]); GREASE changes neither JA3 nor JA4, and the
      Akamai fingerprint is of its four parts ([fingerprints_grease_invariant],
      [akamai_spec]).
    - A session serves one request, complete by the events that h2 reports and within its
      limits ([frame_admission], [request_accepted], [settings_delivered], [decode_spec]);
      what it captured is bounded, and kept raw only if it cannot be decoded
      ([capture_bounded]).  It answers ([response_sent], [http1_response_sent]) what the
      policy says, which is stated on the request alone ([response_policy_exact]), and ends
      ([session_ends]); so do the connection around it ([connection_ends]) and the task
      that serves it ([client_ends]).
    - Whatever fails, resources are given back: the transport ([connection_closed]), the
      report slot and the stored report ([client_served]), the database client
      ([storage_owned]).  The server keeps its limits, and its shutdown leaves nothing
      behind ([server_limits]); it comes to its end by its own steps and those of the
      clients that it cancelled, whatever the others do not do ([closing_finishes]).  Its
      methods, its handlers and the process only take such steps, and each call has the
      outcome that its code states ([server_calls_refine], [client_served], [main_ends]).
    - The redirect service writes the one answer that reading the head calls for, with a
      safe location, and closes ([redirect_exchange], [redirect_location_safe]); an answered
      request makes one call of the logger and that one line of printable text
      ([loggable_safe], [request_logged]); the process starts with the settings it was
      given or not at all ([configuration_exact]).

    ** Fuel and bounds

    Loops that are not structural take fuel; running out of it is the exception [OutOfFuel],
    which no [except] of the program catches.  Loops over a buffer get one turn per octet
    and one more ([while_more], [origin_loop]); every turn consumes an octet.  The loops that read a
    bounded head get the bound: [HEAD_FUEL] and [HTTP1_FUEL] are [MAX_HEAD_SIZE] and one, [HELLO_FUEL] is [MAX_CLIENT_HELLO_SIZE] with its header and
    one, [PREFACE_FUEL] the length of the HTTP/2 preface and one; a read that adds no octet
    raises.  Loops that last as long as the peer, OpenSSL or the driver makes them take a
    parameter [fuel].  [session_ends], [connection_ends], [client_ends] and
    [redirect_exchange] show how much is enough when that code is finite: for a connection, more than its budget (the
    octets to come, twice, and what OpenSSL can do by itself) and than what a session
    captures.  The other theorems hold at any fuel and treat running out as one more way
    to fail; so do those of waiting for the driver ([Storage.wait_closing]), for a lock or
    for a cleanup (Serving.v), which may last forever.  Integers are
    unbounded, as Python's; where a width matters (the wire formats, hashes) it is written
    out.

    ** What is not modelled

    The construction of the TLS context and of listening sockets; the [logging] package
    beyond what logs.py configures; the calls of the loggers other than those of
    [_serve_client] (they are debug or status messages, and return nothing); the time that a
    deadline takes (any call under a deadline may expire instead); pydantic's validation
    and the collection of the stored document, of which the fields are modelled. *)

From stdpp Require Export base tactics numbers list gmap strings sorting.
From Stdlib Require Export ZArith Lia.

Global Open Scope Z_scope.

(** ** Python values

    A Python [bytes] object and a Python [str] are both lists of integers: the
    octets of the first (0..255, see [bytes_ok]) and the code points of the
    second.  With this reading a Latin-1 [decode] is the identity, which is the
    property the program relies on when it maps octets to JSON characters. *)

Abbreviation bytes := (list Z).
Abbreviation text := (list Z).

Definition is_byte (b : Z) : Prop := 0 ≤ b < 256.

Definition bytes_ok (l : bytes) : Prop := Forall is_byte l.

Global Instance is_byte_dec b : Decision (is_byte b).
Proof. unfold is_byte. apply _. Defined.

Global Instance bytes_ok_dec l : Decision (bytes_ok l).
Proof. unfold bytes_ok. apply _. Defined.

(** [len(x)] as a Python integer. *)
Definition zlen {A} (l : list A) : Z := Z.of_nat (length l).

(** [x[a:b]] for [0 <= a]; an out-of-range [b] is clamped as in Python. *)
Definition slice {A} (l : list A) (a b : Z) : list A :=
  take (Z.to_nat (b - a)) (drop (Z.to_nat a) l).

(** The code points of an ASCII literal. *)
Definition u (s : string) : text :=
  (λ c, Z.of_nat (Ascii.nat_of_ascii c)) <$> String.list_ascii_of_string s.
Global Arguments u _%_string : simpl never.

(** ** Exceptions

    The exception classes the program raises, catches or lets through.  The
    class tests below give the subclass relations that the [except] clauses
    depend on. *)
Inductive exn :=
  | ValueError (msg : text)
  | UnicodeDecodeError
  | IndexError
  | KeyError
  | AttributeError
  | StopIteration
  | StructError
  | RuntimeError (msg : text)
  | HTTP1Error (msg : text) (status_code : Z)
  | HTTP2FrameParsingError (msg : text) (code : Z)
  | TypeError
  | ProtocolError (msg : text) (error_code : Z)
  | H2Error (msg : text)
  | HPACKError (msg : text)
  | OversizedHeaderListError (msg : text)
  | OSError (msg : text)
  | ConnectionResetError (msg : text)
  | ConnectionError (msg : text)
  | SSLError (msg : text)
  | SSLWantReadError
  | SSLWantWriteError
  | IncompleteReadError
  | TimeoutError
  | CancelledError
  | SystemExit (msg : text)
  | OutOfFuel.

Global Instance exn_eq_dec : EqDecision exn.
Proof. solve_decision. Defined.

(** [except ValueError]: [UnicodeDecodeError] and [HTTP1Error] are subclasses. *)
Definition is_ValueError (e : exn) : bool :=
  match e with
  | ValueError _ | UnicodeDecodeError | HTTP1Error _ _ => true
  | _ => false
  end.

Definition is_HTTP2FrameParsingError (e : exn) : bool :=
  match e with HTTP2FrameParsingError _ _ => true | _ => false end.

(** [except HPACKError] *)
Definition is_HPACKError (e : exn) : bool :=
  match e with HPACKError _ | OversizedHeaderListError _ => true | _ => false end.

(** [except ProtocolError], the class of h2. *)
Definition is_ProtocolError (e : exn) : bool :=
  match e with ProtocolError _ _ => true | _ => false end.

(** [except ssl.SSLError] *)
Definition is_SSLError (e : exn) : bool :=
  match e with SSLError _ | SSLWantReadError | SSLWantWriteError => true | _ => false end.

(** [except ConnectionError] *)
Definition is_ConnectionError (e : exn) : bool :=
  match e with ConnectionError _ | ConnectionResetError _ => true | _ => false end.

(** [except OSError] *)
Definition is_OSError (e : exn) : bool :=
  match e with
  | OSError _ | TimeoutError => true
  | _ => is_ConnectionError e || is_SSLError e
  end.

(** [except Exception]: all but the classes directly below [BaseException]. *)
Definition is_Exception (e : exn) : bool :=
  match e with CancelledError | SystemExit _ | OutOfFuel => false | _ => true end.

(** [str(e)] for the exceptions that carry a message. *)
Definition exn_str (e : exn) : text :=
  match e with
  | ValueError m | RuntimeError m | HTTP1Error m _ | HTTP2FrameParsingError m _
  | ProtocolError m _ | ConnectionResetError m | ConnectionError m
  | SSLError m | SystemExit m | H2Error m | HPACKError m | OversizedHeaderListError m
  | OSError m => m
  | _ => []
  end.

(** ** Effects

    [result] is a pure computation that may raise.  [M S] is a method of an
    object with state [S]: it may raise, and the changes made to the object
    before the exception stay, as they do in Python. *)
Inductive result (A : Type) :=
  | Ok (a : A)
  | Err (e : exn).
Arguments Ok {_} _.
Arguments Err {_} _.

Global Instance result_ret : MRet result := λ A a, Ok a.
Global Instance result_bind : MBind result := λ A B f m,
  match m with Ok a => f a | Err e => Err e end.
Global Instance result_fmap : FMap result := λ A B f m,
  match m with Ok a => Ok (f a) | Err e => Err e end.

Global Instance Ok_inj A : Inj (=) (=) (@Ok A).
Proof. congruence. Qed.

Definition is_Ok {A} (r : result A) : bool :=
  match r with Ok _ => true | Err _ => false end.

Definition M (S A : Type) : Type := S → result A * S.

Global Instance M_ret S : MRet (M S) := λ A a s, (Ok a, s).
Global Instance M_bind S : MBind (M S) := λ A B f m s,
  match m s with
  | (Ok a, s') => f a s'
  | (Err e, s') => (Err e, s')
  end.

Definition raise {S A} (e : exn) : M S A := λ s, (Err e, s).

Definition gets {S A} (f : S → A) : M S A := λ s, (Ok (f s), s).

Definition modify {S} (f : S → S) : M S unit := λ s, (Ok tt, f s).

(** A call that works on values or on an object of its own. *)
Definition lift {S A} (r : result A) : M S A := λ s, (r, s).

(** [try: m  except: h]: the handler runs in the state the exception left. *)
Definition try_except {S A} (m : M S A) (h : exn → M S A) : M S A := λ s,
  match m s with
  | (Ok a, s') => (Ok a, s')
  | (Err e, s') => h e s'
  end.

(** [try: m  finally: f] where [f] only assigns attributes. *)
Definition finally {S A} (m : M S A) (f : S → S) : M S A := λ s,
  let '(r, s') := m s in (r, f s').

Definition guard_or {S} (b : bool) (e : exn) : M S unit :=
  if b then mret tt else raise e.

(** ** Big-endian integers: [struct.unpack], [int.from_bytes], [struct.pack] *)

Definition be_val (l : bytes) : Z := foldl (λ acc b, acc * 256 + b) 0 l.

Fixpoint be_bytes (n : nat) (v : Z) : bytes :=
  match n with
  | O => []
  | S n => be_bytes n (v / 256) ++ [v mod 256]
  end.

(** ** Automation *)

(** Facts about lengths, slices and byte ranges. *)
Create HintDb wire.

(** [zify_len]: reduce [zlen] of list operations to arithmetic. *)
Ltac zify_len :=
  unfold zlen in *;
  repeat (rewrite ?length_app, ?length_cons, ?length_nil, ?length_take,
            ?length_drop, ?length_fmap, ?length_replicate in *).

Ltac zlia := zify_len; simpl in *; lia.

(** Evaluate a decidable statement about concrete data. *)
Ltac by_eval := apply (bool_decide_unpack _); vm_compute; exact I.

(** Case analysis on the boolean tests of the code, turning the integer
    comparisons into propositions. *)
Ltac btest :=
  repeat match goal with
  | H : context [?a <? ?b] |- _ => destruct (Z.ltb_spec a b)
  | H : context [?a >? ?b] |- _ => rewrite (Z.gtb_ltb a b) in H
  | H : context [?a <=? ?b] |- _ => destruct (Z.leb_spec a b)
  | H : context [?a =? ?b] |- _ => destruct (Z.eqb_spec a b)
  | |- context [?a <? ?b] => destruct (Z.ltb_spec a b)
  | |- context [?a >? ?b] => rewrite (Z.gtb_ltb a b)
  | |- context [?a >=? ?b] => rewrite (Z.geb_leb a b)
  | |- context [?a <=? ?b] => destruct (Z.leb_spec a b)
  | |- context [?a =? ?b] => destruct (Z.eqb_spec a b)
  end.

(** ** Lists and slices *)

Lemma zlen_nonneg {A} (l : list A) : 0 ≤ zlen l.
Proof. unfold zlen; lia. Qed.

Lemma zlen_app {A} (l k : list A) : zlen (l ++ k) = zlen l + zlen k.
Proof. unfold zlen; rewrite length_app; lia. Qed.

Lemma zlen_cons {A} (x : A) l : zlen (x :: l) = 1 + zlen l.
Proof. unfold zlen; simpl; lia. Qed.

Lemma zlen_nil {A} : zlen (@nil A) = 0.
Proof. done. Qed.

Lemma add_zlen_nil {A} (z : Z) : z + zlen (@nil A) = z.
Proof. unfold zlen; simpl; lia. Qed.

Lemma zlen_drop {A} (l : list A) n :
  0 ≤ n ≤ zlen l → zlen (drop (Z.to_nat n) l) = zlen l - n.
Proof. unfold zlen; rewrite length_drop; lia. Qed.

Lemma zlen_take {A} (l : list A) n :
  0 ≤ n ≤ zlen l → zlen (take (Z.to_nat n) l) = n.
Proof. unfold zlen; rewrite length_take; lia. Qed.

Lemma zlen_slice {A} (l : list A) a b :
  0 ≤ a → a ≤ b → b ≤ zlen l → zlen (slice l a b) = b - a.
Proof.
  unfold slice, zlen. rewrite length_take, length_drop. lia.
Qed.

Lemma slice_app {A} (l : list A) a b c :
  0 ≤ a → a ≤ b → b ≤ c → slice l a b ++ slice l b c = slice l a c.
Proof.
  intros Ha Hab Hbc. unfold slice.
  replace (Z.to_nat (c - a)) with (Z.to_nat (b - a) + Z.to_nat (c - b))%nat by lia.
  rewrite <-take_take_drop, drop_drop. repeat f_equal; lia.
Qed.

Lemma slice_full {A} (l : list A) a :
  0 ≤ a → slice l a (zlen l) = drop (Z.to_nat a) l.
Proof.
  intros. unfold slice. apply take_ge. rewrite length_drop. unfold zlen. lia.
Qed.

Lemma slice_drop_split {A} (l : list A) a b :
  0 ≤ a → a ≤ b →
  drop (Z.to_nat a) l = slice l a b ++ drop (Z.to_nat b) l.
Proof.
  intros. unfold slice.
  rewrite <-(take_drop (Z.to_nat (b - a)) (drop (Z.to_nat a) l)) at 1.
  rewrite drop_drop. repeat f_equal; lia.
Qed.

Lemma slice_prefix {A} (pre x post : list A) :
  slice (pre ++ x ++ post) (zlen pre) (zlen pre + zlen x) = x.
Proof.
  unfold slice, zlen.
  replace (Z.to_nat _ ) with (length x) by lia.
  rewrite Nat2Z.id, drop_app_length. apply take_app_length.
Qed.

Lemma drop_zlen_app {A} (pre post : list A) :
  drop (Z.to_nat (zlen pre)) (pre ++ post) = post.
Proof. unfold zlen. rewrite Nat2Z.id. apply drop_app_length. Qed.

Lemma bytes_ok_app l k : bytes_ok (l ++ k) ↔ bytes_ok l ∧ bytes_ok k.
Proof. apply Forall_app. Qed.

Lemma bytes_ok_take n l : bytes_ok l → bytes_ok (take n l).
Proof. apply Forall_take. Qed.

Lemma bytes_ok_drop n l : bytes_ok l → bytes_ok (drop n l).
Proof. apply Forall_drop. Qed.

Lemma bytes_ok_slice l a b : bytes_ok l → bytes_ok (slice l a b).
Proof. intros. by apply bytes_ok_take, bytes_ok_drop. Qed.

#[export] Hint Resolve zlen_nonneg bytes_ok_take bytes_ok_drop bytes_ok_slice : wire.

(** ** Big-endian laws *)

Lemma be_val_snoc l b : be_val (l ++ [b]) = be_val l * 256 + b.
Proof. unfold be_val. by rewrite foldl_app. Qed.

Lemma length_be_bytes n v : length (be_bytes n v) = n.
Proof.
  revert v. induction n as [|n IH]; intros v; simpl; [done|].
  rewrite length_app, IH. simpl. lia.
Qed.

Lemma zlen_be_bytes n v : zlen (be_bytes n v) = Z.of_nat n.
Proof. unfold zlen. by rewrite length_be_bytes. Qed.

Lemma be_bytes_ok n v : bytes_ok (be_bytes n v).
Proof.
  revert v. induction n as [|n IH]; intros v; simpl; [constructor|].
  apply bytes_ok_app. split; [done|].
  repeat constructor; pose proof (Z.mod_pos_bound v 256); lia.
Qed.

Lemma be_val_bytes n v :
  0 ≤ v < 256 ^ Z.of_nat n → be_val (be_bytes n v) = v.
Proof.
  revert v. induction n as [|n IH]; intros v Hv; simpl be_bytes.
  { change (256 ^ Z.of_nat 0) with 1 in Hv. unfold be_val; simpl; lia. }
  rewrite be_val_snoc, IH.
  { pose proof (Z.div_mod v 256). lia. }
  rewrite Nat2Z.inj_succ, Z.pow_succ_r in Hv by lia.
  split; [apply Z.div_pos; lia|]. apply Z.div_lt_upper_bound; lia.
Qed.

Lemma be_val_range l :
  bytes_ok l → 0 ≤ be_val l < 256 ^ zlen l.
Proof.
  induction l as [|b l IH] using rev_ind; intros Hl.
  { unfold be_val, zlen; simpl; lia. }
  apply bytes_ok_app in Hl as [Hl [Hb _]%Forall_cons].
  rewrite be_val_snoc, zlen_app. change (zlen [b]) with 1.
  rewrite Z.pow_add_r by (pose proof (zlen_nonneg l); lia).
  specialize (IH Hl). unfold is_byte in Hb. lia.
Qed.

Lemma be_bytes_val l : bytes_ok l → be_bytes (length l) (be_val l) = l.
Proof.
  induction l as [|b l IH] using rev_ind; intros Hl; [done|].
  apply bytes_ok_app in Hl as [Hl [Hb _]%Forall_cons].
  rewrite length_app, be_val_snoc. simpl length.
  replace (length l + 1)%nat with (S (length l)) by lia. simpl.
  unfold is_byte in Hb.
  replace ((be_val l * 256 + b) / 256) with (be_val l)
    by (apply Z.div_unique with b; lia).
  replace ((be_val l * 256 + b) mod 256) with b
    by (apply Z.mod_unique with (be_val l); lia).
  by rewrite IH.
Qed.

Lemma be_val_cons0 l : be_val (0 :: l) = be_val l.
Proof. done. Qed.

Global Arguments be_bytes : simpl never.
Global Arguments be_val : simpl never.
Global Arguments zlen : simpl never.
Global Arguments slice : simpl never.

(** ** The state-and-exception monad *)

Lemma bind_ok {S A B} (m : M S A) (f : A → M S B) s a s' :
  m s = (Ok a, s') → (m ≫= f) s = f a s'.
Proof. intros E. unfold mbind, M_bind. by rewrite E. Qed.

Lemma bind_err {S A B} (m : M S A) (f : A → M S B) s e s' :
  m s = (Err e, s') → (m ≫= f) s = (Err e, s').
Proof. intros E. unfold mbind, M_bind. by rewrite E. Qed.

Lemma bind_inv {S A B} (m : M S A) (f : A → M S B) s b s' :
  (m ≫= f) s = (Ok b, s') → ∃ a s1, m s = (Ok a, s1) ∧ f a s1 = (Ok b, s').
Proof.
  unfold mbind, M_bind. destruct (m s) as [[a|e] s1]; [|done]. eauto.
Qed.

(** *** Sequencing of pure computations *)

Lemma bind_Ok {A B} (r : result A) (f : A → result B) b :
  (r ≫= f) = Ok b ↔ ∃ a, r = Ok a ∧ f a = Ok b.
Proof. destruct r as [a|e]; cbn; naive_solver. Qed.

Lemma bind_Err {A B} (r : result A) (f : A → result B) e :
  (r ≫= f) = Err e → r = Err e ∨ ∃ a, r = Ok a ∧ f a = Err e.
Proof. destruct r as [a|x]; cbn; naive_solver. Qed.

Lemma bind_unit_Ok {A} (r : result unit) (f : unit → result A) b :
  (r ≫= f) = Ok b ↔ r = Ok tt ∧ f tt = Ok b.
Proof. rewrite bind_Ok. split; [by intros ([] & H)|by exists tt]. Qed.

(** [spec P m Q E]: from a state in [P], the method ends either normally with
    [Q] or with an exception and [E]. *)
Definition spec {S A} (P : S → Prop) (m : M S A)
    (Q : A → S → Prop) (E : exn → S → Prop) : Prop :=
  ∀ s, P s → match m s with (Ok a, s') => Q a s' | (Err e, s') => E e s' end.

Lemma spec_ret {S A} (P : S → Prop) (a : A) Q E :
  (∀ s, P s → Q a s) → spec P (mret a) Q E.
Proof. intros H s Hs. apply H, Hs. Qed.

Lemma spec_raise {S A} (P : S → Prop) e (Q : A → S → Prop) E :
  (∀ s, P s → E e s) → spec P (raise e) Q E.
Proof. intros H s Hs. apply H, Hs. Qed.

Lemma spec_bind {S A B} (P : S → Prop) (m : M S A) R (f : A → M S B) Q E :
  spec P m R E → (∀ a, spec (R a) (f a) Q E) → spec P (m ≫= f) Q E.
Proof.
  intros Hm Hf s Hs. specialize (Hm s Hs). unfold mbind, M_bind.
  destruct (m s) as [[a|e] s']; [|done]. by apply (Hf a).
Qed.

Lemma spec_weaken {S A} (P P' : S → Prop) (m : M S A) Q Q' E E' :
  spec P m Q E → (∀ s, P' s → P s) → (∀ a s, Q a s → Q' a s) →
  (∀ e s, E e s → E' e s) → spec P' m Q' E'.
Proof.
  intros Hm HP HQ HE s Hs. specialize (Hm s (HP s Hs)).
  destruct (m s) as [[a|e] s']; eauto.
Qed.

Lemma spec_if {S A} (b : bool) (P : S → Prop) (m1 m2 : M S A) Q E :
  (b = true → spec P m1 Q E) → (b = false → spec P m2 Q E) →
  spec P (if b then m1 else m2) Q E.
Proof. destruct b; auto. Qed.

(** [wp m Q E s]: run from [s], the method ends normally with [Q] or with an exception
    and [E].  The lemmas below run a method symbolically. *)
Definition wp {S A} (m : M S A) (Q : A → S → Prop) (E : exn → S → Prop) (s : S) : Prop :=
  match m s with (Ok a, s') => Q a s' | (Err e, s') => E e s' end.

Section wp.
Context {S : Type}.
Implicit Types (s : S).

Lemma wp_ret {A} (a : A) (Q : A → S → Prop) E s : Q a s → wp (mret a) Q E s.
Proof. done. Qed.

Lemma wp_raise {A} e (Q : A → S → Prop) (E : exn → S → Prop) s : E e s → wp (raise e) Q E s.
Proof. done. Qed.

Lemma wp_gets {A} (f : S → A) (Q : A → S → Prop) E s : Q (f s) s → wp (gets f) Q E s.
Proof. done. Qed.

Lemma wp_modify (f : S → S) (Q : unit → S → Prop) E s : Q tt (f s) → wp (modify f) Q E s.
Proof. done. Qed.

Lemma wp_lift {A} (r : result A) (Q : A → S → Prop) (E : exn → S → Prop) s :
  (∀ a, r = Ok a → Q a s) → (∀ e, r = Err e → E e s) → wp (lift r) Q E s.
Proof. unfold wp, lift. destruct r; auto. Qed.

Lemma wp_bind {A B} (m : M S A) (k : A → M S B) Q E s :
  wp m (λ a, wp (k a) Q E) E s → wp (m ≫= k) Q E s.
Proof. unfold wp, mbind, M_bind. by destruct (m s) as [[a|e] s']. Qed.

Lemma wp_try {A} (m : M S A) h (Q : A → S → Prop) E s :
  wp m Q (λ e, wp (h e) Q E) s → wp (try_except m h) Q E s.
Proof. unfold wp, try_except. by destruct (m s) as [[a|e] s']. Qed.

Lemma wp_if {A} (b : bool) (m1 m2 : M S A) Q E s :
  (b = true → wp m1 Q E s) → (b = false → wp m2 Q E s) → wp (if b then m1 else m2) Q E s.
Proof. destruct b; auto. Qed.

Lemma wp_wand {A} (m : M S A) (Q Q' : A → S → Prop) (E E' : exn → S → Prop) s :
  wp m Q E s → (∀ a s', Q a s' → Q' a s') → (∀ e s', E e s' → E' e s') → wp m Q' E' s.
Proof. unfold wp. destruct (m s) as [[a|e] s']; auto. Qed.

Lemma wp_and {A} (m : M S A) (Q Q' : A → S → Prop) (E E' : exn → S → Prop) s :
  wp m Q E s → wp m Q' E' s → wp m (λ a s, Q a s ∧ Q' a s) (λ e s, E e s ∧ E' e s) s.
Proof. unfold wp. destruct (m s) as [[a|e] s']; auto. Qed.

Lemma wp_run {A} (m : M S A) (Q : A → S → Prop) (E : exn → S → Prop) s r s' :
  wp m Q E s → m s = (r, s') → match r with Ok a => Q a s' | Err e => E e s' end.
Proof. unfold wp. intros H HE. rewrite HE in H. by destruct r. Qed.

(** A method all of whose runs, exceptions included, move the object along the
    preorder [R]. *)
Definition stable (R : relation S) {A} (m : M S A) : Prop := ∀ s, R s (m s).2.

Context (R : relation S) `{!PreOrder R}.

Lemma stable_ret {A} (a : A) : stable R (mret a).
Proof. intros s. cbn. reflexivity. Qed.

Lemma stable_raise {A} e : stable R (raise (A := A) e).
Proof. intros s. cbn. reflexivity. Qed.

Lemma stable_gets {A} (f : S → A) : stable R (gets f).
Proof. intros s. cbn. reflexivity. Qed.

Lemma stable_lift {A} (r : result A) : stable R (lift r).
Proof. intros s. cbn. reflexivity. Qed.

Lemma stable_modify f : (∀ s, R s (f s)) → stable R (modify f).
Proof. intros H s. apply H. Qed.

Lemma stable_bind {A B} (m : M S A) (k : A → M S B) :
  stable R m → (∀ a, stable R (k a)) → stable R (m ≫= k).
Proof.
  intros Hm Hk s. specialize (Hm s). unfold mbind, M_bind. destruct (m s) as [[a|e] s']; [|done].
  cbn in Hm. etrans; [done|apply Hk].
Qed.

Lemma stable_try {A} (m : M S A) h :
  stable R m → (∀ e, stable R (h e)) → stable R (try_except m h).
Proof.
  intros Hm Hh s. specialize (Hm s). unfold try_except. destruct (m s) as [[a|e] s']; [done|].
  cbn in Hm. etrans; [done|apply Hh].
Qed.

Lemma stable_wp {A} (m : M S A) s : stable R m → wp m (λ _, R s) (λ _, R s) s.
Proof. intros H. specialize (H s). unfold wp. by destruct (m s) as [[a|e] s']. Qed.

Lemma wp_stable_from {A} (m : M S A) s s1 :
  R s s1 → stable R m → wp m (λ _, R s) (λ _, R s) s1.
Proof.
  intros Hs H. eapply wp_wand; [by apply stable_wp|..]; cbn; intros; by etrans.
Qed.

Lemma wp_stable {A} (m : M S A) : (∀ s, wp m (λ _, R s) (λ _, R s) s) → stable R m.
Proof. intros H s. specialize (H s). unfold wp in H. by destruct (m s) as [[a|e] s']. Qed.
End wp.

(** *** Invariants of normal returns, and methods that end *)

(** [m] returns to [I]; an exception may leave anything. *)
Definition maintains {S A} (I : S → Prop) (m : M S A) : Prop :=
  ∀ s, I s → wp m (λ _, I) (λ _ _, True) s.

(** [m] does not run out of fuel. *)
Definition finite {S A} (m : M S A) : Prop :=
  ∀ s, wp m (λ _ _, True) (λ e _, e ≠ OutOfFuel) s.

(** [m] does not run out of fuel where [I] holds, and keeps [I] whatever comes of it. *)
Definition finite_in {S A} (I : S → Prop) (m : M S A) : Prop :=
  ∀ s, I s → wp m (λ _, I) (λ e s', e ≠ OutOfFuel ∧ I s') s.

Section loops.
Context {S : Type} (I : S → Prop).

Lemma maintains_ret {A} (a : A) : maintains I (mret a).
Proof. intros s. done. Qed.

Lemma maintains_raise {A} e : maintains I (raise (A := A) e).
Proof. intros s _. exact Logic.I. Qed.

Lemma maintains_gets {A} (f : S → A) : maintains I (gets f).
Proof. intros s. done. Qed.

Lemma maintains_lift {A} (r : result A) : maintains I (lift r).
Proof. intros s Hs. destruct r; [exact Hs|exact Logic.I]. Qed.

Lemma maintains_modify f : (∀ s, I s → I (f s)) → maintains I (modify f).
Proof. intros H s. apply H. Qed.

Lemma maintains_bind {A B} (m : M S A) (k : A → M S B) :
  maintains I m → (∀ a, maintains I (k a)) → maintains I (m ≫= k).
Proof.
  intros Hm Hk s Hs. apply wp_bind. eapply wp_wand; [by apply Hm| |done].
  intros a s'. apply Hk.
Qed.

Lemma finite_ret {A} (a : A) : finite (S := S) (mret a).
Proof. intros s. exact Logic.I. Qed.

Lemma finite_raise {A} e : e ≠ OutOfFuel → finite (S := S) (raise (A := A) e).
Proof. intros He s. exact He. Qed.

Lemma finite_gets {A} (f : S → A) : finite (gets f).
Proof. intros s. exact Logic.I. Qed.

Lemma finite_lift {A} (r : result A) : r ≠ Err OutOfFuel → finite (S := S) (lift r).
Proof. intros Hr s. unfold wp, lift. destruct r as [a|e]; [done|congruence]. Qed.

Lemma finite_modify (f : S → S) : finite (modify f).
Proof. intros s. exact Logic.I. Qed.

Lemma finite_bind {A B} (m : M S A) (k : A → M S B) :
  finite m → (∀ a, finite (k a)) → finite (m ≫= k).
Proof.
  intros Hm Hk s. apply wp_bind. eapply wp_wand; [apply Hm| |done]. intros a s' _. apply Hk.
Qed.

Lemma finite_try {A} (m : M S A) h :
  finite m → (∀ e, e ≠ OutOfFuel → finite (h e)) → finite (try_except m h).
Proof.
  intros Hm Hh s. apply wp_try. eapply wp_wand; [apply Hm|done|]. intros e s' He. by apply Hh.
Qed.

Lemma finite_in_ret {A} (a : A) : finite_in I (mret a).
Proof. by intros s Hs. Qed.

Lemma finite_in_raise {A} e : e ≠ OutOfFuel → finite_in I (raise (A := A) e).
Proof. by intros He s Hs. Qed.

Lemma finite_in_gets {A} (f : S → A) : finite_in I (gets f).
Proof. by intros s Hs. Qed.

Lemma finite_in_lift {A} (r : result A) : r ≠ Err OutOfFuel → finite_in I (lift r).
Proof. intros Hr s Hs. unfold wp, lift. destruct r as [a|e]; [done|]. split; [congruence|done]. Qed.

Lemma finite_in_modify f : (∀ s, I s → I (f s)) → finite_in I (modify f).
Proof. intros Hf s Hs. by apply Hf. Qed.

Lemma finite_in_bind {A B} (m : M S A) (k : A → M S B) :
  finite_in I m → (∀ a, finite_in I (k a)) → finite_in I (m ≫= k).
Proof.
  intros Hm Hk s Hs. apply wp_bind. eapply wp_wand; [by apply Hm| |done]. intros a s'. apply Hk.
Qed.

Lemma finite_in_try {A} (m : M S A) h :
  finite_in I m → (∀ e, e ≠ OutOfFuel → finite_in I (h e)) → finite_in I (try_except m h).
Proof.
  intros Hm Hh s Hs. apply wp_try. eapply wp_wand; [by apply Hm|done|].
  intros e s' [He Hs']. by apply Hh.
Qed.
End loops.

Lemma finite_everywhere {S A} (m : M S A) : finite_in (λ _, True) m ↔ finite m.
Proof.
  split; intros Hm s; [specialize (Hm s Logic.I)|specialize (Hm s); intros _]; unfold wp in *;
    by destruct (m s) as [[]]; intuition.
Qed.

(** One step of a symbolic run; conditions of the code become cases. *)
Ltac wp_step :=
  lazymatch goal with
  | |- wp (_ ≫= _) _ _ _ => apply wp_bind
  | |- wp (mret _) _ _ _ => apply wp_ret
  | |- wp (raise _) _ _ _ => apply wp_raise
  | |- wp (gets _) _ _ _ => apply wp_gets
  | |- wp (modify _) _ _ _ => apply wp_modify
  | |- wp (lift _) _ _ _ => apply wp_lift; intros ? ?
  | |- wp (try_except _ _) _ _ _ => apply wp_try
  | |- wp (if ?b then _ else _) _ _ _ => first [apply wp_if; intro|destruct b eqn:?]
  | |- wp (match ?x with _ => _ end) _ _ _ => destruct x eqn:?
  end.

(** The steps of a method that is stable under a preorder. *)
Create HintDb stable.
#[export] Hint Resolve stable_ret stable_raise stable_gets stable_lift stable_bind stable_try
  : stable.

Ltac stable_step :=
  lazymatch goal with
  | |- stable _ (_ ≫= _) => apply stable_bind; [try apply _..| |intro]
  | |- stable _ (try_except _ _) => apply stable_try; [try apply _..| |intro]
  | |- stable _ (if ?b then _ else _) => destruct b
  | |- stable _ (match ?x with _ => _ end) => destruct x
  | |- stable _ (mret _) => apply stable_ret; try apply _
  | |- stable _ (raise _) => apply stable_raise; try apply _
  | |- stable _ (gets _) => apply stable_gets; try apply _
  | |- stable _ (lift _) => apply stable_lift; try apply _
  | |- stable _ _ => solve [auto with stable]
  end.

(** A method that moves the object along [R] if it returns, and along [E] if it raises.
    With [E] the same as [R] this is [stable]. *)
Section confined.
Context {S : Type} (R E : relation S) `{!PreOrder R} `{!Transitive E} `{!subrelation R E}.

Definition confined {A} (m : M S A) : Prop := ∀ s, wp m (λ _, R s) (λ _, E s) s.

Lemma confined_ret {A} (a : A) : confined (mret a).
Proof. intros s. apply wp_ret. reflexivity. Qed.

Lemma confined_raise {A} e : confined (raise (A := A) e).
Proof. intros s. apply wp_raise, subrelation0. reflexivity. Qed.

Lemma confined_gets {A} (f : S → A) : confined (gets f).
Proof. intros s. apply wp_gets. reflexivity. Qed.

Lemma confined_lift {A} (r : result A) : confined (lift r).
Proof. intros s. destruct r; cbn; [|apply subrelation0]; reflexivity. Qed.

Lemma confined_modify f : (∀ s, R s (f s)) → confined (modify f).
Proof. intros Hf s. apply wp_modify, Hf. Qed.

Lemma confined_bind {A B} (m : M S A) (k : A → M S B) :
  confined m → (∀ a, confined (k a)) → confined (m ≫= k).
Proof.
  intros Hm Hk s. apply wp_bind. eapply wp_wand; [apply Hm| |done]. cbn. intros a s' Hs.
  eapply wp_wand; [apply Hk|..]; cbn; intros ? s'' Hs'; etrans; [exact Hs|exact Hs'| |exact Hs'].
  by apply subrelation0.
Qed.

(** A handler that always raises. *)
Definition raises {A} (m : M S A) : Prop := ∀ s, wp m (λ _ _, False) (λ _ _, True) s.

Lemma confined_try {A} (m : M S A) h :
  confined m → (∀ e, raises (h e) ∧ confined (h e)) → confined (try_except m h).
Proof.
  intros Hm Hh s. apply wp_try. eapply wp_wand; [apply Hm|done|]. cbn. intros e s1 Hs.
  destruct (Hh e) as [Hr Hc]. eapply wp_wand; [apply wp_and; [apply Hr|apply Hc]|..]; cbn.
  - by intros a s2 [[] _].
  - intros e' s2 [_ Hs2]. by etrans.
Qed.
End confined.

Lemma stable_confined {S A} (R : relation S) (m : M S A) : stable R m ↔ confined R R m.
Proof.
  unfold stable, confined, wp. split; intros H s; specialize (H s); by destruct (m s) as [[]].
Qed.

Ltac confined_step :=
  lazymatch goal with
  | |- confined _ _ (_ ≫= _) => apply confined_bind; [try apply _..| |intro]
  | |- confined _ _ (if ?b then _ else _) => destruct b
  | |- confined _ _ (match ?x with _ => _ end) => destruct x
  | |- confined _ _ (mret _) => apply confined_ret; try apply _
  | |- confined _ _ (raise _) => apply confined_raise; try apply _
  | |- confined _ _ (gets _) => apply confined_gets; try apply _
  | |- confined _ _ (lift _) => apply confined_lift; try apply _
  | |- confined _ _ _ => solve [auto with confined]
  end.

Create HintDb confined.

Create HintDb finite.

(** The steps of a method that ends. *)
Ltac finite_step :=
  lazymatch goal with
  | |- finite (_ ≫= _) => apply finite_bind; [|intro]
  | |- finite (try_except _ _) => apply finite_try; [|intros ? ?]
  | |- finite (if ?b then _ else _) => destruct b
  | |- finite (match ?x with _ => _ end) => destruct x eqn:?
  | |- finite (mret _) => apply finite_ret
  | |- finite (gets _) => apply finite_gets
  | |- finite (modify _) => apply finite_modify
  | |- finite (raise _) => apply finite_raise; first [done|congruence]
  | |- finite _ => solve [auto with finite]
  | |- finite_in _ (_ ≫= _) => apply finite_in_bind; [|intro]
  | |- finite_in _ (try_except _ _) => apply finite_in_try; [|intros ? ?]
  | |- finite_in _ (if ?b then _ else _) => destruct b
  | |- finite_in _ (match ?x with _ => _ end) => destruct x eqn:?
  | |- finite_in _ (mret _) => apply finite_in_ret
  | |- finite_in _ (gets _) => apply finite_in_gets
  | |- finite_in _ (modify _) => apply finite_in_modify; solve [auto]
  | |- finite_in _ (raise _) => apply finite_in_raise; first [done|congruence]
  | |- finite_in _ _ => solve [auto with finite]
  end.

(** The steps of a method that maintains an invariant. *)
Create HintDb maintains.

Ltac maintains_step :=
  lazymatch goal with
  | |- maintains _ (_ ≫= _) => apply maintains_bind; [|intro]
  | |- maintains _ (if ?b then _ else _) => destruct b eqn:?
  | |- maintains _ (match ?x with _ => _ end) => destruct x eqn:?
  | |- maintains _ (mret _) => apply maintains_ret
  | |- maintains _ (gets _) => apply maintains_gets
  | |- maintains _ (raise _) => apply maintains_raise
  | |- maintains _ (lift _) => apply maintains_lift
  | |- maintains _ _ => solve [auto with maintains]
  end.

(** ** Comprehensions over fallible functions *)

Lemma mapM_Ok {A B} (f : A → result B) l k : mapM f l = Ok k ↔ Forall2 (λ x y, f x = Ok y) l k.
Proof.
  split.
  - revert k. induction l as [|x l IH]; intros k; cbn; [intros [= <-]; constructor|].
    destruct (f x) as [y|e] eqn:E; cbn; [|done]. destruct (mapM f l) as [ys|e]; cbn; [|done].
    intros [= <-]. constructor; [done|]. by apply IH.
  - induction 1 as [|x y l k Hxy _ IH]; cbn; [done|]. rewrite Hxy. cbn. by rewrite IH.
Qed.

Lemma mapM_total {A B} (f : A → result B) l :
  Forall (λ x, ∃ y, f x = Ok y) l → ∃ k, mapM f l = Ok k.
Proof.
  induction 1 as [|x l [y Hy] _ [k IH]]; cbn; [by eexists|]. rewrite Hy. cbn. rewrite IH. by eexists.
Qed.

(** Two lists with the same images are equal where the images tell elements apart. *)
Lemma Forall2_same {A B} (R : A → B → Prop) (P : A → Prop) l l' k :
  (∀ x x' y, P x → P x' → R x y → R x' y → x = x') →
  Forall P l → Forall P l' → Forall2 R l k → Forall2 R l' k → l = l'.
Proof.
  intros HR Hl Hl' H. revert l' Hl'. induction H as [|x y l k Hxy _ IH]; intros l' Hl' H'.
  { by inversion H'. }
  inversion H' as [|x' ? l2 ? Hxy' H2]; subst. inversion Hl. inversion Hl'. subst.
  f_equal; [by eapply HR|by apply IH].
Qed.

Lemma fmap_same {A B} (f : A → B) (P : A → Prop) (l l' : list A) :
  (∀ x x', P x → P x' → f x = f x' → x = x') →
  Forall P l → Forall P l' → f <$> l = f <$> l' → l = l'.
Proof.
  intros Hf Hl Hl' E. apply (Forall2_same (λ x y, f x = y) P l l' (f <$> l)); [|done|done|..].
  - intros x x' y Hx Hx' <- E'. by apply Hf.
  - apply Forall2_fmap_r, Forall_Forall2_diag, Forall_true. done.
  - rewrite E. apply Forall2_fmap_r, Forall_Forall2_diag, Forall_true. done.
Qed.
