(* ===== verification/PyText.v ===== *)
(** * Python text and bytes operations

    The operations of [str], [bytes], [int] and f-strings that the sources use,
    on the representation of Prelude.v.  They model the language and its
    standard library, not a file of the repository. *)

From S2P Require Import Prelude.

#[local] Set Warnings "-register-all".

(** ** Searching *)

(** [x.startswith(p)] *)
Fixpoint startswith (p l : text) : bool :=
  match p, l with
  | [], _ => true
  | a :: p, b :: l => (a =? b) && startswith p l
  | _ :: _, [] => false
  end.

(** [x.find(p)], with [None] for -1. *)
Fixpoint find_ (p l : text) : option nat :=
  if startswith p l then Some O
  else match l with
       | [] => None
       | _ :: l => S <$> find_ p l
       end.

Definition find (p l : text) : option Z := Z.of_nat <$> find_ p l.

(** [x.find(p, start)] for [0 <= start <= len(x)]. *)
Definition find_from (p l : text) (start : Z) : option Z :=
  (λ i, i + start) <$> find p (drop (Z.to_nat start) l).

(** [c in x] for one character, [p in x] for a string. *)
Definition mem (c : Z) (l : text) : bool := existsb (Z.eqb c) l.

Definition contains (p l : text) : bool :=
  match find_ p l with Some _ => true | None => false end.

(** [x.partition(sep)] for a one-character separator: head, whether the
    separator occurs, tail. *)
Fixpoint partition_ (c : Z) (l : text) : text * bool * text :=
  match l with
  | [] => ([], false, [])
  | x :: l =>
      if x =? c then ([], true, l)
      else let '(h, s, t) := partition_ c l in (x :: h, s, t)
  end.

(** [x.split(sep)] for a one-character separator. *)
Fixpoint split (c : Z) (l : text) : list text :=
  match l with
  | [] => [[]]
  | x :: l =>
      if x =? c then [] :: split c l
      else match split c l with
           | h :: t => (x :: h) :: t
           | [] => [[x]]
           end
  end.

(** [x.split(b"\r\n")]: non-overlapping, from the left. *)
Fixpoint split_crlf (l : text) : list text :=
  match l with
  | [] => [[]]
  | x :: l' =>
      match x, l' with
      | 13, 10 :: l'' => [] :: split_crlf l''
      | _, _ =>
          match split_crlf l' with
          | h :: t => (x :: h) :: t
          | [] => [[x]]
          end
      end
  end.

(** [sep.join(parts)] *)
Fixpoint join (sep : text) (parts : list text) : text :=
  match parts with
  | [] => []
  | [p] => p
  | p :: ps => p ++ sep ++ join sep ps
  end.

(** ** Trimming and case *)

(** [x.lstrip(chars)], [x.rstrip(chars)], [x.strip(chars)] *)
Fixpoint lstrip (chars : text) (l : text) : text :=
  match l with
  | [] => []
  | x :: l' => if mem x chars then lstrip chars l' else l
  end.

Definition rstrip (chars l : text) : text := rev (lstrip chars (rev l)).

Definition strip (chars l : text) : text := rstrip chars (lstrip chars l).

(** [bytes.lower()]: the 26 ASCII letters only. *)
Definition lower_byte (c : Z) : Z :=
  if (65 <=? c) && (c <=? 90) then c + 32 else c.

Definition lower_bytes (l : bytes) : bytes := lower_byte <$> l.

(** [str.lower()] on the code points up to 255, which is where the program uses
    it: the ASCII letters and the Latin-1 capitals U+00C0..U+00DE but U+00D7. *)
Definition lower_char (c : Z) : Z :=
  if ((65 <=? c) && (c <=? 90)) || ((192 <=? c) && (c <=? 222) && negb (c =? 215))
  then c + 32 else c.

Definition lower (l : text) : text := lower_char <$> l.

(** ** Character classes *)

Definition is_digit (c : Z) : bool := (48 <=? c) && (c <=? 57).
Definition is_upper (c : Z) : bool := (65 <=? c) && (c <=? 90).
Definition is_lower (c : Z) : bool := (97 <=? c) && (c <=? 122).
Definition is_alpha (c : Z) : bool := is_upper c || is_lower c.
Definition is_alnum (c : Z) : bool := is_alpha c || is_digit c.
Definition is_hexdigit (c : Z) : bool :=
  is_digit c || ((65 <=? c) && (c <=? 70)) || ((97 <=? c) && (c <=? 102)).

(** [x.isascii()] *)
Definition isascii (l : text) : bool := forallb (λ c, c <? 128) l.

(** [x.isdigit()] of bytes; of an ASCII string also [x.isdecimal()]. *)
Definition isdigit (l : text) : bool :=
  match l with [] => false | _ => forallb is_digit l end.

(** ** Numbers *)

(** The character of a digit 0..15, lower case. *)
Definition digit_char (d : Z) : Z := if d <? 10 then 48 + d else 87 + d.

(** The digits of [n] in base [b], most significant first; [fuel] digits at
    most, and none for 0. *)
Fixpoint digits_fuel (fuel : nat) (b n : Z) : list Z :=
  match fuel with
  | O => []
  | S fuel => if n <=? 0 then [] else digits_fuel fuel b (n / b) ++ [n mod b]
  end.

(** A number below [2 ^ k] has at most [k] digits in any base, so its binary
    length is enough fuel ([digits_value]). *)
Definition digits (b n : Z) : list Z :=
  digits_fuel (Z.to_nat (Z.log2 n + 1)) b n.

(** [str(n)] *)
Definition str_int (n : Z) : text :=
  if n <? 0 then 45 :: (digit_char <$> digits 10 (- n))
  else if n =? 0 then [48]
  else digit_char <$> digits 10 n.

(** [f"{n:0{w}x}"] and [f"{n:0{w}d}"] for [0 <= n]. *)
Definition zfill (w : nat) (l : text) : text :=
  replicate (w - length l) 48 ++ l.

Definition fmt_hex (w : nat) (n : Z) : text :=
  zfill w (if n =? 0 then [48] else digit_char <$> digits 16 n).

Definition fmt_dec (w : nat) (n : Z) : text := zfill w (str_int n).

(** [data.hex()] *)
Definition hex (l : bytes) : text :=
  concat ((λ b, [digit_char (b / 16); digit_char (b mod 16)]) <$> l).

(** [int(x)] of ASCII decimal digits. *)
Definition int_of_digits (l : text) : Z :=
  foldl (λ acc c, acc * 10 + (c - 48)) 0 l.

(** ** Decoding *)

(** [data.decode("utf-8", "replace")]: each maximal ill-formed prefix becomes
    one U+FFFD. *)
Definition in_range (lo hi b : Z) : bool := (lo <=? b) && (b <=? hi).

Definition utf8_cont : Z → bool := in_range 0x80 0xBF.

(** The second bytes allowed after a three- or four-byte lead. *)
Definition utf8_second (b0 : Z) : Z → bool :=
  if b0 =? 0xE0 then in_range 0xA0 0xBF
  else if b0 =? 0xED then in_range 0x80 0x9F
  else if b0 =? 0xF0 then in_range 0x90 0xBF
  else if b0 =? 0xF4 then in_range 0x80 0x8F
  else utf8_cont.

Fixpoint decode_utf8_replace (l : bytes) : text :=
  match l with
  | [] => []
  | b0 :: l1 =>
      if b0 <? 0x80 then b0 :: decode_utf8_replace l1
      else if in_range 0xC2 0xDF b0 then
        match l1 with
        | b1 :: l2 =>
            if utf8_cont b1
            then ((b0 - 0xC0) * 64 + (b1 - 0x80)) :: decode_utf8_replace l2
            else 0xFFFD :: decode_utf8_replace l1
        | [] => [0xFFFD]
        end
      else if in_range 0xE0 0xEF b0 then
        match l1 with
        | b1 :: l2 =>
            if utf8_second b0 b1 then
              match l2 with
              | b2 :: l3 =>
                  if utf8_cont b2
                  then ((b0 - 0xE0) * 4096 + (b1 - 0x80) * 64 + (b2 - 0x80))
                         :: decode_utf8_replace l3
                  else 0xFFFD :: decode_utf8_replace l2
              | [] => [0xFFFD]
              end
            else 0xFFFD :: decode_utf8_replace l1
        | [] => [0xFFFD]
        end
      else if in_range 0xF0 0xF4 b0 then
        match l1 with
        | b1 :: l2 =>
            if utf8_second b0 b1 then
              match l2 with
              | b2 :: l3 =>
                  if utf8_cont b2 then
                    match l3 with
                    | b3 :: l4 =>
                        if utf8_cont b3
                        then ((b0 - 0xF0) * 262144 + (b1 - 0x80) * 4096 +
                              (b2 - 0x80) * 64 + (b3 - 0x80)) :: decode_utf8_replace l4
                        else 0xFFFD :: decode_utf8_replace l3
                    | [] => [0xFFFD]
                    end
                  else 0xFFFD :: decode_utf8_replace l2
              | [] => [0xFFFD]
              end
            else 0xFFFD :: decode_utf8_replace l1
        | [] => [0xFFFD]
        end
      else 0xFFFD :: decode_utf8_replace l1
  end.

(** [x.decode("ascii")] *)
Definition decode_ascii (l : bytes) : result text :=
  if isascii l then Ok l else Err UnicodeDecodeError.

(** [x.decode("latin-1")] *)
Definition decode_latin1 (l : bytes) : text := l.

(** [x.encode("utf-8")] on code points below 0x110000 that are no surrogates. *)
Definition encode_utf8_char (c : Z) : bytes :=
  if c <? 0x80 then [c]
  else if c <? 0x800 then [0xC0 + c / 64; 0x80 + c mod 64]
  else if c <? 0x10000 then
    [0xE0 + c / 4096; 0x80 + (c / 64) mod 64; 0x80 + c mod 64]
  else
    [0xF0 + c / 262144; 0x80 + (c / 4096) mod 64; 0x80 + (c / 64) mod 64; 0x80 + c mod 64].

Definition encode_utf8 (l : text) : bytes := concat (encode_utf8_char <$> l).

(** ** Ordering: [sorted(...)] of strings, by code points *)

Fixpoint text_leb (l k : text) : bool :=
  match l, k with
  | [], _ => true
  | _ :: _, [] => false
  | a :: l, b :: k => (a <? b) || ((a =? b) && text_leb l k)
  end.

Definition text_le (l k : text) : Prop := text_leb l k = true.

Global Instance text_le_dec : RelDecision text_le.
Proof. intros l k. unfold text_le. apply _. Defined.

Definition sorted (l : list text) : list text := merge_sort text_le l.

(** ** JSON-compatible values

    The dictionaries the report is made of; a Python dict keeps its insertion
    order, so an object is an association list. *)
Inductive json :=
  | JNull
  | JBool (b : bool)
  | JInt (n : Z)
  | JStr (s : text)
  | JList (l : list json)
  | JDict (d : list (text * json)).

(** ** Dictionaries

    A [dict] with its insertion order: assigning a present key keeps its place. *)

Fixpoint dict_set {K V} `{EqDecision K} (k : K) (v : V) (d : list (K * V)) : list (K * V) :=
  match d with
  | [] => [(k, v)]
  | (k', v') :: d => if decide (k' = k) then (k, v) :: d else (k', v') :: dict_set k v d
  end.

Fixpoint dict_get {K V} `{EqDecision K} (k : K) (d : list (K * V)) : option V :=
  match d with
  | [] => None
  | (k', v) :: d => if decide (k' = k) then Some v else dict_get k d
  end.

(** [dict(pairs)] *)
Definition dict_of {K V} `{EqDecision K} (l : list (K * V)) : list (K * V) :=
  foldl (λ d p, dict_set p.1 p.2 d) [] l.

(** [{**d, **e}] *)
Definition merge {K V} `{EqDecision K} (d e : list (K * V)) : list (K * V) :=
  foldl (λ d p, dict_set p.1 p.2 d) d e.

(** [d.pop(k, None)] *)
Definition dict_pop {K V} `{EqDecision K} (k : K) (d : list (K * V)) : list (K * V) :=
  filter (λ p, p.1 ≠ k) d.

(** ** Laws: searching *)

Lemma startswith_app p l : startswith p l = true ↔ ∃ k, l = p ++ k.
Proof.
  revert l. induction p as [|a p IH]; intros l; simpl; [by split; eauto|].
  destruct l as [|b l]; simpl; [split; [done|by intros [k [=]]]|].
  rewrite andb_true_iff, Z.eqb_eq, IH. split.
  - intros [-> [k ->]]. eauto.
  - intros [k [= -> ->]]. eauto.
Qed.

Lemma find_Some p l i :
  find_ p l = Some i → startswith p (drop i l) = true ∧ (i + length p ≤ length l)%nat.
Proof.
  revert i. induction l as [|x l IH]; intros i; simpl.
  - destruct (startswith p []) eqn:E; [|done]. intros [= <-]. split; [done|].
    apply startswith_app in E as [k E]. destruct p; [simpl; lia|done].
  - destruct (startswith p (x :: l)) eqn:E.
    + intros [= <-]. split; [done|]. apply startswith_app in E as [k E].
      apply (f_equal length) in E. rewrite length_app in E. simpl in E. lia.
    + destruct (find_ p l) as [j|] eqn:F; [|done]. intros [= <-].
      destruct (IH j eq_refl). simpl. split; [done|lia].
Qed.

Lemma find_first p l i j :
  find_ p l = Some i → (j < i)%nat → startswith p (drop j l) = false.
Proof.
  revert i j. induction l as [|x l IH]; intros i j; simpl.
  - destruct (startswith p []); [|done]. intros [= <-]. lia.
  - destruct (startswith p (x :: l)) eqn:E; [intros [= <-]; lia|].
    destruct (find_ p l) as [k|] eqn:F; [|done]. intros [= <-] Hj.
    destruct j as [|j]; [done|]. simpl. apply (IH k); [done|lia].
Qed.

Lemma find_None p l j : find_ p l = None → startswith p (drop j l) = false.
Proof.
  revert j. induction l as [|x l IH]; intros j; simpl.
  - destruct (startswith p []) eqn:E; [done|]. intros _. by rewrite drop_nil.
  - destruct (startswith p (x :: l)) eqn:E; [done|].
    destruct (find_ p l) eqn:F; [done|]. intros _. destruct j; [done|]. by apply IH.
Qed.

Lemma mem_In c l : mem c l = true ↔ c ∈ l.
Proof.
  unfold mem. rewrite existsb_exists, list_elem_of_In.
  split; [intros (x & ? & ->%Z.eqb_eq); done|eauto using Z.eqb_refl].
Qed.

Lemma partition_spec c l h s t :
  partition_ c l = (h, s, t) →
  mem c h = false ∧ l = (if s then h ++ c :: t else h) ∧ (s = false → t = []).
Proof.
  revert h s t. induction l as [|x l IH]; intros h s t; simpl.
  { intros [= <- <- <-]. done. }
  destruct (Z.eqb_spec x c) as [->|Hx].
  { intros [= <- <- <-]. done. }
  destruct (partition_ c l) as [[h' s'] t'] eqn:E. intros [= <- <- <-].
  destruct (IH h' s' t' eq_refl) as (Hm & -> & Ht). simpl.
  rewrite Hm, orb_false_r. split; [by apply Z.eqb_neq|]. split; [|done].
  by destruct s'.
Qed.

Lemma join_split c l : join [c] (split c l) = l.
Proof.
  induction l as [|x l IH]; simpl; [done|].
  assert (split c l ≠ []) as Hne.
  { destruct l as [|y l]; simpl; [done|]. destruct (y =? c); [done|]. by destruct (split c l). }
  destruct (Z.eqb_spec x c) as [->|Hx].
  - destruct (split c l) as [|h t]; [done|]. simpl in *. by rewrite IH.
  - destruct (split c l) as [|h t]; [done|]. simpl in *. destruct t; by rewrite <-IH.
Qed.

(** ** Laws: trimming *)

Lemma join_Forall {P : Z → Prop} (sep : text) ps :
  Forall P sep → Forall (Forall P) ps → Forall P (join sep ps).
Proof.
  intros Hs Hps. induction Hps as [|p ps Hp Hps IH]; [constructor|].
  destruct ps as [|q ps]; [by cbn|]. change (join sep (p :: q :: ps)) with (p ++ sep ++ join sep (q :: ps)).
  apply Forall_app. split; [done|]. by apply Forall_app.
Qed.

Lemma split_none c l : (c ∉ l) → split c l = [l].
Proof.
  induction l as [|x l IH]; simpl; [done|]. rewrite not_elem_of_cons. intros [Hx Hl].
  rewrite (proj2 (Z.eqb_neq x c)) by congruence. by rewrite IH.
Qed.

Lemma split_app c l k : (c ∉ l) → split c (l ++ c :: k) = l :: split c k.
Proof.
  induction l as [|x l IH]; simpl; [by rewrite Z.eqb_refl|].
  rewrite not_elem_of_cons. intros [Hx Hl].
  rewrite (proj2 (Z.eqb_neq x c)) by congruence. by rewrite IH.
Qed.

Lemma split_join c ps : ps ≠ [] → Forall (λ p, c ∉ p) ps → split c (join [c] ps) = ps.
Proof.
  intros Hne Hps. induction Hps as [|p ps Hp Hps IH]; [done|].
  destruct ps as [|q ps]; [by apply split_none|].
  change (join [c] (p :: q :: ps)) with (p ++ c :: join [c] (q :: ps)).
  rewrite split_app by done. by rewrite IH.
Qed.

Lemma split_pieces c l : Forall (λ p, c ∉ p) (split c l).
Proof.
  induction l as [|x l IH]; simpl; [constructor; [apply not_elem_of_nil|constructor]|].
  destruct (Z.eqb_spec x c); [constructor; [apply not_elem_of_nil|done]|].
  destruct (split c l) as [|h t]; [constructor; [set_solver|constructor]|].
  apply Forall_cons in IH as [Hh Ht]. constructor; [|done]. rewrite not_elem_of_cons. done.
Qed.

(** Lines: [split_crlf] and [join] are inverse on text free of CR and LF. *)
Lemma split_crlf_nonempty l : split_crlf l ≠ [].
Proof.
  assert (∀ n l, (length l ≤ n)%nat → split_crlf l ≠ []) as HH; [|by apply (HH (length l))].
  clear l. induction n as [|n IH]; intros [|x l] Hn; try done; simpl in Hn; [lia|].
  cbn [split_crlf]. repeat case_match; done.
Qed.

Lemma split_crlf_cases x l :
  (∃ l', x = 13 ∧ l = 10 :: l' ∧ split_crlf (x :: l) = [] :: split_crlf l') ∨
  (¬ (x = 13 ∧ ∃ l', l = 10 :: l') ∧ ∃ h t, split_crlf l = h :: t ∧ split_crlf (x :: l) = (x :: h) :: t).
Proof.
  assert ((x = 13 ∧ ∃ l', l = 10 :: l') ∨ ¬ (x = 13 ∧ ∃ l', l = 10 :: l'))
    as [(-> & l' & ->)|Hn].
  { destruct (decide (x = 13)), l as [|y l]; try naive_solver.
    destruct (decide (y = 10)) as [->|]; naive_solver. }
  - left. by exists l'.
  - right. split; [done|]. pose proof (split_crlf_nonempty l) as Hne.
    destruct (split_crlf l) as [|h t] eqn:E; [done|]. exists h, t. split; [done|].
    cbn [split_crlf]. rewrite E. repeat case_match; try done. exfalso. apply Hn. by eauto.
Qed.

Lemma join_split_crlf l : join [13; 10] (split_crlf l) = l.
Proof.
  assert (∀ n l, (length l ≤ n)%nat → join [13; 10] (split_crlf l) = l) as HH;
    [|by apply (HH (length l))].
  clear l. induction n as [|n IH]; intros [|x l] Hn; try done; simpl in Hn; [lia|].
  destruct (split_crlf_cases x l) as [(l' & -> & -> & ->)|(_ & h & t & E & ->)].
  - simpl in Hn. pose proof (split_crlf_nonempty l'). specialize (IH l' ltac:(lia)).
    destruct (split_crlf l') eqn:E'; [done|]. rewrite <-IH. reflexivity.
  - specialize (IH l ltac:(lia)). rewrite E in IH. rewrite <-IH. by destruct t.
Qed.

Lemma split_crlf_line l k :
  (13 ∉ l) → split_crlf (l ++ 13 :: 10 :: k) = l :: split_crlf k.
Proof.
  induction l as [|x l IH]; [done|]. rewrite not_elem_of_cons. intros [Hx Hl].
  change ((x :: l) ++ 13 :: 10 :: k) with (x :: (l ++ 13 :: 10 :: k)).
  destruct (split_crlf_cases x (l ++ 13 :: 10 :: k)) as [(l' & -> & _)|(_ & h & t & E & ->)]; [done|].
  rewrite IH in E by done. by injection E as <- <-.
Qed.

Lemma split_crlf_last l : (13 ∉ l) → split_crlf l = [l].
Proof.
  induction l as [|x l IH]; [done|]. rewrite not_elem_of_cons. intros [Hx Hl].
  destruct (split_crlf_cases x l) as [(l' & -> & _)|(_ & h & t & E & ->)]; [done|].
  rewrite IH in E by done. by injection E as <- <-.
Qed.

Lemma split_crlf_join ls :
  ls ≠ [] → Forall (λ l, 13 ∉ l) ls → split_crlf (join [13; 10] ls) = ls.
Proof.
  intros Hne Hls. induction Hls as [|l ls Hl Hls IH]; [done|].
  destruct ls as [|k ls]; [by apply split_crlf_last|].
  change (join [13; 10] (l :: k :: ls)) with (l ++ 13 :: 10 :: join [13; 10] (k :: ls)).
  rewrite split_crlf_line by done. by rewrite IH.
Qed.

Lemma lstrip_suffix chars l : lstrip chars l `suffix_of` l.
Proof.
  induction l as [|x l IH]; simpl; [done|].
  destruct (mem x chars); [by apply suffix_cons_r|done].
Qed.

Lemma lstrip_id chars l :
  lstrip chars l = l ↔ match l with [] => True | x :: _ => mem x chars = false end.
Proof.
  destruct l as [|x l]; simpl; [done|]. destruct (mem x chars) eqn:E; [|done].
  split; [|done]. intros H. pose proof (lstrip_suffix chars l) as HS.
  rewrite H in HS. apply suffix_length in HS. simpl in HS. lia.
Qed.

Lemma lstrip_head chars l x k : lstrip chars l = x :: k → mem x chars = false.
Proof.
  induction l as [|y l IH]; simpl; [done|].
  destruct (mem y chars) eqn:E; [done|]. by intros [= <- <-].
Qed.

Lemma lstrip_app_keep chars l k :
  lstrip chars l ≠ [] → lstrip chars (l ++ k) = lstrip chars l ++ k.
Proof.
  induction l as [|x l IH]; simpl; [done|]. destruct (mem x chars); [|done]. apply IH.
Qed.

(** [strip] takes off blanks on both sides and nothing else. *)
Lemma lstrip_split chars l :
  ∃ a, Forall (λ c, mem c chars = true) a ∧ l = a ++ lstrip chars l.
Proof.
  induction l as [|x l IH]; simpl; [by exists []|]. destruct (mem x chars) eqn:E; [|by exists []].
  destruct IH as (a & Ha & Hl). exists (x :: a). split; [by constructor|]. simpl. by rewrite <-Hl.
Qed.

Lemma lstrip_blank chars a l :
  Forall (λ c, mem c chars = true) a → lstrip chars (a ++ l) = lstrip chars l.
Proof. induction 1 as [|x a Hx Ha IH]; simpl; [done|]. by rewrite Hx. Qed.

Lemma lstrip_idem chars l : lstrip chars (lstrip chars l) = lstrip chars l.
Proof. apply lstrip_id. destruct (lstrip chars l) eqn:E; [done|]. by apply lstrip_head in E. Qed.

Lemma rstrip_split chars l :
  ∃ b, Forall (λ c, mem c chars = true) b ∧ l = rstrip chars l ++ b.
Proof.
  destruct (lstrip_split chars (rev l)) as (a & Ha & Hl). exists (rev a). split.
  { rewrite Forall_forall in *. intros c Hc. apply Ha.
    by apply list_elem_of_In, in_rev, list_elem_of_In. }
  unfold rstrip. rewrite <-rev_app_distr, <-Hl. by rewrite rev_involutive.
Qed.

Lemma strip_split chars l :
  ∃ a b, Forall (λ c, mem c chars = true) a ∧ Forall (λ c, mem c chars = true) b ∧
    l = a ++ strip chars l ++ b.
Proof.
  destruct (lstrip_split chars l) as (a & Ha & Hl).
  destruct (rstrip_split chars (lstrip chars l)) as (b & Hb & Hr).
  exists a, b. unfold strip. by rewrite <-Hr.
Qed.

Lemma strip_id chars v : strip chars v = v → lstrip chars v = v ∧ rstrip chars v = v.
Proof.
  intros Hv. assert (lstrip chars v = v) as Hl.
  { destruct (lstrip_split chars v) as (a & _ & Ha).
    destruct (rstrip_split chars (lstrip chars v)) as (b & _ & Hb).
    unfold strip in Hv. rewrite Hv in Hb.
    apply (f_equal length) in Ha as Hla. rewrite Hb, !length_app in Hla.
    destruct a; simpl in Hla; [done|lia]. }
  split; [done|]. unfold strip in Hv. by rewrite Hl in Hv.
Qed.

Lemma strip_blank chars a v b :
  Forall (λ c, mem c chars = true) a → Forall (λ c, mem c chars = true) b →
  strip chars v = v → strip chars (a ++ v ++ b) = v.
Proof.
  intros Ha Hb Hv. apply strip_id in Hv as [Hl Hr]. unfold strip. rewrite lstrip_blank by done.
  destruct v as [|x v].
  { simpl. rewrite <-(app_nil_r b), lstrip_blank by done. done. }
  rewrite lstrip_app_keep by (by rewrite Hl). rewrite Hl. unfold rstrip in *.
  rewrite rev_app_distr, lstrip_blank; [done|]. rewrite Forall_forall in *. intros c Hc.
  apply Hb. apply list_elem_of_In, in_rev. by apply list_elem_of_In.
Qed.

Lemma strip_idem chars l : strip chars (strip chars l) = strip chars l.
Proof.
  set (v := strip chars l). destruct (rstrip_split chars (lstrip chars l)) as (b & Hb & Hr).
  change (rstrip chars (lstrip chars l)) with v in Hr.
  assert (rstrip chars v = v) as Hrv.
  { unfold v, strip, rstrip. by rewrite rev_involutive, lstrip_idem. }
  unfold strip. assert (lstrip chars v = v) as ->; [|done].
  apply lstrip_id. destruct v as [|x v']; [done|].
  pose proof (lstrip_idem chars l) as HI. rewrite Hr in HI. by apply lstrip_id in HI.
Qed.

(** ** Laws: numbers *)

Lemma digits_fuel_range fuel b n d : 1 < b → d ∈ digits_fuel fuel b n → 0 ≤ d < b.
Proof.
  intros Hb. revert n. induction fuel as [|fuel IH]; intros n; simpl; [set_solver|].
  destruct (n <=? 0); [set_solver|]. rewrite elem_of_app, list_elem_of_singleton.
  intros [?| ->]; [eauto|]. apply Z.mod_pos_bound. lia.
Qed.

Lemma digits_fuel_value fuel b n :
  1 < b → 0 ≤ n < b ^ Z.of_nat fuel →
  foldl (λ acc d, acc * b + d) 0 (digits_fuel fuel b n) = n.
Proof.
  intros Hb. revert n. induction fuel as [|fuel IH]; intros n Hn.
  { change (Z.of_nat 0) with 0 in Hn. rewrite Z.pow_0_r in Hn. simpl. lia. }
  simpl. destruct (Z.leb_spec n 0); [simpl; lia|].
  rewrite foldl_app. simpl. rewrite IH.
  { pose proof (Z.div_mod n b). lia. }
  rewrite Nat2Z.inj_succ, Z.pow_succ_r in Hn by lia.
  split; [apply Z.div_pos; lia|]. apply Z.div_lt_upper_bound; lia.
Qed.

Lemma digits_value b n :
  1 < b → 0 ≤ n → foldl (λ acc d, acc * b + d) 0 (digits b n) = n.
Proof.
  intros Hb Hn. apply digits_fuel_value; [done|]. split; [done|].
  pose proof (Z.log2_nonneg n). rewrite Z2Nat.id by lia.
  apply Z.lt_le_trans with (2 ^ (Z.log2 n + 1)).
  - destruct (Z.eq_dec n 0) as [->|]; [done|].
    replace (Z.log2 n + 1) with (Z.succ (Z.log2 n)) by lia. apply Z.log2_spec. lia.
  - apply Z.pow_le_mono_l. lia.
Qed.

Lemma digits_fuel_length fuel b n w :
  1 < b → 0 ≤ n < b ^ Z.of_nat w → (length (digits_fuel fuel b n) ≤ w)%nat.
Proof.
  intros Hb. revert n w. induction fuel as [|fuel IH]; intros n w Hn; simpl; [lia|].
  destruct (Z.leb_spec n 0); [simpl; lia|].
  destruct w as [|w].
  { change (Z.of_nat 0) with 0 in Hn. rewrite Z.pow_0_r in Hn. lia. }
  rewrite length_app. simpl.
  assert (length (digits_fuel fuel b (n / b)) ≤ w)%nat; [|lia].
  apply IH. rewrite Nat2Z.inj_succ, Z.pow_succ_r in Hn by lia.
  split; [apply Z.div_pos; lia|]. apply Z.div_lt_upper_bound; lia.
Qed.

Lemma digits_nonempty b n : 0 < n → digits b n ≠ [].
Proof.
  intros Hn. unfold digits. pose proof (Z.log2_nonneg n).
  destruct (Z.to_nat (Z.log2 n + 1)) eqn:E; [lia|]. simpl.
  destruct (Z.leb_spec n 0); [lia|]. by intros [_ ?]%app_eq_nil.
Qed.

Lemma digit_char_digit d : 0 ≤ d < 10 → is_digit (digit_char d) = true.
Proof. intros. unfold digit_char, is_digit. btest; simpl; try lia; done. Qed.

Lemma digit_char_inj d d' : 0 ≤ d < 16 → 0 ≤ d' < 16 → digit_char d = digit_char d' → d = d'.
Proof. intros ??. unfold digit_char. btest; lia. Qed.

Lemma str_int_digits n c : 0 ≤ n → c ∈ str_int n → is_digit c = true.
Proof.
  intros Hn. unfold str_int. destruct (Z.ltb_spec n 0); [lia|].
  destruct (Z.eqb_spec n 0); [by intros ->%list_elem_of_singleton|].
  intros (d & -> & Hd)%list_elem_of_fmap.
  apply digit_char_digit. by eapply digits_fuel_range.
Qed.

Lemma str_int_nonempty n : str_int n ≠ [].
Proof.
  unfold str_int. destruct (Z.ltb_spec n 0); [done|].
  destruct (Z.eqb_spec n 0); [done|]. intros E%fmap_nil_inv.
  by apply digits_nonempty in E; [|lia].
Qed.

Lemma int_of_digits_chars l :
  Forall (λ d, 0 ≤ d < 10) l →
  int_of_digits (digit_char <$> l) = foldl (λ acc d, acc * 10 + d) 0 l.
Proof.
  intros Hl. unfold int_of_digits.
  assert (∀ z, foldl (λ acc c, acc * 10 + (c - 48)) z (digit_char <$> l) =
               foldl (λ acc d, acc * 10 + d) z l) as H; [|apply H].
  induction Hl as [|d l Hd Hl IH]; intros z; [done|].
  rewrite fmap_cons. simpl. rewrite IH. f_equal. unfold digit_char. btest; lia.
Qed.

(** [int(str(n)) == n] *)
Lemma int_of_str_int n : 0 ≤ n → int_of_digits (str_int n) = n.
Proof.
  intros Hn. unfold str_int. destruct (Z.ltb_spec n 0); [lia|].
  destruct (Z.eqb_spec n 0); [by subst|].
  rewrite int_of_digits_chars; [by apply digits_value|].
  apply Forall_forall. intros d Hd. by eapply digits_fuel_range.
Qed.

Lemma str_int_inj n m : 0 ≤ n → 0 ≤ m → str_int n = str_int m → n = m.
Proof. intros Hn Hm E%(f_equal int_of_digits). by rewrite !int_of_str_int in E. Qed.

Lemma length_zfill w l : (length l ≤ w)%nat → length (zfill w l) = w.
Proof. intros. unfold zfill. rewrite length_app, length_replicate. lia. Qed.

Lemma length_fmt_hex w n :
  (0 < w)%nat → 0 ≤ n < 16 ^ Z.of_nat w → length (fmt_hex w n) = w.
Proof.
  intros Hw Hn. apply length_zfill. destruct (n =? 0); [done|].
  rewrite length_fmap. by apply digits_fuel_length.
Qed.

Lemma length_fmt_dec w n :
  (0 < w)%nat → 0 ≤ n < 10 ^ Z.of_nat w → length (fmt_dec w n) = w.
Proof.
  intros Hw Hn. apply length_zfill. unfold str_int.
  destruct (Z.ltb_spec n 0); [lia|]. destruct (n =? 0); [done|].
  rewrite length_fmap. by apply digits_fuel_length.
Qed.

Lemma length_hex l : length (hex l) = (2 * length l)%nat.
Proof.
  unfold hex. induction l as [|b l IH]; [done|].
  rewrite fmap_cons. simpl. rewrite IH. lia.
Qed.

(** [data.hex()] is reversible: the report shows every captured octet. *)
Lemma hex_inj l k : bytes_ok l → bytes_ok k → hex l = hex k → l = k.
Proof.
  intros Hl. revert k. induction Hl as [|a l Ha Hl IH]; intros k Hk E.
  { destruct k; [done|]. by apply (f_equal length) in E. }
  destruct Hk as [|b k Hb Hk]; [by apply (f_equal length) in E|].
  unfold is_byte in *. unfold hex in E. rewrite !fmap_cons in E. simpl in E.
  injection E as E1 E2 E3.
  apply digit_char_inj in E1; [|split; [apply Z.div_pos|apply Z.div_lt_upper_bound]; lia..].
  apply digit_char_inj in E2; [|apply Z.mod_pos_bound; lia..].
  f_equal; [|by apply IH].
  rewrite (Z.div_mod a 16), (Z.div_mod b 16) by lia. congruence.
Qed.

(** ** Laws: sorting *)

Lemma text_leb_total l k : text_leb l k = true ∨ text_leb k l = true.
Proof.
  revert k. induction l as [|a l IH]; intros [|b k]; simpl; auto.
  destruct (Z.ltb_spec a b), (Z.ltb_spec b a), (Z.eqb_spec a b), (Z.eqb_spec b a);
    simpl; try lia; auto.
Qed.

Lemma text_leb_antisym l k : text_leb l k = true → text_leb k l = true → l = k.
Proof.
  revert k. induction l as [|a l IH]; intros [|b k]; simpl; try done.
  destruct (Z.ltb_spec a b), (Z.ltb_spec b a), (Z.eqb_spec a b), (Z.eqb_spec b a);
    simpl; try lia; try done.
  intros ??. f_equal; [done|auto].
Qed.

Lemma text_leb_trans l k m :
  text_leb l k = true → text_leb k m = true → text_leb l m = true.
Proof.
  revert k m. induction l as [|a l IH]; intros [|b k] [|c m]; simpl; try done.
  destruct (Z.ltb_spec a b), (Z.ltb_spec b c), (Z.ltb_spec a c), (Z.eqb_spec a b),
    (Z.eqb_spec b c), (Z.eqb_spec a c); simpl; try lia; try done. apply IH.
Qed.

Global Instance text_le_total : Total text_le.
Proof. intros l k. apply text_leb_total. Qed.

Global Instance text_le_trans : Transitive text_le.
Proof. intros l k m. apply text_leb_trans. Qed.

Global Instance text_le_antisym : AntiSymm (=) text_le.
Proof. intros l k. apply text_leb_antisym. Qed.

Lemma sorted_perm l : sorted l ≡ₚ l.
Proof. apply merge_sort_Permutation. Qed.

(** Sorting forgets the order and nothing else. *)
Lemma sorted_permutation l k : l ≡ₚ k → sorted l = sorted k.
Proof.
  intros H.
  apply (StronglySorted_unique text_le); [apply (StronglySorted_merge_sort text_le)..|].
  by rewrite (sorted_perm l), (sorted_perm k).
Qed.

(** ** Laws: dictionaries *)

Section dict.
Context {K V : Type} `{EqDecision K}.
Implicit Types (d : list (K * V)).

Lemma dict_get_set k k' v d :
  dict_get k' (dict_set k v d) = if decide (k = k') then Some v else dict_get k' d.
Proof.
  induction d as [|[k0 v0] d IH]; simpl; [done|].
  destruct (decide (k0 = k)) as [->|]; simpl.
  - by destruct (decide (k = k')).
  - rewrite IH. destruct (decide (k0 = k')) as [->|], (decide (k = k')); congruence.
Qed.

Lemma dict_keys_set k v d x : x ∈ (dict_set k v d).*1 ↔ x = k ∨ x ∈ d.*1.
Proof.
  induction d as [|[k0 v0] d IH]; simpl; [by rewrite list_elem_of_singleton, elem_of_nil; tauto|].
  destruct (decide (k0 = k)) as [->|Hne]; simpl; rewrite !elem_of_cons; [|rewrite IH]; tauto.
Qed.

Lemma dict_get_None k d : dict_get k d = None ↔ (k ∉ d.*1).
Proof.
  induction d as [|[k0 v0] d IH]; simpl; [split; [intros _; apply not_elem_of_nil|done]|].
  rewrite not_elem_of_cons. case_decide; [naive_solver|]. rewrite IH. naive_solver.
Qed.

Lemma dict_get_In k v d : NoDup d.*1 → (k, v) ∈ d → dict_get k d = Some v.
Proof.
  induction d as [|[k0 v0] d IH]; simpl; intros Hd Hin; [by apply elem_of_nil in Hin|].
  apply NoDup_cons in Hd as [Hk Hd]. apply elem_of_cons in Hin as [[= -> ->]|Hin].
  { by rewrite decide_True. }
  rewrite decide_False; [auto|]. intros ->. apply Hk, list_elem_of_fmap. by exists (k, v).
Qed.

Lemma dict_set_NoDup k v d : NoDup d.*1 → NoDup (dict_set k v d).*1.
Proof.
  induction d as [|[k0 v0] d IH]; simpl; intros Hd; [apply NoDup_singleton|].
  apply NoDup_cons in Hd as [Hk Hd].
  destruct (decide (k0 = k)) as [->|Hne]; simpl; constructor; auto.
  rewrite dict_keys_set. naive_solver.
Qed.

Lemma dict_of_NoDup (l : list (K * V)) : NoDup (dict_of l).*1.
Proof.
  unfold dict_of. induction l as [|p l IH] using rev_ind; [constructor|].
  rewrite foldl_app. by apply dict_set_NoDup.
Qed.

Lemma dict_of_snoc (l : list (K * V)) k v : dict_of (l ++ [(k, v)]) = dict_set k v (dict_of l).
Proof. unfold dict_of. by rewrite foldl_app. Qed.

Lemma dict_get_pop k k' d :
  dict_get k' (dict_pop k d) = if decide (k = k') then None else dict_get k' d.
Proof.
  induction d as [|[k0 v0] d IH]; simpl; [by case_decide|].
  unfold dict_pop in *. rewrite filter_cons. simpl.
  destruct (decide (k0 = k)) as [->|Hk].
  - rewrite decide_False by tauto. rewrite IH. by destruct (decide (k = k')).
  - rewrite decide_True by done. simpl. rewrite IH.
    destruct (decide (k0 = k')) as [->|]; [by rewrite decide_False|done].
Qed.

Lemma dict_pop_NoDup k d : NoDup d.*1 → NoDup (dict_pop k d).*1.
Proof.
  unfold dict_pop. induction d as [|[k0 v0] d IH]; simpl; [done|].
  intros [Hk Hd]%NoDup_cons. rewrite filter_cons. case_decide; simpl; [|auto].
  constructor; [|auto]. intros Hin. apply Hk.
  apply list_elem_of_fmap in Hin as (p & -> & [_ Hp]%list_elem_of_filter).
  by apply list_elem_of_fmap_2.
Qed.

(** A dictionary copied by [dict(d)] is itself. *)
Lemma dict_set_new k v d : (k ∉ d.*1) → dict_set k v d = d ++ [(k, v)].
Proof.
  induction d as [|[k0 v0] d IH]; simpl; [done|]. rewrite not_elem_of_cons. intros [Hk Hd].
  rewrite decide_False by congruence. by rewrite IH.
Qed.

Lemma dict_of_id d : NoDup d.*1 → dict_of d = d.
Proof.
  induction d as [|[k v] d IH] using rev_ind; [done|]. rewrite fmap_app. simpl.
  intros (Hd & Hk & _)%NoDup_app. rewrite dict_of_snoc, IH by done. apply dict_set_new.
  intros Hin. apply (Hk k Hin). set_solver.
Qed.

Lemma dict_keys_of (l : list (K * V)) k : k ∈ (dict_of l).*1 ↔ k ∈ l.*1.
Proof.
  induction l as [|[k0 v0] l IH] using rev_ind; [done|].
  rewrite dict_of_snoc, dict_keys_set, IH, fmap_app, elem_of_app. cbn [fmap list_fmap fst].
  rewrite list_elem_of_singleton. tauto.
Qed.

Lemma length_dict_set k v d :
  length (dict_set k v d) = (if decide (k ∈ d.*1) then length d else S (length d)).
Proof.
  induction d as [|[k0 v0] d IH]; cbn [dict_set fmap list_fmap fst length].
  { rewrite decide_False by apply not_elem_of_nil. done. }
  destruct (decide (k0 = k)) as [->|Hk]; cbn [length].
  { by rewrite decide_True by left. }
  rewrite IH. destruct (decide (k ∈ d.*1)); [rewrite decide_True by (by right); done|].
  rewrite decide_False; [done|]. by apply not_elem_of_cons.
Qed.

(** [len(dict(pairs)) == len(pairs)] tests that no key occurs twice. *)
Lemma length_dict_of (l : list (K * V)) :
  (length (dict_of l) ≤ length l)%nat ∧ (length (dict_of l) = length l ↔ NoDup l.*1).
Proof.
  induction l as [|[k v] l [IH1 IH2]] using rev_ind; [by split; [|split; [constructor|]]|].
  rewrite dict_of_snoc, length_dict_set, fmap_app, length_app. cbn [fmap list_fmap fst length].
  assert (NoDup (l.*1 ++ [k]) ↔ NoDup l.*1 ∧ (k ∉ l.*1)) as ->.
  { rewrite NoDup_app. split; [intros (H1 & H2 & _); split; [done|]|intros [H1 H2]; split_and!].
    - intros Hk. apply (H2 k Hk). left.
    - done.
    - intros x Hx ->%list_elem_of_singleton. done.
    - apply NoDup_singleton. }
  rewrite <-IH2, <-(dict_keys_of l k). case_decide; split; try lia; split; intros; try lia.
  - naive_solver lia.
  - split; [lia|done].
Qed.

(** [dict(pairs)[k]] is the value of the last pair with that key. *)
Lemma dict_get_of (l : list (K * V)) k :
  dict_get k (dict_of l) = snd <$> last (filter (λ p, p.1 = k) l).
Proof.
  induction l as [|[k0 v0] l IH] using rev_ind; [done|].
  rewrite dict_of_snoc, dict_get_set, filter_app, IH, filter_cons, filter_nil. simpl.
  case_decide; simpl; [by rewrite last_snoc|by rewrite app_nil_r].
Qed.
End dict.

(** ** Laws: decimal numbers *)

Lemma int_of_digits_acc acc l :
  foldl (λ acc c, acc * 10 + (c - 48)) acc l = acc * 10 ^ zlen l + int_of_digits l.
Proof.
  unfold int_of_digits. revert acc. induction l as [|c l IH]; intros acc; cbn [foldl].
  { rewrite zlen_nil. lia. }
  rewrite IH, (IH (0 * 10 + (c - 48))), zlen_cons. pose proof (zlen_nonneg l).
  rewrite Z.pow_add_r by lia. lia.
Qed.

Lemma int_of_digits_cons c l : int_of_digits (c :: l) = (c - 48) * 10 ^ zlen l + int_of_digits l.
Proof.
  unfold int_of_digits at 1. cbn [foldl]. rewrite int_of_digits_acc. lia.
Qed.

Lemma int_of_digits_nonneg l : Forall (λ c, is_digit c = true) l → 0 ≤ int_of_digits l.
Proof.
  induction 1 as [|c l Hc Hl IH]; [done|]. rewrite int_of_digits_cons.
  unfold is_digit in Hc. pose proof (Z.pow_pos_nonneg 10 (zlen l) ltac:(lia) (zlen_nonneg l)). nia.
Qed.

Lemma lstrip0_value l : int_of_digits (lstrip (u "0") l) = int_of_digits l.
Proof.
  induction l as [|c l IH]; [done|]. cbn [lstrip].
  destruct (mem c (u "0")) eqn:E; [|done].
  apply mem_In in E. change (u "0") with [48] in E. apply list_elem_of_singleton in E as ->.
  rewrite IH, int_of_digits_cons. lia.
Qed.

(** ** Laws: merging dictionaries *)

Lemma dict_get_merge {V} k (d e : list (text * V)) :
  dict_get k (foldl (λ d p, dict_set p.1 p.2 d) d e) =
    match dict_get k (reverse e) with Some v => Some v | None => dict_get k d end.
Proof.
  induction e as [|[k1 v1] e IH] using rev_ind; [done|].
  rewrite foldl_app, reverse_app. cbn [foldl fst snd reverse rev_append app dict_get].
  rewrite dict_get_set, IH. cbn. by destruct (decide (k1 = k)).
Qed.

(** ** Laws: searching in a prefix *)

Lemma startswith_prefix p a b :
  (length p ≤ length a)%nat → startswith p (a ++ b) = startswith p a.
Proof.
  revert a. induction p as [|x p IH]; intros [|y a] Hl; cbn in *; try done; [lia|].
  by rewrite IH by lia.
Qed.

Lemma find_shrink p a b i :
  find_ p (a ++ b) = Some i → (i + length p ≤ length a)%nat → find_ p a = Some i.
Proof.
  revert i. induction a as [|x a IH]; intros i Hf Hi.
  - cbn [app] in Hf. assert (i = 0%nat) as -> by (cbn in Hi; lia). destruct p; [|cbn in Hi; lia].
    by destruct b.
  - change ((x :: a) ++ b) with (x :: (a ++ b)) in Hf. cbn [find_] in *.
    change (x :: a ++ b) with ((x :: a) ++ b) in Hf.
    destruct (decide (length p ≤ length (x :: a))%nat) as [Hl|Hl].
    + rewrite startswith_prefix in Hf by done. destruct (startswith p (x :: a)); [done|].
      destruct (find_ p (a ++ b)) as [j|] eqn:E; [|done]. injection Hf as <-.
      rewrite (IH j eq_refl); [done|]. cbn in Hi. lia.
    + cbn in Hi, Hl. lia.
Qed.

Lemma find_grow p a b i : find_ p a = Some i → find_ p (a ++ b) = Some i.
Proof.
  revert i. induction a as [|x a IH]; intros i Hf.
  - cbn in Hf. destruct p; [|done]. destruct b; cbn in *; congruence.
  - destruct (find_Some _ _ _ Hf) as [_ Hl].
    change ((x :: a) ++ b) with (x :: (a ++ b)). cbn [find_] in *.
    change (x :: a ++ b) with ((x :: a) ++ b).
    rewrite startswith_prefix by lia. destruct (startswith p (x :: a)); [done|].
    destruct (find_ p a) as [j|]; [|done]. by rewrite (IH j eq_refl).
Qed.

(** A pattern that ends within the first [n] characters. *)
Lemma find_take p l i n :
  find p l = Some i → 0 ≤ n → i + zlen p ≤ n ↔ find p (take (Z.to_nat n) l) = Some i.
Proof.
  unfold find, zlen. intros Hf Hn. destruct (find_ p l) as [j|] eqn:E; [|done].
  injection Hf as <-. destruct (find_Some _ _ _ E) as [_ Hl]. split.
  - intros Hj. rewrite (find_shrink p (take (Z.to_nat n) l) (drop (Z.to_nat n) l) j); [done| |].
    + by rewrite take_drop.
    + rewrite length_take. lia.
  - destruct (find_ p (take (Z.to_nat n) l)) as [k|] eqn:Ek; [|done]. intros [= Hjk].
    destruct (find_Some _ _ _ Ek) as [_ Hk]. rewrite length_take in Hk. lia.
Qed.

Lemma find_take_None p l n : find p l = None → find p (take n l) = None.
Proof.
  unfold find. intros Hf. destruct (find_ p (take n l)) as [k|] eqn:Ek; [|done].
  apply (find_grow _ _ (drop n l)) in Ek. rewrite take_drop in Ek. by rewrite Ek in Hf.
Qed.

Lemma dict_get_elem {K V} `{EqDecision K} k (v : V) (d : list (K * V)) : dict_get k d = Some v → (k, v) ∈ d.
Proof.
  induction d as [|[k0 v0] d IH]; [done|]. cbn [dict_get].
  case_decide as Hk; [intros [= ->]; subst; by left|intros Hd; right; by apply IH].
Qed.

(** ** Laws: ASCII text *)

Definition ascii (t : text) : Prop := Forall (λ c, 0 ≤ c < 128) t.

Lemma ascii_app a b : ascii (a ++ b) ↔ ascii a ∧ ascii b.
Proof. apply Forall_app. Qed.

Lemma ascii_closed s : forallb (in_range 0 127) s = true → ascii s.
Proof.
  intros Hs. apply Forall_forall. intros c Hc. rewrite forallb_forall in Hs.
  specialize (Hs c (proj1 (list_elem_of_In _ _) Hc)). unfold in_range in Hs. lia.
Qed.

Lemma hex_ascii l : bytes_ok l → ascii (hex l).
Proof.
  induction 1 as [|b l Hb _ IH]; [constructor|]. unfold hex. rewrite fmap_cons. cbn [concat].
  apply ascii_app. split; [|exact IH]. unfold is_byte in Hb.
  assert (∀ d, 0 ≤ d < 16 → 0 ≤ digit_char d < 128) as Hd
    by (intros d Hd; unfold digit_char; destruct (d <? 10) eqn:?; lia).
  apply Forall_cons. split; [apply Hd; Z.div_mod_to_equations; lia|].
  apply Forall_cons. split; [apply Hd; Z.div_mod_to_equations; lia|constructor].
Qed.

Lemma str_int_ascii n : ascii (str_int n).
Proof.
  assert (∀ n, 0 ≤ n → ascii (str_int n)) as Hp.
  { intros m Hm. apply Forall_forall. intros c Hc. apply str_int_digits in Hc; [|done]. unfold is_digit in Hc. lia. }
  destruct (Z.ltb_spec n 0); [|by apply Hp]. replace (str_int n) with (45 :: str_int (- n)).
  - constructor; [lia|apply Hp; lia].
  - unfold str_int. replace (- n <? 0) with false by lia. replace (- n =? 0) with false by lia.
    by replace (n <? 0) with true by lia.
Qed.

(** The message of an exception that the program raises: some ASCII text. *)
Definition error_text (msg : text) : Prop := msg ≠ [] ∧ ascii msg.

Lemma error_text_closed c s : forallb (in_range 0 127) (c :: s) = true → error_text (c :: s).
Proof. intros Hs. split; [done|by apply ascii_closed]. Qed.

Lemma error_text_app a b : error_text a → ascii b → error_text (a ++ b).
Proof. intros [Hne Ha] Hb. split; [by destruct a|by apply ascii_app]. Qed.

Lemma ascii_app_2 a b : ascii a → ascii b → ascii (a ++ b).
Proof. intros. by apply ascii_app. Qed.

(** A message that is built of literals and numbers. *)
Ltac error_text :=
  repeat lazymatch goal with
    | |- error_text (_ ++ _) => apply error_text_app
    | |- error_text _ => apply error_text_closed; reflexivity
    | |- ascii (_ ++ _) => apply ascii_app_2
    | |- ascii (str_int _) => apply str_int_ascii
    | |- ascii _ => apply ascii_closed; reflexivity
    end.
