(* ===== verification/Config.v ===== *)
(** * Configuration (src/constants.py)

    The settings read from the environment when the process starts: ports, paths, the
    database and the log level, or the message with which the process refuses to start.
    [int] and the level names of [logging] are those of the standard library. *)

From S2P Require Import Prelude PyText.

(** ** [int(text)] *)

(** The zeros of the decimal digits of Unicode 15.0; the other nine follow each. *)
Definition DECIMAL_ZEROS : list Z :=
  [48; 1632; 1776; 1984; 2406; 2534; 2662; 2790; 2918; 3046; 3174; 3302; 3430; 3558; 3664; 3792;
   3872; 4160; 4240; 6112; 6160; 6470; 6608; 6784; 6800; 6992; 7088; 7232; 7248; 42528; 43216;
   43264; 43472; 43504; 43600; 44016; 65296; 66720; 68912; 69734; 69872; 69942; 70096; 70384;
   70736; 70864; 71248; 71360; 71472; 71904; 72016; 72784; 73040; 73120; 73552; 92768; 92864;
   93008; 120782; 120792; 120802; 120812; 120822; 123200; 123632; 124144; 125264; 130032].

(** The white space of Unicode beyond ASCII. *)
Definition WIDE_SPACES : list Z :=
  [133; 160; 5760; 8192; 8193; 8194; 8195; 8196; 8197; 8198; 8199; 8200; 8201; 8202; 8232; 8233;
   8239; 8287; 12288].

Definition ASCII_SPACES : text := [9; 10; 11; 12; 13; 32].

(** Digits and spaces of other scripts become those of ASCII, anything else a question
    mark. *)
Definition ascii_char (c : Z) : Z :=
  if c <? 127 then c
  else if mem c WIDE_SPACES then 32
  else
    match List.find (λ z, in_range z (z + 9) c) DECIMAL_ZEROS with
    | Some z => 48 + (c - z)
    | None => 63
    end.

(** The sign, and what follows it. *)
Definition take_sign (t : text) : Z * text :=
  match t with
  | c :: l => if c =? 43 then (1, l) else if c =? 45 then (-1, l) else (1, t)
  | [] => (1, [])
  end.

Definition MAX_STR_DIGITS : Z := 4300.

Definition digit_group (g : text) : bool := negb (bool_decide (g = [])) && forallb is_digit g.

Definition int_of_text (t : text) : result Z :=
  let '(sign, body) := take_sign (strip ASCII_SPACES (ascii_char <$> t)) in
  let groups := split 95 body in
  if forallb digit_group groups && (zlen (concat groups) <=? MAX_STR_DIGITS)
  then Ok (sign * int_of_digits (concat groups))
  else Err (ValueError (u "invalid literal for int()")).

(** ** Settings *)

Definition _parse_port (name value : text) : result Z :=
  let message := u "Cannot start solvetls: " ++ name ++ u " must be an integer between 0 and 65535." in
  match int_of_text value with
  | Ok port => if (0 <=? port) && (port <=? 65535) then Ok port else Err (SystemExit message)
  | Err e => if is_ValueError e then Err (SystemExit message) else Err e
  end.

(** [str.upper()] of the characters whose upper case is ASCII; it keeps the others, which
    no level name has. *)
Definition upper_char (c : Z) : text :=
  if is_lower c then [c - 32]
  else if c =? 0xDF then u "SS"
  else if c =? 0x131 then u "I"
  else if c =? 0x17F then u "S"
  else if c =? 0xFB00 then u "FF"
  else if c =? 0xFB01 then u "FI"
  else if c =? 0xFB02 then u "FL"
  else if c =? 0xFB03 then u "FFI"
  else if c =? 0xFB04 then u "FFL"
  else if (c =? 0xFB05) || (c =? 0xFB06) then u "ST"
  else [c].

Definition upper (t : text) : text := concat (upper_char <$> t).

(** [sorted(logging.getLevelNamesMapping())] *)
Definition LEVEL_NAMES : list text :=
  [u "CRITICAL"; u "DEBUG"; u "ERROR"; u "FATAL"; u "INFO"; u "NOTSET"; u "WARN"; u "WARNING"].

Record constants := mkConstants {
  HOST_IP : text;
  PORT : Z;
  HTTP_PORT : option Z;
  CERT_PATH : text;
  KEY_PATH : text;
  MONGODB_URL : text;
  LOG_LEVEL : text;
}.

Section environment.
Context (environ : text → option text).

Definition getenv (name fallback : text) : text := default fallback (environ name).

Definition http_port_setting : result (option Z) :=
  match getenv (u "SOLVETLS_HTTP_PORT") (u "80") with
  | [] => Ok None
  | _http_port => Some <$> _parse_port (u "SOLVETLS_HTTP_PORT") _http_port
  end.

Definition log_level : result text :=
  let level := upper (getenv (u "SOLVETLS_LOG_LEVEL") (u "INFO")) in
  if bool_decide (level ∈ LEVEL_NAMES) then Ok level
  else
    Err (SystemExit (u "Cannot start solvetls: SOLVETLS_LOG_LEVEL must be one of " ++
                     join (u ", ") LEVEL_NAMES ++ u ".")).

(** The module, from its first line to its last. *)
Definition load_constants : result constants :=
  port ← _parse_port (u "SOLVETLS_PORT") (getenv (u "SOLVETLS_PORT") (u "443"));
  http_port ← http_port_setting;
  level ← log_level;
  mret (mkConstants
    (getenv (u "SOLVETLS_HOST") (u "0.0.0.0")) port http_port
    (getenv (u "SOLVETLS_CERT") (u "certs/fullchain.pem"))
    (getenv (u "SOLVETLS_KEY") (u "certs/privkey.pem"))
    (getenv (u "SOLVETLS_MONGODB_URL") []) level).

End environment.

Example default_constants :
  load_constants (λ _, None) =
  Ok (mkConstants (u "0.0.0.0") 443 (Some 80) (u "certs/fullchain.pem") (u "certs/privkey.pem") []
        (u "INFO")).
Proof. vm_compute. reflexivity. Qed.

(** ** What is a number, and what a configuration *)

(** The sign of a number as it is written. *)
Inductive sign_text : Z → text → Prop :=
  | unsigned : sign_text 1 []
  | plus : sign_text 1 [43]
  | minus : sign_text (-1) [45].

Definition digits_text (g : text) : Prop := g ≠ [] ∧ Forall (λ c, is_digit c = true) g.

(** [t] spells [n]: white space, a sign, groups of digits with an underscore between two
    of them, white space; digits and spaces of any script. *)
Definition int_literal (t : text) (n : Z) : Prop :=
  ∃ before s sign groups after,
    ascii_char <$> t = before ++ sign ++ join [95] groups ++ after ∧
    Forall (λ c, mem c ASCII_SPACES = true) before ∧ Forall (λ c, mem c ASCII_SPACES = true) after ∧
    sign_text s sign ∧ groups ≠ [] ∧ Forall digits_text groups ∧
    zlen (concat groups) ≤ MAX_STR_DIGITS ∧ n = s * int_of_digits (concat groups).

Lemma strip_none chars v : Forall (λ c, mem c chars = false) v → strip chars v = v.
Proof.
  intros Hv. assert (∀ v, Forall (λ c, mem c chars = false) v → lstrip chars v = v) as Hl.
  { intros [|c w] Hw; [done|]. apply lstrip_id. by inversion Hw. }
  unfold strip, rstrip. rewrite (Hl v Hv), Hl, rev_involutive; [done|].
  rewrite Forall_forall in *. intros c Hc. apply Hv. by apply list_elem_of_In, in_rev, list_elem_of_In.
Qed.

Lemma digit_group_spec g : digit_group g = true ↔ digits_text g.
Proof.
  unfold digit_group, digits_text. rewrite andb_true_iff, negb_true_iff, bool_decide_eq_false, forallb_forall.
  rewrite Forall_forall. by setoid_rewrite list_elem_of_In.
Qed.

Lemma digit_groups_spec gs : forallb digit_group gs = true ↔ Forall digits_text gs.
Proof.
  rewrite forallb_forall, Forall_forall. setoid_rewrite <-list_elem_of_In.
  by setoid_rewrite digit_group_spec.
Qed.

Lemma digit_other c : is_digit c = true → c ≠ 95 ∧ c ≠ 43 ∧ c ≠ 45 ∧ mem c ASCII_SPACES = false.
Proof.
  unfold is_digit. rewrite andb_true_iff, !Z.leb_le. intros Hc. split_and!; try lia.
  apply not_true_is_false. rewrite mem_In. unfold ASCII_SPACES. set_unfold. lia.
Qed.

(** The groups of a number, one after the other. *)
Lemma groups_chars gs :
  Forall digits_text gs → Forall (λ c, is_digit c = true ∨ c = 95) (join [95] gs).
Proof.
  intros Hg. apply join_Forall; [by repeat constructor; right|].
  eapply Forall_impl; [exact Hg|]. intros g [_ Hd]. eapply Forall_impl; [exact Hd|]. auto.
Qed.

Lemma groups_head gs : gs ≠ [] → Forall digits_text gs → ∃ c l, join [95] gs = c :: l ∧ is_digit c = true.
Proof.
  destruct gs as [|g gs]; [done|]. intros _ [[Hne Hd] _]%Forall_cons.
  destruct g as [|c g]; [done|]. apply Forall_cons in Hd as [Hc _].
  destruct gs; eexists c, _; (split; [reflexivity|done]).
Qed.

(** [int] accepts exactly what spells a number, and returns it. *)
Lemma int_of_text_exact t n : int_of_text t = Ok n ↔ int_literal t n.
Proof.
  unfold int_of_text. split.
  - destruct (strip_split ASCII_SPACES (ascii_char <$> t)) as (before & after & Hb & Ha & E).
    set (core := strip _ _) in *. destruct (take_sign core) as [s body] eqn:Es.
    destruct (forallb digit_group (split 95 body)) eqn:Eg; [|done].
    destruct (Z.leb_spec (zlen (concat (split 95 body))) MAX_STR_DIGITS); [|done]. intros [= <-].
    assert (∃ sign, core = sign ++ body ∧ sign_text s sign) as (sign & Ec & Hs).
    { unfold take_sign in Es. destruct core as [|c l]; [injection Es as <- <-; eexists []; by repeat constructor|].
      destruct (Z.eqb_spec c 43) as [->|]; [injection Es as <- <-; eexists [_]; by repeat constructor|].
      destruct (Z.eqb_spec c 45) as [->|]; injection Es as <- <-; [eexists [_]|eexists []]; by repeat constructor. }
    exists before, s, sign, (split 95 body), after. rewrite join_split. split_and!; try done.
    + by rewrite E, Ec, <-!app_assoc.
    + intros Hn. apply (f_equal (join [95])) in Hn. rewrite join_split in Hn. by subst body.
    + by apply digit_groups_spec.
  - intros (before & s & sign & groups & after & E & Hb & Ha & Hs & Hne & Hg & Hlen & ->).
    set (core := sign ++ join [95] groups).
    assert (strip ASCII_SPACES (ascii_char <$> t) = core) as ->.
    { rewrite E, (app_assoc sign). apply strip_blank; [done..|]. apply strip_none, Forall_app. split.
      - destruct Hs; repeat constructor.
      - eapply Forall_impl; [by apply groups_chars|]. intros c [Hc| ->]; [by apply digit_other|done]. }
    assert (take_sign core = (s, join [95] groups)) as ->.
    { unfold core. destruct Hs; [|done..]. destruct (groups_head _ Hne Hg) as (c & l & -> & Hc). cbn.
      apply digit_other in Hc as (_ & H43 & H45 & _). by rewrite !(proj2 (Z.eqb_neq _ _)). }
    rewrite split_join; [|done|].
    2:{ eapply Forall_impl; [exact Hg|]. intros g [_ Hd] Hin. rewrite Forall_forall in Hd.
        by apply Hd, digit_other in Hin as [? _]. }
    by rewrite (proj2 (digit_groups_spec _) Hg), (proj2 (Z.leb_le _ _) Hlen).
Qed.

(** A port, as a setting spells it. *)
Definition port_setting (value : text) (port : Z) : Prop := int_literal value port ∧ 0 ≤ port ≤ 65535.

(** The constants of an environment that is accepted. *)
Definition configured (environ : text → option text) (c : constants) : Prop :=
  port_setting (getenv environ (u "SOLVETLS_PORT") (u "443")) (PORT c) ∧
  match getenv environ (u "SOLVETLS_HTTP_PORT") (u "80") with
  | [] => HTTP_PORT c = None
  | value => ∃ port, HTTP_PORT c = Some port ∧ port_setting value port
  end ∧
  LOG_LEVEL c = upper (getenv environ (u "SOLVETLS_LOG_LEVEL") (u "INFO")) ∧ LOG_LEVEL c ∈ LEVEL_NAMES ∧
  HOST_IP c = getenv environ (u "SOLVETLS_HOST") (u "0.0.0.0") ∧
  CERT_PATH c = getenv environ (u "SOLVETLS_CERT") (u "certs/fullchain.pem") ∧
  KEY_PATH c = getenv environ (u "SOLVETLS_KEY") (u "certs/privkey.pem") ∧
  MONGODB_URL c = getenv environ (u "SOLVETLS_MONGODB_URL") [].

(** The process refuses to start, with a message. *)
Definition refused (e : exn) : Prop := ∃ reason, e = SystemExit (u "Cannot start solvetls: " ++ reason).

Lemma parse_port_exact name value :
  (∀ port, _parse_port name value = Ok port ↔ port_setting value port) ∧
  (∀ e, _parse_port name value = Err e → refused e).
Proof.
  unfold _parse_port, port_setting, refused. cbv zeta. split.
  - intros port. rewrite <-int_of_text_exact. destruct (int_of_text value) as [n|e].
    + destruct (Z.leb_spec 0 n), (Z.leb_spec n 65535); cbn; naive_solver lia.
    + destruct (is_ValueError e); naive_solver.
  - assert (∀ e, int_of_text value = Err e → is_ValueError e = true) as He.
    { unfold int_of_text. destruct (take_sign _). intros e. by destruct (_ && _); [|intros [= <-]]. }
    intros e. destruct (int_of_text value) as [n|e']; [destruct (_ && _)|rewrite (He e' eq_refl)];
      [done|intros [= <-]; by eexists..].
Qed.

(** C39: the configuration. The process starts exactly with the constants that the
    environment spells: ports are numbers up to 65535, in digits of any script, an empty
    HTTP port turns the redirect off, the log level is a known name in any case; with any
    other environment it stops with a message. *)
Theorem configuration_exact environ :
  (∀ c, load_constants environ = Ok c ↔ configured environ c) ∧
  (∀ e, load_constants environ = Err e → refused e).
Proof.
  unfold load_constants. destruct (parse_port_exact (u "SOLVETLS_PORT") (getenv environ (u "SOLVETLS_PORT") (u "443")))
    as [Hp Hpe].
  assert ((∀ v, http_port_setting environ = Ok v ↔
      match getenv environ (u "SOLVETLS_HTTP_PORT") (u "80") with
      | [] => v = None
      | value => ∃ port, v = Some port ∧ port_setting value port
      end) ∧ (∀ e, http_port_setting environ = Err e → refused e)) as [Hh Hhe].
  { unfold http_port_setting. destruct (getenv environ (u "SOLVETLS_HTTP_PORT") (u "80")) as [|c t]; [naive_solver|].
    destruct (parse_port_exact (u "SOLVETLS_HTTP_PORT") (c :: t)) as [Hx Hxe].
    destruct (_parse_port _ (c :: t)) as [p|e]; cbn; [|naive_solver].
    split; [|done]. intros v. setoid_rewrite <-Hx. naive_solver. }
  assert ((∀ v, log_level environ = Ok v ↔
      v = upper (getenv environ (u "SOLVETLS_LOG_LEVEL") (u "INFO")) ∧ v ∈ LEVEL_NAMES) ∧
      (∀ e, log_level environ = Err e → refused e)) as [Hl Hle].
  { unfold log_level, refused. cbv zeta. case_bool_decide; split; [naive_solver|done|naive_solver|].
    intros e [= <-]. by eexists. }
  destruct (_parse_port _ _) as [port|e]; cbn [mbind result_bind].
  2:{ split; [|intros x [= <-]; by apply Hpe]. intros c. split; [done|]. intros [Hc%Hp _]. done. }
  destruct (http_port_setting environ) as [hp|e]; cbn [mbind result_bind].
  2:{ split; [|intros x [= <-]; by apply Hhe]. intros c. split; [done|]. by intros (_ & Hc%Hh & _). }
  destruct (log_level environ) as [level|e]; cbn [mbind result_bind].
  2:{ split; [|intros x [= <-]; by apply Hle]. intros c. split; [done|]. intros (_ & _ & E & Hin & _).
      pose proof (proj2 (Hl _) (conj E Hin)). congruence. }
  split; [|done]. intros c. unfold configured. rewrite <-Hp, <-Hh. destruct c; cbn. split.
  - intros [= <- <- <- <- <- <- <-]. destruct (proj1 (Hl level) eq_refl). by split_and!.
  - intros (E1 & E2 & E3 & E4 & -> & -> & -> & ->). pose proof (proj2 (Hl _) (conj E3 E4)) as E5.
    injection E1 as <-. injection E2 as <-. by injection E5 as <-.
Qed.
