(* ===== verification/Logs.v ===== *)
(** * The log (src/solvetls/logs.py)

    What of a client's text reaches a log line, the calls of the server's logger, and the
    lines that are written once [setup_logging] has run: the part of the standard library's
    [logging] that it configures is modelled with it.  What is logged of a request is shown
    in LogSpec.v. *)

From S2P Require Import Prelude PyText Config.

Definition MAX_LOGGED_TEXT : Z := 128.

(** One character in the codec [unicode_escape]. *)
Definition escape_char (c : Z) : text :=
  if c =? 9 then [92; 116]
  else if c =? 10 then [92; 110]
  else if c =? 13 then [92; 114]
  else if c =? 92 then [92; 92]
  else if in_range 32 126 c then [c]
  else if c <? 0x100 then [92; 120] ++ hex (be_bytes 1 c)
  else if c <? 0x10000 then [92; 117] ++ hex (be_bytes 2 c)
  else [92; 85] ++ hex (be_bytes 4 c).

Definition encode_escape (t : text) : text := concat (escape_char <$> t).

Definition loggable (value : option text) : text :=
  match value with
  | None | Some [] => u "-"
  | Some value =>
      let escaped := encode_escape (slice value 0 MAX_LOGGED_TEXT) in
      if zlen value >? MAX_LOGGED_TEXT then escaped ++ u "..." else escaped
  end.

Example loggable_sample :
  loggable (Some (u "GET\" ++ [10; 233; 8232; 128512])) = u "GET\\\n\xe9\u2028\U0001f600".
Proof. vm_compute. reflexivity. Qed.

(** ** A line of printable ASCII *)

Definition is_char (c : Z) : Prop := 0 ≤ c < 0x110000.
Definition printable (c : Z) : Prop := 32 ≤ c ≤ 126.
#[export] Instance printable_dec c : Decision (printable c) := _.

Lemma digit_char_printable d : 0 ≤ d < 16 → printable (digit_char d).
Proof. unfold digit_char, printable. destruct (Z.ltb_spec d 10); lia. Qed.

Lemma hex_printable l : bytes_ok l → Forall printable (hex l).
Proof.
  induction 1 as [|b l Hb Hl IH]; [constructor|]. unfold hex. rewrite fmap_cons. cbn. unfold is_byte in Hb.
  assert (0 ≤ b / 16 < 16 ∧ 0 ≤ b mod 16 < 16) as [??] by (Z.div_mod_to_equations; lia).
  constructor; [by apply digit_char_printable|]. constructor; [by apply digit_char_printable|exact IH].
Qed.

Lemma escape_printable c : Forall printable (escape_char c) ∧ 1 ≤ zlen (escape_char c) ≤ 10.
Proof.
  assert (∀ n x, Forall printable ([92; x] ++ hex (be_bytes n c)) ↔ printable x) as Hp.
  { intros n x. cbn. rewrite !Forall_cons. split; [tauto|]. intros Hx. split; [unfold printable; lia|].
    split; [done|]. apply hex_printable, be_bytes_ok. }
  assert (∀ n x, zlen ([92; x] ++ hex (be_bytes n c)) = 2 + 2 * Z.of_nat n) as Hl.
  { intros n x. unfold zlen. rewrite length_app, length_hex, length_be_bytes. cbn. lia. }
  assert (∀ l, bool_decide (Forall printable l ∧ 1 ≤ zlen l ≤ 10) = true →
    Forall printable l ∧ 1 ≤ zlen l ≤ 10) as Hd by (intros l; by rewrite bool_decide_eq_true).
  unfold escape_char.
  repeat lazymatch goal with |- context [if ?b then _ else _] => destruct b eqn:? end;
    rewrite ?Hp, ?Hl; try (apply Hd; reflexivity); try (unfold printable; lia).
  unfold in_range in *. split; [constructor; [unfold printable; lia|constructor]|by cbn].
Qed.

Lemma encode_escape_printable t :
  Forall printable (encode_escape t) ∧ zlen t ≤ zlen (encode_escape t) ≤ 10 * zlen t.
Proof.
  unfold encode_escape. induction t as [|c t [IHp IHl]]; [by cbn|].
  rewrite fmap_cons. cbn [concat]. destruct (escape_printable c) as [Hp Hl].
  rewrite Forall_app, zlen_app, zlen_cons. split; [done|lia].
Qed.

(** ** No two texts look the same *)

(** The codes of the characters: none is the beginning of another. *)
Inductive escaped (c : Z) : text → Prop :=
  | escaped_short k : (c, k) ∈ [(9, 116); (10, 110); (13, 114); (92, 92)] → escaped c [92; k]
  | escaped_plain : c ≠ 92 → escaped c [c]
  | escaped_hex n k :
      (n, k) ∈ [(1%nat, 120); (2%nat, 117); (4%nat, 85)] → 0 ≤ c < 256 ^ Z.of_nat n →
      escaped c ([92; k] ++ hex (be_bytes n c)).

Lemma escape_char_escaped c : is_char c → escaped c (escape_char c).
Proof.
  intros Hc. unfold is_char, escape_char in *.
  repeat lazymatch goal with |- context [if ?b then _ else _] => destruct b eqn:? end;
    try (match goal with E : (c =? _) = true |- _ =>
      apply Z.eqb_eq in E; rewrite E; apply escaped_short; set_solver end).
  - apply escaped_plain. lia.
  - apply escaped_hex; [set_solver|unfold in_range in *; lia].
  - apply escaped_hex; [set_solver|unfold in_range in *; lia].
  - apply escaped_hex; [set_solver|unfold in_range in *; lia].
Qed.

Lemma escaped_prefix c d a b s s' : escaped c a → escaped d b → a ++ s = b ++ s' → c = d ∧ s = s'.
Proof.
  intros Ha Hb E. destruct Ha as [k Hk|Hc|n k Hk Hc], Hb as [k' Hk'|Hd|n' k' Hk' Hd]; cbn in E;
    try (injection E as -> ->; done); try (injection E as E1 E2; congruence).
  all: injection E as E1 E2; try congruence.
  - subst k'. split; [|done]. set_unfold. naive_solver lia.
  - subst k'. exfalso. set_unfold. naive_solver lia.
  - subst k'. exfalso. set_unfold. naive_solver lia.
  - subst k'. assert (n = n') as <- by (clear E2; set_unfold; naive_solver lia).
    apply app_inj_1 in E2 as [Eh ->]; [|by rewrite !length_hex, !length_be_bytes].
    split; [|done]. apply hex_inj in Eh; [|apply be_bytes_ok..].
    by rewrite <-(be_val_bytes n c), <-(be_val_bytes n d), Eh.
Qed.

Lemma encode_escape_inj t t' :
  Forall is_char t → Forall is_char t' → encode_escape t = encode_escape t' → t = t'.
Proof.
  intros Ht. revert t'. unfold encode_escape.
  assert (∀ c l, concat (escape_char <$> c :: l) ≠ []) as Hne.
  { intros c l E. rewrite fmap_cons in E. cbn in E. apply app_nil in E as [E _].
    destruct (escape_printable c) as [_ Hl]. rewrite E, zlen_nil in Hl. lia. }
  induction Ht as [|c t Hc Ht IH]; intros [|c' t'] Ht' E; [done|by symmetry in E; apply Hne in E|by apply Hne in E|].
  apply Forall_cons in Ht' as [Hc' Ht']. rewrite !fmap_cons in E. cbn [concat] in E.
  apply (escaped_prefix c c') in E as [-> E]; [|by apply escape_char_escaped..]. by rewrite (IH t').
Qed.

Lemma encode_escape_app a b : encode_escape (a ++ b) = encode_escape a ++ encode_escape b.
Proof. unfold encode_escape. by rewrite fmap_app, concat_app. Qed.

(** A text too long to be logged is not one that ends in three dots. *)
Lemma dots_differ t t' :
  Forall is_char t → Forall is_char t' → zlen t' ≤ zlen t →
  encode_escape t' = encode_escape t ++ u "..." → False.
Proof.
  intros Ht Ht' Hl E. change (u "...") with (encode_escape (u "...")) in E.
  rewrite <-encode_escape_app in E. apply encode_escape_inj in E; [|done|].
  - subst t'. rewrite zlen_app in Hl. change (zlen (u "...")) with 3 in Hl. lia.
  - apply Forall_app. split; [done|]. unfold is_char. repeat constructor; lia.
Qed.

(** C25: a client cannot write into the log. What is logged of its text is one line of
    printable ASCII of a bounded length, and it is unambiguous: two texts that are logged
    alike have the same first 128 characters, and both end there or neither does. *)
Theorem loggable_safe value :
  Forall printable (loggable value) ∧
  1 ≤ zlen (loggable value) ≤ 10 * MAX_LOGGED_TEXT + 3 ∧
  ∀ t t', value = Some t → Forall is_char t → Forall is_char t' → t ≠ [] → t' ≠ [] →
    loggable value = loggable (Some t') →
    slice t 0 MAX_LOGGED_TEXT = slice t' 0 MAX_LOGGED_TEXT ∧
    (zlen t ≤ MAX_LOGGED_TEXT ↔ zlen t' ≤ MAX_LOGGED_TEXT).
Proof.
  assert (∀ t : text, zlen (slice t 0 MAX_LOGGED_TEXT) = Z.min (zlen t) MAX_LOGGED_TEXT) as Hlen.
  { intros t. change (slice t 0 MAX_LOGGED_TEXT) with (take 128 t). unfold zlen, MAX_LOGGED_TEXT. rewrite length_take. lia. }
  assert (∀ t, Forall is_char t → Forall is_char (slice t 0 MAX_LOGGED_TEXT)) as Hchar.
  { intros t Ht. by apply Forall_take. }
  assert (Forall printable (loggable value) ∧ 1 ≤ zlen (loggable value) ≤ 10 * MAX_LOGGED_TEXT + 3) as [Hp Hl].
  { destruct value as [[|c t]|]; [by apply (bool_decide_unpack _)|..|by apply (bool_decide_unpack _)].
    unfold loggable. set (v := c :: t). assert (1 ≤ zlen v) as Hv by (subst v; rewrite zlen_cons; pose proof (zlen_nonneg t); lia).
    specialize (Hlen v). destruct (encode_escape_printable (slice v 0 MAX_LOGGED_TEXT)) as [Hp Hl].
    unfold MAX_LOGGED_TEXT in *. destruct (Z.gtb_spec (zlen v) 128).
    - rewrite Forall_app, zlen_app. split; [split; [done|by apply (bool_decide_unpack _)]|change (zlen (u "...")) with 3; lia].
    - split; [done|lia]. }
  split_and!; [done|lia|lia|..]. intros t t' -> Ht Ht' Hn Hn' E.
  assert (∀ v, v ≠ [] → loggable (Some v) = encode_escape (slice v 0 MAX_LOGGED_TEXT) ++
    (if zlen v >? MAX_LOGGED_TEXT then u "..." else [])) as Heq.
  { intros [|c v] Hv; [done|]. cbn [loggable]. destruct (_ >? _); [done|by rewrite app_nil_r]. }
  rewrite !Heq in E by done. pose proof (Hlen t) as Hlt. pose proof (Hlen t') as Hlt'.
  destruct (Z.gtb_spec (zlen t) MAX_LOGGED_TEXT) as [Hgt|Hgt], (Z.gtb_spec (zlen t') MAX_LOGGED_TEXT) as [Hgt'|Hgt'].
  - apply app_inj_2 in E as [E _]; [|done]. apply encode_escape_inj in E; [|by apply Hchar..]. split; [done|lia].
  - rewrite app_nil_r in E. symmetry in E. apply dots_differ in E; [done|by apply Hchar..|lia].
  - rewrite app_nil_r in E. apply dots_differ in E; [done|by apply Hchar..|lia].
  - rewrite !app_nil_r in E. apply encode_escape_inj in E; [|by apply Hchar..]. split; [done|lia].
Qed.

(** Witness of C25: a line break in a client's text. *)
Lemma loggable_safe_witness :
  Forall printable (loggable (Some (u "a" ++ [10] ++ u "b"))) ∧
  (loggable (Some (u "a" ++ [10] ++ u "b")) = loggable (Some (u "a\nb")) → (u "a" ++ [10] ++ u "b") = u "a\nb").
Proof.
  destruct (loggable_safe (Some (u "a" ++ [10] ++ u "b"))) as (Hp & _ & Hi). split; [exact Hp|].
  intros E. apply (Hi (u "a" ++ [10] ++ u "b") (u "a\nb")); try done;
    unfold is_char; repeat constructor; lia.
Defined.

(** ** The configuration of [logging] *)

Definition INFO : Z := 20.

(** [logging._nameToLevel] *)
Definition level_numbers : list (text * Z) :=
  [(u "CRITICAL", 50); (u "FATAL", 50); (u "ERROR", 40); (u "WARN", 30); (u "WARNING", 30);
   (u "INFO", INFO); (u "DEBUG", 10); (u "NOTSET", 0)].

(** [record.connection] is set by the filter. *)
Record log_record := mkRecord {
  asctime : text;
  levelname : text;
  logger_name : text;
  message : text;
  connection : option text;
}.

(** A handler of the root logger: the one of [setup_logging], or one that was there. *)
Inductive handler := ConnectionHandler | OtherHandler (n : nat).

Record logging := mkLogging {
  root_level : Z;
  handlers : list handler;
  levels : list (text * Z);
}.

(** [ConnectionFilter.filter], where [connection_id] is the context variable's value. *)
Definition connection_filter (connection_id : text) (r : log_record) : bool * log_record :=
  (true, mkRecord (asctime r) (levelname r) (logger_name r) (message r) (Some connection_id)).

(** [LOG_FORMAT], of a record with a connection; a formatter raises [ValueError] for one
    without. *)
Definition format_record (r : log_record) : result text :=
  match connection r with
  | None => Err (ValueError (u "Formatting field not found in record: 'connection'"))
  | Some c =>
      Ok (asctime r ++ u " " ++ levelname r ++ replicate (7 - length (levelname r)) 32 ++ u " " ++
          logger_name r ++ u " [" ++ c ++ u "] " ++ message r)
  end.

(** What a handler writes to stderr; [Handler.handleError] keeps its errors. *)
Definition handle (connection_id : text) (r : log_record) (h : handler) : option text :=
  match h with
  | OtherHandler _ => None
  | ConnectionHandler =>
      let '(kept, r) := connection_filter connection_id r in
      if kept then match format_record r with Ok line => Some line | Err _ => None end else None
  end.

(** [repr] of ASCII text, which is what level names are. *)
Definition repr_char (quote c : Z) : text :=
  if (c =? quote) || (c =? 92) then [92; c]
  else if c =? 9 then [92; 116]
  else if c =? 10 then [92; 110]
  else if c =? 13 then [92; 114]
  else if in_range 32 126 c then [c]
  else [92; 120] ++ hex (be_bytes 1 c).

Definition repr (t : text) : text :=
  let quote := if mem 39 t && negb (mem 34 t) then 34 else 39 in
  [quote] ++ concat (repr_char quote <$> t) ++ [quote].

Example repr_sample : repr (u "FOO") = u "'FOO'" ∧ repr (u "it's\" ++ [7]) = [34] ++ u "it's\\\x07" ++ [34].
Proof. split; vm_compute; reflexivity. Qed.

(** [basicConfig(level=..., handlers=..., force=True)], and the level of "hpack". *)
Definition setup_logging (level : text) : M logging unit :=
  _ ← modify (λ g, mkLogging (root_level g) [ConnectionHandler] (levels g));
  match dict_get (upper level) level_numbers with
  | None => raise (ValueError (u "Unknown level: " ++ repr (upper level)))
  | Some n => modify (λ g, mkLogging n (handlers g) (dict_set (u "hpack") INFO (levels g)))
  end.

(** [Logger.getEffectiveLevel]: the level of the nearest logger at or above [name] that
    has one. *)
Definition effective_level (g : logging) (name : text) : Z :=
  let above := List.filter (λ kv, negb (kv.2 =? 0) && 
    (bool_decide (kv.1 = name) || bool_decide (kv.1 ++ u "." `prefix_of` name))) (levels g) in
  (foldr (λ kv best, if zlen kv.1 >? zlen best.1 then kv else best) ([], root_level g) above).2.

(** The lines that a call of a logger writes to stderr. *)
Definition log (g : logging) (connection_id : text) (levelno : Z) (r : log_record) : list text :=
  if effective_level g (logger_name r) <=? levelno then omap (handle connection_id r) (handlers g) else [].

(** The message of [_serve_client] for a request; the version and the milliseconds are as
    they are formatted. *)
Definition request_message (method path : option text) (version : text) (status content_length : Z)
    (elapsed : text) : text :=
  loggable method ++ u " " ++ loggable path ++ u " " ++ version ++ u " -> " ++ str_int status ++ u " " ++
  str_int content_length ++ u " bytes in " ++ elapsed ++ u " ms".

(** A call of the logger of the server: its arguments, as [logging] keeps them until a
    handler formats them. An exception is logged as [loggable(str(e))] or as [%r]. *)
Inductive logger_call :=
  | LogRequest (method path version : option text) (status content_length : Z)
  | LogInfo (what : text) (e : exn)
  | LogDebug (what : text) (e : option exn)
  | LogException (what : text).

(** [%s] of a value that may be [None]. *)
Definition str_opt (value : option text) : text := default (u "None") value.
