(* ===== verification/Wire.v ===== *)
(** * The sequential big-endian reader (src/solvetls/wire/reader.py)

    [ByteReader] is the object of the class of the same name: the buffer and the
    read position.  Every method is a computation of the monad [M ByteReader];
    [parses] and [WireFormat] are the contract that the parsers built on the
    reader (ClientHello, TLS extensions, saved SYN) are verified against. *)

From S2P Require Import Prelude.

Record ByteReader := mkByteReader { _data : bytes; _pos : Z }.

(** [ByteReader(data)] *)
Definition new_reader (data : bytes) : ByteReader := mkByteReader data 0.

Definition has_more : M ByteReader bool :=
  gets (λ r, _pos r <? zlen (_data r)).

Definition read (n : Z) : M ByteReader bytes := λ r,
  if n <? 0 then
    (Err (ValueError (u "Read length must be non-negative")), r)
  else if _pos r + n >? zlen (_data r) then
    (Err (ValueError (u "Insufficient data")), r)
  else
    (Ok (slice (_data r) (_pos r) (_pos r + n)),
     mkByteReader (_data r) (_pos r + n)).

Definition read_remaining : M ByteReader bytes := λ r,
  read (zlen (_data r) - _pos r) r.

Definition read_uint8 : M ByteReader Z :=
  b ← read 1; mret (be_val b).

Definition read_uint16 : M ByteReader Z :=
  b ← read 2; mret (be_val b).

Definition read_uint24 : M ByteReader Z :=
  b ← read 3; mret (be_val (0 :: b)).

Definition read_uint32 : M ByteReader Z :=
  b ← read 4; mret (be_val b).

Definition read_vector (length_bytes : Z) : M ByteReader bytes :=
  length ←
    (if length_bytes =? 1 then read_uint8
     else if length_bytes =? 2 then read_uint16
     else if length_bytes =? 3 then read_uint24
     else raise (ValueError (u "Invalid length_bytes")));
  read length.

(** [ByteReader(data)] used as an object of its own by another method. *)
Definition with_reader {S A} (data : bytes) (m : M ByteReader A) : M S A :=
  lift (m (new_reader data)).1.

(** [while reader.has_more(): values.append(body())], run to its end.  The fuel
    is the number of bytes of the buffer plus one: every body of the program
    reads at least one byte, so it is never exhausted ([while_more_fuel]). *)
Fixpoint while_more_fuel_ {A} (fuel : nat) (body : M ByteReader A)
    : M ByteReader (list A) :=
  match fuel with
  | O => raise OutOfFuel
  | S fuel =>
      more ← has_more;
      if more : bool then
        x ← body; xs ← while_more_fuel_ fuel body; mret (x :: xs)
      else mret []
  end.

Definition while_more {A} (body : M ByteReader A) : M ByteReader (list A) := λ r,
  while_more_fuel_ (S (length (_data r))) body r.

(** ** The contract of a parser *)

Definition reader_ok (r : ByteReader) : Prop :=
  bytes_ok (_data r) ∧ 0 ≤ _pos r ≤ zlen (_data r).

(** The bytes not read yet. *)
Definition rest (r : ByteReader) : bytes := drop (Z.to_nat (_pos r)) (_data r).

(** [r'] is [r] after exactly the bytes [bs] were read. *)
Definition consumed (r r' : ByteReader) (bs : bytes) : Prop :=
  _data r' = _data r ∧ reader_ok r' ∧ _pos r' = _pos r + zlen bs ∧
  rest r = bs ++ rest r'.

(** Completeness: wherever [bs] comes next, the parser returns [a] and reads
    exactly [bs]. *)
Definition parses {A} (m : M ByteReader A) (bs : bytes) (a : A) : Prop :=
  ∀ pre post,
    m (mkByteReader (pre ++ bs ++ post) (zlen pre)) =
      (Ok a, mkByteReader (pre ++ bs ++ post) (zlen pre + zlen bs)).

(** The same where exactly [post] follows [bs]. *)
Definition parses_at {A} (post : bytes) (m : M ByteReader A) (bs : bytes) (a : A) : Prop :=
  ∀ pre,
    m (mkByteReader (pre ++ bs ++ post) (zlen pre)) =
      (Ok a, mkByteReader (pre ++ bs ++ post) (zlen pre + zlen bs)).

(** Soundness: whatever the parser returns satisfies [wf] and the bytes it read
    are those of [enc]; an exception is a [ValueError] and moves the position
    forward at most. *)
Definition sound {A} (m : M ByteReader A) (enc : A → bytes) (wf : A → Prop) : Prop :=
  ∀ r, reader_ok r →
    match m r with
    | (Ok a, r') => wf a ∧ consumed r r' (enc a)
    | (Err e, r') => is_ValueError e = true
    end.

Class WireFormat {A} (m : M ByteReader A) (enc : A → bytes) (wf : A → Prop) := {
  wire_parses : ∀ a, wf a → parses m (enc a) a;
  wire_sound : sound m enc wf;
}.

(** ** Reading *)

Lemma read_spec n r :
  reader_ok r →
  read n r =
    if (0 <=? n) && (n <=? zlen (rest r)) then
      (Ok (take (Z.to_nat n) (rest r)), mkByteReader (_data r) (_pos r + n))
    else if n <? 0 then (Err (ValueError (u "Read length must be non-negative")), r)
    else (Err (ValueError (u "Insufficient data")), r).
Proof.
  intros [_ Hp]. unfold read, rest. rewrite zlen_drop by lia. unfold slice.
  rewrite Z.gtb_ltb. btest; try lia; try done.
  by replace (_pos r + n - _pos r) with n by lia.
Qed.

Lemma read_parses n bs : zlen bs = n → parses (read n) bs bs.
Proof.
  intros Hn pre post. unfold read; simpl.
  rewrite !zlen_app, Z.gtb_ltb.
  pose proof (zlen_nonneg bs). pose proof (zlen_nonneg post).
  btest; try lia.
  subst n. by rewrite slice_prefix.
Qed.

Lemma consumed_refl r : reader_ok r → consumed r r [].
Proof. intros. unfold consumed. rewrite add_zlen_nil. done. Qed.

Lemma consumed_trans r1 r2 r3 bs1 bs2 :
  consumed r1 r2 bs1 → consumed r2 r3 bs2 → consumed r1 r3 (bs1 ++ bs2).
Proof.
  intros (D1 & O1 & P1 & R1) (D2 & O2 & P2 & R2). unfold consumed.
  rewrite zlen_app, R1, R2, <-app_assoc. repeat split; try congruence; try apply O2; lia.
Qed.

Lemma consumed_take r n :
  reader_ok r → 0 ≤ n ≤ zlen (rest r) →
  consumed r (mkByteReader (_data r) (_pos r + n)) (take (Z.to_nat n) (rest r)).
Proof.
  intros [Hb Hp] Hn. unfold consumed, reader_ok, rest in *; simpl.
  rewrite zlen_take by done. rewrite zlen_drop in Hn by lia.
  repeat split; try done; try lia.
  rewrite <-(take_drop (Z.to_nat n) (drop (Z.to_nat (_pos r)) _)) at 1.
  rewrite drop_drop. repeat f_equal; lia.
Qed.

Lemma reader_ok_new data : bytes_ok data → reader_ok (new_reader data).
Proof. intros. split; [done|]. simpl. pose proof (zlen_nonneg data). lia. Qed.

Lemma rest_ok r : reader_ok r → bytes_ok (rest r).
Proof. intros [? _]. by apply bytes_ok_drop. Qed.

#[export] Hint Resolve reader_ok_new rest_ok consumed_refl : wire.

Lemma read_sound_at n r :
  reader_ok r →
  match read n r with
  | (Ok a, r') => zlen a = n ∧ bytes_ok a ∧ consumed r r' a
  | (Err e, r') => is_ValueError e = true
  end.
Proof.
  intros Hr. rewrite read_spec by done.
  destruct (_ && _) eqn:E; [|by destruct (n <? 0)].
  apply andb_true_iff in E as [?%Z.leb_le ?%Z.leb_le].
  rewrite zlen_take by done.
  split_and!; [done|by apply bytes_ok_take, rest_ok|by apply consumed_take].
Qed.

(** ** Combining parsers *)

Lemma parses_ret {A} (a : A) : parses (mret a) [] a.
Proof. intros pre post. simpl. by rewrite add_zlen_nil. Qed.

Lemma parses_at_bind {A B} post (m : M ByteReader A) (f : A → M ByteReader B) bs1 bs2 a b :
  parses m bs1 a → parses_at post (f a) bs2 b → parses_at post (m ≫= f) (bs1 ++ bs2) b.
Proof.
  intros Hm Hf pre. rewrite <-app_assoc.
  rewrite (bind_ok m f _ _ _ (Hm pre (bs2 ++ post))).
  specialize (Hf (pre ++ bs1)).
  rewrite <-!app_assoc, zlen_app in Hf. rewrite Hf, zlen_app. by rewrite Z.add_assoc.
Qed.

Lemma parses_bind {A B} (m : M ByteReader A) (f : A → M ByteReader B) bs1 bs2 a b :
  parses m bs1 a → parses (f a) bs2 b → parses (m ≫= f) (bs1 ++ bs2) b.
Proof.
  intros Hm Hf pre post. revert pre.
  apply parses_at_bind with a; [done|]. intros pre. apply Hf.
Qed.

Lemma parses_last {A B} (m : M ByteReader A) (f : A → M ByteReader B) bs a b :
  parses m bs a → parses (f a) [] b → parses (m ≫= f) bs b.
Proof. intros Hm Hf. rewrite <-(app_nil_r bs). by eapply parses_bind. Qed.

Lemma parses_fmap {A B} (m : M ByteReader A) (f : A → B) bs a :
  parses m bs a → parses (x ← m; mret (f x)) bs (f a).
Proof.
  intros Hm. rewrite <-(app_nil_r bs). eapply parses_bind; [done|apply parses_ret].
Qed.

Lemma parses_with_reader {A} data (m : M ByteReader A) a :
  parses m data a → parses (with_reader data m) [] a.
Proof.
  intros Hm pre post. unfold with_reader, lift, new_reader. simpl.
  specialize (Hm [] []). simpl in Hm. rewrite app_nil_r, zlen_nil in Hm.
  rewrite Hm. simpl. by rewrite add_zlen_nil.
Qed.

(** Soundness with a postcondition on the result, the bytes read and the bytes
    that are left. *)
Definition sound_post {A} (m : M ByteReader A) (Q : A → bytes → bytes → Prop) : Prop :=
  ∀ r, reader_ok r →
    match m r with
    | (Ok a, r') => ∃ bs, consumed r r' bs ∧ Q a bs (rest r')
    | (Err e, r') => is_ValueError e = true
    end.

Lemma sound_post_of {A} (m : M ByteReader A) enc wf :
  sound m enc wf → sound_post m (λ a bs _, wf a ∧ bs = enc a).
Proof.
  intros H r Hr. specialize (H r Hr). destruct (m r) as [[a|e] r']; [|done].
  destruct H. eauto.
Qed.

Lemma sound_of_post {A} (m : M ByteReader A) enc (wf : A → Prop) :
  sound_post m (λ a bs _, wf a ∧ bs = enc a) → sound m enc wf.
Proof.
  intros H r Hr. specialize (H r Hr). destruct (m r) as [[a|e] r']; [|done].
  destruct H as (bs & ? & ? & ->). done.
Qed.

Lemma sound_post_weaken {A} (m : M ByteReader A) (Q Q' : A → bytes → bytes → Prop) :
  sound_post m Q → (∀ a bs tl, Q a bs tl → Q' a bs tl) → sound_post m Q'.
Proof.
  intros H HQ r Hr. specialize (H r Hr). destruct (m r) as [[a|e] r']; [|done].
  destruct H as (bs & ? & ?). eauto.
Qed.

Lemma sound_post_ret {A} (a : A) (Q : A → bytes → bytes → Prop) :
  (∀ tl, Q a [] tl) → sound_post (mret a) Q.
Proof. intros HQ r Hr. simpl. eauto with wire. Qed.

Lemma sound_post_raise {A} msg (Q : A → bytes → bytes → Prop) :
  sound_post (raise (ValueError msg)) Q.
Proof. intros r Hr. done. Qed.

Lemma sound_post_bind {A B} (m : M ByteReader A) (f : A → M ByteReader B) R Q :
  sound_post m R →
  (∀ a bs1 tl1, R a bs1 tl1 → sound_post (f a) (λ b bs2 tl2, Q b (bs1 ++ bs2) tl2)) →
  sound_post (m ≫= f) Q.
Proof.
  intros Hm Hf r Hr. specialize (Hm r Hr). unfold mbind, M_bind.
  destruct (m r) as [[a|e] r1]; [|done].
  destruct Hm as (bs1 & C1 & HR).
  specialize (Hf a bs1 _ HR r1). destruct C1 as (? & ? & ? & ?).
  specialize (Hf ltac:(done)). destruct (f a r1) as [[b|e] r2]; [|done].
  destruct Hf as (bs2 & C2 & HQ). exists (bs1 ++ bs2). split; [|done].
  eapply consumed_trans; [|done]. done.
Qed.

Lemma read_sound_post n :
  sound_post (read n) (λ a bs _, bs = a ∧ zlen a = n ∧ bytes_ok a).
Proof.
  intros r Hr. pose proof (read_sound_at n r Hr).
  destruct (read n r) as [[a|e] r']; [|done].
  destruct H as (? & ? & ?). eauto 10.
Qed.

Lemma wire_sound_post {A} (m : M ByteReader A) enc wf :
  WireFormat m enc wf → sound_post m (λ a bs _, wf a ∧ bs = enc a).
Proof. intros. apply sound_post_of, wire_sound. Qed.

(** ** Integers *)

Lemma uint_wire (k : nat) :
  WireFormat (b ← read (Z.of_nat k); mret (be_val b)) (be_bytes k)
    (λ v, 0 ≤ v < 256 ^ Z.of_nat k).
Proof.
  split.
  - intros v Hv. rewrite <-(be_val_bytes k v) at 2 by done.
    apply parses_fmap, read_parses. by rewrite zlen_be_bytes.
  - apply sound_of_post. eapply sound_post_bind; [apply read_sound_post|].
    intros a bs tl (-> & Hl & Ha). apply sound_post_ret. intros _.
    rewrite app_nil_r, <-Hl. split; [by apply be_val_range|].
    assert (k = length a) as -> by (unfold zlen in Hl; lia).
    by rewrite be_bytes_val.
Qed.

Global Instance uint8_wire : WireFormat read_uint8 (be_bytes 1) (λ v, 0 ≤ v < 256).
Proof. exact (uint_wire 1). Qed.

Global Instance uint16_wire : WireFormat read_uint16 (be_bytes 2) (λ v, 0 ≤ v < 65536).
Proof. exact (uint_wire 2). Qed.

Global Instance uint24_wire : WireFormat read_uint24 (be_bytes 3) (λ v, 0 ≤ v < 16777216).
Proof. exact (uint_wire 3). Qed.

Global Instance uint32_wire :
  WireFormat read_uint32 (be_bytes 4) (λ v, 0 ≤ v < 4294967296).
Proof. exact (uint_wire 4). Qed.

(** ** Length-prefixed vectors *)

(** The TLS presentation of an opaque vector: a [k]-byte length, then the bytes. *)
Definition enc_vector (k : nat) (v : bytes) : bytes := be_bytes k (zlen v) ++ v.

Definition vector_ok (k : nat) (v : bytes) : Prop :=
  bytes_ok v ∧ zlen v < 256 ^ Z.of_nat k.

Global Instance vector_ok_dec k v : Decision (vector_ok k v).
Proof. unfold vector_ok. apply _. Defined.

Lemma length_then_read_wire (k : nat) (m : M ByteReader Z) :
  WireFormat m (be_bytes k) (λ v, 0 ≤ v < 256 ^ Z.of_nat k) →
  WireFormat (n ← m; read n) (enc_vector k) (vector_ok k).
Proof.
  intros [Hp Hs]. split.
  - intros v [Hv Hl]. eapply parses_bind; [|by apply read_parses].
    apply Hp. pose proof (zlen_nonneg v). lia.
  - apply sound_of_post. eapply sound_post_bind; [by apply sound_post_of|].
    intros n bs tl [Hn ->]. eapply sound_post_weaken; [apply read_sound_post|].
    intros v bs2 tl2 (-> & <- & Hv). split; [split; [done|lia]|done].
Qed.

Global Instance vector8_wire : WireFormat (read_vector 1) (enc_vector 1) (vector_ok 1).
Proof. exact (length_then_read_wire 1 read_uint8 uint8_wire). Qed.

Global Instance vector16_wire : WireFormat (read_vector 2) (enc_vector 2) (vector_ok 2).
Proof. exact (length_then_read_wire 2 read_uint16 uint16_wire). Qed.

Global Instance vector24_wire : WireFormat (read_vector 3) (enc_vector 3) (vector_ok 3).
Proof. exact (length_then_read_wire 3 read_uint24 uint24_wire). Qed.

(** ** Loops over a reader *)

Section while_more.
Context {A} (body : M ByteReader A) (enc : A → bytes) (wf : A → Prop).
Context `{HW : !WireFormat body enc wf}.
Hypothesis enc_nonempty : ∀ a, wf a → enc a ≠ [].

Lemma has_more_rest r : reader_ok r →
  has_more r = (Ok (bool_decide (rest r ≠ [])), r).
Proof.
  intros [_ Hp]. unfold has_more, gets, rest. do 2 f_equal.
  assert (drop (Z.to_nat (_pos r)) (_data r) = [] ↔ zlen (_data r) ≤ _pos r) as HE.
  { split; [intros Hd%(f_equal zlen); rewrite zlen_drop, zlen_nil in Hd; lia|].
    intros. apply drop_ge. unfold zlen in *. lia. }
  case_bool_decide as E; btest; intuition lia.
Qed.

Lemma while_more_sound_fuel fuel r :
  reader_ok r → (length (rest r) < fuel)%nat →
  match while_more_fuel_ fuel body r with
  | (Ok xs, r') => Forall wf xs ∧ consumed r r' (concat (enc <$> xs)) ∧ rest r' = []
  | (Err e, r') => is_ValueError e = true
  end.
Proof using HW enc_nonempty.
  revert r. induction fuel as [|fuel IH]; intros r Hr Hf; [lia|]. simpl.
  rewrite (bind_ok _ _ _ _ _ (has_more_rest r Hr)).
  case_bool_decide as Hm; simpl.
  2:{ split_and!; [constructor|auto with wire|done]. }
  pose proof (@wire_sound _ body enc wf HW r Hr) as Hb. unfold mbind, M_bind.
  destruct (body r) as [[x|e] r1]; [|done].
  destruct Hb as [Hx (HD & HO & HP & HR)].
  assert (length (rest r1) < fuel)%nat as Hf1.
  { pose proof (enc_nonempty x Hx). rewrite HR, length_app in Hf.
    destruct (enc x); [done|simpl in Hf; lia]. }
  specialize (IH r1 HO Hf1).
  destruct (while_more_fuel_ fuel body r1) as [[xs|e] r2]; [|done].
  destruct IH as (Hxs & HC & He). split_and!; [by constructor| |done].
  simpl. eapply consumed_trans; [|done]. done.
Qed.

(** The loop ends by itself, and what it returns is the whole rest of the
    buffer, element by element. *)
Lemma while_more_sound r :
  reader_ok r →
  match while_more body r with
  | (Ok xs, r') => Forall wf xs ∧ consumed r r' (concat (enc <$> xs)) ∧ rest r' = []
  | (Err e, r') => is_ValueError e = true
  end.
Proof using HW enc_nonempty.
  intros Hr. apply while_more_sound_fuel; [done|].
  unfold rest. rewrite length_drop. lia.
Qed.

Lemma while_more_complete_fuel fuel pre xs :
  Forall wf xs → (length xs < fuel)%nat →
  let data := pre ++ concat (enc <$> xs) in
  while_more_fuel_ fuel body (mkByteReader data (zlen pre)) =
    (Ok xs, mkByteReader data (zlen data)).
Proof using HW enc_nonempty.
  revert pre xs. induction fuel as [|fuel IH]; intros pre xs Hxs Hf; [lia|]. simpl.
  destruct Hxs as [|x xs Hx Hxs]; simpl.
  - rewrite app_nil_r. unfold mbind, M_bind, has_more, gets; simpl.
    by rewrite Z.ltb_irrefl.
  - set (tl := concat (enc <$> xs)).
    assert (0 < zlen (enc x)) as Hpos.
    { pose proof (enc_nonempty x Hx). destruct (enc x); [done|].
      rewrite zlen_cons. pose proof (zlen_nonneg l). lia. }
    unfold mbind, M_bind, has_more, gets; simpl.
    change (concat (list_fmap A (list Z) enc xs)) with tl.
    replace (zlen pre <? zlen (pre ++ enc x ++ tl)) with true.
    2:{ symmetry. apply Z.ltb_lt. rewrite !zlen_app.
        pose proof (zlen_nonneg tl). lia. }
    rewrite (@wire_parses _ body enc wf HW x Hx pre tl).
    specialize (IH (pre ++ enc x) xs Hxs ltac:(simpl in Hf; lia)). simpl in IH.
    rewrite zlen_app, <-app_assoc in IH. fold tl in IH. by rewrite IH.
Qed.

Lemma while_more_complete xs :
  Forall wf xs → parses (with_reader (concat (enc <$> xs)) (while_more body)) [] xs.
Proof using HW enc_nonempty.
  intros Hxs pre post. unfold with_reader, lift, while_more, new_reader. simpl _data.
  rewrite add_zlen_nil. f_equal.
  pose proof (while_more_complete_fuel (S (length (concat (enc <$> xs)))) [] xs Hxs) as HC.
  refine (f_equal fst (HC _)). clear -Hxs enc_nonempty.
  induction Hxs as [|x xs Hx Hxs IH]; [simpl; lia|].
  rewrite fmap_cons. simpl. rewrite length_app. pose proof (enc_nonempty x Hx).
  destruct (enc x); [done|]. simpl in *. lia.
Qed.

(** A vector whose contents are read by a loop of its own reader. *)
Definition enc_vector_of (k : nat) (xs : list A) : bytes :=
  enc_vector k (concat (enc <$> xs)).

Definition vector_of_ok (k : nat) (xs : list A) : Prop :=
  Forall wf xs ∧ vector_ok k (concat (enc <$> xs)).

Global Instance vector_of_ok_dec `{!∀ a, Decision (wf a)} k xs :
  Decision (vector_of_ok k xs).
Proof. unfold vector_of_ok. apply _. Defined.

Lemma while_more_vector_wire k (m : M ByteReader bytes) :
  WireFormat m (enc_vector k) (vector_ok k) →
  WireFormat (v ← m; with_reader v (while_more body)) (enc_vector_of k) (vector_of_ok k).
Proof using HW enc_nonempty.
  intros [Hp Hs]. split.
  - intros xs [Hxs Hv]. rewrite <-(app_nil_r (enc_vector_of k xs)).
    eapply parses_bind; [by apply Hp|by apply while_more_complete].
  - apply sound_of_post. eapply sound_post_bind; [by apply sound_post_of|].
    intros v bs tl [Hv ->] r Hr. unfold with_reader, lift.
    pose proof (while_more_sound (new_reader v) (reader_ok_new v (proj1 Hv))) as HL.
    destruct (while_more body (new_reader v)) as [[xs|e] r']; simpl; [|done].
    destruct HL as (Hxs & (_ & _ & _ & HR) & He).
    rewrite He, app_nil_r in HR. change (rest (new_reader v)) with v in HR. subst v.
    exists []. rewrite app_nil_r. split; [auto with wire|done].
Qed.
End while_more.
