(* ===== verification/TlsEnums.v ===== *)
(** * TLS identifier tables (src/solvetls/tls/enums.py)

    Each [IntEnum] class is the list of its members in source order.
    [enum_type(value).name] is the first member with that value
    (Naming.v, [enum_name]). *)

From S2P Require Import Prelude.

Definition TLSVersion : list (string * Z) := [
  ("SSL_3_0", 768);
  ("TLS_1_0", 769);
  ("TLS_1_1", 770);
  ("TLS_1_2", 771);
  ("TLS_1_3", 772)
]%string.

Definition ExtensionType : list (string * Z) := [
  ("SERVER_NAME", 0);
  ("MAX_FRAGMENT_LENGTH", 1);
  ("CLIENT_CERTIFICATE_URL", 2);
  ("TRUSTED_CA_KEYS", 3);
  ("TRUNCATED_HMAC", 4);
  ("STATUS_REQUEST", 5);
  ("USER_MAPPING", 6);
  ("CLIENT_AUTHZ", 7);
  ("SERVER_AUTHZ", 8);
  ("CERT_TYPE", 9);
  ("SUPPORTED_GROUPS", 10);
  ("EC_POINT_FORMATS", 11);
  ("SRP", 12);
  ("SIGNATURE_ALGORITHMS", 13);
  ("USE_SRTP", 14);
  ("HEARTBEAT", 15);
  ("APPLICATION_LAYER_PROTOCOL_NEGOTIATION", 16);
  ("STATUS_REQUEST_V2", 17);
  ("SIGNED_CERTIFICATE_TIMESTAMP", 18);
  ("CLIENT_CERTIFICATE_TYPE", 19);
  ("SERVER_CERTIFICATE_TYPE", 20);
  ("PADDING", 21);
  ("ENCRYPT_THEN_MAC", 22);
  ("EXTENDED_MASTER_SECRET", 23);
  ("TOKEN_BINDING", 24);
  ("CACHED_INFO", 25);
  ("TLS_LTS", 26);
  ("COMPRESS_CERTIFICATE", 27);
  ("RECORD_SIZE_LIMIT", 28);
  ("PWD_PROTECT", 29);
  ("PWD_CLEAR", 30);
  ("PASSWORD_SALT", 31);
  ("TICKET_PINNING", 32);
  ("TLS_CERT_WITH_EXTERN_PSK", 33);
  ("DELEGATED_CREDENTIAL", 34);
  ("SESSION_TICKET_TLS", 35);
  ("TLMSP", 36);
  ("TLMSP_PROXYING", 37);
  ("TLMSP_DELEGATE", 38);
  ("SUPPORTED_EKT_CIPHERS", 39);
  ("RESERVED_40", 40);
  ("PRE_SHARED_KEY", 41);
  ("EARLY_DATA", 42);
  ("SUPPORTED_VERSIONS", 43);
  ("COOKIE", 44);
  ("PSK_KEY_EXCHANGE_MODES", 45);
  ("RESERVED_46", 46);
  ("CERTIFICATE_AUTHORITIES", 47);
  ("OID_FILTERS", 48);
  ("POST_HANDSHAKE_AUTH", 49);
  ("SIGNATURE_ALGORITHMS_CERT", 50);
  ("KEY_SHARE", 51);
  ("TRANSPARENCY_INFO", 52);
  ("CONNECTION_ID_DEPRECATED", 53);
  ("CONNECTION_ID", 54);
  ("EXTERNAL_ID_HASH", 55);
  ("EXTERNAL_SESSION_ID", 56);
  ("QUIC_TRANSPORT_PARAMETERS", 57);
  ("TICKET_REQUEST", 58);
  ("DNSSEC_CHAIN", 59);
  ("SEQUENCE_NUMBER_ENCRYPTION_ALGORITHMS", 60);
  ("RRC", 61);
  ("TLS_FLAGS", 62);
  ("GREASE_0A", 2570);
  ("GREASE_1A", 6682);
  ("GREASE_2A", 10794);
  ("GREASE_3A", 14906);
  ("GREASE_4A", 19018);
  ("GREASE_5A", 23130);
  ("GREASE_6A", 27242);
  ("GREASE_7A", 31354);
  ("GREASE_8A", 35466);
  ("GREASE_9A", 39578);
  ("GREASE_AA", 43690);
  ("GREASE_BA", 47802);
  ("GREASE_CA", 51914);
  ("GREASE_DA", 56026);
  ("GREASE_EA", 60138);
  ("GREASE_FA", 64250);
  ("RENEGOTIATION_INFO", 65281);
  ("ENCRYPTED_CLIENT_HELLO", 65037);
  ("CHANNEL_ID_OLD", 30031);
  ("CHANNEL_ID_NEW", 30032);
  ("ORIGIN_BOUND_CERTS", 13175)
]%string.

Definition CipherSuite : list (string * Z) := [
  ("TLS_AES_128_GCM_SHA256", 4865);
  ("TLS_AES_256_GCM_SHA384", 4866);
  ("TLS_CHACHA20_POLY1305_SHA256", 4867);
  ("TLS_AES_128_CCM_SHA256", 4868);
  ("TLS_AES_128_CCM_8_SHA256", 4869);
  ("TLS_RSA_WITH_NULL_MD5", 1);
  ("TLS_RSA_WITH_NULL_SHA", 2);
  ("TLS_RSA_WITH_RC4_128_MD5", 4);
  ("TLS_RSA_WITH_RC4_128_SHA", 5);
  ("TLS_RSA_WITH_3DES_EDE_CBC_SHA", 10);
  ("TLS_RSA_WITH_AES_128_CBC_SHA", 47);
  ("TLS_RSA_WITH_AES_256_CBC_SHA", 53);
  ("TLS_RSA_WITH_NULL_SHA256", 59);
  ("TLS_RSA_WITH_AES_128_CBC_SHA256", 60);
  ("TLS_RSA_WITH_AES_256_CBC_SHA256", 61);
  ("TLS_RSA_WITH_AES_128_GCM_SHA256", 156);
  ("TLS_RSA_WITH_AES_256_GCM_SHA384", 157);
  ("TLS_DHE_RSA_WITH_3DES_EDE_CBC_SHA", 22);
  ("TLS_DHE_RSA_WITH_AES_128_CBC_SHA", 51);
  ("TLS_DHE_RSA_WITH_AES_256_CBC_SHA", 57);
  ("TLS_DHE_RSA_WITH_AES_128_CBC_SHA256", 103);
  ("TLS_DHE_RSA_WITH_AES_256_CBC_SHA256", 107);
  ("TLS_DHE_RSA_WITH_AES_128_GCM_SHA256", 158);
  ("TLS_DHE_RSA_WITH_AES_256_GCM_SHA384", 159);
  ("TLS_DHE_RSA_WITH_CHACHA20_POLY1305_SHA256", 52394);
  ("TLS_ECDHE_RSA_WITH_NULL_SHA", 49168);
  ("TLS_ECDHE_RSA_WITH_RC4_128_SHA", 49169);
  ("TLS_ECDHE_RSA_WITH_3DES_EDE_CBC_SHA", 49170);
  ("TLS_ECDHE_RSA_WITH_AES_128_CBC_SHA", 49171);
  ("TLS_ECDHE_RSA_WITH_AES_256_CBC_SHA", 49172);
  ("TLS_ECDHE_RSA_WITH_AES_128_CBC_SHA256", 49191);
  ("TLS_ECDHE_RSA_WITH_AES_256_CBC_SHA384", 49192);
  ("TLS_ECDHE_RSA_WITH_AES_128_GCM_SHA256", 49199);
  ("TLS_ECDHE_RSA_WITH_AES_256_GCM_SHA384", 49200);
  ("TLS_ECDHE_RSA_WITH_CHACHA20_POLY1305_SHA256", 52392);
  ("TLS_ECDHE_ECDSA_WITH_NULL_SHA", 49158);
  ("TLS_ECDHE_ECDSA_WITH_RC4_128_SHA", 49159);
  ("TLS_ECDHE_ECDSA_WITH_3DES_EDE_CBC_SHA", 49160);
  ("TLS_ECDHE_ECDSA_WITH_AES_128_CBC_SHA", 49161);
  ("TLS_ECDHE_ECDSA_WITH_AES_256_CBC_SHA", 49162);
  ("TLS_ECDHE_ECDSA_WITH_AES_128_CBC_SHA256", 49187);
  ("TLS_ECDHE_ECDSA_WITH_AES_256_CBC_SHA384", 49188);
  ("TLS_ECDHE_ECDSA_WITH_AES_128_GCM_SHA256", 49195);
  ("TLS_ECDHE_ECDSA_WITH_AES_256_GCM_SHA384", 49196);
  ("TLS_ECDHE_ECDSA_WITH_CHACHA20_POLY1305_SHA256", 52393);
  ("TLS_PSK_WITH_AES_128_CBC_SHA", 140);
  ("TLS_PSK_WITH_AES_256_CBC_SHA", 141);
  ("TLS_PSK_WITH_AES_128_GCM_SHA256", 168);
  ("TLS_PSK_WITH_AES_256_GCM_SHA384", 169);
  ("TLS_PSK_WITH_CHACHA20_POLY1305_SHA256", 52395);
  ("TLS_ECDHE_PSK_WITH_AES_128_CBC_SHA", 49205);
  ("TLS_ECDHE_PSK_WITH_AES_256_CBC_SHA", 49206);
  ("TLS_ECDHE_PSK_WITH_AES_128_CBC_SHA256", 49207);
  ("TLS_ECDHE_PSK_WITH_AES_256_CBC_SHA384", 49208);
  ("TLS_ECDHE_PSK_WITH_CHACHA20_POLY1305_SHA256", 52396);
  ("TLS_ECDHE_PSK_WITH_AES_128_GCM_SHA256", 53249);
  ("TLS_ECDHE_PSK_WITH_AES_256_GCM_SHA384", 53250);
  ("TLS_DH_anon_WITH_RC4_128_MD5", 24);
  ("TLS_DH_anon_WITH_3DES_EDE_CBC_SHA", 27);
  ("TLS_DH_anon_WITH_AES_128_CBC_SHA", 52);
  ("TLS_DH_anon_WITH_AES_256_CBC_SHA", 58);
  ("TLS_RSA_WITH_CAMELLIA_128_CBC_SHA", 65);
  ("TLS_RSA_WITH_CAMELLIA_256_CBC_SHA", 132);
  ("TLS_ECDHE_RSA_WITH_CAMELLIA_128_GCM_SHA256", 49290);
  ("TLS_ECDHE_RSA_WITH_CAMELLIA_256_GCM_SHA384", 49291);
  ("TLS_RSA_WITH_ARIA_128_CBC_SHA256", 49212);
  ("TLS_RSA_WITH_ARIA_256_CBC_SHA384", 49213);
  ("TLS_ECDHE_RSA_WITH_ARIA_128_GCM_SHA256", 49248);
  ("TLS_ECDHE_RSA_WITH_ARIA_256_GCM_SHA384", 49249);
  ("TLS_EMPTY_RENEGOTIATION_INFO_SCSV", 255);
  ("TLS_FALLBACK_SCSV", 22016)
]%string.

Definition NamedGroup : list (string * Z) := [
  ("SECT163K1", 1);
  ("SECT163R1", 2);
  ("SECT163R2", 3);
  ("SECT193R1", 4);
  ("SECT193R2", 5);
  ("SECT233K1", 6);
  ("SECT233R1", 7);
  ("SECT239K1", 8);
  ("SECT283K1", 9);
  ("SECT283R1", 10);
  ("SECT409K1", 11);
  ("SECT409R1", 12);
  ("SECT571K1", 13);
  ("SECT571R1", 14);
  ("SECP160K1", 15);
  ("SECP160R1", 16);
  ("SECP160R2", 17);
  ("SECP192K1", 18);
  ("SECP192R1", 19);
  ("SECP224K1", 20);
  ("SECP224R1", 21);
  ("SECP256K1", 22);
  ("SECP256R1", 23);
  ("SECP384R1", 24);
  ("SECP521R1", 25);
  ("BRAINPOOLP256R1", 26);
  ("BRAINPOOLP384R1", 27);
  ("BRAINPOOLP512R1", 28);
  ("X25519", 29);
  ("X448", 30);
  ("BRAINPOOLP256R1TLS13", 31);
  ("BRAINPOOLP384R1TLS13", 32);
  ("BRAINPOOLP512R1TLS13", 33);
  ("GC256A", 34);
  ("GC256B", 35);
  ("GC256C", 36);
  ("GC256D", 37);
  ("GC512A", 38);
  ("GC512B", 39);
  ("GC512C", 40);
  ("CURVESM2", 41);
  ("FFDHE2048", 256);
  ("FFDHE3072", 257);
  ("FFDHE4096", 258);
  ("FFDHE6144", 259);
  ("FFDHE8192", 260);
  ("MLKEM512", 512);
  ("MLKEM768", 513);
  ("MLKEM1024", 514);
  ("SECP256R1MLKEM768", 4587);
  ("X25519MLKEM768", 4588);
  ("SECP384R1MLKEM1024", 4589);
  ("X25519KYBER768DRAFT00", 25497);
  ("ARBITRARY_EXPLICIT_PRIME_CURVES", 65281);
  ("ARBITRARY_EXPLICIT_CHAR2_CURVES", 65282)
]%string.

Definition SignatureScheme : list (string * Z) := [
  ("RSA_PKCS1_MD5", 257);
  ("DSA_MD5", 258);
  ("ECDSA_MD5", 259);
  ("RSA_PKCS1_SHA1", 513);
  ("DSA_SHA1", 514);
  ("ECDSA_SHA1", 515);
  ("RSA_PKCS1_SHA224", 769);
  ("DSA_SHA224", 770);
  ("ECDSA_SHA224", 771);
  ("DSA_SHA256", 1026);
  ("DSA_SHA384", 1282);
  ("DSA_SHA512", 1538);
  ("RSA_PKCS1_SHA256", 1025);
  ("ECDSA_SECP256R1_SHA256", 1027);
  ("RSA_PKCS1_SHA384", 1281);
  ("ECDSA_SECP384R1_SHA384", 1283);
  ("RSA_PKCS1_SHA512", 1537);
  ("ECDSA_SECP521R1_SHA512", 1539);
  ("RSA_PSS_RSAE_SHA256", 2052);
  ("RSA_PSS_RSAE_SHA384", 2053);
  ("RSA_PSS_RSAE_SHA512", 2054);
  ("ED25519", 2055);
  ("ED448", 2056);
  ("RSA_PSS_PSS_SHA256", 2057);
  ("RSA_PSS_PSS_SHA384", 2058);
  ("RSA_PSS_PSS_SHA512", 2059);
  ("ECDSA_BRAINPOOLP256R1TLS13_SHA256", 2074);
  ("ECDSA_BRAINPOOLP384R1TLS13_SHA384", 2075);
  ("ECDSA_BRAINPOOLP512R1TLS13_SHA512", 2076);
  ("SM2SIG_SM3", 1800);
  ("GOSTR34102012_256A", 1801);
  ("GOSTR34102012_256B", 1802);
  ("GOSTR34102012_256C", 1803);
  ("GOSTR34102012_256D", 1804);
  ("GOSTR34102012_512A", 1805);
  ("GOSTR34102012_512B", 1806);
  ("GOSTR34102012_512C", 1807);
  ("RSA_PKCS1_SHA256_LEGACY", 1056);
  ("RSA_PKCS1_SHA384_LEGACY", 1312);
  ("RSA_PKCS1_SHA512_LEGACY", 1568)
]%string.

Definition ECPointFormat : list (string * Z) := [
  ("UNCOMPRESSED", 0);
  ("ANSIX962_COMPRESSED_PRIME", 1);
  ("ANSIX962_COMPRESSED_CHAR2", 2)
]%string.

Definition PskKeyExchangeMode : list (string * Z) := [
  ("PSK_KE", 0);
  ("PSK_DHE_KE", 1)
]%string.

Definition CertificateCompressionAlgorithm : list (string * Z) := [
  ("ZLIB", 1);
  ("BROTLI", 2);
  ("ZSTD", 3)
]%string.

Definition ServerNameType : list (string * Z) := [
  ("HOST_NAME", 0)
]%string.

