(* ===== verification/Naming.v ===== *)
(** * Naming wire values (src/solvetls/wire/naming.py)

    [describe] pairs a raw value with its name and marks the GREASE identifiers
    of RFC 8701. *)

From S2P Require Import Prelude PyText TlsEnums.

Definition GREASE_VALUES : list Z :=
  (λ i, Z.lor (Z.lor (Z.lor (Z.shiftl i 12) 0x0A00) (Z.shiftl i 4)) 0x0A) <$> seqZ 0 16.

(** [value in GREASE_VALUES] *)
Definition is_grease (value : Z) : bool := mem value GREASE_VALUES.

(** [EnumType.NAME] *)
Definition member (e : list (string * Z)) (n : string) : Z :=
  match List.find (λ m, String.eqb m.1 n) e with Some m => m.2 | None => -1 end.

Definition enum_name (value : Z) (enum_type : list (string * Z)) : option text :=
  match List.find (λ m, m.2 =? value) enum_type with
  | Some m => Some (u m.1)
  | None => None
  end.

Definition json_opt_str (o : option text) : json :=
  match o with Some s => JStr s | None => JNull end.

Definition describe (value : Z) (enum_type : option (list (string * Z)))
    : list (text * json) :=
  [(u "value", JInt value);
   (u "hex", JStr (u "0x" ++ fmt_hex 4 value));
   (u "name", match enum_type with
              | Some e => json_opt_str (enum_name value e)
              | None => JNull
              end)] ++
  (if is_grease value then [(u "grease", JBool true)] else []).

(** The identifiers of an enum are pairwise distinct, so no member is an alias
    and [enum_name] returns the name written beside the value. *)
Definition enum_distinct (e : list (string * Z)) : Prop := NoDup e.*2.

(** ** Laws *)

Lemma find_distinct (e : list (string * Z)) n v :
  NoDup e.*2 → (n, v) ∈ e → List.find (λ m, m.2 =? v) e = Some (n, v).
Proof.
  induction e as [|[n' v'] e IH]; intros Hd Hin; [by apply elem_of_nil in Hin|].
  apply NoDup_cons in Hd as [Hv Hd]. simpl.
  apply elem_of_cons in Hin as [[= -> ->]|Hin]; [by rewrite Z.eqb_refl|].
  destruct (Z.eqb_spec v' v) as [->|]; [|auto].
  exfalso. apply Hv, list_elem_of_fmap. by exists (n, v).
Qed.

Lemma enum_tables_distinct :
  Forall enum_distinct
    [TLSVersion; ExtensionType; CipherSuite; NamedGroup; SignatureScheme;
     ECPointFormat; PskKeyExchangeMode; CertificateCompressionAlgorithm; ServerNameType].
Proof. unfold enum_distinct. by_eval. Qed.

Lemma is_grease_In v : is_grease v = true ↔ v ∈ GREASE_VALUES.
Proof. apply mem_In. Qed.

Lemma grease_values_eq : GREASE_VALUES = (λ i, 4112 * i + 2570) <$> seqZ 0 16.
Proof. reflexivity. Qed.

Lemma grease_pattern v :
  0 ≤ v < 65536 →
  v ∈ GREASE_VALUES ↔ v / 256 = v mod 256 ∧ v mod 16 = 10.
Proof.
  intros Hv. rewrite grease_values_eq, list_elem_of_fmap. split.
  - intros (i & -> & Hi%elem_of_seqZ).
    rewrite Zmod_eq by lia.
    replace (4112 * i + 2570) with ((16 * i + 10) * 256 + (16 * i + 10)) by lia.
    rewrite Z.div_add_l by lia. rewrite (Z.div_small (16 * i + 10)) by lia.
    split; [lia|]. symmetry. apply Z.mod_unique with (257 * i + 160); lia.
  - intros [H1 H2]. exists (v / 4096). rewrite elem_of_seqZ.
    pose proof (Z.div_mod v 256). pose proof (Z.div_mod v 16).
    pose proof (Z.div_mod v 4096). pose proof (Z.mod_pos_bound v 256).
    pose proof (Z.mod_pos_bound v 4096). lia.
Qed.

(** ** Properties *)

(** The GREASE set is exactly the RFC 8701 pattern: on 16-bit identifiers
    [is_grease] holds when both bytes are equal and end in the nibble 0xA, and
    each such value has its own GREASE name in the extension table. *)
Theorem grease_values_rfc8701 v :
  0 ≤ v < 65536 →
  is_grease v = ((v / 256 =? v mod 256) && (v mod 16 =? 10)) ∧
  (is_grease v = true → ∃ n, enum_name v ExtensionType = Some (u "GREASE_" ++ n)).
Proof.
  intros Hv. split.
  - apply eq_bool_prop_intro. rewrite !Is_true_true, andb_true_iff, !Z.eqb_eq.
    rewrite is_grease_In. apply grease_pattern, Hv.
  - assert (Forall (λ v, enum_name v ExtensionType =
               Some (u "GREASE_" ++ drop 7 (default [] (enum_name v ExtensionType))))
              GREASE_VALUES) as H by by_eval.
    rewrite Forall_forall in H. intros Hg%is_grease_In. eauto.
Qed.

(** A concrete input for [grease_values_rfc8701]: 0x3a3a. *)
Lemma grease_values_rfc8701_witness :
  is_grease 0x3a3a = true ∧
  ∃ n, enum_name 0x3a3a ExtensionType = Some (u "GREASE_" ++ n).
Proof.
  split; [reflexivity|].
  apply (grease_values_rfc8701 0x3a3a); [lia|reflexivity].
Defined.

(** Naming is faithful.  For every member of every TLS table the report shows
    the name the source writes beside the value, and a value of no member is
    reported without a name. *)
Theorem describe_names e n v :
  e ∈ [TLSVersion; ExtensionType; CipherSuite; NamedGroup; SignatureScheme;
       ECPointFormat; PskKeyExchangeMode; CertificateCompressionAlgorithm;
       ServerNameType] →
  ((n, v) ∈ e → enum_name v e = Some (u n)) ∧
  (v ∉ e.*2 → enum_name v e = None ∧ (u "name", JNull) ∈ describe v (Some e)).
Proof.
  intros He. pose proof enum_tables_distinct as Hd. rewrite Forall_forall in Hd.
  specialize (Hd e He). unfold enum_distinct in Hd.
  split; [intros Hin; unfold enum_name; by rewrite (find_distinct _ n v)|].
  intros Hv. assert (enum_name v e = None) as HN.
  { unfold enum_name. destruct (List.find _ e) as [m|] eqn:F; [|done].
    apply find_some in F as [F1 F2%Z.eqb_eq]. exfalso. apply Hv, list_elem_of_fmap.
    exists m. split; [done|]. by apply list_elem_of_In. }
  split; [done|]. unfold describe. rewrite HN. do 2 right. left.
Qed.

(** A concrete input for [describe_names]. *)
Lemma describe_names_witness :
  enum_name 4865 CipherSuite = Some (u "TLS_AES_128_GCM_SHA256").
Proof.
  apply (describe_names CipherSuite "TLS_AES_128_GCM_SHA256" 4865).
  - by_eval.
  - by_eval.
Defined.
