(* ===== verification/ClientHello.v ===== *)
(** * ClientHello capture (src/solvetls/tls/clienthello.py)

    The observational parser that runs before OpenSSL sees the handshake, and
    the TLS presentation of the message it is checked against. *)

From S2P Require Import Prelude Wire.

Record Extension := mkExtension { ext_type : Z; ext_data : bytes }.

Record ClientHello := mkClientHello {
  version : Z;
  random : bytes;
  session_id : bytes;
  cipher_suites : list Z;
  compression_methods : list Z;
  extensions : list Extension;
}.

(** The body of the loop over the extension block. *)
Definition read_extension : M ByteReader Extension :=
  t ← read_uint16; d ← read_vector 2; mret (mkExtension t d).

(** [if self.has_more(): ...] *)
Definition read_extensions : M ByteReader (list Extension) :=
  more ← has_more;
  if more : bool then
    v ← read_vector 2; with_reader v (while_more read_extension)
  else mret [].

Definition read_cipher_suites : M ByteReader (list Z) :=
  v ← read_vector 2; with_reader v (while_more read_uint16).

(** [ClientHelloReader.parse] *)
Definition parse : M ByteReader ClientHello :=
  client_version ← read_uint16;
  random ← read 32;
  session_id ← read_vector 1;
  cipher_suites ← read_cipher_suites;
  compression_methods ← read_vector 1;
  extensions ← read_extensions;
  mret (mkClientHello client_version random session_id cipher_suites
          compression_methods extensions).

(** [ClientHelloReader(body).parse()] *)
Definition parse_client_hello (body : bytes) : result ClientHello :=
  (parse (new_reader body)).1.

(** ** The wire format (RFC 8446, 4.1.2) *)

Definition enc_extension (e : Extension) : bytes :=
  be_bytes 2 (ext_type e) ++ enc_vector 2 (ext_data e).

Definition extension_ok (e : Extension) : Prop :=
  0 ≤ ext_type e < 65536 ∧ vector_ok 2 (ext_data e).

Global Instance extension_ok_dec e : Decision (extension_ok e).
Proof. unfold extension_ok. apply _. Defined.

Definition enc_extensions (l : list Extension) : bytes :=
  enc_vector_of enc_extension 2 l.

(** Everything before the extension block. *)
Definition enc_fixed (ch : ClientHello) (tl : bytes) : bytes :=
  be_bytes 2 (version ch) ++ random ch ++ enc_vector 1 (session_id ch) ++
  enc_vector_of (be_bytes 2) 2 (cipher_suites ch) ++
  enc_vector 1 (compression_methods ch) ++ tl.

Definition client_hello_ok (ch : ClientHello) : Prop :=
  0 ≤ version ch < 65536 ∧
  (zlen (random ch) = 32 ∧ bytes_ok (random ch)) ∧
  vector_ok 1 (session_id ch) ∧
  vector_of_ok (be_bytes 2) (λ v, 0 ≤ v < 65536) 2 (cipher_suites ch) ∧
  vector_ok 1 (compression_methods ch) ∧
  vector_of_ok enc_extension extension_ok 2 (extensions ch).

Global Instance client_hello_ok_dec ch : Decision (client_hello_ok ch).
Proof. unfold client_hello_ok. apply _. Defined.

(** ** The parser against the format *)

Global Instance extension_wire : WireFormat read_extension enc_extension extension_ok.
Proof.
  split.
  - intros [t d] [Ht Hd]. eapply parses_bind; [by apply uint16_wire|].
    apply (parses_fmap (read_vector 2) (mkExtension t)), vector16_wire, Hd.
  - apply sound_of_post.
    eapply sound_post_bind; [apply wire_sound_post, _|]. intros t bs1 _ [Ht ->].
    eapply sound_post_bind; [apply wire_sound_post, _|]. intros d bs2 _ [Hd ->].
    apply sound_post_ret. intros _. rewrite app_nil_r. done.
Qed.

Lemma be_bytes_nonempty k v : be_bytes (S k) v ≠ [].
Proof. intros E%(f_equal length). by rewrite length_be_bytes in E. Qed.

Lemma enc_extension_nonempty e : extension_ok e → enc_extension e ≠ [].
Proof.
  intros _ [E _]%app_eq_nil. by apply be_bytes_nonempty in E.
Qed.

Global Instance cipher_suites_wire :
  WireFormat read_cipher_suites (enc_vector_of (be_bytes 2) 2)
    (vector_of_ok (be_bytes 2) (λ v, 0 ≤ v < 65536) 2).
Proof.
  apply while_more_vector_wire; [apply _| |apply _].
  intros v _. apply be_bytes_nonempty.
Qed.

Lemma extension_block_wire :
  WireFormat (v ← read_vector 2; with_reader v (while_more read_extension))
    enc_extensions (vector_of_ok enc_extension extension_ok 2).
Proof.
  apply while_more_vector_wire; [apply _|apply enc_extension_nonempty|apply _].
Qed.

Lemma enc_extensions_pos l : 0 < zlen (enc_extensions l).
Proof.
  unfold enc_extensions, enc_vector_of, enc_vector.
  rewrite zlen_app, zlen_be_bytes. pose proof (zlen_nonneg (concat (enc_extension <$> l))). lia.
Qed.

Lemma read_extensions_parses l :
  vector_of_ok enc_extension extension_ok 2 l →
  parses read_extensions (enc_extensions l) l.
Proof.
  intros Hl pre post. unfold read_extensions, has_more, gets, mbind at 1, M_bind at 1.
  cbn [_data _pos]. rewrite !zlen_app.
  pose proof (enc_extensions_pos l). pose proof (zlen_nonneg post).
  btest; [|lia]. apply extension_block_wire, Hl.
Qed.

Lemma read_extensions_absent : parses_at [] read_extensions [] [].
Proof.
  intros pre. unfold read_extensions, has_more, gets, mbind, M_bind. simpl.
  rewrite app_nil_r, add_zlen_nil, Z.ltb_irrefl. done.
Qed.

Lemma parse_fixed_parses ch post tl :
  client_hello_ok ch → parses_at post read_extensions tl (extensions ch) →
  parses_at post parse (enc_fixed ch tl) ch.
Proof.
  intros (Hv & [Hr1 Hr2] & Hs & Hc & Hm & _) Htl. unfold parse, enc_fixed.
  eapply parses_at_bind; [by apply uint16_wire|].
  eapply parses_at_bind; [by apply read_parses|].
  eapply parses_at_bind; [by apply vector8_wire|].
  eapply parses_at_bind; [by apply cipher_suites_wire|].
  eapply parses_at_bind; [by apply vector8_wire|].
  intros pre. rewrite (bind_ok _ _ _ _ _ (Htl pre)). by destruct ch.
Qed.

Lemma parse_client_hello_at ch post tl :
  parses_at post parse (enc_fixed ch tl) ch →
  parse_client_hello (enc_fixed ch tl ++ post) = Ok ch.
Proof. intros H. exact (f_equal fst (H [])). Qed.

Lemma read_extensions_sound :
  sound_post read_extensions (λ l bs tl,
    vector_of_ok enc_extension extension_ok 2 l ∧
    (bs = enc_extensions l ∨ bs = [] ∧ tl = [] ∧ l = [])).
Proof.
  intros r Hr. unfold read_extensions.
  rewrite (bind_ok _ _ _ _ _ (has_more_rest r Hr)). case_bool_decide as E; simpl.
  - pose proof (wire_sound_post _ _ _ extension_block_wire r Hr) as H.
    set (m := _ ≫= _) in *. destruct (m r) as [[l|e] r']; [|done]. destruct H as (bs & ? & ? & ->). eauto.
  - exists []. split; [auto with wire|]. split; [|auto].
    split; [constructor|]. split; [constructor|]. done.
Qed.

Lemma parse_sound :
  sound_post parse (λ ch bs tl, client_hello_ok ch ∧
    (bs = enc_fixed ch (enc_extensions (extensions ch)) ∨
     bs = enc_fixed ch [] ∧ tl = [] ∧ extensions ch = [])).
Proof.
  unfold parse.
  eapply sound_post_bind; [apply wire_sound_post, _|]. intros v b1 _ [Hv ->].
  eapply sound_post_bind; [apply read_sound_post|]. intros rn b2 _ (-> & Hr1 & Hr2).
  eapply sound_post_bind; [apply wire_sound_post, _|]. intros sid b3 _ [Hs ->].
  eapply sound_post_bind; [apply wire_sound_post, _|]. intros cs b4 _ [Hc ->].
  eapply sound_post_bind; [apply wire_sound_post, _|]. intros cm b5 _ [Hm ->].
  intros r Hr. pose proof (read_extensions_sound r Hr) as H.
  unfold mbind, M_bind. destruct (read_extensions r) as [[l|e] r']; [|done].
  destruct H as (bs & HC & Hl & HB). simpl. exists bs. split; [done|].
  split; [exact (conj Hv (conj (conj Hr1 Hr2) (conj Hs (conj Hc (conj Hm Hl)))))|].
  unfold enc_fixed; simpl. destruct HB as [->|(-> & -> & ->)]; [left|right]; done.
Qed.

(** ** Properties *)

(** C35: round trip.  Every ClientHello whose fields fit the TLS format is
    recovered from its wire form, whether the extension block is present (and
    whatever bytes follow it) or absent. *)
Theorem client_hello_roundtrip ch trailing :
  client_hello_ok ch →
  parse_client_hello
    (enc_fixed ch (enc_extensions (extensions ch)) ++ trailing) = Ok ch ∧
  (extensions ch = [] → parse_client_hello (enc_fixed ch []) = Ok ch).
Proof.
  intros Hok. split.
  - apply parse_client_hello_at, parse_fixed_parses; [done|].
    intros pre. apply read_extensions_parses, Hok.
  - intros He. rewrite <-(app_nil_r (enc_fixed ch [])).
    apply parse_client_hello_at, parse_fixed_parses; [done|].
    rewrite He. apply read_extensions_absent.
Qed.

(** A ClientHello with one GREASE suite, an ALPN extension and an empty
    session id. *)
Definition sample_hello : ClientHello :=
  mkClientHello 771 (replicate 32 7) [] [2570; 4865] [0]
    [mkExtension 16 (u "  h2")].

Lemma sample_hello_ok : client_hello_ok sample_hello.
Proof. by_eval. Qed.

(** Witness of C35. *)
Lemma client_hello_roundtrip_witness :
  parse_client_hello
    (enc_fixed sample_hello (enc_extensions (extensions sample_hello)) ++ [1; 2]) =
  Ok sample_hello.
Proof. exact (proj1 (client_hello_roundtrip sample_hello [1; 2] sample_hello_ok)). Defined.

Lemma parse_client_hello_sound body :
  bytes_ok body →
  match parse_client_hello body with
  | Ok ch =>
      client_hello_ok ch ∧
      ((∃ trailing, body = enc_fixed ch (enc_extensions (extensions ch)) ++ trailing) ∨
       (body = enc_fixed ch [] ∧ extensions ch = []))
  | Err e => is_ValueError e = true
  end.
Proof.
  intros Hb. pose proof (parse_sound (new_reader body) ltac:(auto with wire)) as H.
  unfold parse_client_hello. destruct (parse (new_reader body)) as [[ch|e] r]; [|done].
  destruct H as (bs & (_ & _ & _ & HR) & Hok & HB). split; [done|].
  change (rest (new_reader body)) with body in HR. rewrite HR.
  destruct HB as [->|(-> & -> & He)]; [by left; eauto|right].
  by rewrite app_nil_r.
Qed.

(** C36: the capture loses nothing and never fails in another way.  For any
    octets, the parser either reports a [ValueError] (which the connection turns
    into a decode_error alert), or returns in-range fields from which the octets
    it read can be written back: the input is the wire form of the fields
    followed by trailing bytes, or it ends before the extension block. *)
Theorem client_hello_sound body :
  bytes_ok body →
  match parse_client_hello body with
  | Ok ch =>
      client_hello_ok ch ∧
      ((∃ trailing, body = enc_fixed ch (enc_extensions (extensions ch)) ++ trailing) ∨
       (body = enc_fixed ch [] ∧ extensions ch = []))
  | Err e => is_ValueError e = true
  end.
Proof. apply parse_client_hello_sound. Qed.

(** Witness of C36: a message cut inside its random field. *)
Lemma client_hello_sound_witness :
  bytes_ok (be_bytes 2 771 ++ replicate 9 0) ∧
  match parse_client_hello (be_bytes 2 771 ++ replicate 9 0) with
  | Ok _ => False
  | Err e => is_ValueError e = true
  end.
Proof.
  assert (bytes_ok (be_bytes 2 771 ++ replicate 9 0)) as H by by_eval.
  split; [exact H|].
  exact (client_hello_sound _ H).
Defined.
