(* ===== verification/Extensions.v ===== *)
(** * TLS extension decoders (src/solvetls/tls/extensions.py)

    Every decoder is a method on the reader of the payload; [decode_extension]
    runs one on the whole payload and turns malformed data into an error entry.
    [ext_value] is the abstract content of a supported extension, with its wire
    form and its rendering: the specification the decoders are refined against. *)

From S2P Require Import Prelude PyText Wire TlsEnums Naming ClientHello.

Definition described (e : list (string * Z)) (v : Z) : json :=
  JDict (describe v (Some e)).

Definition _uint16_list (data : bytes) (enum_type : list (string * Z))
    : result (list json) :=
  (while_more (v ← read_uint16; mret (described enum_type v)) (new_reader data)).1.

Definition _decode_server_name : M ByteReader json :=
  v ← read_vector 2;
  names ← with_reader v (while_more (
    name_type ← read_uint8;
    host ← read_vector 2;
    mret (JDict [(u "type", described ServerNameType name_type);
                 (u "host", JStr (decode_utf8_replace host))])));
  mret (JDict [(u "server_names", JList names)]).

Definition _decode_supported_groups : M ByteReader json :=
  v ← read_vector 2;
  l ← lift (_uint16_list v NamedGroup);
  mret (JDict [(u "groups", JList l)]).

Definition _decode_ec_point_formats : M ByteReader json :=
  formats ← read_vector 1;
  mret (JDict [(u "formats", JList (described ECPointFormat <$> formats))]).

Definition _decode_signature_algorithms : M ByteReader json :=
  v ← read_vector 2;
  l ← lift (_uint16_list v SignatureScheme);
  mret (JDict [(u "algorithms", JList l)]).

Definition parse_alpn_protocols (data : bytes) : result (list bytes) :=
  ((v ← read_vector 2;
    more ← has_more;
    if more : bool then
      raise (ValueError (u "Unexpected trailing bytes in ALPN extension payload"))
    else with_reader v (while_more (read_vector 1))) (new_reader data)).1.

Definition _decode_alpn : M ByteReader json :=
  data ← read_remaining;
  protocols ← lift (parse_alpn_protocols data);
  mret (JDict [(u "protocols", JList ((λ p, JStr (decode_latin1 p)) <$> protocols))]).

Definition _decode_supported_versions : M ByteReader json :=
  v ← read_vector 1;
  l ← lift (_uint16_list v TLSVersion);
  mret (JDict [(u "versions", JList l)]).

Definition _decode_psk_key_exchange_modes : M ByteReader json :=
  modes ← read_vector 1;
  mret (JDict [(u "modes", JList (described PskKeyExchangeMode <$> modes))]).

Definition _decode_key_share : M ByteReader json :=
  v ← read_vector 2;
  shares ← with_reader v (while_more (
    group ← read_uint16;
    key_exchange ← read_vector 2;
    mret (JDict [(u "group", described NamedGroup group);
                 (u "key_exchange_length", JInt (zlen key_exchange));
                 (u "key_exchange", JStr (hex key_exchange))])));
  mret (JDict [(u "shares", JList shares)]).

Definition _decode_record_size_limit : M ByteReader json :=
  limit ← read_uint16;
  more ← has_more;
  if more : bool then
    raise (ValueError (u "record_size_limit must contain exactly 2 bytes"))
  else mret (JDict [(u "limit", JInt limit)]).

Definition _decode_compress_certificate : M ByteReader json :=
  v ← read_vector 1;
  l ← lift (_uint16_list v CertificateCompressionAlgorithm);
  mret (JDict [(u "algorithms", JList l)]).

Definition _decode_padding : M ByteReader json :=
  padding ← read_remaining;
  mret (JDict [(u "length", JInt (zlen padding));
               (u "all_zero", JBool (forallb (Z.eqb 0) padding))]).

Definition _decode_empty : M ByteReader json :=
  rest ← read_remaining;
  mret (JDict [(u "present", JBool true); (u "unexpected_bytes", JInt (zlen rest))]).

Definition _DECODERS : list (Z * M ByteReader json) := [
  (member ExtensionType "SERVER_NAME", _decode_server_name);
  (member ExtensionType "SUPPORTED_GROUPS", _decode_supported_groups);
  (member ExtensionType "EC_POINT_FORMATS", _decode_ec_point_formats);
  (member ExtensionType "SIGNATURE_ALGORITHMS", _decode_signature_algorithms);
  (member ExtensionType "SIGNATURE_ALGORITHMS_CERT", _decode_signature_algorithms);
  (member ExtensionType "APPLICATION_LAYER_PROTOCOL_NEGOTIATION", _decode_alpn);
  (member ExtensionType "PADDING", _decode_padding);
  (member ExtensionType "ENCRYPT_THEN_MAC", _decode_empty);
  (member ExtensionType "EXTENDED_MASTER_SECRET", _decode_empty);
  (member ExtensionType "COMPRESS_CERTIFICATE", _decode_compress_certificate);
  (member ExtensionType "RECORD_SIZE_LIMIT", _decode_record_size_limit);
  (member ExtensionType "SUPPORTED_VERSIONS", _decode_supported_versions);
  (member ExtensionType "PSK_KEY_EXCHANGE_MODES", _decode_psk_key_exchange_modes);
  (member ExtensionType "KEY_SHARE", _decode_key_share)
].

(** [_DECODERS.get(ext_type)] *)
Definition get_decoder (ext_type : Z) : option (M ByteReader json) :=
  snd <$> List.find (λ d, d.1 =? ext_type) _DECODERS.

(** The [try] body of [decode_extension]. *)
Definition run_decoder (decoder : M ByteReader json) (data : bytes) : result json :=
  ((decoded ← decoder;
    more ← has_more;
    if more : bool then
      raise (ValueError (u "Unexpected trailing bytes in extension payload"))
    else mret decoded) (new_reader data)).1.

Definition decode_extension (ext_type : Z) (data : bytes) : result (option json) :=
  match get_decoder ext_type with
  | None => Ok None
  | Some decoder =>
      match run_decoder decoder data with
      | Ok decoded => Ok (Some decoded)
      | Err e =>
          if is_ValueError e || bool_decide (e = IndexError)
          then Ok (Some (JDict [(u "error", JStr (exn_str e))]))
          else Err e
      end
  end.

(** ** The specification: contents, wire form, rendering *)

Inductive ext_value :=
  | XServerName (l : list (Z * bytes))
  | XGroups (l : list Z)
  | XPointFormats (l : list Z)
  | XSignatures (l : list Z)
  | XAlpn (l : list bytes)
  | XPadding (p : bytes)
  | XEmpty (p : bytes)
  | XCompress (l : list Z)
  | XRecordLimit (n : Z)
  | XVersions (l : list Z)
  | XPskModes (l : list Z)
  | XKeyShare (l : list (Z * bytes)).

Definition enc_name (p : Z * bytes) : bytes := be_bytes 1 p.1 ++ enc_vector 2 p.2.
Definition name_ok (p : Z * bytes) : Prop := 0 ≤ p.1 < 256 ∧ vector_ok 2 p.2.
Definition enc_share (p : Z * bytes) : bytes := be_bytes 2 p.1 ++ enc_vector 2 p.2.
Definition share_ok (p : Z * bytes) : Prop := 0 ≤ p.1 < 65536 ∧ vector_ok 2 p.2.
Definition uint16_ok (v : Z) : Prop := 0 ≤ v < 65536.

Definition enc_ext_value (x : ext_value) : bytes :=
  match x with
  | XServerName l => enc_vector_of enc_name 2 l
  | XGroups l | XSignatures l => enc_vector_of (be_bytes 2) 2 l
  | XPointFormats l | XPskModes l => enc_vector 1 l
  | XAlpn l => enc_vector_of (enc_vector 1) 2 l
  | XPadding p | XEmpty p => p
  | XCompress l | XVersions l => enc_vector_of (be_bytes 2) 1 l
  | XRecordLimit n => be_bytes 2 n
  | XKeyShare l => enc_vector_of enc_share 2 l
  end.

Definition ext_value_ok (x : ext_value) : Prop :=
  match x with
  | XServerName l => vector_of_ok enc_name name_ok 2 l
  | XGroups l | XSignatures l => vector_of_ok (be_bytes 2) uint16_ok 2 l
  | XPointFormats l | XPskModes l => vector_ok 1 l
  | XAlpn l => vector_of_ok (enc_vector 1) (vector_ok 1) 2 l
  | XPadding p | XEmpty p => bytes_ok p
  | XCompress l | XVersions l => vector_of_ok (be_bytes 2) uint16_ok 1 l
  | XRecordLimit n => uint16_ok n
  | XKeyShare l => vector_of_ok enc_share share_ok 2 l
  end.

Definition render_name (p : Z * bytes) : json :=
  JDict [(u "type", described ServerNameType p.1);
         (u "host", JStr (decode_utf8_replace p.2))].

Definition render_share (p : Z * bytes) : json :=
  JDict [(u "group", described NamedGroup p.1);
         (u "key_exchange_length", JInt (zlen p.2));
         (u "key_exchange", JStr (hex p.2))].

Definition render_ext_value (x : ext_value) : json :=
  match x with
  | XServerName l => JDict [(u "server_names", JList (render_name <$> l))]
  | XGroups l => JDict [(u "groups", JList (described NamedGroup <$> l))]
  | XPointFormats l => JDict [(u "formats", JList (described ECPointFormat <$> l))]
  | XSignatures l => JDict [(u "algorithms", JList (described SignatureScheme <$> l))]
  | XAlpn l => JDict [(u "protocols", JList (JStr <$> l))]
  | XPadding p => JDict [(u "length", JInt (zlen p));
                         (u "all_zero", JBool (forallb (Z.eqb 0) p))]
  | XEmpty p => JDict [(u "present", JBool true); (u "unexpected_bytes", JInt (zlen p))]
  | XCompress l =>
      JDict [(u "algorithms", JList (described CertificateCompressionAlgorithm <$> l))]
  | XRecordLimit n => JDict [(u "limit", JInt n)]
  | XVersions l => JDict [(u "versions", JList (described TLSVersion <$> l))]
  | XPskModes l => JDict [(u "modes", JList (described PskKeyExchangeMode <$> l))]
  | XKeyShare l => JDict [(u "shares", JList (render_share <$> l))]
  end.

(** Which contents an extension type has (IANA numbers). *)
Definition ext_kind (t : Z) (x : ext_value) : Prop :=
  match x with
  | XServerName _ => t = 0
  | XGroups _ => t = 10
  | XPointFormats _ => t = 11
  | XSignatures _ => t = 13 ∨ t = 50
  | XAlpn _ => t = 16
  | XPadding _ => t = 21
  | XEmpty _ => t = 22 ∨ t = 23
  | XCompress _ => t = 27
  | XRecordLimit _ => t = 28
  | XVersions _ => t = 43
  | XPskModes _ => t = 45
  | XKeyShare _ => t = 51
  end.

Definition supported_extensions : list Z := [0; 10; 11; 13; 50; 16; 21; 22; 23; 27; 28; 43; 45; 51].

(** ** Fusing the rendering out of the loops *)

Lemma while_more_fmap {A B} (body : M ByteReader A) (f : A → B) fuel r :
  while_more_fuel_ fuel (x ← body; mret (f x)) r =
    let '(res, r') := while_more_fuel_ fuel body r in ((λ l : list A, f <$> l) <$> res, r').
Proof.
  revert r. induction fuel as [|fuel IH]; intros r; [done|]. simpl.
  unfold mbind, M_bind, has_more, gets.
  destruct (_pos r <? zlen (_data r)); [|done].
  destruct (body r) as [[x|e] r1]; [|done]. simpl. rewrite IH.
  destruct (while_more_fuel_ fuel body r1) as [[xs|e] r2]; done.
Qed.

Lemma while_more_ext {A} (body body' : M ByteReader A) fuel r :
  (∀ r, body r = body' r) →
  while_more_fuel_ fuel body r = while_more_fuel_ fuel body' r.
Proof.
  intros H. revert r. induction fuel as [|fuel IH]; intros r; [done|]. simpl.
  unfold mbind, M_bind, has_more, gets.
  destruct (_pos r <? zlen (_data r)); [|done]. rewrite H.
  destruct (body' r) as [[x|e] r1]; [|done]. by rewrite IH.
Qed.

(** A vector read by a loop that renders each element. *)
Lemma vector_loop_render {A B C} (m : M ByteReader bytes) (body : M ByteReader A)
    (body' : M ByteReader B) (f : A → B) (g : list B → C) r :
  (∀ r, body' r = (x ← body; mret (f x)) r) →
  (v ← m; l ← with_reader v (while_more body'); mret (g l)) r =
  (l ← (v ← m; with_reader v (while_more body)); mret (g (f <$> l))) r.
Proof.
  intros Hb. unfold mbind, M_bind. destruct (m r) as [[v|e] r1]; [|done].
  unfold with_reader, lift, while_more.
  rewrite (while_more_ext _ _ _ _ Hb), while_more_fmap.
  by destruct (while_more_fuel_ _ body _) as [[xs|e] r'].
Qed.

(** ** Exact decoders *)

(** A decoder run on a whole payload accepts exactly the wire forms [enc a] and
    renders their contents; everything else is a [ValueError]. *)
Definition exact (dec : M ByteReader json) {A} (enc : A → bytes) (ok : A → Prop)
    (render : A → json) : Prop :=
  ∀ data, bytes_ok data →
    match run_decoder dec data with
    | Ok j => ∃ a, ok a ∧ data = enc a ∧ j = render a
    | Err e => is_ValueError e = true ∧ ∀ a, ok a → data ≠ enc a
    end.

Lemma at_end_data pre : has_more (mkByteReader pre (zlen pre)) = (Ok false, mkByteReader pre (zlen pre)).
Proof. unfold has_more, gets. simpl. by rewrite Z.ltb_irrefl. Qed.

(** Running a parser on exactly its wire form. *)
Lemma run_exact {A} (m : M ByteReader A) bs a :
  parses m bs a → m (new_reader bs) = (Ok a, mkByteReader bs (zlen bs)).
Proof. intros H. specialize (H [] []). simpl in H. by rewrite app_nil_r in H. Qed.

Lemma exact_wire {A} (m : M ByteReader A) enc ok render dec :
  WireFormat m enc ok →
  (∀ r, dec r = (a ← m; mret (render a)) r) →
  exact dec enc ok render.
Proof.
  intros HW Hd data Hb. unfold run_decoder.
  pose proof (wire_sound_post _ _ _ HW (new_reader data) ltac:(auto with wire)) as HS.
  assert (∀ a, ok a → data = enc a →
            run_decoder dec data = Ok (render a)) as HC.
  { intros a Ha ->. unfold run_decoder, mbind, M_bind. rewrite Hd.
    unfold mbind, M_bind. rewrite (run_exact m (enc a) a) by by apply HW.
    cbn -[has_more]. by rewrite at_end_data. }
  unfold run_decoder in HC. unfold mbind, M_bind in *. rewrite Hd in *.
  unfold mbind, M_bind in *.
  destruct (m (new_reader data)) as [[a|e] r'] eqn:Hm.
  2:{ split; [done|]. intros a Ha Hda. specialize (HC a Ha Hda). done. }
  destruct HS as (bs & (HDA & HO & _ & HR) & Ha & ->).
  change (rest (new_reader data)) with data in HR.
  cbn -[has_more] in *. rewrite (has_more_rest r' HO) in *.
  case_bool_decide as HE; cbn -[has_more] in *.
  - split; [done|]. intros a' Ha' Hda. by specialize (HC a' Ha' Hda).
  - exists a. rewrite HE, app_nil_r in HR. done.
Qed.

Global Instance name_wire :
  WireFormat (t ← read_uint8; h ← read_vector 2; mret (t, h)) enc_name name_ok.
Proof.
  split.
  - intros [t d] [Ht Hd]. eapply parses_bind; [by apply uint8_wire|].
    apply (parses_fmap (read_vector 2) (pair t)), vector16_wire, Hd.
  - apply sound_of_post.
    eapply sound_post_bind; [apply wire_sound_post, _|]. intros t bs1 _ [Ht ->].
    eapply sound_post_bind; [apply wire_sound_post, _|]. intros d bs2 _ [Hd ->].
    apply sound_post_ret. intros _. by rewrite app_nil_r.
Qed.

Global Instance share_wire :
  WireFormat (t ← read_uint16; h ← read_vector 2; mret (t, h)) enc_share share_ok.
Proof.
  split.
  - intros [t d] [Ht Hd]. eapply parses_bind; [by apply uint16_wire|].
    apply (parses_fmap (read_vector 2) (pair t)), vector16_wire, Hd.
  - apply sound_of_post.
    eapply sound_post_bind; [apply wire_sound_post, _|]. intros t bs1 _ [Ht ->].
    eapply sound_post_bind; [apply wire_sound_post, _|]. intros d bs2 _ [Hd ->].
    apply sound_post_ret. intros _. by rewrite app_nil_r.
Qed.

Lemma read_remaining_all data :
  read_remaining (new_reader data) = (Ok data, mkByteReader data (zlen data)).
Proof.
  unfold read_remaining. cbn [new_reader _data _pos]. rewrite Z.sub_0_r.
  exact (run_exact _ _ _ (read_parses (zlen data) data eq_refl)).
Qed.

(** A decoder that takes the whole payload and cannot fail on it. *)
Lemma exact_remaining dec (render : bytes → json) :
  (∀ r, dec r = (p ← read_remaining; mret (render p)) r) →
  exact dec (λ p, p) bytes_ok render.
Proof.
  intros Hd data Hb. unfold run_decoder, mbind, M_bind. rewrite Hd.
  unfold mbind, M_bind. rewrite read_remaining_all. cbn -[has_more].
  rewrite at_end_data. simpl. eauto.
Qed.

(** A parser that itself rejects trailing bytes. *)
Lemma run_checked {A B} (m : M ByteReader A) enc ok msg (k : A → M ByteReader B) data :
  WireFormat m enc ok → bytes_ok data →
  let res := (a ← m; more ← has_more;
              if more : bool then raise (ValueError msg) else k a) (new_reader data) in
  (∃ a, ok a ∧ data = enc a ∧ res = k a (mkByteReader data (zlen data))) ∨
  ((∃ e r, is_ValueError e = true ∧ res = (Err e, r)) ∧ ∀ a, ok a → data ≠ enc a).
Proof.
  intros HW Hb res. unfold res, mbind, M_bind.
  pose proof (wire_sound_post _ _ _ HW (new_reader data) ltac:(auto with wire)) as HS.
  assert (∀ a, ok a → data = enc a →
            m (new_reader data) = (Ok a, mkByteReader data (zlen data))) as HC.
  { intros a Ha ->. by apply run_exact, HW. }
  destruct (m (new_reader data)) as [[a|e] r'] eqn:Hm.
  2:{ right. split; [by eauto|]. intros a Ha Hda. by specialize (HC a Ha Hda). }
  destruct HS as (bs & (HDA & HO & _ & HR) & Ha & ->).
  change (rest (new_reader data)) with data in HR.
  rewrite (has_more_rest r' HO). case_bool_decide as HE.
  - right. split; [by eexists (ValueError msg), _|]. intros a' Ha' Hda.
    specialize (HC a' Ha' Hda). injection HC as [= -> ->].
    apply HE. unfold rest. cbn [_data _pos]. apply drop_ge. unfold zlen. lia.
  - left. exists a. rewrite HE, app_nil_r in HR. split; [done|]. split; [done|].
    specialize (HC a Ha HR). by injection HC as [= ->].
Qed.

Lemma alpn_list_wire :
  WireFormat (v ← read_vector 2; with_reader v (while_more (read_vector 1)))
    (enc_vector_of (enc_vector 1) 2) (vector_of_ok (enc_vector 1) (vector_ok 1) 2).
Proof.
  apply while_more_vector_wire; [apply _| |apply _].
  intros v _ [E _]%app_eq_nil. by apply be_bytes_nonempty in E.
Qed.

(** [parse_alpn_protocols] accepts exactly the RFC 7301 lists. *)
Lemma parse_alpn_exact data :
  bytes_ok data →
  match parse_alpn_protocols data with
  | Ok l => vector_of_ok (enc_vector 1) (vector_ok 1) 2 l ∧
            data = enc_vector_of (enc_vector 1) 2 l
  | Err e => is_ValueError e = true ∧
            ∀ l, vector_of_ok (enc_vector 1) (vector_ok 1) 2 l →
                 data ≠ enc_vector_of (enc_vector 1) 2 l
  end.
Proof.
  intros Hb. unfold parse_alpn_protocols.
  pose proof (λ l Hl, @wire_parses _ _ _ _ alpn_list_wire l Hl) as HP.
  destruct (run_checked (read_vector 2) (enc_vector 2) (vector_ok 2)
    (u "Unexpected trailing bytes in ALPN extension payload")
    (λ v, with_reader v (while_more (read_vector 1))) data _ Hb)
    as [(v & Hv & -> & ->)|[(e & r & He & ->) Hno]]; simpl.
  2:{ split; [done|]. intros l [Hl Hv] ->. by eapply Hno. }
  assert (∀ l, vector_of_ok (enc_vector 1) (vector_ok 1) 2 l →
     enc_vector 2 v = enc_vector_of (enc_vector 1) 2 l →
     (while_more (read_vector 1) (new_reader v)).1 = Ok l) as HC.
  { intros l Hl E. specialize (HP l Hl [] []). unfold mbind, M_bind in HP.
    rewrite <-E, app_nil_r in HP. simpl in HP.
    change (mkByteReader _ (zlen [])) with (new_reader (enc_vector 2 v)) in HP.
    rewrite (run_exact _ _ _ (@wire_parses _ _ _ _ vector16_wire v Hv)) in HP.
    unfold with_reader, lift in HP. by injection HP. }
  unfold with_reader, lift.
  assert (∀ a, vector_ok 1 a → enc_vector 1 a ≠ []) as Hne.
  { intros a _ [E _]%app_eq_nil. by apply be_bytes_nonempty in E. }
  pose proof (while_more_sound (read_vector 1) (enc_vector 1) (vector_ok 1) Hne
    (new_reader v) (reader_ok_new v (proj1 Hv))) as HS.
  destruct (while_more (read_vector 1) (new_reader v)) as [[l|e] r']; simpl in *.
  - destruct HS as (Hl & (_ & _ & _ & HR) & He). rewrite He, app_nil_r in HR.
    change (rest (new_reader v)) with v in HR. subst v. done.
  - split; [done|]. intros l Hl E. by specialize (HC l Hl E).
Qed.

(** Reading a pair and rendering it. *)
Lemma pair_render {A B C} (m1 : M ByteReader A) (m2 : M ByteReader B) (f : A → B → C) r :
  (x ← m1; y ← m2; mret (f x y)) r = (p ← (x ← m1; y ← m2; mret (x, y)); mret (f p.1 p.2)) r.
Proof.
  unfold mbind, M_bind. destruct (m1 r) as [[x|e] r1]; [|done].
  by destruct (m2 r1) as [[y|e] r2].
Qed.

Lemma exact_vector_loop {A B} (k : nat) (m : M ByteReader bytes) (body : M ByteReader A)
    (body' : M ByteReader B) enc ok (f : A → B) (g : list B → json) dec :
  WireFormat m (enc_vector k) (vector_ok k) → WireFormat body enc ok →
  (∀ a, ok a → enc a ≠ []) →
  (∀ r, body' r = (x ← body; mret (f x)) r) →
  (∀ r, dec r = (v ← m; l ← with_reader v (while_more body'); mret (g l)) r) →
  exact dec (enc_vector_of enc k) (vector_of_ok enc ok k) (λ l, g (f <$> l)).
Proof.
  intros Hm Hbody Hne Hb Hd. eapply exact_wire.
  - apply (while_more_vector_wire body enc ok Hne k m Hm).
  - intros r. rewrite Hd. by apply vector_loop_render.
Qed.

Lemma prefixed_nonempty k v (l : bytes) : be_bytes (S k) v ++ l ≠ [].
Proof. intros [E _]%app_eq_nil. by apply be_bytes_nonempty in E. Qed.

Lemma exact_uint16_vector k n e dec key
    `{Hw : !WireFormat (read_vector n) (enc_vector k) (vector_ok k)} :
  (∀ r, dec r = (v ← read_vector n; l ← lift (_uint16_list v e);
                 mret (JDict [(key, JList l)])) r) →
  exact dec (enc_vector_of (be_bytes 2) k) (vector_of_ok (be_bytes 2) uint16_ok k)
    (λ l, JDict [(key, JList (described e <$> l))]).
Proof.
  intros Hd.
  apply (exact_vector_loop k (read_vector n) read_uint16
    (v ← read_uint16; mret (described e v)) (be_bytes 2) uint16_ok (described e)
    (λ l, JDict [(key, JList l)])); [done|apply uint16_wire| |done|done].
  intros. apply be_bytes_nonempty.
Qed.

Lemma exact_opaque_vector e dec key :
  (∀ r, dec r = (l ← read_vector 1; mret (JDict [(key, JList (described e <$> l))])) r) →
  exact dec (enc_vector 1) (vector_ok 1) (λ l, JDict [(key, JList (described e <$> l))]).
Proof. intros Hd. by apply (exact_wire (read_vector 1)); [apply _|]. Qed.

Lemma exact_server_name :
  exact _decode_server_name (enc_vector_of enc_name 2) (vector_of_ok enc_name name_ok 2)
    (λ l, render_ext_value (XServerName l)).
Proof.
  eapply (exact_vector_loop 2 (read_vector 2) _ _ enc_name name_ok render_name
    (λ l, JDict [(u "server_names", JList l)]));
    [apply _|apply name_wire|by intros; apply prefixed_nonempty| |done].
  intros r. apply (pair_render _ _ (λ t h, render_name (t, h))).
Qed.

Lemma exact_key_share :
  exact _decode_key_share (enc_vector_of enc_share 2) (vector_of_ok enc_share share_ok 2)
    (λ l, render_ext_value (XKeyShare l)).
Proof.
  eapply (exact_vector_loop 2 (read_vector 2) _ _ enc_share share_ok render_share
    (λ l, JDict [(u "shares", JList l)]));
    [apply _|apply share_wire|by intros; apply prefixed_nonempty| |done].
  intros r. apply (pair_render _ _ (λ t h, render_share (t, h))).
Qed.

Lemma exact_alpn :
  exact _decode_alpn (enc_vector_of (enc_vector 1) 2)
    (vector_of_ok (enc_vector 1) (vector_ok 1) 2) (λ l, render_ext_value (XAlpn l)).
Proof.
  intros data Hb. unfold run_decoder, _decode_alpn, mbind, M_bind.
  rewrite read_remaining_all. unfold lift.
  pose proof (parse_alpn_exact data Hb) as H.
  destruct (parse_alpn_protocols data) as [l|e]; [|done].
  destruct H as [Hl Hd]. cbn -[has_more]. rewrite at_end_data. cbn. eauto.
Qed.

Lemma exact_record_size_limit :
  exact _decode_record_size_limit (be_bytes 2) uint16_ok
    (λ n, render_ext_value (XRecordLimit n)).
Proof.
  intros data Hb. unfold run_decoder, mbind at 1, M_bind at 1.
  destruct (run_checked read_uint16 (be_bytes 2) uint16_ok
    (u "record_size_limit must contain exactly 2 bytes")
    (λ n, mret (JDict [(u "limit", JInt n)])) data uint16_wire Hb)
    as [(n & Hn & Hd & E)|[(e & r & He & E) Hno]].
  - unfold _decode_record_size_limit. rewrite E. cbn -[has_more].
    unfold mbind, M_bind. rewrite at_end_data. cbn. eauto.
  - unfold _decode_record_size_limit. rewrite E. done.
Qed.

(** The decoder of [t] implements the specification of [t]. *)
Definition refines (t : Z) (dec : M ByteReader json) : Prop :=
  ∀ data, bytes_ok data →
    match run_decoder dec data with
    | Ok j => ∃ x, ext_kind t x ∧ ext_value_ok x ∧ data = enc_ext_value x ∧
                   j = render_ext_value x
    | Err e => is_ValueError e = true ∧
               ∀ x, ext_kind t x → ext_value_ok x → data ≠ enc_ext_value x
    end.

Lemma refines_exact {A} t dec (inj : A → ext_value) enc ok render :
  exact dec enc ok render →
  (∀ a, enc a = enc_ext_value (inj a) ∧ (ok a ↔ ext_value_ok (inj a)) ∧
        render a = render_ext_value (inj a) ∧ ext_kind t (inj a)) →
  (∀ x, ext_kind t x → ∃ a, x = inj a) →
  refines t dec.
Proof.
  intros HE Hi Hk data Hb. specialize (HE data Hb).
  destruct (run_decoder dec data) as [j|e].
  - destruct HE as (a & Ha & -> & ->). destruct (Hi a) as (-> & Hok & -> & ?).
    exists (inj a). by rewrite <-Hok.
  - destruct HE as [He Hno]. split; [done|]. intros x Hx Hxo.
    destruct (Hk x Hx) as [a ->]. destruct (Hi a) as (<- & Hok & _).
    by apply Hno, Hok.
Qed.

(** Refinement for one extension type, from the exactness of its decoder. *)
Ltac ext_refine inj tac :=
  eapply (refines_exact _ _ inj);
  [tac | by intros a; simpl; auto | intros []; simpl; intros; try lia; eauto].

Lemma decoder_refines t :
  t ∈ supported_extensions → ∃ dec, get_decoder t = Some dec ∧ refines t dec.
Proof.
  unfold supported_extensions. rewrite !elem_of_cons. intros H.
  destruct_or! H; [..|by apply elem_of_nil in H]; subst t;
    (eexists; split; [reflexivity|]).
  - ext_refine XServerName ltac:(apply exact_server_name).
  - ext_refine XGroups ltac:(apply (exact_uint16_vector 2 2 NamedGroup); [apply _|intros r; reflexivity]).
  - ext_refine XPointFormats ltac:(apply (exact_opaque_vector ECPointFormat); intros r; reflexivity).
  - ext_refine XSignatures ltac:(apply (exact_uint16_vector 2 2 SignatureScheme); [apply _|intros r; reflexivity]).
  - ext_refine XSignatures ltac:(apply (exact_uint16_vector 2 2 SignatureScheme); [apply _|intros r; reflexivity]).
  - ext_refine XAlpn ltac:(apply exact_alpn).
  - ext_refine XPadding ltac:(apply exact_remaining; intros r; reflexivity).
  - ext_refine XEmpty ltac:(apply exact_remaining; intros r; reflexivity).
  - ext_refine XEmpty ltac:(apply exact_remaining; intros r; reflexivity).
  - ext_refine XCompress ltac:(apply (exact_uint16_vector 1 1 CertificateCompressionAlgorithm); [apply _|intros r; reflexivity]).
  - ext_refine XRecordLimit ltac:(apply exact_record_size_limit).
  - ext_refine XVersions ltac:(apply (exact_uint16_vector 1 1 TLSVersion); [apply _|intros r; reflexivity]).
  - ext_refine XPskModes ltac:(apply (exact_opaque_vector PskKeyExchangeMode); intros r; reflexivity).
  - ext_refine XKeyShare ltac:(apply exact_key_share).
Qed.

Lemma get_decoder_None t : t ∉ supported_extensions → get_decoder t = None.
Proof.
  intros Ht. unfold get_decoder. destruct (List.find _ _DECODERS) as [d|] eqn:F; [|done].
  exfalso. apply Ht. apply find_some in F as [F <-%Z.eqb_eq].
  simpl in F. destruct_or! F; try done; subst d; by_eval.
Qed.

Lemma decode_extension_total t data : bytes_ok data → ∃ d, decode_extension t data = Ok d.
Proof.
  intros Hb. unfold decode_extension. destruct (decide (t ∈ supported_extensions)) as [Ht|Ht].
  2:{ rewrite get_decoder_None by done. by eexists. }
  destruct (decoder_refines t Ht) as (dec & -> & Hr). specialize (Hr data Hb).
  destruct (run_decoder dec data) as [j|e]; [by eexists|]. destruct Hr as [-> _]. by eexists.
Qed.

(** ** Properties *)

(** C37: decoding refines the extension formats, exactly.  For every payload of
    octets [decode_extension] returns normally: nothing for an unsupported type;
    the rendering of the contents when the payload is the complete wire form of
    contents of that type; an error entry when it is the wire form of none. *)
Theorem decode_extension_refines t data :
  bytes_ok data →
  ((t ∉ supported_extensions) ∧ decode_extension t data = Ok None) ∨
  (∃ x, ext_kind t x ∧ ext_value_ok x ∧ data = enc_ext_value x ∧
        decode_extension t data = Ok (Some (render_ext_value x))) ∨
  (t ∈ supported_extensions ∧
   (∀ x, ext_kind t x → ext_value_ok x → data ≠ enc_ext_value x) ∧
   ∃ msg, decode_extension t data = Ok (Some (JDict [(u "error", JStr msg)]))).
Proof.
  intros Hb. destruct (decide (t ∈ supported_extensions)) as [Ht|Ht].
  2:{ left. split; [done|]. unfold decode_extension. by rewrite get_decoder_None. }
  right. destruct (decoder_refines t Ht) as (dec & Hg & Hr). specialize (Hr data Hb).
  unfold decode_extension. rewrite Hg. destruct (run_decoder dec data) as [j|e].
  - left. destruct Hr as (x & Hx & Ho & Hd & ->). eauto 10.
  - right. destruct Hr as [He Hno]. rewrite He. eauto.
Qed.

(** Witness of C37: a supported_groups payload with X25519 and a GREASE group. *)
Lemma decode_extension_refines_witness :
  bytes_ok [0; 4; 0; 29; 10; 10] ∧
  ∃ x, ext_kind 10 x ∧ ext_value_ok x ∧ [0; 4; 0; 29; 10; 10] = enc_ext_value x ∧
       decode_extension 10 [0; 4; 0; 29; 10; 10] = Ok (Some (render_ext_value x)).
Proof.
  assert (bytes_ok [0; 4; 0; 29; 10; 10]) as Hb by by_eval. split; [exact Hb|].
  destruct (decode_extension_refines 10 [0; 4; 0; 29; 10; 10] Hb) as [[Hn _]|[H|[_ [Hn _]]]].
  - exfalso. apply Hn. by_eval.
  - exact H.
  - exfalso. apply (Hn (XGroups [29; 2570])); [reflexivity|by_eval|reflexivity].
Defined.

(** ALPN lists round-trip.  [parse_alpn_protocols] returns the protocol
    identifiers of a well-formed list byte for byte and in order, and it returns
    normally on nothing else. *)
Theorem alpn_roundtrip data l :
  bytes_ok data →
  (parse_alpn_protocols data = Ok l ↔
   vector_of_ok (enc_vector 1) (vector_ok 1) 2 l ∧ data = enc_vector_of (enc_vector 1) 2 l).
Proof.
  intros Hb. pose proof (parse_alpn_exact data Hb) as H.
  destruct (parse_alpn_protocols data) as [l'|e].
  - destruct H as [Hl ->]. split; [by intros [= <-]|]. intros [Hl' E].
    pose proof (run_exact _ _ _ (@wire_parses _ _ _ _ alpn_list_wire l Hl')) as R1.
    pose proof (run_exact _ _ _ (@wire_parses _ _ _ _ alpn_list_wire l' Hl)) as R2.
    rewrite <-E in R1. congruence.
  - split; [done|]. intros [Hl E]. destruct H as [_ Hno]. by destruct (Hno l Hl).
Qed.

(** A concrete input for [alpn_roundtrip]: the offer "h2". *)
Lemma alpn_roundtrip_witness :
  parse_alpn_protocols [0; 3; 2; 104; 50] = Ok [u "h2"].
Proof.
  apply (alpn_roundtrip [0; 3; 2; 104; 50] [u "h2"]); [by_eval|].
  split; [by_eval|reflexivity].
Defined.
