(* ===== verification/IpAddress.v ===== *)
(** * IP addresses as text: [socket.inet_ntop] and [ipaddress]

    What the sources use of the C library and of the standard library: the text
    of the addresses of a saved SYN, and the validation and the normal form of an
    IPv6 literal.  An IPv6 address is the list of its eight 16-bit groups. *)

From S2P Require Import Prelude PyText.

(** ** [socket.inet_ntop] (C library) *)

(** Dotted decimal. *)
Definition inet_ntop4 (addr : bytes) : text := join (u ".") (str_int <$> addr).

(** The eight 16-bit groups of an IPv6 address. *)
Fixpoint groups16 (l : bytes) : list Z :=
  match l with
  | a :: b :: l => (a * 256 + b) :: groups16 l
  | _ => []
  end.

(** Length of the run of zero groups at the head. *)
Fixpoint zero_run (l : list Z) : nat :=
  match l with
  | 0 :: l => S (zero_run l)
  | _ => O
  end.

(** Start and length of the first longest run of zero groups. *)
Fixpoint best_run (i : nat) (l : list Z) (best : nat * nat) : nat * nat :=
  match l with
  | [] => best
  | _ :: l' =>
      let n := zero_run l in
      best_run (S i) l' (if (best.2 <? n)%nat then (i, n) else best)
  end.

Definition hex_group (g : Z) : text :=
  if g =? 0 then [48] else digit_char <$> digits 16 g.

(** RFC 5952 text with "::" for the first longest run of at least two zero
    groups, and the embedded IPv4 forms. *)
Definition inet_ntop6 (addr : bytes) : text :=
  let g := groups16 addr in
  let '(base, len) := best_run 0 g (O, O) in
  if (len <? 2)%nat then join (u ":") (hex_group <$> g)
  else if (base =? 0)%nat && ((len =? 6)%nat || ((len =? 5)%nat && (default 0 (g !! 5%nat) =? 0xffff)))
  then u "::" ++ (if (len =? 5)%nat then u "ffff:" else []) ++ inet_ntop4 (drop 12 addr)
  else join (u ":") (hex_group <$> take base g) ++ u "::" ++
       join (u ":") (hex_group <$> drop (base + len) g).

(** ** [ipaddress.IPv4Address(s)] *)

Definition parse_octet (s : text) : option Z :=
  if isascii s && isdigit s && (zlen s <=? 3) &&
     negb (negb (bool_decide (s = [48])) && startswith [48] s)
  then let v := int_of_digits s in if v >? 255 then None else Some v
  else None.

Definition ipv4_parse (s : text) : option (list Z) :=
  let octets := split 46 s in
  if (length octets =? 4)%nat then mapM parse_octet octets else None.

(** ** [ipaddress.IPv6Address(s)] *)

Definition hex_value (c : Z) : Z :=
  if is_digit c then c - 48 else if 97 <=? c then c - 87 else c - 55.

Definition int_of_hex (s : text) : Z := foldl (λ acc c, acc * 16 + hex_value c) 0 s.

Definition parse_hextet (s : text) : option Z :=
  match s with
  | [] => None
  | _ => if forallb is_hexdigit s && (zlen s <=? 4) then Some (int_of_hex s) else None
  end.

(** The indices strictly inside [parts] whose part is empty. *)
Definition inner_empty (parts : list text) : list nat :=
  List.filter (λ i, bool_decide (parts !! i = Some [])) (seq 1 (length parts - 2)).

(** The groups around a double colon at index [i]. *)
Definition ipv6_skip (parts : list text) (i : nat) : option (list Z) :=
  let first_empty := bool_decide (parts !! O = Some []) in
  let last_empty := bool_decide (last parts = Some []) in
  let hi := if first_empty then (i - 1)%nat else i in
  let lo := if last_empty then (length parts - i - 2)%nat else (length parts - i - 1)%nat in
  if (first_empty && negb (hi =? 0)%nat) || (last_empty && negb (lo =? 0)%nat) ||
     (8 <=? hi + lo)%nat
  then None
  else
    h ← mapM parse_hextet (take hi parts);
    l ← mapM parse_hextet (drop (length parts - lo) parts);
    mret (h ++ replicate (8 - (hi + lo)) 0 ++ l).

Definition ipv6_groups (parts : list text) : option (list Z) :=
  match inner_empty parts with
  | [] => if (length parts =? 8)%nat then mapM parse_hextet parts else None
  | [i] => ipv6_skip parts i
  | _ => None
  end.

(** The dotted-quad suffix as two groups. *)
Definition ipv6_expand (parts : list text) : option (list text) :=
  match last parts with
  | Some p =>
      if mem 46 p then
        q ← ipv4_parse p;
        match q with
        | [a; b; c; d] =>
            Some (removelast parts ++ [hex_group (a * 256 + b); hex_group (c * 256 + d)])
        | _ => None
        end
      else Some parts
  | None => None
  end.

Definition ipv6_parse (s : text) : option (list Z) :=
  if mem 47 s then None
  else
    let '(addr, sep, scope) := partition_ 37 s in
    if sep && (bool_decide (scope = []) || mem 37 scope) then None
    else
      let parts := split 58 addr in
      if bool_decide (addr = []) || (length parts <? 3)%nat then None
      else
        parts ← ipv6_expand parts;
        if (9 <? length parts)%nat then None else ipv6_groups parts.

(** [IPv6Address(s).compressed] *)
Definition ipv6_compressed (g : list Z) : text :=
  let '(base, len) := best_run 0 g (O, O) in
  if (len <? 2)%nat then join (u ":") (hex_group <$> g)
  else join (u ":") (hex_group <$> take base g) ++ u "::" ++
       join (u ":") (hex_group <$> drop (base + len) g).

(** ** The characters of a parsed address *)

Definition address_char (c : Z) : Prop := is_hexdigit c = true ∨ c = 58 ∨ c = 46.

Lemma hextet_chars s g : parse_hextet s = Some g → Forall address_char s.
Proof.
  unfold parse_hextet. destruct s as [|c s]; [done|]. set (l := c :: s).
  destruct (forallb is_hexdigit l) eqn:E; [|done]. intros _. apply Forall_forall.
  intros x Hx%list_elem_of_In. left. by eapply forallb_forall in E.
Qed.

Lemma hextets_chars ps gs : mapM parse_hextet ps = Some gs → Forall (Forall address_char) ps.
Proof.
  intros H%mapM_Some_1. induction H as [|p g ps gs Hp _ IH]; constructor; [by eapply hextet_chars|done].
Qed.

Lemma ipv4_chars s q : ipv4_parse s = Some q → Forall address_char s.
Proof.
  unfold ipv4_parse. destruct (_ =? _)%nat; [|done]. intros H%mapM_Some_1.
  rewrite <-(join_split 46 s). apply join_Forall; [constructor; [by right; right|constructor]|].
  induction H as [|p g ps gs Hp _ IH]; constructor; [|done]. unfold parse_octet in Hp.
  destruct (isascii p && isdigit p && _ && _) eqn:E; [|done]. rewrite !andb_true_iff in E.
  destruct E as [[[_ E] _] _]. apply Forall_forall. intros x Hx%list_elem_of_In. left.
  unfold isdigit in E. destruct p; [done|]. eapply forallb_forall in E; [|done].
  unfold is_hexdigit. by rewrite E.
Qed.

(** The parts around a double colon, and the empty ones between them. *)
Lemma skip_chars parts i g :
  ipv6_skip parts i = Some g → i ∈ inner_empty parts → Forall (Forall address_char) parts.
Proof.
  intros H Hi. unfold inner_empty in Hi. apply list_elem_of_In, filter_In in Hi as [Hi He].
  apply bool_decide_eq_true in He. apply in_seq in Hi.
  unfold ipv6_skip in H. set (fe := bool_decide (parts !! O = Some [])) in *.
  set (le := bool_decide (last parts = Some [])) in *.
  set (hi := if fe then (i - 1)%nat else i) in *.
  set (lo := if le then (length parts - i - 2)%nat else (length parts - i - 1)%nat) in *.
  destruct (_ || _) eqn:Ec; [done|]. rewrite !orb_false_iff, !andb_false_iff in Ec.
  destruct (mapM parse_hextet (take hi parts)) as [h|] eqn:Eh; [|done].
  destruct (mapM parse_hextet (drop (length parts - lo) parts)) as [l|] eqn:El; [|done].
  apply hextets_chars in Eh, El. apply Forall_lookup. intros j p Hj.
  destruct (decide (j < hi)%nat).
  { rewrite Forall_lookup in Eh. apply (Eh j). by rewrite lookup_take_lt. }
  destruct (decide (length parts - lo ≤ j)%nat).
  { rewrite Forall_lookup in El. apply (El (j - (length parts - lo))%nat).
    rewrite lookup_drop. rewrite <-Hj. f_equal. lia. }
  assert (p = []) as ->; [|constructor]. apply lookup_lt_Some in Hj as Hlt.
  destruct (decide (j = i)) as [->|Hji]; [congruence|].
  destruct Ec as [[[Ef|Ef] [Ee|Ee]] _].
  - unfold hi, lo in *. rewrite Ef, Ee in *. lia.
  - unfold hi, lo in *. rewrite Ef in *. destruct le eqn:Ele; [|lia].
    apply negb_false_iff, Nat.eqb_eq in Ee. unfold le in Ele. apply bool_decide_eq_true in Ele.
    rewrite last_lookup in Ele. assert (j = pred (length parts)) as -> by lia. congruence.
  - unfold hi, lo in *. rewrite Ee in *. destruct fe eqn:Efe; [|lia].
    apply negb_false_iff, Nat.eqb_eq in Ef. unfold fe in Efe. apply bool_decide_eq_true in Efe.
    assert (j = 0)%nat as -> by lia. congruence.
  - apply negb_false_iff, Nat.eqb_eq in Ef, Ee. unfold hi, lo, fe, le in *.
    repeat case_bool_decide; try lia;
      (assert (j = 0 ∨ j = pred (length parts))%nat as [->| ->] by lia);
      rewrite ?last_lookup in *; congruence.
Qed.

Lemma expand_chars parts parts' :
  ipv6_expand parts = Some parts' → Forall (Forall address_char) parts' →
  Forall (Forall address_char) parts.
Proof.
  unfold ipv6_expand. destruct (last parts) as [p|] eqn:El; [|done].
  destruct (mem 46 p); [|by intros [= <-]].
  destruct (ipv4_parse p) as [q|] eqn:Eq; [|done]. cbn [mbind option_bind].
  destruct q as [|a [|b [|c [|d [|]]]]]; try done. intros [= <-] H%Forall_app.
  destruct H as [H _]. apply last_Some in El as [l ->]. rewrite removelast_last in H.
  apply Forall_app. split; [done|]. constructor; [by eapply ipv4_chars|constructor].
Qed.

Lemma ipv6_chars s : (37 ∉ s) → ipv6_parse s ≠ None → Forall address_char s.
Proof.
  intros Hs H. unfold ipv6_parse in H. destruct (mem 47 s); [done|].
  destruct (partition_ 37 s) as [[addr sep] scope] eqn:Ep.
  destruct (partition_spec _ _ _ _ _ Ep) as (_ & Es & _).
  destruct sep; [destruct Hs; rewrite Es; set_solver|]. subst addr. cbn [andb] in H.
  destruct (_ || _); [done|]. destruct (ipv6_expand (split 58 s)) as [parts|] eqn:Ee; [|done].
  cbn [mbind option_bind] in H. destruct (9 <? length parts)%nat; [done|].
  rewrite <-(join_split 58 s). apply join_Forall; [constructor; [by right; left|constructor]|].
  eapply expand_chars; [done|]. unfold ipv6_groups in H.
  destruct (inner_empty parts) as [|i [|]] eqn:Ei; [| |done].
  - destruct (length parts =? 8)%nat; [|done].
    destruct (mapM parse_hextet parts) as [g|] eqn:Eg; [|done]. by eapply hextets_chars.
  - destruct (ipv6_skip parts i) as [g|] eqn:Eg; [|done]. eapply skip_chars; [done|].
    rewrite Ei. by apply list_elem_of_singleton.
Qed.
