(* ===== verification/Syn.v ===== *)
(** * The saved SYN packet (src/solvetls/tcpip/syn.py)

    The socket options that make the kernel save a SYN packet and that take it, and
    [parse_syn], which splits its IP and TCP headers.  The operating system is a parameter
    of the first two. *)

From S2P Require Import Prelude PyText Wire IpAddress.

Definition IPV4_HEADER_SIZE : Z := 20.
Definition IPPROTO_TCP : Z := 6.

Definition TCP_SAVE_SYN : Z := 27.
Definition TCP_SAVED_SYN : Z := 28.
Definition SYN_BUFFER_SIZE : Z := 256.

(** ** The socket options *)

Section socket.
Context {S : Type} (SAVE_SYN_SUPPORTED : bool) (setsockopt : Z → Z → Z → M S unit)
  (getsockopt : Z → Z → Z → M S bytes).

Definition enable_save_syn : M S bool :=
  if negb SAVE_SYN_SUPPORTED then mret false
  else
    try_except (_ ← setsockopt IPPROTO_TCP TCP_SAVE_SYN 1; mret true)
      (λ e, if is_OSError e then mret false else raise e).

(** [sock] says whether there is a socket. *)
Definition read_saved_syn (sock : bool) : M S (option bytes) :=
  if negb SAVE_SYN_SUPPORTED || negb sock then mret None
  else
    try_except
      (data ← getsockopt IPPROTO_TCP TCP_SAVED_SYN SYN_BUFFER_SIZE;
       mret (match data with [] => None | _ => Some data end))
      (λ e, if is_OSError e then mret None else raise e).

End socket.

(** ** The parser *)

Record IpInfo := mkIpInfo {
  ip_id : option Z;
  ip_ttl : Z;
  ip_version : Z;
  ip_dst : text;
  ip_src : text;
}.

Record TcpInfo := mkTcpInfo {
  tcp_src_port : Z;
  tcp_dst_port : Z;
  tcp_ack : Z;
  tcp_checksum : Z;
  tcp_seq : Z;
  tcp_window : Z;
}.

(** The report entry; the ports are popped from the TCP dictionary. *)
Record SynReport := mkSynReport {
  cap_length : Z;
  syn_ip : IpInfo;
  syn_tcp : TcpInfo;
}.

Definition _parse_ipv4 : M ByteReader IpInfo :=
  b ← read_uint8;
  let header_length := Z.land b 0x0F * 4 in
  _ ← read_uint8;
  _ ← read_uint16;
  identification ← read_uint16;
  _ ← read_uint16;
  ttl ← read_uint8;
  _ ← read_uint8;
  _ ← read_uint16;
  src ← read 4;
  dst ← read 4;
  _ ← read (Z.max (header_length - IPV4_HEADER_SIZE) 0);
  mret (mkIpInfo (Some identification) ttl 4 (inet_ntop4 dst) (inet_ntop4 src)).

Definition _parse_ipv6 : M ByteReader (option IpInfo) :=
  _ ← read 4;
  _ ← read_uint16;
  next_header ← read_uint8;
  hop_limit ← read_uint8;
  src ← read 16;
  dst ← read 16;
  if negb (next_header =? IPPROTO_TCP) then mret None
  else mret (Some (mkIpInfo None hop_limit 6 (inet_ntop6 dst) (inet_ntop6 src))).

Definition _parse_tcp : M ByteReader TcpInfo :=
  src_port ← read_uint16;
  dst_port ← read_uint16;
  seq ← read_uint32;
  ack ← read_uint32;
  _ ← read_uint8;
  _ ← read_uint8;
  window ← read_uint16;
  checksum ← read_uint16;
  _ ← read_uint16;
  mret (mkTcpInfo src_port dst_port ack checksum seq window).

(** The end of [_parse], once the IP header was read. *)
Definition finish_parse (n : Z) (ip : option IpInfo) : M ByteReader (option SynReport) :=
  match ip with
  | None => mret None
  | Some ip => tcp ← _parse_tcp; mret (Some (mkSynReport n ip tcp))
  end.

(** [_parse]; [data[0]] raises [IndexError] on an empty packet. *)
Definition _parse (data : bytes) : result (option SynReport) :=
  match data with
  | [] => Err IndexError
  | b0 :: _ =>
      ((let version := Z.shiftr b0 4 in
        ip ← (if version =? 4 then ip ← _parse_ipv4; mret (Some ip)
              else if version =? 6 then _parse_ipv6
              else mret None);
        finish_parse (zlen data) ip) (new_reader data)).1
  end.

Definition parse_syn (data : option bytes) : result (option SynReport) :=
  match data with
  | None | Some [] => Ok None
  | Some data =>
      match _parse data with
      | Ok r => Ok r
      | Err e =>
          if is_ValueError e || bool_decide (e = IndexError) || is_OSError e then Ok None else Err e
      end
  end.

(** ** The header formats *)

(** An IPv4 header (RFC 791) with its options, by fields. *)
Record Ipv4Header := mkIpv4Header {
  h4_ihl : Z; h4_tos : Z; h4_total : Z; h4_id : Z; h4_frag : Z; h4_ttl : Z;
  h4_proto : Z; h4_checksum : Z; h4_src : bytes; h4_dst : bytes; h4_options : bytes;
}.

Definition enc_ipv4 (h : Ipv4Header) : bytes :=
  be_bytes 1 (4 * 16 + h4_ihl h) ++ be_bytes 1 (h4_tos h) ++ be_bytes 2 (h4_total h) ++
  be_bytes 2 (h4_id h) ++ be_bytes 2 (h4_frag h) ++ be_bytes 1 (h4_ttl h) ++
  be_bytes 1 (h4_proto h) ++ be_bytes 2 (h4_checksum h) ++ h4_src h ++ h4_dst h ++
  h4_options h.

Definition ipv4_ok (h : Ipv4Header) : Prop :=
  5 ≤ h4_ihl h < 16 ∧ zlen (h4_options h) = 4 * (h4_ihl h - 5) ∧
  zlen (h4_src h) = 4 ∧ zlen (h4_dst h) = 4 ∧
  (0 ≤ h4_tos h < 256 ∧ 0 ≤ h4_total h < 65536 ∧ 0 ≤ h4_id h < 65536 ∧
   0 ≤ h4_frag h < 65536 ∧ 0 ≤ h4_ttl h < 256 ∧ 0 ≤ h4_proto h < 256 ∧
   0 ≤ h4_checksum h < 65536).

(** An IPv6 header (RFC 8200) by fields. *)
Record Ipv6Header := mkIpv6Header {
  h6_flow : Z; h6_payload : Z; h6_next : Z; h6_hops : Z; h6_src : bytes; h6_dst : bytes;
}.

Definition enc_ipv6 (h : Ipv6Header) : bytes :=
  be_bytes 4 (6 * 268435456 + h6_flow h) ++ be_bytes 2 (h6_payload h) ++
  be_bytes 1 (h6_next h) ++ be_bytes 1 (h6_hops h) ++ h6_src h ++ h6_dst h.

Definition ipv6_ok (h : Ipv6Header) : Prop :=
  0 ≤ h6_flow h < 268435456 ∧ 0 ≤ h6_payload h < 65536 ∧ 0 ≤ h6_next h < 256 ∧
  0 ≤ h6_hops h < 256 ∧ zlen (h6_src h) = 16 ∧ zlen (h6_dst h) = 16.

(** A TCP header (RFC 9293) by fields, up to the options. *)
Record TcpHeader := mkTcpHeader {
  ht_src : Z; ht_dst : Z; ht_seq : Z; ht_ack : Z; ht_offset : Z; ht_flags : Z;
  ht_window : Z; ht_checksum : Z; ht_urgent : Z;
}.

Definition enc_tcp (h : TcpHeader) : bytes :=
  be_bytes 2 (ht_src h) ++ be_bytes 2 (ht_dst h) ++ be_bytes 4 (ht_seq h) ++
  be_bytes 4 (ht_ack h) ++ be_bytes 1 (ht_offset h) ++ be_bytes 1 (ht_flags h) ++
  be_bytes 2 (ht_window h) ++ be_bytes 2 (ht_checksum h) ++ be_bytes 2 (ht_urgent h).

Definition tcp_ok (h : TcpHeader) : Prop :=
  0 ≤ ht_src h < 65536 ∧ 0 ≤ ht_dst h < 65536 ∧ 0 ≤ ht_seq h < 4294967296 ∧
  0 ≤ ht_ack h < 4294967296 ∧ 0 ≤ ht_offset h < 256 ∧ 0 ≤ ht_flags h < 256 ∧
  0 ≤ ht_window h < 65536 ∧ 0 ≤ ht_checksum h < 65536 ∧ 0 ≤ ht_urgent h < 65536.

Global Instance ipv4_ok_dec h : Decision (ipv4_ok h).
Proof. unfold ipv4_ok. apply _. Defined.
Global Instance ipv6_ok_dec h : Decision (ipv6_ok h).
Proof. unfold ipv6_ok. apply _. Defined.
Global Instance tcp_ok_dec h : Decision (tcp_ok h).
Proof. unfold tcp_ok. apply _. Defined.

Definition tcp_info (h : TcpHeader) : TcpInfo :=
  mkTcpInfo (ht_src h) (ht_dst h) (ht_ack h) (ht_checksum h) (ht_seq h) (ht_window h).

(** ** Laws *)

(** One field of a fixed-width header. *)
Ltac parse_this :=
  first [ by apply uint8_wire | by apply uint16_wire | by apply uint32_wire
        | by apply read_parses ].
Ltac parse_field := eapply parses_bind; [parse_this|].

Lemma parse_ipv4_parses h :
  ipv4_ok h →
  parses _parse_ipv4 (enc_ipv4 h)
    (mkIpInfo (Some (h4_id h)) (h4_ttl h) 4 (inet_ntop4 (h4_dst h)) (inet_ntop4 (h4_src h))).
Proof.
  intros (Hi & Ho & Hs & Hd & (H1 & H2 & H3 & H4 & H5 & H6 & H7)).
  unfold _parse_ipv4, enc_ipv4.
  eapply parses_bind; [apply uint8_wire; lia|].
  do 9 parse_field. eapply parses_last; [|apply parses_ret]. apply read_parses.
  replace (Z.land (4 * 16 + h4_ihl h) 15) with (h4_ihl h).
  - unfold IPV4_HEADER_SIZE. lia.
  - change 15 with (Z.ones 4). rewrite Z.land_ones by lia.
    apply Z.mod_unique with 4; lia.
Qed.

Lemma parse_ipv6_parses h :
  ipv6_ok h →
  parses _parse_ipv6 (enc_ipv6 h)
    (if h6_next h =? IPPROTO_TCP then
       Some (mkIpInfo None (h6_hops h) 6 (inet_ntop6 (h6_dst h)) (inet_ntop6 (h6_src h)))
     else None).
Proof.
  intros (H1 & H2 & H3 & H4 & H5 & H6). unfold _parse_ipv6, enc_ipv6.
  do 5 parse_field. eapply parses_last; [parse_this|].
  destruct (h6_next h =? IPPROTO_TCP); apply parses_ret.
Qed.

Lemma parse_tcp_parses h : tcp_ok h → parses _parse_tcp (enc_tcp h) (tcp_info h).
Proof.
  intros (H1 & H2 & H3 & H4 & H5 & H6 & H7 & H8 & H9). unfold _parse_tcp, enc_tcp.
  do 8 parse_field. eapply parses_last; [parse_this|apply parses_ret].
Qed.

(** The version nibble of the first octet. *)
Lemma first_octet k v tl :
  0 ≤ v < 256 ^ Z.of_nat (S k) →
  ∃ l, be_bytes (S k) v ++ tl = v / 256 ^ Z.of_nat k :: l.
Proof.
  revert v tl. induction k as [|k IH]; intros v tl Hv.
  - change (256 ^ Z.of_nat 0) with 1. rewrite Z.div_1_r.
    change (256 ^ Z.of_nat 1) with 256 in Hv. exists tl.
    unfold be_bytes. simpl. by rewrite Z.mod_small.
  - rewrite Nat2Z.inj_succ, Z.pow_succ_r in Hv by lia.
    change (be_bytes (S (S k)) v) with (be_bytes (S k) (v / 256) ++ [v mod 256]).
    rewrite <-app_assoc. destruct (IH (v / 256) ([v mod 256] ++ tl)) as [l ->].
    + split; [apply Z.div_pos; lia|]. apply Z.div_lt_upper_bound; lia.
    + exists l. f_equal. rewrite Z.div_div by lia.
      by rewrite <-Z.pow_succ_r, <-Nat2Z.inj_succ by lia.
Qed.

(** Walk through the reads of a header parser, keeping what each returns. *)
Ltac sound_reads :=
  repeat (eapply sound_post_bind;
    [first [apply wire_sound_post, _ | apply read_sound_post] | intros ? ? ? ?]).

Lemma parse_tcp_sound :
  sound_post _parse_tcp (λ t _ _,
    0 ≤ tcp_src_port t < 65536 ∧ 0 ≤ tcp_dst_port t < 65536).
Proof. unfold _parse_tcp. sound_reads. apply sound_post_ret. simpl in *. naive_solver. Qed.

Lemma parse_ipv4_sound : sound_post _parse_ipv4 (λ i _ _, ip_version i = 4).
Proof. unfold _parse_ipv4. sound_reads. by apply sound_post_ret. Qed.

Lemma parse_ipv6_sound :
  sound_post _parse_ipv6 (λ o _ _, ∀ i, o = Some i → ip_version i = 6).
Proof.
  unfold _parse_ipv6. sound_reads. case_match; apply sound_post_ret; naive_solver.
Qed.

(** The IP header parser that the version nibble selects. *)
Definition ip_parser (version : Z) : M ByteReader (option IpInfo) :=
  if version =? 4 then ip ← _parse_ipv4; mret (Some ip)
  else if version =? 6 then _parse_ipv6
  else mret None.

Lemma parse_syn_run data b0 l v :
  data = b0 :: l → Z.shiftr b0 4 = v →
  parse_syn (Some data) =
    match ((ip ← ip_parser v; finish_parse (zlen data) ip) (new_reader data)).1 with
    | Ok r => Ok r
    | Err e => if is_ValueError e || bool_decide (e = IndexError) || is_OSError e then Ok None else Err e
    end.
Proof. by intros -> <-. Qed.

Lemma ip_parser_sound v :
  sound_post (ip_parser v) (λ o _ _, ∀ i, o = Some i → ip_version i = 4 ∨ ip_version i = 6).
Proof.
  unfold ip_parser. case_match; [|case_match].
  - eapply sound_post_bind; [apply parse_ipv4_sound|]. intros i ? ? Hi.
    apply sound_post_ret. naive_solver.
  - eapply sound_post_weaken; [apply parse_ipv6_sound|]. naive_solver.
  - by apply sound_post_ret.
Qed.

Lemma syn_parser_sound v n :
  sound_post (ip ← ip_parser v; finish_parse n ip) (λ r _ _, ∀ s, r = Some s →
    cap_length s = n ∧ (ip_version (syn_ip s) = 4 ∨ ip_version (syn_ip s) = 6) ∧
    0 ≤ tcp_src_port (syn_tcp s) < 65536 ∧ 0 ≤ tcp_dst_port (syn_tcp s) < 65536).
Proof.
  eapply sound_post_bind; [apply ip_parser_sound|]. intros [i|] ? ? Hi; simpl.
  - eapply sound_post_bind; [apply parse_tcp_sound|]. intros t ? ? Ht.
    apply sound_post_ret. naive_solver.
  - by apply sound_post_ret.
Qed.

Lemma parses_run {A} (m : M ByteReader A) bs tl a :
  parses m bs a → (m (new_reader (bs ++ tl))).1 = Ok a.
Proof. intros H. exact (f_equal fst (H [] tl)). Qed.

Lemma ipv4_first h tl :
  ipv4_ok h → ∃ b0 l, enc_ipv4 h ++ tl = b0 :: l ∧ Z.shiftr b0 4 = 4.
Proof.
  intros [Hi _]. unfold enc_ipv4. rewrite <-app_assoc.
  edestruct (first_octet 0 (4 * 16 + h4_ihl h)) as [l ->]; [simpl; lia|].
  eexists _, _. split; [done|].
  rewrite Z.shiftr_div_pow2, Z.div_1_r by lia.
  symmetry. apply Z.div_unique with (h4_ihl h); lia.
Qed.

Lemma ipv6_first h tl :
  ipv6_ok h → ∃ b0 l, enc_ipv6 h ++ tl = b0 :: l ∧ Z.shiftr b0 4 = 6.
Proof.
  intros [Hi _]. unfold enc_ipv6. rewrite <-app_assoc.
  edestruct (first_octet 3 (6 * 268435456 + h6_flow h)) as [l ->]; [simpl; lia|].
  eexists _, _. split; [done|].
  rewrite Z.shiftr_div_pow2, Z.div_div by lia.
  symmetry. apply Z.div_unique with (h6_flow h); simpl; lia.
Qed.

(** ** Properties *)

(** The saved SYN of an IPv4 connection is reported field by field, whatever
    IP options the header carries and whatever follows the fixed TCP header. *)
Theorem parse_syn_ipv4 h t tl :
  ipv4_ok h → tcp_ok t →
  parse_syn (Some (enc_ipv4 h ++ enc_tcp t ++ tl)) =
    Ok (Some (mkSynReport (zlen (enc_ipv4 h ++ enc_tcp t ++ tl))
      (mkIpInfo (Some (h4_id h)) (h4_ttl h) 4 (inet_ntop4 (h4_dst h)) (inet_ntop4 (h4_src h)))
      (tcp_info t))).
Proof.
  intros Hh Ht. destruct (ipv4_first h (enc_tcp t ++ tl) Hh) as (b0 & l & E & Hv).
  rewrite (parse_syn_run _ b0 l 4 E Hv). set (n := zlen _). rewrite app_assoc.
  erewrite parses_run; [done|]. eapply parses_bind.
  - eapply parses_last; [by apply parse_ipv4_parses|apply parses_ret].
  - eapply parses_last; [by apply parse_tcp_parses|apply parses_ret].
Qed.

(** A 24-byte IPv4 header (one option word) and the SYN of the README example. *)
Definition sample_ipv4 : Ipv4Header :=
  mkIpv4Header 6 0 64 0 16384 49 6 0 [203; 0; 113; 42] [10; 0; 0; 1] [1; 1; 1; 0].
Definition sample_tcp : TcpHeader :=
  mkTcpHeader 8616 443 2902113646 0 176 2 65535 6357 0.

(** A concrete input for [parse_syn_ipv4]. *)
Lemma parse_syn_ipv4_witness :
  parse_syn (Some (enc_ipv4 sample_ipv4 ++ enc_tcp sample_tcp ++ [2; 4; 5; 180])) =
  Ok (Some (mkSynReport 48
    (mkIpInfo (Some 0) 49 4 (u "10.0.0.1") (u "203.0.113.42")) (tcp_info sample_tcp))).
Proof. apply (parse_syn_ipv4 sample_ipv4 sample_tcp [2; 4; 5; 180]); by_eval. Defined.

(** The saved SYN of an IPv6 connection is reported field by field when TCP
    follows the fixed header, and not at all when an extension header does. *)
Theorem parse_syn_ipv6 h t tl :
  ipv6_ok h → tcp_ok t →
  parse_syn (Some (enc_ipv6 h ++ enc_tcp t ++ tl)) =
    Ok (if h6_next h =? IPPROTO_TCP then
          Some (mkSynReport (zlen (enc_ipv6 h ++ enc_tcp t ++ tl))
            (mkIpInfo None (h6_hops h) 6 (inet_ntop6 (h6_dst h)) (inet_ntop6 (h6_src h)))
            (tcp_info t))
        else None).
Proof.
  intros Hh Ht. destruct (ipv6_first h (enc_tcp t ++ tl) Hh) as (b0 & l & E & Hv).
  rewrite (parse_syn_run _ b0 l 6 E Hv). set (n := zlen _).
  pose proof (parse_ipv6_parses h Hh) as HP. destruct (h6_next h =? IPPROTO_TCP).
  - rewrite app_assoc. erewrite parses_run; [done|]. eapply parses_bind; [done|].
    eapply parses_last; [by apply parse_tcp_parses|apply parses_ret].
  - erewrite parses_run; [done|]. eapply parses_last; [done|apply parses_ret].
Qed.

(** A concrete input for [parse_syn_ipv6]: a hop-by-hop options header in front of TCP. *)
Lemma parse_syn_ipv6_witness :
  parse_syn (Some (enc_ipv6 (mkIpv6Header 0 40 0 64 (replicate 16 0) (replicate 16 1)) ++
                   enc_tcp sample_tcp ++ [])) = Ok None.
Proof.
  apply (parse_syn_ipv6 (mkIpv6Header 0 40 0 64 (replicate 16 0) (replicate 16 1))
    sample_tcp []); by_eval.
Defined.

Lemma parse_syn_ok data :
  bytes_ok (default [] data) →
  ∃ r, parse_syn data = Ok r ∧
  match r with
  | None => True
  | Some s => cap_length s = zlen (default [] data) ∧
      (ip_version (syn_ip s) = 4 ∨ ip_version (syn_ip s) = 6) ∧
      0 ≤ tcp_src_port (syn_tcp s) < 65536 ∧ 0 ≤ tcp_dst_port (syn_tcp s) < 65536
  end.
Proof.
  destruct data as [[|b0 l]|]; intros Hb; [by exists None| |by exists None].
  rewrite (parse_syn_run _ b0 l _ eq_refl eq_refl). cbn [default id] in *.
  set (v := Z.shiftr b0 4). set (n := zlen (b0 :: l)).
  pose proof (syn_parser_sound v n (new_reader (b0 :: l)) (reader_ok_new _ Hb)) as H.
  set (m := (_ ≫= _)) in *. destruct (m (new_reader (b0 :: l))) as [[r|e] r']; cbn.
  - destruct H as (bs & _ & HQ). exists r. split; [done|]. destruct r; [by apply HQ|done].
  - rewrite H. by exists None.
Qed.

(** Whatever the kernel returns, [parse_syn] returns: a packet of any length
    and any content gives a report or none, and a report names the captured
    length, an IP version of 4 or 6 and in-range ports. *)
Theorem parse_syn_total data :
  bytes_ok (default [] data) →
  ∃ r, parse_syn data = Ok r ∧
  match r with
  | None => True
  | Some s => cap_length s = zlen (default [] data) ∧
      (ip_version (syn_ip s) = 4 ∨ ip_version (syn_ip s) = 6) ∧
      0 ≤ tcp_src_port (syn_tcp s) < 65536 ∧ 0 ≤ tcp_dst_port (syn_tcp s) < 65536
  end.
Proof. apply parse_syn_ok. Qed.

(** A concrete input for [parse_syn_total]: a packet cut inside its addresses. *)
Lemma parse_syn_total_witness :
  ∃ r, parse_syn (Some [0x45; 0; 0; 60; 1; 2]) = Ok r ∧ r = None.
Proof.
  destruct (parse_syn_total (Some [0x45; 0; 0; 60; 1; 2]) ltac:(by_eval)) as (r & E & _).
  exists r. split; [exact E|]. vm_compute in E. by injection E.
Defined.
