(* ===== verification/Frames.v ===== *)
(** * HTTP/2 frames (src/solvetls/http2/frames.py)

    The frame reader and the frame builder.  [HTTP2FrameReader] is the object of
    the class of the same name; its attributes carry the prefix [fr] and every
    method is a computation of [M HTTP2FrameReader], so an exception leaves the
    position, the payload bound and the entry counter as the code leaves them.
    The contract of the reader is stated and proved in FrameSpec.v. *)

From S2P Require Import Prelude PyText Naming.

(** ** Enumerations and constants *)

Definition FrameType : list (string * Z) :=
  [("DATA"%string, 0x00); ("HEADERS"%string, 0x01); ("PRIORITY"%string, 0x02);
   ("RST_STREAM"%string, 0x03); ("SETTINGS"%string, 0x04); ("PUSH_PROMISE"%string, 0x05);
   ("PING"%string, 0x06); ("GOAWAY"%string, 0x07); ("WINDOW_UPDATE"%string, 0x08);
   ("CONTINUATION"%string, 0x09); ("ALTSVC"%string, 0x0A); ("ORIGIN"%string, 0x0C);
   ("PRIORITY_UPDATE"%string, 0x10)].

(** [ACK] has the value of [END_STREAM]: in an [IntEnum] it is an alias. *)
Definition FrameFlags : list (string * Z) :=
  [("END_STREAM"%string, 0x01); ("END_HEADERS"%string, 0x04); ("PADDED"%string, 0x08);
   ("PRIORITY"%string, 0x20); ("ACK"%string, 0x01)].

Definition ErrorCode : list (string * Z) :=
  [("NO_ERROR"%string, 0x00); ("PROTOCOL_ERROR"%string, 0x01);
   ("INTERNAL_ERROR"%string, 0x02); ("FLOW_CONTROL_ERROR"%string, 0x03);
   ("SETTINGS_TIMEOUT"%string, 0x04); ("STREAM_CLOSED"%string, 0x05);
   ("FRAME_SIZE_ERROR"%string, 0x06); ("REFUSED_STREAM"%string, 0x07);
   ("CANCEL"%string, 0x08); ("COMPRESSION_ERROR"%string, 0x09);
   ("CONNECT_ERROR"%string, 0x0A); ("ENHANCE_YOUR_CALM"%string, 0x0B);
   ("INADEQUATE_SECURITY"%string, 0x0C); ("HTTP_1_1_REQUIRED"%string, 0x0D)].

Definition SettingsIdentifier : list (string * Z) :=
  [("HEADER_TABLE_SIZE"%string, 0x01); ("ENABLE_PUSH"%string, 0x02);
   ("MAX_CONCURRENT_STREAMS"%string, 0x03); ("INITIAL_WINDOW_SIZE"%string, 0x04);
   ("MAX_FRAME_SIZE"%string, 0x05); ("MAX_HEADER_LIST_SIZE"%string, 0x06);
   ("ENABLE_CONNECT_PROTOCOL"%string, 0x08); ("NO_RFC7540_PRIORITIES"%string, 0x09)].

Definition FT_DATA : Z := Eval compute in member FrameType "DATA".
Definition FT_HEADERS : Z := Eval compute in member FrameType "HEADERS".
Definition FT_PRIORITY : Z := Eval compute in member FrameType "PRIORITY".
Definition FT_RST_STREAM : Z := Eval compute in member FrameType "RST_STREAM".
Definition FT_SETTINGS : Z := Eval compute in member FrameType "SETTINGS".
Definition FT_PUSH_PROMISE : Z := Eval compute in member FrameType "PUSH_PROMISE".
Definition FT_PING : Z := Eval compute in member FrameType "PING".
Definition FT_GOAWAY : Z := Eval compute in member FrameType "GOAWAY".
Definition FT_WINDOW_UPDATE : Z := Eval compute in member FrameType "WINDOW_UPDATE".
Definition FT_CONTINUATION : Z := Eval compute in member FrameType "CONTINUATION".
Definition FT_ALTSVC : Z := Eval compute in member FrameType "ALTSVC".
Definition FT_ORIGIN : Z := Eval compute in member FrameType "ORIGIN".
Definition FT_PRIORITY_UPDATE : Z := Eval compute in member FrameType "PRIORITY_UPDATE".

Definition FF_END_STREAM : Z := Eval compute in member FrameFlags "END_STREAM".
Definition FF_END_HEADERS : Z := Eval compute in member FrameFlags "END_HEADERS".
Definition FF_PADDED : Z := Eval compute in member FrameFlags "PADDED".
Definition FF_PRIORITY : Z := Eval compute in member FrameFlags "PRIORITY".
Definition FF_ACK : Z := Eval compute in member FrameFlags "ACK".

Definition EC_NO_ERROR : Z := Eval compute in member ErrorCode "NO_ERROR".
Definition EC_PROTOCOL_ERROR : Z := Eval compute in member ErrorCode "PROTOCOL_ERROR".
Definition EC_FLOW_CONTROL_ERROR : Z := Eval compute in member ErrorCode "FLOW_CONTROL_ERROR".
Definition EC_FRAME_SIZE_ERROR : Z := Eval compute in member ErrorCode "FRAME_SIZE_ERROR".
Definition EC_ENHANCE_YOUR_CALM : Z := Eval compute in member ErrorCode "ENHANCE_YOUR_CALM".

Definition SI_ENABLE_PUSH : Z := Eval compute in member SettingsIdentifier "ENABLE_PUSH".
Definition SI_INITIAL_WINDOW_SIZE : Z :=
  Eval compute in member SettingsIdentifier "INITIAL_WINDOW_SIZE".
Definition SI_MAX_FRAME_SIZE : Z := Eval compute in member SettingsIdentifier "MAX_FRAME_SIZE".

Definition FRAME_HEADER_SIZE : Z := 9.
Definition DEFAULT_MAX_FRAME_SIZE : Z := 16384.
Definition MAX_ALLOWED_FRAME_SIZE : Z := 16777215.
Definition MAX_STREAM_ID : Z := 0x7FFFFFFF.
Definition RESERVED_BIT_MASK : Z := 0x80000000.
Definition PING_PAYLOAD_SIZE : Z := 8.
Definition PRIORITY_PAYLOAD_SIZE : Z := 5.
Definition RST_STREAM_PAYLOAD_SIZE : Z := 4.
Definition WINDOW_UPDATE_PAYLOAD_SIZE : Z := 4.
Definition SETTINGS_ENTRY_SIZE : Z := 6.

(** ** Data *)

Record FrameHeader := mkFrameHeader {
  fh_length : Z;
  fh_type : Z;
  fh_flags : Z;
  fh_stream_id : Z;
}.

Record PriorityInfo := mkPriorityInfo {
  exclusive : bool;
  dependency : Z;
  weight : Z;
}.

Inductive PayloadType :=
  | DataPayload (data : bytes) (end_stream padded : bool)
  | HeadersPayload (header_block : bytes) (priority : option PriorityInfo)
      (end_stream end_headers padded : bool)
  | PriorityPayload (info : PriorityInfo)
  | RstStreamPayload (error_code : Z)
  | SettingsPayload (ack : bool) (settings : option (list (Z * Z))) (entries : list (Z * Z))
  | PushPromisePayload (promised_stream_id : Z) (header_block : bytes)
      (end_headers padded : bool)
  | PingPayload (data : bytes) (ack : bool)
  | GoawayPayload (last_stream_id error_code : Z) (debug_data : bytes)
  | WindowUpdatePayload (increment : Z)
  | ContinuationPayload (header_block : bytes) (end_headers : bool)
  | AltSvcPayload (origin field_value : bytes)
  | OriginPayload (origins : list bytes)
  | PriorityUpdatePayload (prioritized_stream_id : Z) (priority_field_value : bytes)
  | UnknownPayload (unknown_type : Z) (raw_payload : bytes) (parse_error : option text)
      (error_code : option Z).

Record ParsedFrame := mkParsedFrame {
  pf_header : FrameHeader;
  pf_payload : PayloadType;
  pf_raw : bytes;
}.

(** [bool(header.flags & flag)] *)
Definition has_flag (h : FrameHeader) (flag : Z) : bool := negb (Z.land (fh_flags h) flag =? 0).

(** ** The reader *)

Record HTTP2FrameReader := mkFrameReader {
  fr_data : bytes;
  fr_pos : Z;
  fr_max_frame_size : Z;
  fr_strict_padding : bool;
  fr_forensic : bool;
  fr_payload_end : option Z;
  fr_max_entries : option Z;
  fr_entries_read : Z;
}.

Definition new_frame_reader (data : bytes) (max_frame_size : Z)
    (strict_padding forensic : bool) (max_entries : option Z) : HTTP2FrameReader :=
  mkFrameReader data 0 (Z.min max_frame_size MAX_ALLOWED_FRAME_SIZE)
    strict_padding forensic None max_entries 0.

Abbreviation FR := (M HTTP2FrameReader).

Definition fr_set_pos (p : Z) (r : HTTP2FrameReader) : HTTP2FrameReader :=
  mkFrameReader (fr_data r) p (fr_max_frame_size r) (fr_strict_padding r) (fr_forensic r)
    (fr_payload_end r) (fr_max_entries r) (fr_entries_read r).

Definition fr_set_payload_end (e : option Z) (r : HTTP2FrameReader) : HTTP2FrameReader :=
  mkFrameReader (fr_data r) (fr_pos r) (fr_max_frame_size r) (fr_strict_padding r)
    (fr_forensic r) e (fr_max_entries r) (fr_entries_read r).

Definition fr_set_entries (n : Z) (r : HTTP2FrameReader) : HTTP2FrameReader :=
  mkFrameReader (fr_data r) (fr_pos r) (fr_max_frame_size r) (fr_strict_padding r)
    (fr_forensic r) (fr_payload_end r) (fr_max_entries r) n.

(** [raise HTTP2FrameParsingError(message)]; the default code is PROTOCOL_ERROR. *)
Definition frame_error {A} (message : text) (code : Z) : FR A :=
  raise (HTTP2FrameParsingError message code).

Definition protocol_error {A} (message : text) : FR A :=
  frame_error message EC_PROTOCOL_ERROR.

Definition _reserve_entries (count : Z) : FR unit := λ r,
  match fr_max_entries r with
  | Some m =>
      if fr_entries_read r + count >? m then
        frame_error (u "HTTP/2 decoded entry limit exceeded") EC_ENHANCE_YOUR_CALM r
      else (Ok tt, fr_set_entries (fr_entries_read r + count) r)
  | None => (Ok tt, fr_set_entries (fr_entries_read r + count) r)
  end.

Definition _read (n : Z) : FR bytes := λ r,
  let end_ := match fr_payload_end r with Some e => e | None => zlen (fr_data r) end in
  if (n <? 0) || (fr_pos r + n >? end_) then
    frame_error
      (u "Insufficient data: need " ++ str_int n ++ u " bytes, have " ++
       str_int (end_ - fr_pos r))
      EC_FRAME_SIZE_ERROR r
  else
    (Ok (slice (fr_data r) (fr_pos r) (fr_pos r + n)), fr_set_pos (fr_pos r + n) r).

Definition _read_uint8 : FR Z := b ← _read 1; mret (be_val b).

Definition _read_uint16 : FR Z := b ← _read 2; mret (be_val b).

Definition _read_uint24 : FR Z := b ← _read 3; mret (be_val (0 :: b)).

Definition _read_uint32 : FR Z := b ← _read 4; mret (be_val b).

Definition _read_uint32_with_reserved : FR Z :=
  v ← _read_uint32; mret (Z.land v MAX_STREAM_ID).

Definition _read_priority : FR PriorityInfo :=
  raw_dependency ← _read_uint32;
  w ← _read_uint8;
  mret (mkPriorityInfo (negb (Z.land raw_dependency RESERVED_BIT_MASK =? 0))
          (Z.land raw_dependency MAX_STREAM_ID) (w + 1)).

Definition _read_padding_length (header : FrameHeader) : FR Z :=
  if negb (has_flag header FF_PADDED) then mret 0
  else
    length ← _read_uint8;
    if length >=? fh_length header then protocol_error (u "Invalid padding length")
    else mret length.

Definition _skip_padding (length : Z) : FR unit :=
  padding ← _read length;
  strict ← gets fr_strict_padding;
  if strict && existsb (λ b, negb (b =? 0)) padding
  then protocol_error (u "Padding must be zero")
  else mret tt.

Definition _parse_data (header : FrameHeader) : FR PayloadType :=
  if fh_stream_id header =? 0 then
    protocol_error (u "DATA frame must have non-zero stream ID")
  else
    pad_length ← _read_padding_length header;
    let data_length :=
      fh_length header - (if has_flag header FF_PADDED then 1 else 0) - pad_length in
    if data_length <? 0 then protocol_error (u "Invalid data length")
    else
      data ← _read data_length;
      _ ← _skip_padding pad_length;
      mret (DataPayload data (has_flag header FF_END_STREAM) (has_flag header FF_PADDED)).

Definition _parse_headers (header : FrameHeader) : FR PayloadType :=
  if fh_stream_id header =? 0 then
    protocol_error (u "HEADERS frame must have non-zero stream ID")
  else
    pad_length ← _read_padding_length header;
    priority_data ←
      (if has_flag header FF_PRIORITY then p ← _read_priority; mret (Some p)
       else mret None);
    let header_block_length := fh_length header in
    let header_block_length :=
      if has_flag header FF_PADDED then header_block_length - 1 else header_block_length in
    let header_block_length :=
      if has_flag header FF_PRIORITY then header_block_length - 5 else header_block_length in
    let header_block_length := header_block_length - pad_length in
    if header_block_length <? 0 then protocol_error (u "Invalid header block length")
    else
      header_block ← _read header_block_length;
      _ ← _skip_padding pad_length;
      mret (HeadersPayload header_block priority_data (has_flag header FF_END_STREAM)
              (has_flag header FF_END_HEADERS) (has_flag header FF_PADDED)).

Definition _parse_priority (header : FrameHeader) : FR PayloadType :=
  if negb (fh_length header =? PRIORITY_PAYLOAD_SIZE) then
    frame_error (u "PRIORITY frame must be 5 bytes") EC_FRAME_SIZE_ERROR
  else if fh_stream_id header =? 0 then
    protocol_error (u "PRIORITY frame must have non-zero stream ID")
  else
    p ← _read_priority; mret (PriorityPayload p).

Definition _parse_rst_stream (header : FrameHeader) : FR PayloadType :=
  if negb (fh_length header =? RST_STREAM_PAYLOAD_SIZE) then
    frame_error (u "RST_STREAM frame must be 4 bytes") EC_FRAME_SIZE_ERROR
  else if fh_stream_id header =? 0 then
    protocol_error (u "RST_STREAM frame must have non-zero stream ID")
  else
    error_code ← _read_uint32; mret (RstStreamPayload error_code).

(** The body of the loop of [_parse_settings]: read and validate one entry. *)
Definition settings_entry : FR (Z * Z) :=
  setting_id ← _read_uint16;
  setting_value ← _read_uint32;
  if (setting_id =? SI_ENABLE_PUSH) && negb ((setting_value =? 0) || (setting_value =? 1)) then
    protocol_error (u "SETTINGS_ENABLE_PUSH must be 0 or 1")
  else if (setting_id =? SI_INITIAL_WINDOW_SIZE) && (setting_value >? MAX_STREAM_ID) then
    frame_error (u "SETTINGS_INITIAL_WINDOW_SIZE exceeds maximum") EC_FLOW_CONTROL_ERROR
  else if (setting_id =? SI_MAX_FRAME_SIZE) &&
          negb ((DEFAULT_MAX_FRAME_SIZE <=? setting_value) &&
                (setting_value <=? MAX_ALLOWED_FRAME_SIZE)) then
    protocol_error (u "SETTINGS_MAX_FRAME_SIZE is outside the allowed range")
  else mret (setting_id, setting_value).

(** [for _ in range(n)] with the accumulators [settings] and [entries]. *)
Fixpoint settings_loop (n : nat) (settings entries : list (Z * Z))
    : FR (list (Z * Z) * list (Z * Z)) :=
  match n with
  | O => mret (settings, entries)
  | S n =>
      e ← settings_entry;
      settings_loop n (dict_set e.1 e.2 settings) (entries ++ [e])
  end.

Definition _parse_settings (header : FrameHeader) : FR PayloadType :=
  if negb (fh_stream_id header =? 0) then
    protocol_error (u "SETTINGS frame must have stream ID = 0")
  else if has_flag header FF_ACK then
    if negb (fh_length header =? 0) then
      frame_error (u "SETTINGS ACK must have empty payload") EC_FRAME_SIZE_ERROR
    else mret (SettingsPayload true None [])
  else if negb (fh_length header mod SETTINGS_ENTRY_SIZE =? 0) then
    frame_error (u "Invalid SETTINGS payload length") EC_FRAME_SIZE_ERROR
  else
    _ ← _reserve_entries (fh_length header / SETTINGS_ENTRY_SIZE);
    acc ← settings_loop (Z.to_nat (fh_length header / SETTINGS_ENTRY_SIZE)) [] [];
    mret (SettingsPayload false (Some acc.1) acc.2).

Definition _parse_push_promise (header : FrameHeader) : FR PayloadType :=
  if fh_stream_id header =? 0 then
    protocol_error (u "PUSH_PROMISE frame must have non-zero stream ID")
  else
    pad_length ← _read_padding_length header;
    promised_stream_id ← _read_uint32_with_reserved;
    if promised_stream_id =? 0 then
      protocol_error (u "Promised stream ID must be non-zero")
    else
      let header_block_length := fh_length header in
      let header_block_length :=
        if has_flag header FF_PADDED then header_block_length - 1 else header_block_length in
      let header_block_length := header_block_length - 4 in
      let header_block_length := header_block_length - pad_length in
      if header_block_length <? 0 then protocol_error (u "Invalid header block length")
      else
        header_block ← _read header_block_length;
        _ ← _skip_padding pad_length;
        mret (PushPromisePayload promised_stream_id header_block
                (has_flag header FF_END_HEADERS) (has_flag header FF_PADDED)).

Definition _parse_ping (header : FrameHeader) : FR PayloadType :=
  if negb (fh_stream_id header =? 0) then
    protocol_error (u "PING frame must have stream ID = 0")
  else if negb (fh_length header =? PING_PAYLOAD_SIZE) then
    frame_error (u "PING frame must be 8 bytes") EC_FRAME_SIZE_ERROR
  else
    data ← _read PING_PAYLOAD_SIZE;
    mret (PingPayload data (has_flag header FF_ACK)).

Definition _parse_goaway (header : FrameHeader) : FR PayloadType :=
  if negb (fh_stream_id header =? 0) then
    protocol_error (u "GOAWAY frame must have stream ID = 0")
  else if fh_length header <? 8 then
    frame_error (u "GOAWAY frame must be at least 8 bytes") EC_FRAME_SIZE_ERROR
  else
    last_stream_id ← _read_uint32_with_reserved;
    error_code ← _read_uint32;
    let debug_data_length := fh_length header - 8 in
    debug_data ← (if debug_data_length >? 0 then _read debug_data_length else mret []);
    mret (GoawayPayload last_stream_id error_code debug_data).

Definition _parse_window_update (header : FrameHeader) : FR PayloadType :=
  if negb (fh_length header =? WINDOW_UPDATE_PAYLOAD_SIZE) then
    frame_error (u "WINDOW_UPDATE frame must be 4 bytes") EC_FRAME_SIZE_ERROR
  else
    increment ← _read_uint32_with_reserved;
    if increment =? 0 then protocol_error (u "Window size increment must not be 0")
    else mret (WindowUpdatePayload increment).

Definition _parse_continuation (header : FrameHeader) : FR PayloadType :=
  if fh_stream_id header =? 0 then
    protocol_error (u "CONTINUATION frame must have non-zero stream ID")
  else
    header_block ← _read (fh_length header);
    mret (ContinuationPayload header_block (has_flag header FF_END_HEADERS)).

Definition _parse_altsvc (header : FrameHeader) : FR PayloadType :=
  if fh_length header <? 2 then protocol_error (u "ALTSVC frame too short")
  else
    origin_len ← _read_uint16;
    if origin_len >? fh_length header - 2 then
      protocol_error (u "Invalid origin length in ALTSVC")
    else
      origin ← _read origin_len;
      let field_value_len := fh_length header - 2 - origin_len in
      field_value ← _read field_value_len;
      mret (AltSvcPayload origin field_value).

(** The [while] loop of [_parse_origin].  Every turn consumes two bytes at least,
    so the fuel given by [_parse_origin] is never exhausted. *)
Fixpoint origin_loop (fuel : nat) (length bytes_read : Z) (origins : list bytes)
    : FR (list bytes) :=
  match fuel with
  | O => raise OutOfFuel
  | S fuel =>
      if bytes_read <? length then
        if bytes_read + 2 >? length then
          protocol_error (u "Invalid ORIGIN frame format")
        else
          origin_len ← _read_uint16;
          let bytes_read := bytes_read + 2 in
          if bytes_read + origin_len >? length then
            protocol_error (u "Invalid origin length in ORIGIN frame")
          else
            _ ← _reserve_entries 1;
            origin ← _read origin_len;
            origin_loop fuel length (bytes_read + origin_len) (origins ++ [origin])
      else mret origins
  end.

Definition _parse_origin (header : FrameHeader) : FR PayloadType :=
  if negb (fh_stream_id header =? 0) then
    protocol_error (u "ORIGIN frame must have stream ID = 0")
  else
    origins ← origin_loop (S (Z.to_nat (fh_length header))) (fh_length header) 0 [];
    mret (OriginPayload origins).

Definition _parse_priority_update (header : FrameHeader) : FR PayloadType :=
  if negb (fh_stream_id header =? 0) then
    protocol_error (u "PRIORITY_UPDATE frame must have stream ID = 0")
  else if fh_length header <? 4 then
    frame_error (u "PRIORITY_UPDATE frame too short") EC_FRAME_SIZE_ERROR
  else
    prioritized_stream_id ← _read_uint32_with_reserved;
    if prioritized_stream_id =? 0 then
      protocol_error (u "Prioritized stream ID must be non-zero")
    else
      let priority_field_value_len := fh_length header - 4 in
      priority_field_value ← _read priority_field_value_len;
      mret (PriorityUpdatePayload prioritized_stream_id priority_field_value).

(** The dictionary [parsers]. *)
Definition parsers : list (Z * (FrameHeader → FR PayloadType)) :=
  [(FT_DATA, _parse_data); (FT_HEADERS, _parse_headers); (FT_PRIORITY, _parse_priority);
   (FT_RST_STREAM, _parse_rst_stream); (FT_SETTINGS, _parse_settings);
   (FT_PUSH_PROMISE, _parse_push_promise); (FT_PING, _parse_ping);
   (FT_GOAWAY, _parse_goaway); (FT_WINDOW_UPDATE, _parse_window_update);
   (FT_CONTINUATION, _parse_continuation); (FT_ALTSVC, _parse_altsvc);
   (FT_ORIGIN, _parse_origin); (FT_PRIORITY_UPDATE, _parse_priority_update)].

Definition _parse_payload_by_type (header : FrameHeader) : FR PayloadType :=
  match dict_get (fh_type header) parsers with
  | Some parser => parser header
  | None =>
      raw_payload ← _read (fh_length header);
      mret (UnknownPayload (fh_type header) raw_payload None None)
  end.

(** The [try] block of [parse_frame]. *)
Definition parse_exact_payload (header : FrameHeader) (payload_start : Z) : FR PayloadType :=
  payload_data ← _parse_payload_by_type header;
  pos ← gets fr_pos;
  let bytes_read := pos - payload_start in
  if negb (bytes_read =? fh_length header) then
    frame_error
      (u "Payload: expected " ++ str_int (fh_length header) ++ u " bytes, read " ++
       str_int bytes_read)
      EC_FRAME_SIZE_ERROR
  else mret payload_data.

(** The [except HTTP2FrameParsingError] clause of [parse_frame]. *)
Definition payload_failure (frame_type payload_start payload_end : Z) (error : exn)
    : FR PayloadType :=
  match error with
  | HTTP2FrameParsingError msg code =>
      if code =? EC_ENHANCE_YOUR_CALM then raise error
      else
        forensic ← gets fr_forensic;
        if negb forensic && negb (mem frame_type [FT_ALTSVC; FT_ORIGIN]) then raise error
        else
          _ ← modify (fr_set_pos payload_end);
          data ← gets fr_data;
          mret (UnknownPayload frame_type (slice data payload_start payload_end)
                  (Some msg) (Some code))
  | _ => raise error
  end.

(** [parse_frame] once the header has been read: the size checks, the payload
    under its own bound, and the frame with its raw octets. *)
Definition parse_frame_body (data : bytes) (frame_start : Z) (header : FrameHeader)
    : FR ParsedFrame :=
  max_frame_size ← gets fr_max_frame_size;
  if fh_length header >? max_frame_size then
    frame_error
      (u "Frame size " ++ str_int (fh_length header) ++ u " exceeds maximum " ++
       str_int max_frame_size)
      EC_FRAME_SIZE_ERROR
  else
    payload_start ← gets fr_pos;
    if fh_length header >? zlen data - payload_start then
      frame_error (u "Incomplete frame payload") EC_FRAME_SIZE_ERROR
    else
      let payload_end := payload_start + fh_length header in
      _ ← modify (fr_set_payload_end (Some payload_end));
      payload_data ←
        finally
          (try_except (parse_exact_payload header payload_start)
             (payload_failure (fh_type header) payload_start payload_end))
          (fr_set_payload_end None);
      mret (mkParsedFrame header payload_data (slice data frame_start payload_end)).

Definition parse_frame : FR ParsedFrame :=
  frame_start ← gets fr_pos;
  data ← gets fr_data;
  if zlen data - frame_start <? FRAME_HEADER_SIZE then
    frame_error (u "Incomplete frame header") EC_FRAME_SIZE_ERROR
  else
    frame_length ← _read_uint24;
    frame_type ← _read_uint8;
    frame_flags ← _read_uint8;
    stream_id ← _read_uint32_with_reserved;
    parse_frame_body data frame_start
      (mkFrameHeader frame_length frame_type frame_flags stream_id).

Definition has_more_frames : FR bool := gets (λ r, fr_pos r <? zlen (fr_data r)).

(** ** The builder *)

(** [struct.pack] of one unsigned [n]-byte integer. *)
Definition struct_pack (n : nat) (v : Z) : result bytes :=
  if (0 <=? v) && (v <? 256 ^ Z.of_nat n) then Ok (be_bytes n v) else Err StructError.

Definition _build_frame (frame_type flags stream_id : Z) (payload : bytes) : result bytes :=
  if zlen payload >? MAX_ALLOWED_FRAME_SIZE then
    Err (ValueError (u "Frame length exceeds maximum (" ++ str_int MAX_ALLOWED_FRAME_SIZE ++
                     u ")"))
  else if negb ((0 <=? stream_id) && (stream_id <=? MAX_STREAM_ID)) then
    Err (ValueError (u "Stream ID must be between 0 and " ++ str_int MAX_STREAM_ID))
  else
    len ← struct_pack 4 (zlen payload);
    t ← struct_pack 1 frame_type;
    f ← struct_pack 1 flags;
    sid ← struct_pack 4 stream_id;
    mret (drop 1 len ++ (t ++ f) ++ sid ++ payload).

Definition build_headers_frame (stream_id : Z) (header_block : bytes)
    (end_stream end_headers : bool) : result bytes :=
  let flags := 0 in
  let flags := if end_stream then Z.lor flags FF_END_STREAM else flags in
  let flags := if end_headers then Z.lor flags FF_END_HEADERS else flags in
  _build_frame FT_HEADERS flags stream_id header_block.

(** The loop over [settings.items()]. *)
Fixpoint pack_settings (settings : list (Z * Z)) (payload : bytes) : result bytes :=
  match settings with
  | [] => Ok payload
  | (setting_id, value) :: settings =>
      i ← struct_pack 2 setting_id;
      v ← struct_pack 4 value;
      pack_settings settings (payload ++ i ++ v)
  end.

Definition build_settings_frame (settings : option (list (Z * Z))) (ack : bool)
    : result bytes :=
  let flags := if ack then FF_ACK else 0 in
  payload ←
    (match settings with
     | Some s => if ack then Ok [] else pack_settings s []
     | None => Ok []
     end);
  _build_frame FT_SETTINGS flags 0 payload.
