(* ===== verification/FrameSpec.v ===== *)
(** * The contract of the HTTP/2 frame reader

    [payload_wire] and [header_wire] say which octets carry which frame (RFC 9113
    section 6, RFC 7838, RFC 8336, RFC 9218, read the way a server reads them),
    without a position, a loop or an exception.  The theorems show that the reader
    of Frames.v accepts exactly these octets, consumes exactly one frame, and
    keeps to its budget of decoded entries; that an error it keeps is that of the octets,
    wherever they stand ([payload_outcome]); that forensic reading never fails on a
    complete frame; and that the builder writes what the reader reads. *)

From S2P Require Import Prelude PyText Naming Wire Frames.

(** ** The wire *)

(** A 31-bit field behind a reserved bit of either value. *)
Definition u31_wire (v : Z) (bs : bytes) : Prop :=
  0 ≤ v < 2 ^ 31 ∧ ∃ r : bool, bs = be_bytes 4 (Z.b2z r * 2 ^ 31 + v).

Definition priority_wire (p : PriorityInfo) (bs : bytes) : Prop :=
  0 ≤ dependency p < 2 ^ 31 ∧ 1 ≤ weight p ≤ 256 ∧
  bs = be_bytes 4 (Z.b2z (exclusive p) * 2 ^ 31 + dependency p) ++ be_bytes 1 (weight p - 1).

(** The padding of a frame and the octet that announces it. *)
Definition pad_prefix (h : FrameHeader) (pad : bytes) : bytes :=
  if has_flag h FF_PADDED then be_bytes 1 (zlen pad) else [].

Definition pad_ok (strict : bool) (h : FrameHeader) (pad : bytes) : Prop :=
  zlen pad < 256 ∧ (strict = true → Forall (λ b, b = 0) pad) ∧
  (has_flag h FF_PADDED = false → pad = []).

Definition padded_wire (strict : bool) (h : FrameHeader) (content bs : bytes) : Prop :=
  ∃ pad, pad_ok strict h pad ∧ bs = pad_prefix h pad ++ content ++ pad.

(** One SETTINGS parameter; RFC 9113 6.5.2 restricts three of them. *)
Definition setting_ok (e : Z * Z) : Prop :=
  0 ≤ e.1 < 65536 ∧ 0 ≤ e.2 < 4294967296 ∧
  (e.1 = SI_ENABLE_PUSH → e.2 = 0 ∨ e.2 = 1) ∧
  (e.1 = SI_INITIAL_WINDOW_SIZE → e.2 ≤ MAX_STREAM_ID) ∧
  (e.1 = SI_MAX_FRAME_SIZE → DEFAULT_MAX_FRAME_SIZE ≤ e.2 ≤ MAX_ALLOWED_FRAME_SIZE).

Definition enc_setting (e : Z * Z) : bytes := be_bytes 2 e.1 ++ be_bytes 4 e.2.

Inductive payload_wire (strict : bool) (h : FrameHeader) : PayloadType → bytes → Prop :=
  | PW_data data bs :
      fh_type h = FT_DATA → fh_stream_id h ≠ 0 → padded_wire strict h data bs →
      payload_wire strict h
        (DataPayload data (has_flag h FF_END_STREAM) (has_flag h FF_PADDED)) bs
  | PW_headers block prio pbs bs :
      fh_type h = FT_HEADERS → fh_stream_id h ≠ 0 →
      match prio with
      | Some p => has_flag h FF_PRIORITY = true ∧ priority_wire p pbs
      | None => has_flag h FF_PRIORITY = false ∧ pbs = []
      end →
      padded_wire strict h (pbs ++ block) bs →
      payload_wire strict h
        (HeadersPayload block prio (has_flag h FF_END_STREAM) (has_flag h FF_END_HEADERS)
           (has_flag h FF_PADDED)) bs
  | PW_priority p bs :
      fh_type h = FT_PRIORITY → fh_stream_id h ≠ 0 → priority_wire p bs →
      payload_wire strict h (PriorityPayload p) bs
  | PW_rst_stream code :
      fh_type h = FT_RST_STREAM → fh_stream_id h ≠ 0 → 0 ≤ code < 2 ^ 32 →
      payload_wire strict h (RstStreamPayload code) (be_bytes 4 code)
  | PW_settings_ack :
      fh_type h = FT_SETTINGS → fh_stream_id h = 0 → has_flag h FF_ACK = true →
      payload_wire strict h (SettingsPayload true None []) []
  | PW_settings es :
      fh_type h = FT_SETTINGS → fh_stream_id h = 0 → has_flag h FF_ACK = false →
      Forall setting_ok es →
      payload_wire strict h (SettingsPayload false (Some (dict_of es)) es)
        (concat (enc_setting <$> es))
  | PW_push_promise sid sbs block bs :
      fh_type h = FT_PUSH_PROMISE → fh_stream_id h ≠ 0 → u31_wire sid sbs → sid ≠ 0 →
      padded_wire strict h (sbs ++ block) bs →
      payload_wire strict h
        (PushPromisePayload sid block (has_flag h FF_END_HEADERS) (has_flag h FF_PADDED)) bs
  | PW_ping data :
      fh_type h = FT_PING → fh_stream_id h = 0 → zlen data = 8 →
      payload_wire strict h (PingPayload data (has_flag h FF_ACK)) data
  | PW_goaway sid sbs code debug :
      fh_type h = FT_GOAWAY → fh_stream_id h = 0 → u31_wire sid sbs → 0 ≤ code < 2 ^ 32 →
      payload_wire strict h (GoawayPayload sid code debug) (sbs ++ be_bytes 4 code ++ debug)
  | PW_window_update inc bs :
      fh_type h = FT_WINDOW_UPDATE → u31_wire inc bs → inc ≠ 0 →
      payload_wire strict h (WindowUpdatePayload inc) bs
  | PW_continuation block :
      fh_type h = FT_CONTINUATION → fh_stream_id h ≠ 0 →
      payload_wire strict h (ContinuationPayload block (has_flag h FF_END_HEADERS)) block
  | PW_altsvc origin field :
      fh_type h = FT_ALTSVC → zlen origin < 65536 →
      payload_wire strict h (AltSvcPayload origin field) (enc_vector 2 origin ++ field)
  | PW_origin origins :
      fh_type h = FT_ORIGIN → fh_stream_id h = 0 → Forall (λ o, zlen o < 65536) origins →
      payload_wire strict h (OriginPayload origins) (concat (enc_vector 2 <$> origins))
  | PW_priority_update sid sbs field :
      fh_type h = FT_PRIORITY_UPDATE → fh_stream_id h = 0 → u31_wire sid sbs → sid ≠ 0 →
      payload_wire strict h (PriorityUpdatePayload sid field) (sbs ++ field)
  | PW_unknown bs :
      fh_type h ∉ FrameType.*2 →
      payload_wire strict h (UnknownPayload (fh_type h) bs None None) bs.

(** The entries a payload counts against the budget of the capture. *)
Definition entries_of (p : PayloadType) : nat :=
  match p with
  | SettingsPayload _ _ es => length es
  | OriginPayload os => length os
  | _ => 0
  end.

(** The nine octets of a frame header. *)
Definition header_wire (h : FrameHeader) (bs : bytes) : Prop :=
  0 ≤ fh_length h < 16777216 ∧ 0 ≤ fh_type h < 256 ∧ 0 ≤ fh_flags h < 256 ∧
  ∃ sbs, u31_wire (fh_stream_id h) sbs ∧
    bs = be_bytes 3 (fh_length h) ++ be_bytes 1 (fh_type h) ++ be_bytes 1 (fh_flags h) ++ sbs.

(** ** Reader states

    A reader with configuration [c] that has consumed [pre] and has [w] ahead.
    [b] is [Some tl] inside a payload: [w] is what is left of the payload and [tl]
    follows it in the buffer. *)
Record config := mkConfig {
  c_max_frame_size : Z;
  c_strict : bool;
  c_forensic : bool;
  c_max_entries : option Z;
}.

Definition st (c : config) (b : option bytes) (pre w : bytes) (ent : Z) : HTTP2FrameReader :=
  mkFrameReader (pre ++ w ++ default [] b) (zlen pre) (c_max_frame_size c) (c_strict c)
    (c_forensic c) (match b with Some _ => Some (zlen pre + zlen w) | None => None end)
    (c_max_entries c) ent.

(** The entry counter keeps to the limit. *)
Definition within (c : config) (ent : Z) : Prop :=
  match c_max_entries c with Some m => ent ≤ m | None => True end.

(** The exceptions of the reader. *)
Definition frame_exn (c : config) (e : exn) : Prop :=
  ∃ msg code, e = HTTP2FrameParsingError msg code ∧ error_text msg ∧
    code ∈ [EC_PROTOCOL_ERROR; EC_FLOW_CONTROL_ERROR; EC_FRAME_SIZE_ERROR;
            EC_ENHANCE_YOUR_CALM] ∧
    (code = EC_ENHANCE_YOUR_CALM → c_max_entries c ≠ None).

(** [m] reads [bs], returns [a] and reserves [k] entries, whatever surrounds it. *)
Definition fparses {A} (c : config) (m : FR A) (bs : bytes) (a : A) (k : nat) : Prop :=
  ∀ b pre w ent, within c (ent + Z.of_nat k) →
    m (st c b pre (bs ++ w) ent) = (Ok a, st c b (pre ++ bs) w (ent + Z.of_nat k)).

(** Whatever [m] does, it moves forward inside its window, keeps to the budget and
    raises only frame errors; what it returns satisfies [Q]. *)
Definition fsound {A} (c : config) (m : FR A) (Q : A → bytes → bytes → nat → Prop) : Prop :=
  ∀ b pre w ent, bytes_ok w → within c ent →
    ∃ bs w' k, w = bs ++ w' ∧ within c (ent + Z.of_nat k) ∧
      (m (st c b pre w ent)).2 = st c b (pre ++ bs) w' (ent + Z.of_nat k) ∧
      match (m (st c b pre w ent)).1 with
      | Ok a => Q a bs w' k
      | Err e => frame_exn c e
      end.

(** ** Where a payload stands does not matter

    A parser of payloads that does not exceed the budget of its reader does, in a reader
    without one and at any other place, the same to the same octets. *)

Definition over_budget (e : exn) : Prop := ∃ msg, e = HTTP2FrameParsingError msg EC_ENHANCE_YOUR_CALM.

Definition portable {A} (m : FR A) : Prop := ∀ c tl pre w ent,
  (∃ e s', m (st c (Some tl) pre w ent) = (Err e, s') ∧ over_budget e) ∨
  ∃ r bs w' k, w = bs ++ w' ∧ m (st c (Some tl) pre w ent) = (r, st c (Some tl) (pre ++ bs) w' (ent + k)) ∧
    ∀ c0 tl0 pre0 ent0, c_strict c0 = c_strict c → c_max_entries c0 = None →
      m (st c0 (Some tl0) pre0 w ent0) = (r, st c0 (Some tl0) (pre0 ++ bs) w' (ent0 + k)).

Lemma portable_const {A} (r : result A) : portable (λ s, (r, s)).
Proof.
  intros c tl pre w ent. right. exists r, [], w, 0. split; [done|].
  split; [|intros c0 tl0 pre0 ent0 _ _]; by rewrite app_nil_r, Z.add_0_r.
Qed.

Lemma portable_ret {A} (a : A) : portable (mret a : FR A).
Proof. apply portable_const. Qed.

Lemma portable_raise {A} e : portable (raise (A := A) e : FR A).
Proof. apply portable_const. Qed.

Lemma portable_error {A} message code : portable (@frame_error A message code).
Proof. apply portable_const. Qed.

Lemma portable_protocol {A} message : portable (@protocol_error A message).
Proof. apply portable_const. Qed.

Lemma portable_bind {A B} (m : FR A) (f : A → FR B) :
  portable m → (∀ a, portable (f a)) → portable (m ≫= f).
Proof.
  intros Hm Hf c tl pre w ent. unfold mbind, M_bind.
  destruct (Hm c tl pre w ent) as [(e & s' & -> & He)|([a|e] & bs & w' & k & -> & -> & Hp)];
    [left; by exists e, s'| |].
  - destruct (Hf a c tl (pre ++ bs) w' (ent + k)) as [(e & s' & -> & He)|(r & bs2 & w2 & k2 & -> & -> & Hp2)];
      [left; by exists e, s'|right]. exists r, (bs ++ bs2), w2, (k + k2). split; [by rewrite app_assoc|].
    split; [by rewrite <-app_assoc, Z.add_assoc|]. intros c0 tl0 pre0 ent0 Hs Hn.
    rewrite Hp, Hp2 by done. by rewrite <-app_assoc, Z.add_assoc.
  - right. exists (Err e), bs, w', k. split; [done|]. split; [done|]. intros c0 tl0 pre0 ent0 Hs Hn. by rewrite Hp.
Qed.

Lemma st_read c tl pre w n ent :
  0 ≤ n ≤ zlen w →
  fr_set_pos (zlen pre + n) (st c (Some tl) pre w ent) =
    st c (Some tl) (pre ++ take (Z.to_nat n) w) (drop (Z.to_nat n) w) ent.
Proof.
  intros Hn. unfold fr_set_pos, st. cbn.
  assert (zlen (take (Z.to_nat n) w) = n) as Ht by (rewrite zlen_take; lia).
  assert (zlen (drop (Z.to_nat n) w) = zlen w - n) as Hd by (unfold zlen in *; rewrite length_drop; lia).
  rewrite !zlen_app, Ht, Hd, <-app_assoc. f_equal; [|f_equal; lia].
  by rewrite (app_assoc (take _ _)), take_drop.
Qed.

Lemma portable_read n : portable (_read n).
Proof.
  intros c tl pre w ent.
  assert (∀ c tl pre ent, _read n (st c (Some tl) pre w ent) =
    if (n <? 0) || (n >? zlen w) then
      (Err (HTTP2FrameParsingError (u "Insufficient data: need " ++ str_int n ++ u " bytes, have " ++ str_int (zlen w))
              EC_FRAME_SIZE_ERROR), st c (Some tl) pre w ent)
    else (Ok (take (Z.to_nat n) w), st c (Some tl) (pre ++ take (Z.to_nat n) w) (drop (Z.to_nat n) w) ent)) as Hr.
  { clear. intros c tl pre ent. unfold _read. cbn [fr_payload_end fr_pos fr_data st].
    replace (zlen pre + n >? zlen pre + zlen w) with (n >? zlen w) by lia.
    destruct ((n <? 0) || (n >? zlen w)) eqn:Eb.
    - unfold frame_error, raise. replace (zlen pre + zlen w - zlen pre) with (zlen w) by lia. done.
    - f_equal; [|apply st_read; lia]. f_equal. cbn [default].
      rewrite <-(take_drop (Z.to_nat n) w) at 1. rewrite <-app_assoc.
      pose proof (slice_prefix pre (take (Z.to_nat n) w) (drop (Z.to_nat n) w ++ tl)) as Hs.
      rewrite zlen_take in Hs by lia. exact Hs. }
  right. destruct ((n <? 0) || (n >? zlen w)) eqn:Eb.
  - eexists _, [], w, 0. split; [done|]. split; [by rewrite Hr, app_nil_r, Z.add_0_r|].
    intros c0 tl0 pre0 ent0 _ _. by rewrite Hr, app_nil_r, Z.add_0_r.
  - eexists _, (take (Z.to_nat n) w), (drop (Z.to_nat n) w), 0. split; [by rewrite take_drop|].
    split; [by rewrite Hr, Z.add_0_r|]. intros c0 tl0 pre0 ent0 _ _. by rewrite Hr, Z.add_0_r.
Qed.

Lemma portable_reserve n : portable (_reserve_entries n).
Proof.
  intros c tl pre w ent. unfold _reserve_entries.
  assert (∀ c tl pre ent, fr_set_entries (ent + n) (st c (Some tl) pre w ent) = st c (Some tl) (pre ++ []) w (ent + n)) as Hs.
  { intros. rewrite app_nil_r. done. }
  cbn [fr_max_entries fr_entries_read st]. destruct (c_max_entries c) as [limit|]; [destruct (_ >? _)|].
  1: left; eexists _, _; split; [reflexivity|by eexists].
  all: right; exists (Ok tt), [], w, n; split; [done|]; split; [by rewrite Hs|];
    intros c0 tl0 pre0 ent0 _ ->; by rewrite Hs.
Qed.

Lemma portable_strict {A} (f : bool → FR A) :
  (∀ b, portable (f b)) → portable (strict ← gets fr_strict_padding; f strict).
Proof.
  intros Hf c tl pre w ent. unfold mbind, M_bind, gets. cbn [fr_strict_padding st].
  destruct (Hf (c_strict c) c tl pre w ent) as [?|(r & bs & w' & k & Ew & E & Hp)]; [by left|right].
  exists r, bs, w', k. split; [done|]. split; [done|]. intros c0 tl0 pre0 ent0 Es En. rewrite Es. by apply Hp.
Qed.

Create HintDb portable.
#[local] Hint Resolve portable_ret portable_raise portable_error portable_protocol portable_read
  portable_reserve : portable.

Ltac portable_step :=
  first
    [ solve [auto with portable]
    | apply portable_strict; intros ?
    | apply portable_bind; [|intros ?]
    | lazymatch goal with
      | |- portable (if ?b then _ else _) => destruct b
      | |- portable (match ?x with _ => _ end) => destruct x
      end ].

Ltac portable_tac := repeat (cbv zeta; portable_step).

Lemma portable_uint8 : portable _read_uint8.
Proof. unfold _read_uint8. portable_tac. Qed.
Lemma portable_uint16 : portable _read_uint16.
Proof. unfold _read_uint16. portable_tac. Qed.
Lemma portable_uint32 : portable _read_uint32.
Proof. unfold _read_uint32. portable_tac. Qed.
#[local] Hint Resolve portable_uint8 portable_uint16 portable_uint32 : portable.
Lemma portable_reserved : portable _read_uint32_with_reserved.
Proof. unfold _read_uint32_with_reserved. portable_tac. Qed.
Lemma portable_priority : portable _read_priority.
Proof. unfold _read_priority. portable_tac. Qed.
Lemma portable_padding h : portable (_read_padding_length h).
Proof. unfold _read_padding_length. portable_tac. Qed.
Lemma portable_skip n : portable (_skip_padding n).
Proof. unfold _skip_padding. portable_tac. Qed.
#[local] Hint Resolve portable_reserved portable_priority portable_padding portable_skip : portable.

Lemma portable_settings n settings entries : portable (settings_loop n settings entries).
Proof.
  revert settings entries. induction n as [|n IH]; intros settings entries; cbn [settings_loop]; [portable_tac|].
  unfold settings_entry. portable_tac; apply IH.
Qed.

Lemma portable_origins fuel len n origins : portable (origin_loop fuel len n origins).
Proof.
  revert n origins. induction fuel as [|fuel IH]; intros n origins; cbn [origin_loop]; [portable_tac|].
  portable_tac; apply IH.
Qed.
#[local] Hint Resolve portable_settings portable_origins : portable.

Lemma portable_payload h : portable (_parse_payload_by_type h).
Proof.
  unfold _parse_payload_by_type. destruct (dict_get (fh_type h) parsers) as [p|] eqn:E; [|portable_tac].
  apply dict_get_elem in E. unfold parsers in E. rewrite !elem_of_cons in E.
  destruct E as [[= _ ->]|[[= _ ->]|[[= _ ->]|[[= _ ->]|[[= _ ->]|[[= _ ->]|[[= _ ->]|[[= _ ->]|[[= _ ->]|
    [[= _ ->]|[[= _ ->]|[[= _ ->]|[[= _ ->]|[]%elem_of_nil]]]]]]]]]]]]].
  all: unfold _parse_data, _parse_headers, _parse_priority, _parse_rst_stream, _parse_settings, _parse_push_promise,
    _parse_ping, _parse_goaway, _parse_window_update, _parse_continuation, _parse_altsvc, _parse_origin,
    _parse_priority_update; portable_tac.
Qed.

(** What parsing the payload [pl] of a frame comes to, in a reader of its own. *)
Definition payload_outcome (strict : bool) (h : FrameHeader) (pl : bytes) : result PayloadType :=
  (parse_exact_payload h 0 (st (mkConfig 0 strict true None) (Some []) [] pl 0)).1.

Lemma exact_portable c h tl pre w ent e s' :
  parse_exact_payload h (zlen pre) (st c (Some tl) pre w ent) = (Err e, s') →
  over_budget e ∨ payload_outcome (c_strict c) h w = Err e.
Proof.
  unfold payload_outcome, parse_exact_payload, mbind, M_bind, gets.
  destruct (portable_payload h c tl pre w ent) as [(e1 & s1 & -> & He)|(r & bs & w' & k & -> & -> & Hp)];
    intros E; [injection E as -> _; by left|right].
  rewrite (Hp (mkConfig 0 (c_strict c) true None) [] [] 0 eq_refl eq_refl). destruct r as [p|e1]; [|by injection E as -> _].
  cbn [fr_pos st] in E |- *. rewrite zlen_app, Z.add_simpl_l in E. rewrite app_nil_l, Z.sub_0_r.
  destruct (negb _); [|done]. by injection E as <- _.
Qed.

(** What a complete frame becomes: its decoded payload, or, where failures are kept instead
    of raised and its octets are no payload of its type, its raw payload with the error
    that they give; [k] entries were counted. *)
Inductive frame_outcome (c : config) (h : FrameHeader) (pl : bytes)
    : PayloadType → nat → Prop :=
  | FO_decoded p :
      payload_wire (c_strict c) h p pl → frame_outcome c h pl p (entries_of p)
  | FO_kept msg code k :
      error_text msg → c_forensic c = true ∨ fh_type h = FT_ALTSVC ∨ fh_type h = FT_ORIGIN →
      code ∈ [EC_PROTOCOL_ERROR; EC_FLOW_CONTROL_ERROR; EC_FRAME_SIZE_ERROR] →
      (∀ p, ¬ payload_wire (c_strict c) h p pl) →
      payload_outcome (c_strict c) h pl = Err (HTTP2FrameParsingError msg code) →
      frame_outcome c h pl (UnknownPayload (fh_type h) pl (Some msg) (Some code)) k.

(** ** Samples *)

Definition sample_config : config := mkConfig 16384 true false (Some 8).

(** A SETTINGS frame that sets INITIAL_WINDOW_SIZE twice, then one more octet. *)
Definition sample_payload : bytes := [0; 4; 0; 0; 255; 255; 0; 4; 0; 1; 0; 0].
Definition sample_frame : bytes := [0; 0; 12; 4; 0; 0; 0; 0; 0] ++ sample_payload.
Definition sample_header : FrameHeader := mkFrameHeader 12 FT_SETTINGS 0 0.

(** ** Rules *)

Section rules.
Context (c : config).

Lemma within_mono ent ent' : within c ent' → ent ≤ ent' → within c ent.
Proof. unfold within. destruct (c_max_entries c); [lia|done]. Qed.

Lemma fparses_ret {A} (a : A) : fparses c (mret a) [] a 0.
Proof.
  intros b pre w ent Hw. unfold mret, M_ret. simpl.
  by rewrite app_nil_r, Z.add_0_r.
Qed.

Lemma fparses_bind {A B} (m : FR A) (f : A → FR B) bs1 bs2 a v k1 k2 :
  fparses c m bs1 a k1 → fparses c (f a) bs2 v k2 →
  fparses c (m ≫= f) (bs1 ++ bs2) v (k1 + k2).
Proof.
  intros Hm Hf b pre w ent Hw. rewrite <-app_assoc.
  erewrite bind_ok by (apply Hm; eapply within_mono; [done|lia]).
  rewrite Hf by (eapply within_mono; [done|lia]).
  rewrite app_assoc, Nat2Z.inj_add, Z.add_assoc. done.
Qed.

Lemma fparses_seq {A B} (m : FR A) (f : A → FR B) bs1 bs2 a v k :
  fparses c m bs1 a 0 → fparses c (f a) bs2 v k → fparses c (m ≫= f) (bs1 ++ bs2) v k.
Proof. intros Hm Hf. apply (fparses_bind _ _ _ _ a v 0 k); done. Qed.

Lemma fparses_last {A B} (m : FR A) (f : A → FR B) bs a v k :
  fparses c m bs a k → fparses c (f a) [] v 0 → fparses c (m ≫= f) bs v k.
Proof.
  intros Hm Hf. rewrite <-(app_nil_r bs), <-(Nat.add_0_r k).
  by eapply fparses_bind.
Qed.

Lemma fparses_reserved {A B} (m : FR A) (f : A → FR B) bs a v k :
  fparses c m [] a k → fparses c (f a) bs v 0 → fparses c (m ≫= f) bs v k.
Proof.
  intros Hm Hf. rewrite <-(Nat.add_0_r k). by apply (fparses_bind _ _ [] bs a v k 0).
Qed.

Lemma fsound_weaken {A} (m : FR A) (Q Q' : A → bytes → bytes → nat → Prop) :
  fsound c m Q → (∀ a bs w k, Q a bs w k → Q' a bs w k) → fsound c m Q'.
Proof.
  intros Hm HQ b pre w ent Hw Hent.
  destruct (Hm b pre w ent Hw Hent) as (bs & w' & k & ? & ? & ? & HR).
  exists bs, w', k. split_and!; try done. destruct (m _).1; auto.
Qed.

Lemma fsound_ret {A} (a : A) (Q : A → bytes → bytes → nat → Prop) :
  (∀ w, Q a [] w 0%nat) → fsound c (mret a) Q.
Proof.
  intros HQ b pre w ent Hw Hent. exists [], w, 0%nat.
  simpl. rewrite app_nil_r, Z.add_0_r. done.
Qed.

Lemma fsound_err {A} msg code (Q : A → bytes → bytes → nat → Prop) :
  error_text msg → code ∈ [EC_PROTOCOL_ERROR; EC_FLOW_CONTROL_ERROR; EC_FRAME_SIZE_ERROR] →
  fsound c (frame_error msg code) Q.
Proof.
  intros Hm Hc b pre w ent Hw Hent. exists [], w, 0%nat.
  simpl. rewrite app_nil_r, Z.add_0_r. split_and!; try done.
  exists msg, code. split_and!; [done|done|set_solver|].
  intros ->. exfalso. revert Hc. by_eval.
Qed.

Lemma fsound_bind {A B} (m : FR A) (f : A → FR B) R Q :
  fsound c m R →
  (∀ a bs1 w1 k1, R a bs1 w1 k1 →
     fsound c (f a) (λ v bs2 w2 k2, w1 = bs2 ++ w2 → Q v (bs1 ++ bs2) w2 (k1 + k2)%nat)) →
  fsound c (m ≫= f) Q.
Proof.
  intros Hm Hf b pre w ent Hw Hent.
  destruct (Hm b pre w ent Hw Hent) as (bs1 & w1 & k1 & -> & H1 & HS & HR).
  unfold mbind, M_bind. destruct (m _) as [[a|e] s1]; simpl in *; subst s1.
  2:{ exists bs1, w1, k1. done. }
  apply bytes_ok_app in Hw as [_ Hw1].
  destruct (Hf a bs1 w1 k1 HR b (pre ++ bs1) w1 _ Hw1 H1)
    as (bs2 & w2 & k2 & -> & H2 & HS2 & HR2).
  exists (bs1 ++ bs2), w2, (k1 + k2)%nat.
  rewrite app_assoc, Nat2Z.inj_add, Z.add_assoc, HS2, app_assoc.
  split_and!; try done. by destruct (f a _).1; [apply HR2|].
Qed.

Lemma fsound_if {A} (t : bool) (m1 m2 : FR A) Q :
  (t = true → fsound c m1 Q) → (t = false → fsound c m2 Q) →
  fsound c (if t then m1 else m2) Q.
Proof. destruct t; auto. Qed.

(** *** Primitives *)

Lemma st_app b pre bs w ent :
  fr_set_pos (zlen pre + zlen bs) (st c b pre (bs ++ w) ent) = st c b (pre ++ bs) w ent.
Proof.
  unfold st, fr_set_pos; simpl. rewrite !zlen_app, <-!app_assoc.
  f_equal. destruct b; [f_equal; lia|done].
Qed.

Lemma st_end b pre w ent :
  match fr_payload_end (st c b pre w ent) with
  | Some e => e
  | None => zlen (fr_data (st c b pre w ent))
  end = zlen pre + zlen w.
Proof. destruct b; simpl; [done|]. by rewrite app_nil_r, zlen_app. Qed.

Lemma _read_parses n bs : zlen bs = n → fparses c (_read n) bs bs 0.
Proof.
  intros <- b pre w ent _. unfold _read. rewrite st_end. simpl fr_pos.
  pose proof (zlen_nonneg bs). pose proof (zlen_nonneg w).
  rewrite zlen_app, Z.gtb_ltb, Z.add_0_r. btest; try lia. simpl orb. cbv iota.
  f_equal; [|apply st_app]. simpl fr_data. rewrite <-!app_assoc. by rewrite slice_prefix.
Qed.

Lemma _read_sound n :
  fsound c (_read n) (λ a bs _ k, bs = a ∧ k = 0%nat ∧ zlen a = n ∧ bytes_ok a).
Proof.
  intros b pre w ent Hw Hent.
  destruct (decide (0 ≤ n ≤ zlen w)) as [Hn|Hn].
  - pose proof (zlen_take w n Hn) as Hl.
    exists (take (Z.to_nat n) w), (drop (Z.to_nat n) w), 0%nat.
    rewrite take_drop. pose proof (_read_parses n _ Hl b pre (drop (Z.to_nat n) w) ent) as HR.
    rewrite take_drop, Z.add_0_r in HR. rewrite Z.add_0_r, (HR Hent).
    split_and!; try done. simpl. split_and!; try done. by apply bytes_ok_take.
  - exists [], w, 0%nat. rewrite app_nil_r, Z.add_0_r.
    assert (∃ msg, error_text msg ∧ _read n (st c b pre w ent) =
              (Err (HTTP2FrameParsingError msg EC_FRAME_SIZE_ERROR), st c b pre w ent))
      as (msg & Hmsg & ->).
    { unfold _read. rewrite st_end. simpl fr_pos. rewrite Z.gtb_ltb.
      btest; try lia; simpl orb; (eexists; split; [|reflexivity]; error_text). }
    split_and!; try done. exists msg, EC_FRAME_SIZE_ERROR.
    split_and!; [done|done|set_solver|done].
Qed.

Lemma _reserve_entries_parses n : fparses c (_reserve_entries (Z.of_nat n)) [] tt n.
Proof.
  intros b pre w ent Hw. unfold _reserve_entries, within in *. simpl fr_max_entries.
  simpl fr_entries_read. rewrite app_nil_r. simpl app.
  destruct (c_max_entries c) as [m|] eqn:Hc; [|done].
  rewrite Z.gtb_ltb. btest; [lia|]. done.
Qed.

Lemma _reserve_entries_sound n :
  fsound c (_reserve_entries (Z.of_nat n)) (λ _ bs _ k, bs = [] ∧ k = n).
Proof.
  intros b pre w ent Hw Hent. unfold _reserve_entries. simpl fr_max_entries.
  simpl fr_entries_read. unfold within in *.
  destruct (c_max_entries c) as [m|] eqn:Hc.
  2:{ exists [], w, n. rewrite app_nil_r. done. }
  rewrite Z.gtb_ltb. btest.
  - exists [], w, 0%nat. rewrite app_nil_r, Z.add_0_r. split_and!; try done.
    eexists _, _. split_and!; [done|error_text|set_solver|]. by rewrite Hc.
  - exists [], w, n. rewrite app_nil_r. done.
Qed.
End rules.

(** ** Integers and fields *)

Lemma land_u31 (r : bool) v :
  0 ≤ v < 2 ^ 31 → Z.land (Z.b2z r * 2 ^ 31 + v) MAX_STREAM_ID = v.
Proof.
  intros Hv. change MAX_STREAM_ID with (Z.ones 31). rewrite Z.land_ones by lia.
  rewrite Z.add_comm, Z.mod_add by lia. by apply Z.mod_small.
Qed.

Lemma land_top (r : bool) v :
  0 ≤ v < 2 ^ 31 → negb (Z.land (Z.b2z r * 2 ^ 31 + v) RESERVED_BIT_MASK =? 0) = r.
Proof.
  intros Hv. change RESERVED_BIT_MASK with (2 ^ 31).
  assert (Z.testbit (Z.b2z r * 2 ^ 31 + v) 31 = r) as Ht.
  { rewrite Z.testbit_odd, Z.shiftr_div_pow2, Z.div_add_l by lia.
    rewrite (Z.div_small v) by lia. by destruct r. }
  destruct (Z.eqb_spec (Z.land (Z.b2z r * 2 ^ 31 + v) (2 ^ 31)) 0) as [E|E]; simpl.
  - apply (f_equal (λ z, Z.testbit z 31)) in E.
    rewrite Z.land_spec, Ht, Z.bits_0 in E. destruct r; [|done]. by rewrite Z.pow2_bits_true in E.
  - destruct r; [done|]. exfalso. apply E, Z.bits_inj'. intros n Hn.
    rewrite Z.land_spec, Z.bits_0, Z.pow2_bits_eqb by lia.
    destruct (Z.eqb_spec 31 n) as [<-|]; [by rewrite Ht|by rewrite andb_false_r].
Qed.

Lemma split_u31 v :
  0 ≤ v < 2 ^ 32 → ∃ (r : bool) x, 0 ≤ x < 2 ^ 31 ∧ v = Z.b2z r * 2 ^ 31 + x.
Proof.
  intros Hv. destruct (decide (v < 2 ^ 31)).
  - exists false, v. simpl. lia.
  - exists true, (v - 2 ^ 31). simpl. lia.
Qed.

Section fields.
Context (c : config).

Lemma _uint_parses (k : nat) v :
  0 ≤ v < 256 ^ Z.of_nat k →
  fparses c (b ← _read (Z.of_nat k); mret (be_val b)) (be_bytes k v) v 0.
Proof.
  intros Hv. eapply fparses_last; [apply _read_parses, zlen_be_bytes|].
  rewrite be_val_bytes by done. apply fparses_ret.
Qed.

Lemma _uint_sound (k : nat) :
  fsound c (b ← _read (Z.of_nat k); mret (be_val b))
    (λ v bs _ n, 0 ≤ v < 256 ^ Z.of_nat k ∧ bs = be_bytes k v ∧ n = 0%nat).
Proof.
  eapply fsound_bind; [apply _read_sound|].
  intros a bs w n (-> & -> & Hl & Ha). apply fsound_ret. intros _ _.
  rewrite app_nil_r, <-Hl. split_and!; [by apply be_val_range..| |done].
  assert (k = length a) as -> by (unfold zlen in Hl; lia). by rewrite be_bytes_val.
Qed.

Lemma _read_uint8_parses v : 0 ≤ v < 256 → fparses c _read_uint8 (be_bytes 1 v) v 0.
Proof. exact (_uint_parses 1 v). Qed.
Lemma _read_uint16_parses v : 0 ≤ v < 65536 → fparses c _read_uint16 (be_bytes 2 v) v 0.
Proof. exact (_uint_parses 2 v). Qed.
Lemma _read_uint24_parses v : 0 ≤ v < 16777216 → fparses c _read_uint24 (be_bytes 3 v) v 0.
Proof. exact (_uint_parses 3 v). Qed.
Lemma _read_uint32_parses v : 0 ≤ v < 2 ^ 32 → fparses c _read_uint32 (be_bytes 4 v) v 0.
Proof. exact (_uint_parses 4 v). Qed.

Lemma _read_uint8_sound :
  fsound c _read_uint8 (λ v bs _ n, 0 ≤ v < 256 ∧ bs = be_bytes 1 v ∧ n = 0%nat).
Proof. exact (_uint_sound 1). Qed.
Lemma _read_uint16_sound :
  fsound c _read_uint16 (λ v bs _ n, 0 ≤ v < 65536 ∧ bs = be_bytes 2 v ∧ n = 0%nat).
Proof. exact (_uint_sound 2). Qed.
Lemma _read_uint24_sound :
  fsound c _read_uint24 (λ v bs _ n, 0 ≤ v < 16777216 ∧ bs = be_bytes 3 v ∧ n = 0%nat).
Proof. exact (_uint_sound 3). Qed.
Lemma _read_uint32_sound :
  fsound c _read_uint32 (λ v bs _ n, 0 ≤ v < 2 ^ 32 ∧ bs = be_bytes 4 v ∧ n = 0%nat).
Proof. exact (_uint_sound 4). Qed.

Lemma reserved_parses v bs : u31_wire v bs → fparses c _read_uint32_with_reserved bs v 0.
Proof.
  intros (Hv & r & ->). eapply fparses_last; [apply _read_uint32_parses|].
  { destruct r; simpl; lia. }
  rewrite land_u31 by done. apply fparses_ret.
Qed.

Lemma reserved_sound :
  fsound c _read_uint32_with_reserved (λ v bs _ n, u31_wire v bs ∧ n = 0%nat).
Proof.
  eapply fsound_bind; [apply _read_uint32_sound|].
  intros v bs w n (Hv & -> & ->). apply fsound_ret. intros _ _.
  destruct (split_u31 v Hv) as (r & x & Hx & ->).
  rewrite app_nil_r, land_u31 by done. split; [|done]. split; [done|]. by exists r.
Qed.

Lemma _read_priority_parses p bs : priority_wire p bs → fparses c _read_priority bs p 0.
Proof.
  destruct p as [e d w]. intros (Hd & Hw & ->).
  cbn [exclusive dependency weight] in *. unfold _read_priority.
  eapply fparses_seq; [apply _read_uint32_parses|].
  { destruct e; simpl; lia. }
  eapply fparses_last; [apply _read_uint8_parses; lia|].
  rewrite land_u31, land_top by done. replace (w - 1 + 1) with w by lia. apply fparses_ret.
Qed.

Lemma _read_priority_sound :
  fsound c _read_priority (λ p bs _ n, priority_wire p bs ∧ n = 0%nat).
Proof.
  eapply fsound_bind; [apply _read_uint32_sound|]. intros v bs w n (Hv & -> & ->).
  eapply fsound_bind; [apply _read_uint8_sound|]. intros x bs' w' n' (Hx & -> & ->).
  apply fsound_ret. intros _ _ _. destruct (split_u31 v Hv) as (r & d & Hd & ->).
  rewrite land_u31, land_top, app_nil_r by done. split; [|done].
  split_and!; simpl; try lia. by replace (x + 1 - 1) with x by lia.
Qed.

(** *** Padding *)

Lemma _read_padding_length_parses h pad strict :
  pad_ok strict h pad → zlen pad < fh_length h ∨ has_flag h FF_PADDED = false →
  fparses c (_read_padding_length h) (pad_prefix h pad) (zlen pad) 0.
Proof.
  intros (Hl & _ & Hz) Hh. unfold _read_padding_length, pad_prefix.
  destruct (has_flag h FF_PADDED); simpl.
  - eapply fparses_last; [apply _read_uint8_parses; pose proof (zlen_nonneg pad); lia|].
    rewrite Z.geb_leb. btest; [|apply fparses_ret]. destruct Hh; [lia|done].
  - rewrite (Hz eq_refl). apply fparses_ret.
Qed.

Lemma _read_padding_length_sound h :
  fsound c (_read_padding_length h)
    (λ n bs _ k, k = 0%nat ∧ 0 ≤ n < 256 ∧
       bs = (if has_flag h FF_PADDED then be_bytes 1 n else []) ∧
       (has_flag h FF_PADDED = false → n = 0)).
Proof.
  unfold _read_padding_length. destruct (has_flag h FF_PADDED); simpl.
  - eapply fsound_bind; [apply _read_uint8_sound|]. intros n bs w k (Hn & -> & ->).
    apply fsound_if; intros _; [apply fsound_err; [error_text|set_solver]|].
    apply fsound_ret. rewrite app_nil_r. done.
  - apply fsound_ret. intros _. split_and!; done || lia.
Qed.

Lemma existsb_zero l : existsb (λ b, negb (b =? 0)) l = false ↔ Forall (λ b, b = 0) l.
Proof.
  induction l as [|b l IH]; simpl; [by split|].
  rewrite orb_false_iff, Forall_cons, IH, negb_false_iff, Z.eqb_eq. done.
Qed.

Lemma _skip_padding_parses n pad :
  zlen pad = n → (c_strict c = true → Forall (λ b, b = 0) pad) →
  fparses c (_skip_padding n) pad tt 0.
Proof.
  intros Hn Hz. unfold _skip_padding. eapply fparses_last; [by apply _read_parses|].
  intros b pre w ent Hw. unfold gets, mbind, M_bind. simpl. destruct (c_strict c) eqn:Hc; simpl.
  - rewrite (proj2 (existsb_zero pad) (Hz eq_refl)). by rewrite app_nil_r, Z.add_0_r.
  - by rewrite app_nil_r, Z.add_0_r.
Qed.

Lemma _skip_padding_sound n :
  fsound c (_skip_padding n)
    (λ _ bs _ k, k = 0%nat ∧ zlen bs = n ∧ (c_strict c = true → Forall (λ b, b = 0) bs)).
Proof.
  eapply fsound_bind; [apply _read_sound|]. intros a bs w k (-> & -> & Hl & Ha).
  intros b pre w0 ent Hw Hent. unfold gets, mbind, M_bind. simpl.
  destruct (c_strict c && _) eqn:E; simpl.
  - exists [], w0, 0%nat. rewrite app_nil_r, Z.add_0_r. split_and!; try done.
    eexists _, EC_PROTOCOL_ERROR. split_and!; [done|error_text|set_solver|done].
  - exists [], w0, 0%nat. rewrite !app_nil_r, Z.add_0_r. split_and!; try done.
    intros _. split_and!; try done. intros Hs. rewrite Hs in E. by apply existsb_zero.
Qed.
End fields.

(** ** Payloads: the reader accepts what is on the wire *)

(** The checks of the code on a concrete header field, one after the other. *)
Ltac pass :=
  repeat match goal with
  | |- fparses _ (if negb ?t then _ else _) _ _ _ =>
      replace t with true by (symmetry; apply Z.eqb_eq; first [assumption|lia]); cbn [negb]; cbv iota
  | |- fparses _ (if ?t then _ else _) _ _ _ =>
      replace t with false
        by (symmetry; rewrite ?Z.gtb_ltb; first [apply Z.eqb_neq|apply Z.ltb_ge]; first [assumption|lia]); cbv iota
  end.

Lemma padded_lengths h pad content strict :
  pad_ok strict h pad → fh_length h = zlen (pad_prefix h pad ++ content ++ pad) →
  fh_length h - (if has_flag h FF_PADDED then 1 else 0) - zlen pad = zlen content ∧
  (zlen pad < fh_length h ∨ has_flag h FF_PADDED = false).
Proof.
  intros _ Hl. rewrite !zlen_app in Hl. unfold pad_prefix in Hl.
  pose proof (zlen_nonneg content).
  destruct (has_flag h FF_PADDED); rewrite ?zlen_be_bytes, ?zlen_nil in Hl; [|lia].
  split; [|left]; lia.
Qed.

Section payload_complete.
Context (c : config) (h : FrameHeader).

Lemma data_parses data bs :
  fh_stream_id h ≠ 0 → padded_wire (c_strict c) h data bs → fh_length h = zlen bs →
  fparses c (_parse_data h) bs
    (DataPayload data (has_flag h FF_END_STREAM) (has_flag h FF_PADDED)) 0.
Proof.
  intros Hs (pad & Hpad & ->) Hl. destruct (padded_lengths _ _ _ _ Hpad Hl) as [Hd Hlt].
  unfold _parse_data. pose proof (zlen_nonneg data). pass.
  eapply fparses_seq; [by eapply _read_padding_length_parses|]. rewrite Hd. pass.
  eapply fparses_seq; [by apply _read_parses|].
  eapply fparses_last; [by apply _skip_padding_parses, Hpad|apply fparses_ret].
Qed.

Lemma headers_parses block prio pbs bs :
  fh_stream_id h ≠ 0 →
  match prio with
  | Some p => has_flag h FF_PRIORITY = true ∧ priority_wire p pbs
  | None => has_flag h FF_PRIORITY = false ∧ pbs = []
  end →
  padded_wire (c_strict c) h (pbs ++ block) bs → fh_length h = zlen bs →
  fparses c (_parse_headers h) bs
    (HeadersPayload block prio (has_flag h FF_END_STREAM) (has_flag h FF_END_HEADERS)
       (has_flag h FF_PADDED)) 0.
Proof.
  intros Hs Hprio (pad & Hpad & ->) Hl.
  destruct (padded_lengths _ _ _ _ Hpad Hl) as [Hd Hlt]. rewrite <-app_assoc, zlen_app in *.
  unfold _parse_headers. pose proof (zlen_nonneg block). pass.
  eapply fparses_seq; [by eapply _read_padding_length_parses|].
  assert (zlen pbs = if has_flag h FF_PRIORITY then 5 else 0) as Hp.
  { destruct prio as [p|]; [|by destruct Hprio as [-> ->]].
    destruct Hprio as [-> (_ & _ & ->)]. by rewrite zlen_app, !zlen_be_bytes. }
  eapply (fparses_seq _ _ _ _ _ prio).
  { destruct prio as [p|]; destruct Hprio as [-> Hp']; [|subst pbs; apply fparses_ret].
    eapply fparses_last; [by apply _read_priority_parses|apply fparses_ret]. }
  cbv zeta. replace (_ - zlen pad) with (zlen block)
    by (destruct (has_flag h FF_PADDED), (has_flag h FF_PRIORITY); lia).
  pass. eapply fparses_seq; [by apply _read_parses|].
  eapply fparses_last; [by apply _skip_padding_parses, Hpad|apply fparses_ret].
Qed.

Lemma push_promise_parses sid sbs block bs :
  fh_stream_id h ≠ 0 → u31_wire sid sbs → sid ≠ 0 →
  padded_wire (c_strict c) h (sbs ++ block) bs → fh_length h = zlen bs →
  fparses c (_parse_push_promise h) bs
    (PushPromisePayload sid block (has_flag h FF_END_HEADERS) (has_flag h FF_PADDED)) 0.
Proof.
  intros Hs Hsid Hz (pad & Hpad & ->) Hl.
  destruct (padded_lengths _ _ _ _ Hpad Hl) as [Hd Hlt]. rewrite <-app_assoc, zlen_app in *.
  unfold _parse_push_promise. pose proof (zlen_nonneg block). pass.
  eapply fparses_seq; [by eapply _read_padding_length_parses|].
  assert (zlen sbs = 4) as Hp by (destruct Hsid as (_ & r & ->); apply zlen_be_bytes).
  eapply fparses_seq; [by apply reserved_parses|]. pass.
  cbv zeta. replace (_ - zlen pad) with (zlen block) by (destruct (has_flag h FF_PADDED); lia).
  pass. eapply fparses_seq; [by apply _read_parses|].
  eapply fparses_last; [by apply _skip_padding_parses, Hpad|apply fparses_ret].
Qed.

Lemma settings_entry_parses e : setting_ok e → fparses c settings_entry (enc_setting e) e 0.
Proof.
  destruct e as [i v]. intros (Hi & Hv & H1 & H2 & H3). simpl fst in *; simpl snd in *.
  unfold settings_entry, enc_setting.
  eapply fparses_seq; [by apply _read_uint16_parses|].
  eapply fparses_last; [by apply _read_uint32_parses|]. simpl fst; simpl snd.
  replace (_ && negb (_ || _)) with false.
  2:{ symmetry. destruct (Z.eqb_spec i SI_ENABLE_PUSH) as [Hi1|]; simpl; [|done].
      destruct (H1 Hi1) as [->| ->]; done. }
  replace (_ && (v >? MAX_STREAM_ID)) with false.
  2:{ symmetry. rewrite Z.gtb_ltb. destruct (Z.eqb_spec i SI_INITIAL_WINDOW_SIZE); simpl; [|done].
      apply Z.ltb_ge. auto. }
  replace (_ && negb (_ && _)) with false; [apply fparses_ret|].
  symmetry. destruct (Z.eqb_spec i SI_MAX_FRAME_SIZE); simpl; [|done].
  destruct H3 as [?%Z.leb_le ?%Z.leb_le]; [done|]. by rewrite H, H0.
Qed.

Lemma settings_loop_parses es d acc :
  Forall setting_ok es →
  fparses c (settings_loop (length es) d acc) (concat (enc_setting <$> es))
    (foldl (λ d p, dict_set p.1 p.2 d) d es, acc ++ es) 0.
Proof.
  intros He. revert d acc. induction He as [|e es He Hes IH]; intros d acc.
  { simpl. rewrite app_nil_r. apply fparses_ret. }
  rewrite fmap_cons. cbn [concat length settings_loop foldl].
  eapply fparses_seq; [by apply settings_entry_parses|].
  specialize (IH (dict_set e.1 e.2 d) (acc ++ [e])). by rewrite <-app_assoc in IH.
Qed.

Lemma zlen_settings es : zlen (concat (enc_setting <$> es)) = 6 * zlen es.
Proof.
  induction es as [|e es IH]; [done|]. rewrite fmap_cons. cbn [concat].
  rewrite zlen_app, IH, zlen_cons. unfold enc_setting. rewrite zlen_app, !zlen_be_bytes. lia.
Qed.

Lemma settings_parses es :
  fh_stream_id h = 0 → has_flag h FF_ACK = false → Forall setting_ok es →
  fh_length h = zlen (concat (enc_setting <$> es)) →
  fparses c (_parse_settings h) (concat (enc_setting <$> es))
    (SettingsPayload false (Some (dict_of es)) es) (length es).
Proof.
  intros Hs Ha He Hl. rewrite zlen_settings in Hl. unfold _parse_settings. pass. rewrite Ha.
  replace (fh_length h mod _) with 0 by (rewrite Hl, Z.mul_comm; symmetry; apply Z.mod_mul; done).
  replace (fh_length h / _) with (zlen es)
    by (rewrite Hl, Z.mul_comm; symmetry; apply Z.div_mul; done). cbn [Z.eqb negb].
  unfold zlen. rewrite Nat2Z.id.
  eapply fparses_reserved; [apply _reserve_entries_parses|].
  eapply fparses_last; [by apply settings_loop_parses|]. apply fparses_ret.
Qed.

Lemma origin_loop_parses fuel os n acc :
  Forall (λ o, zlen o < 65536) os → (length os < fuel)%nat → 0 ≤ n →
  fparses c (origin_loop fuel (n + zlen (concat (enc_vector 2 <$> os))) n acc)
    (concat (enc_vector 2 <$> os)) (acc ++ os) (length os).
Proof.
  revert os n acc. induction fuel as [|fuel IH]; intros os n acc Ho Hf Hn; [lia|].
  destruct Ho as [|o os Ho Hos]; cbn [origin_loop].
  { simpl. rewrite zlen_nil, Z.add_0_r, Z.ltb_irrefl, app_nil_r. apply fparses_ret. }
  rewrite fmap_cons. cbn [concat]. set (tl := concat (enc_vector 2 <$> os)) in *.
  pose proof (zlen_nonneg o). pose proof (zlen_nonneg tl).
  assert (zlen (enc_vector 2 o ++ tl) = 2 + zlen o + zlen tl) as Hz
    by (unfold enc_vector; rewrite !zlen_app, zlen_be_bytes; lia).
  rewrite Hz. rewrite (proj2 (Z.ltb_lt _ _)) by lia. pass.
  unfold enc_vector. rewrite <-app_assoc.
  eapply fparses_seq; [apply _read_uint16_parses; lia|]. cbv zeta. pass.
  change (length (o :: os)) with (1 + length os)%nat.
  apply (fparses_bind _ _ _ [] _ tt _ 1 (length os)); [apply (_reserve_entries_parses c 1)|].
  eapply fparses_seq; [by apply _read_parses|].
  replace (n + (2 + zlen o + zlen tl)) with (n + 2 + zlen o + zlen tl) by lia.
  specialize (IH os (n + 2 + zlen o) (acc ++ [o]) Hos). rewrite <-app_assoc in IH.
  apply IH; simpl in Hf; lia.
Qed.

Lemma length_origins (os : list bytes) :
  2 * zlen os ≤ zlen (concat (enc_vector 2 <$> os)).
Proof.
  induction os as [|o os IH]; [done|]. rewrite fmap_cons. cbn [concat].
  rewrite zlen_cons, zlen_app. unfold enc_vector at 1. rewrite zlen_app, zlen_be_bytes.
  pose proof (zlen_nonneg o). lia.
Qed.

(** The entry of [parsers] for a known type. *)
Lemma by_type i t f :
  parsers !! i = Some (t, f) → fh_type h = t → _parse_payload_by_type h = f h.
Proof.
  intros Hi Ht. unfold _parse_payload_by_type. rewrite Ht.
  erewrite dict_get_In; [done| |by eapply list_elem_of_lookup_2].
  change parsers.*1 with FrameType.*2. by_eval.
Qed.

Lemma unknown_type : fh_type h ∉ FrameType.*2 ↔ dict_get (fh_type h) parsers = None.
Proof. rewrite dict_get_None. done. Qed.

(** Octets that carry a payload are read as that payload. *)
Lemma payload_parses p bs :
  payload_wire (c_strict c) h p bs → fh_length h = zlen bs →
  fparses c (_parse_payload_by_type h) bs p (entries_of p).
Proof.
  intros [] Hl; cbn [entries_of].
  - rewrite (by_type 0 _ _ eq_refl) by done. by apply data_parses.
  - rewrite (by_type 1 _ _ eq_refl) by done. by eapply headers_parses.
  - rewrite (by_type 2 _ _ eq_refl) by done. unfold _parse_priority. assert (fh_length h = 5).
    { destruct H1 as (_ & _ & ->). by rewrite Hl, zlen_app, !zlen_be_bytes. }
    pass. eapply fparses_last; [by apply _read_priority_parses|apply fparses_ret].
  - rewrite (by_type 3 _ _ eq_refl) by done. unfold _parse_rst_stream. rewrite zlen_be_bytes in Hl. pass.
    eapply fparses_last; [by apply _read_uint32_parses|apply fparses_ret].
  - rewrite (by_type 4 _ _ eq_refl) by done. unfold _parse_settings. pass. rewrite H1. pass. apply fparses_ret.
  - rewrite (by_type 4 _ _ eq_refl) by done. by apply settings_parses.
  - rewrite (by_type 5 _ _ eq_refl) by done. by eapply push_promise_parses.
  - rewrite (by_type 6 _ _ eq_refl) by done. unfold _parse_ping. rewrite H1 in Hl. pass.
    eapply fparses_last; [by apply _read_parses|apply fparses_ret].
  - rewrite (by_type 7 _ _ eq_refl) by done. unfold _parse_goaway. assert (fh_length h - 8 = zlen debug) as Hd.
    { destruct H1 as (_ & r & ->). rewrite !zlen_app, !zlen_be_bytes in Hl. lia. }
    pose proof (zlen_nonneg debug). pass.
    eapply fparses_seq; [by apply reserved_parses|].
    eapply fparses_seq; [by apply _read_uint32_parses|]. cbv zeta. rewrite Hd, Z.gtb_ltb.
    eapply (fparses_last _ _ _ _ debug); [|apply fparses_ret].
    btest; [by apply _read_parses|]. destruct debug; [apply fparses_ret|].
    rewrite zlen_cons in *. pose proof (zlen_nonneg debug). lia.
  - rewrite (by_type 8 _ _ eq_refl) by done. unfold _parse_window_update. assert (fh_length h = 4).
    { destruct H0 as (_ & r & ->). by rewrite Hl, zlen_be_bytes. }
    pass. eapply fparses_last; [by apply reserved_parses|]. pass. apply fparses_ret.
  - rewrite (by_type 9 _ _ eq_refl) by done. unfold _parse_continuation. pass.
    eapply fparses_last; [by apply _read_parses|apply fparses_ret].
  - rewrite (by_type 10 _ _ eq_refl) by done. unfold _parse_altsvc, enc_vector in *.
    rewrite !zlen_app, zlen_be_bytes in Hl.
    pose proof (zlen_nonneg origin). pose proof (zlen_nonneg field). pass.
    rewrite <-app_assoc. eapply fparses_seq; [apply _read_uint16_parses; lia|]. pass.
    eapply fparses_seq; [by apply _read_parses|]. cbv zeta.
    eapply fparses_last; [apply _read_parses; lia|apply fparses_ret].
  - rewrite (by_type 11 _ _ eq_refl) by done. unfold _parse_origin. pass.
    eapply fparses_last; [|apply fparses_ret]. rewrite Hl.
    apply (origin_loop_parses _ origins 0 []); [done| |lia].
    pose proof (length_origins origins). unfold zlen in *. lia.
  - rewrite (by_type 12 _ _ eq_refl) by done. unfold _parse_priority_update.
    assert (zlen sbs = 4) by (destruct H1 as (_ & r & ->); apply zlen_be_bytes).
    rewrite zlen_app in Hl. pose proof (zlen_nonneg field). pass.
    eapply fparses_seq; [by apply reserved_parses|]. pass. cbv zeta.
    eapply fparses_last; [apply _read_parses; lia|apply fparses_ret].
  - unfold _parse_payload_by_type. rewrite (proj1 unknown_type) by done.
    eapply fparses_last; [by apply _read_parses|apply fparses_ret].
Qed.
End payload_complete.

(** ** Payloads: whatever the reader returns was on the wire *)

(** A guard of the code that raises: the exception is a frame error, and after
    the guard the test is known to be false. *)
Ltac ensure H :=
  apply fsound_if; intros H;
  [first [apply fsound_err; [error_text|set_solver]]|];
  rewrite ?negb_false_iff, ?Z.gtb_ltb, ?Z.eqb_eq, ?Z.eqb_neq, ?Z.ltb_ge in H.

Section payload_sound.
Context (c : config) (h : FrameHeader).

Lemma data_sound :
  fh_type h = FT_DATA →
  fsound c (_parse_data h) (λ p bs _ k, payload_wire (c_strict c) h p bs ∧ k = entries_of p).
Proof.
  intros Ht. unfold _parse_data. ensure Hs.
  eapply fsound_bind; [apply _read_padding_length_sound|].
  intros n bs w k (-> & Hn & -> & Hz). cbv zeta. ensure Hl.
  eapply fsound_bind; [apply _read_sound|]. intros data bs1 w1 k1 (-> & -> & Hd & _).
  eapply fsound_bind; [apply _skip_padding_sound|].
  intros [] pad w2 k2 (-> & <- & Hpad). apply fsound_ret. intros _ _ _ _.
  rewrite app_nil_r. split; [|done]. constructor; [done..|]. exists pad.
  split; [|done]. split_and!; [lia|done|]. intros Hf. apply Hz in Hf.
  by destruct pad; [|rewrite zlen_cons in Hf; pose proof (zlen_nonneg pad); lia].
Qed.

Lemma headers_sound :
  fh_type h = FT_HEADERS →
  fsound c (_parse_headers h)
    (λ p bs _ k, payload_wire (c_strict c) h p bs ∧ k = entries_of p).
Proof.
  intros Ht. unfold _parse_headers. ensure Hs.
  eapply fsound_bind; [apply _read_padding_length_sound|].
  intros n bs w k (-> & Hn & -> & Hz).
  eapply (fsound_bind _ _ _ (λ o pbs _ k, k = 0%nat ∧
    match o with
    | Some p => has_flag h FF_PRIORITY = true ∧ priority_wire p pbs
    | None => has_flag h FF_PRIORITY = false ∧ pbs = []
    end)).
  { apply fsound_if; intros Hp; [|by apply fsound_ret].
    eapply fsound_bind; [apply _read_priority_sound|]. intros p pbs w1 k1 [Hw ->].
    apply fsound_ret. rewrite app_nil_r. done. }
  intros prio pbs w1 k1 (-> & Hprio). cbv zeta. ensure Hl.
  eapply fsound_bind; [apply _read_sound|]. intros block bs1 w2 k2 (-> & -> & Hd & _).
  eapply fsound_bind; [apply _skip_padding_sound|].
  intros [] pad w3 k3 (-> & <- & Hpad). apply fsound_ret. intros _ _ _ _ _.
  rewrite app_nil_r. split; [|done]. eapply PW_headers; [done..|]. exists pad.
  rewrite <-app_assoc. split; [|done]. split_and!; [lia|done|]. intros Hf. apply Hz in Hf.
  by destruct pad; [|rewrite zlen_cons in Hf; pose proof (zlen_nonneg pad); lia].
Qed.

Lemma push_promise_sound :
  fh_type h = FT_PUSH_PROMISE →
  fsound c (_parse_push_promise h)
    (λ p bs _ k, payload_wire (c_strict c) h p bs ∧ k = entries_of p).
Proof.
  intros Ht. unfold _parse_push_promise. ensure Hs.
  eapply fsound_bind; [apply _read_padding_length_sound|].
  intros n bs w k (-> & Hn & -> & Hz).
  eapply fsound_bind; [apply reserved_sound|]. intros sid sbs w1 k1 [Hsid ->]. ensure Hsz.
  cbv zeta. ensure Hl.
  eapply fsound_bind; [apply _read_sound|]. intros block bs1 w2 k2 (-> & -> & Hd & _).
  eapply fsound_bind; [apply _skip_padding_sound|].
  intros [] pad w3 k3 (-> & <- & Hpad). apply fsound_ret. intros _ _ _ _ _.
  rewrite app_nil_r. split; [|done]. eapply PW_push_promise; [done..|]. exists pad.
  rewrite <-app_assoc. split; [|done]. split_and!; [lia|done|]. intros Hf. apply Hz in Hf.
  by destruct pad; [|rewrite zlen_cons in Hf; pose proof (zlen_nonneg pad); lia].
Qed.

Lemma settings_entry_sound :
  fsound c settings_entry (λ e bs _ k, setting_ok e ∧ bs = enc_setting e ∧ k = 0%nat).
Proof.
  eapply fsound_bind; [apply _read_uint16_sound|]. intros i bs w k (Hi & -> & ->).
  eapply fsound_bind; [apply _read_uint32_sound|]. intros v bs1 w1 k1 (Hv & -> & ->).
  apply fsound_if; intros H1; [apply fsound_err; [error_text|set_solver]|].
  apply fsound_if; intros H2; [apply fsound_err; [error_text|set_solver]|].
  apply fsound_if; intros H3; [apply fsound_err; [error_text|set_solver]|].
  apply fsound_ret. intros _ _ _. rewrite app_nil_r. split_and!; [|done..].
  rewrite Z.gtb_ltb in H2. unfold setting_ok. simpl. lia.
Qed.

Lemma settings_loop_sound n d acc :
  fsound c (settings_loop n d acc)
    (λ r bs _ k, k = 0%nat ∧ ∃ es, length es = n ∧ Forall setting_ok es ∧
       bs = concat (enc_setting <$> es) ∧
       r = (foldl (λ d p, dict_set p.1 p.2 d) d es, acc ++ es)).
Proof.
  revert d acc. induction n as [|n IH]; intros d acc; cbn [settings_loop].
  { apply fsound_ret. intros _. split; [done|]. exists []. rewrite app_nil_r. done. }
  eapply fsound_bind; [apply settings_entry_sound|]. intros e bs w k (He & -> & ->).
  eapply fsound_weaken; [apply IH|]. intros r bs w1 k (-> & es & <- & Hes & -> & ->) _.
  split; [done|]. exists (e :: es). rewrite <-app_assoc. split_and!; [done|by constructor|done..].
Qed.

Lemma settings_sound :
  fh_type h = FT_SETTINGS → 0 ≤ fh_length h →
  fsound c (_parse_settings h)
    (λ p bs _ k, payload_wire (c_strict c) h p bs ∧ k = entries_of p).
Proof.
  intros Ht Hh. unfold _parse_settings. ensure Hs.
  apply fsound_if; intros Ha.
  { ensure Hl. apply fsound_ret. intros _. split; [by constructor|done]. }
  ensure Hm. pose proof (Z.div_pos (fh_length h) 6 Hh ltac:(lia)) as Hpos.
  change SETTINGS_ENTRY_SIZE with 6 in *.
  set (n := Z.to_nat (fh_length h / 6)).
  replace (fh_length h / 6) with (Z.of_nat n) by (unfold n; lia).
  eapply fsound_bind; [apply _reserve_entries_sound|]. intros [] bs w k (-> & ->).
  eapply fsound_bind; [apply settings_loop_sound|].
  intros r bs w1 k (-> & es & Hn & Hes & -> & ->). apply fsound_ret. intros _ _ _.
  rewrite app_nil_r. split; [by constructor|]. simpl. lia.
Qed.

Lemma origin_loop_sound fuel n acc :
  fh_length h - n < Z.of_nat fuel → n ≤ fh_length h →
  fsound c (origin_loop fuel (fh_length h) n acc)
    (λ r bs _ k, ∃ os, r = acc ++ os ∧ k = length os ∧ Forall (λ o, zlen o < 65536) os ∧
       bs = concat (enc_vector 2 <$> os)).
Proof.
  revert n acc. induction fuel as [|fuel IH]; intros n acc Hf Hn; [lia|]. cbn [origin_loop].
  apply fsound_if; intros Hlt.
  2:{ apply fsound_ret. intros _. exists []. by rewrite app_nil_r. }
  ensure H1. eapply fsound_bind; [apply _read_uint16_sound|].
  intros len bs w k (Hlen & -> & ->). cbv zeta. ensure H2.
  eapply fsound_bind; [apply (_reserve_entries_sound c 1)|]. intros [] bs w1 k (-> & ->).
  eapply fsound_bind; [apply _read_sound|]. intros o bs w2 k (-> & -> & <- & Ho).
  eapply fsound_weaken; [apply IH; lia|].
  intros r bs w3 k (os & -> & -> & Hos & ->) _ _ _. exists (o :: os).
  rewrite <-app_assoc. split_and!; [done|done|by constructor; [lia|]|].
  rewrite fmap_cons. cbn [concat]. unfold enc_vector at 2. by rewrite <-app_assoc.
Qed.

(** Every payload parser returns what its octets say, or raises a frame error. *)
Lemma payload_sound :
  0 ≤ fh_length h →
  fsound c (_parse_payload_by_type h)
    (λ p bs _ k, payload_wire (c_strict c) h p bs ∧ k = entries_of p).
Proof.
  intros Hlen. destruct (decide (fh_type h ∈ FrameType.*2)) as [Hin|Hout].
  2:{ unfold _parse_payload_by_type. rewrite (proj1 (unknown_type h)) by done.
      eapply fsound_bind; [apply _read_sound|]. intros data bs w k (-> & -> & Hd & _).
      apply fsound_ret. intros _ _. rewrite app_nil_r. split; [by constructor|done]. }
  simpl in Hin. rewrite !elem_of_cons, elem_of_nil in Hin.
  destruct Hin as [Ht|[Ht|[Ht|[Ht|[Ht|[Ht|[Ht|[Ht|[Ht|[Ht|[Ht|[Ht|[Ht|[]]]]]]]]]]]]]].
  - rewrite (by_type h 0 _ _ eq_refl) by done. by apply data_sound.
  - rewrite (by_type h 1 _ _ eq_refl) by done. by apply headers_sound.
  - rewrite (by_type h 2 _ _ eq_refl) by done. unfold _parse_priority. ensure Hl. ensure Hs.
    eapply fsound_bind; [apply _read_priority_sound|]. intros p bs w k (Hp & ->).
    apply fsound_ret. intros _ _. rewrite app_nil_r. split; [by constructor|done].
  - rewrite (by_type h 3 _ _ eq_refl) by done. unfold _parse_rst_stream. ensure Hl. ensure Hs.
    eapply fsound_bind; [apply _read_uint32_sound|]. intros v bs w k (Hv & -> & ->).
    apply fsound_ret. intros _ _. rewrite app_nil_r. split; [by constructor|done].
  - rewrite (by_type h 4 _ _ eq_refl) by done. by apply settings_sound.
  - rewrite (by_type h 5 _ _ eq_refl) by done. by apply push_promise_sound.
  - rewrite (by_type h 6 _ _ eq_refl) by done. unfold _parse_ping. ensure Hs. ensure Hl.
    eapply fsound_bind; [apply _read_sound|]. intros d bs w k (-> & -> & Hd & _).
    apply fsound_ret. intros _ _. rewrite app_nil_r. split; [by constructor|done].
  - rewrite (by_type h 7 _ _ eq_refl) by done. unfold _parse_goaway. ensure Hs. ensure Hl.
    eapply fsound_bind; [apply reserved_sound|]. intros sid sbs w k (Hsid & ->).
    eapply fsound_bind; [apply _read_uint32_sound|]. intros v bs w1 k (Hv & -> & ->).
    cbv zeta. eapply (fsound_bind _ _ _ (λ d bs _ k, bs = d ∧ k = 0%nat)).
    { apply fsound_if; intros _; [|by apply fsound_ret].
      eapply fsound_weaken; [apply _read_sound|]. naive_solver. }
    intros d bs w2 k (-> & ->). apply fsound_ret. intros _ _ _ _.
    rewrite app_nil_r. split; [by constructor|done].
  - rewrite (by_type h 8 _ _ eq_refl) by done. unfold _parse_window_update. ensure Hl.
    eapply fsound_bind; [apply reserved_sound|]. intros v bs w k (Hv & ->). ensure Hz.
    apply fsound_ret. intros _ _. rewrite app_nil_r. split; [by constructor|done].
  - rewrite (by_type h 9 _ _ eq_refl) by done. unfold _parse_continuation. ensure Hs.
    eapply fsound_bind; [apply _read_sound|]. intros d bs w k (-> & -> & Hd & _).
    apply fsound_ret. intros _ _. rewrite app_nil_r. split; [by constructor|done].
  - rewrite (by_type h 10 _ _ eq_refl) by done. unfold _parse_altsvc. ensure Hl.
    eapply fsound_bind; [apply _read_uint16_sound|]. intros n bs w k (Hn & -> & ->). ensure Ho.
    eapply fsound_bind; [apply _read_sound|]. intros o bs w1 k (-> & -> & <- & _).
    cbv zeta. eapply fsound_bind; [apply _read_sound|]. intros f bs w2 k (-> & -> & _ & _).
    apply fsound_ret. intros _ _ _ _. rewrite app_nil_r, app_assoc.
    split; [|done]. apply PW_altsvc; [done|lia].
  - rewrite (by_type h 11 _ _ eq_refl) by done. unfold _parse_origin. ensure Hs.
    eapply fsound_bind; [apply origin_loop_sound; lia|].
    intros r bs w k (os & -> & -> & Hos & ->). apply fsound_ret. intros _ _.
    rewrite app_nil_r, Nat.add_0_r. split; [by constructor|done].
  - rewrite (by_type h 12 _ _ eq_refl) by done. unfold _parse_priority_update.
    ensure Hs. ensure Hl.
    eapply fsound_bind; [apply reserved_sound|]. intros sid sbs w k (Hsid & ->). ensure Hz.
    cbv zeta. eapply fsound_bind; [apply _read_sound|]. intros f bs w2 k (-> & -> & _ & _).
    apply fsound_ret. intros _ _ _. rewrite app_nil_r. split; [by constructor|done].
Qed.
End payload_sound.

(** ** Frames *)

Lemma exact_eq h start s :
  ∃ msg, error_text msg ∧ parse_exact_payload h start s =
    match _parse_payload_by_type h s with
    | (Ok p, s') =>
        if fr_pos s' - start =? fh_length h then (Ok p, s')
        else (Err (HTTP2FrameParsingError msg EC_FRAME_SIZE_ERROR), s')
    | (Err e, s') => (Err e, s')
    end.
Proof.
  unfold parse_exact_payload, gets, mbind, M_bind.
  destruct (_parse_payload_by_type h s) as [[p|e] s']; [|exists [0]; split; [error_text|done]].
  destruct (fr_pos s' - start =? fh_length h); [exists [0]; split; [error_text|done]|].
  eexists; split; [|reflexivity]. error_text.
Qed.

(** The outcome of the bounded payload: it fills the window, or a frame error. *)
Lemma exact_sound c h tl pre w ent :
  bytes_ok w → within c ent → fh_length h = zlen w →
  ∃ bs w' k, w = bs ++ w' ∧ within c (ent + Z.of_nat k) ∧
    (parse_exact_payload h (zlen pre) (st c (Some tl) pre w ent)).2 =
      st c (Some tl) (pre ++ bs) w' (ent + Z.of_nat k) ∧
    match (parse_exact_payload h (zlen pre) (st c (Some tl) pre w ent)).1 with
    | Ok p => w' = [] ∧ payload_wire (c_strict c) h p w ∧ k = entries_of p
    | Err e => frame_exn c e
    end.
Proof.
  intros Hw Hent Hl. pose proof (zlen_nonneg w).
  destruct (payload_sound c h ltac:(lia) (Some tl) pre w ent Hw Hent)
    as (bs & w' & k & -> & Hk & HS & HR).
  exists bs, w', k. destruct (exact_eq h (zlen pre) (st c (Some tl) pre (bs ++ w') ent))
    as (msg & Hmsg & ->).
  destruct (_parse_payload_by_type h _) as [[p|e] s']; simpl in HS, HR; subst s'; [|done].
  cbn [fr_pos st]. rewrite !zlen_app in *. pose proof (zlen_nonneg w').
  btest; simpl; split_and!; try done.
  - destruct w'; [done|]. rewrite zlen_cons in *. pose proof (zlen_nonneg w'). lia.
  - destruct w' as [|x w']; [by rewrite app_nil_r; destruct HR|].
    rewrite zlen_cons in *. pose proof (zlen_nonneg w'). lia.
  - apply HR.
  - exists msg, EC_FRAME_SIZE_ERROR. split_and!; [done|done|set_solver|done].
Qed.

Lemma exact_complete c h tl pre w ent p :
  payload_wire (c_strict c) h p w → fh_length h = zlen w →
  within c (ent + Z.of_nat (entries_of p)) →
  parse_exact_payload h (zlen pre) (st c (Some tl) pre w ent) =
    (Ok p, st c (Some tl) (pre ++ w) [] (ent + Z.of_nat (entries_of p))).
Proof.
  intros Hp Hl Hent.
  pose proof (payload_parses c h p w Hp Hl (Some tl) pre [] ent Hent) as HP.
  rewrite app_nil_r in HP.
  destruct (exact_eq h (zlen pre) (st c (Some tl) pre w ent)) as (msg & _ & ->).
  rewrite HP. cbn [fr_pos st]. rewrite zlen_app, (proj2 (Z.eqb_eq _ _)) by lia. done.
Qed.

(** The nine octets of the header. *)
Lemma header_parses c pre h hb w ent :
  header_wire h hb → within c ent →
  parse_frame (st c None pre (hb ++ w) ent) =
    parse_frame_body (pre ++ hb ++ w) (zlen pre) h (st c None (pre ++ hb) w ent).
Proof.
  destruct h as [len t f sid]. intros (Hlen & Ht & Hf & sbs & Hs & ->) Hent.
  cbn [fh_length fh_type fh_flags fh_stream_id] in *.
  assert (zlen sbs = 4) as H4 by (destruct Hs as (_ & r & ->); apply zlen_be_bytes).
  unfold parse_frame. erewrite bind_ok by done. erewrite bind_ok by done.
  cbn [fr_pos fr_data st]. rewrite app_nil_r. pose proof (zlen_nonneg w).
  rewrite (proj2 (Z.ltb_ge _ _))
    by (rewrite !zlen_app, !zlen_be_bytes, H4; unfold FRAME_HEADER_SIZE; lia).
  set (full := pre ++ _). rewrite <-!app_assoc.
  pose proof (_read_uint24_parses c len Hlen None pre
    (be_bytes 1 t ++ be_bytes 1 f ++ sbs ++ w) ent) as R1.
  pose proof (_read_uint8_parses c t Ht None (pre ++ be_bytes 3 len)
    (be_bytes 1 f ++ sbs ++ w) ent) as R2.
  pose proof (_read_uint8_parses c f Hf None ((pre ++ be_bytes 3 len) ++ be_bytes 1 t)
    (sbs ++ w) ent) as R3.
  pose proof (reserved_parses c sid sbs Hs None
    (((pre ++ be_bytes 3 len) ++ be_bytes 1 t) ++ be_bytes 1 f) w ent) as R4.
  rewrite Z.add_0_r in R1, R2, R3, R4.
  rewrite (bind_ok _ _ _ _ _ (R1 Hent)), (bind_ok _ _ _ _ _ (R2 Hent)),
    (bind_ok _ _ _ _ _ (R3 Hent)), (bind_ok _ _ _ _ _ (R4 Hent)).
  by rewrite <-!app_assoc.
Qed.

Lemma be_split (n : nat) l :
  bytes_ok l → Z.of_nat n ≤ zlen l →
  ∃ v tl, 0 ≤ v < 256 ^ Z.of_nat n ∧ l = be_bytes n v ++ tl ∧ bytes_ok tl.
Proof.
  intros Hl Hn. assert (length (take n l) = n) as Ht by (rewrite length_take; unfold zlen in Hn; lia).
  pose proof (bytes_ok_take n l Hl) as Hok.
  exists (be_val (take n l)), (drop n l). split_and!.
  1,2: pose proof (be_val_range _ Hok) as HR; unfold zlen in HR; rewrite Ht in HR; lia.
  - rewrite <-Ht at 1. rewrite be_bytes_val by done. by rewrite take_drop.
  - by apply bytes_ok_drop.
Qed.

(** Every nine octets are a header. *)
Lemma header_split w :
  bytes_ok w → FRAME_HEADER_SIZE ≤ zlen w →
  ∃ h hb tl, w = hb ++ tl ∧ header_wire h hb ∧ zlen hb = 9 ∧ bytes_ok tl.
Proof.
  unfold FRAME_HEADER_SIZE. intros Hw H9.
  destruct (be_split 3 w) as (len & w1 & Hlen & -> & Hw1); [done|lia|].
  rewrite zlen_app, zlen_be_bytes in H9.
  destruct (be_split 1 w1) as (t & w2 & Ht & -> & Hw2); [done|lia|].
  rewrite zlen_app, zlen_be_bytes in H9.
  destruct (be_split 1 w2) as (f & w3 & Hf & -> & Hw3); [done|lia|].
  rewrite zlen_app, zlen_be_bytes in H9.
  destruct (be_split 4 w3) as (v & tl & Hv & -> & Htl); [done|lia|].
  destruct (split_u31 v Hv) as (r & sid & Hs & ->).
  exists (mkFrameHeader len t f sid),
    (be_bytes 3 len ++ be_bytes 1 t ++ be_bytes 1 f ++ be_bytes 4 (Z.b2z r * 2 ^ 31 + sid)), tl.
  rewrite <-!app_assoc. split_and!; [done|..|done]; [|by rewrite !zlen_app, !zlen_be_bytes].
  split_and!; simpl; try lia. exists (be_bytes 4 (Z.b2z r * 2 ^ 31 + sid)).
  split; [|done]. split; [done|]. by exists r.
Qed.

(** Leaving the payload lifts the bound, wherever the position is. *)
Lemma st_unbound c tl pre w ent :
  fr_set_payload_end None (st c (Some tl) pre w ent) = st c None pre (w ++ tl) ent.
Proof. unfold fr_set_payload_end, st; simpl. by rewrite app_nil_r. Qed.

Lemma st_bound c tl pre w ent :
  fr_set_payload_end (Some (zlen pre + zlen w)) (st c None pre (w ++ tl) ent) =
    st c (Some tl) pre w ent.
Proof. unfold fr_set_payload_end, st; simpl. by rewrite app_nil_r. Qed.

Lemma st_skip c tl pre bs w ent :
  fr_set_pos (zlen pre + zlen (bs ++ w)) (st c (Some tl) (pre ++ bs) w ent) =
    st c (Some tl) (pre ++ bs ++ w) [] ent.
Proof.
  unfold fr_set_pos, st; simpl. rewrite !zlen_app, <-!app_assoc, zlen_nil.
  f_equal. f_equal. lia.
Qed.

Lemma mem_extension t : mem t [FT_ALTSVC; FT_ORIGIN] = true ↔ t = FT_ALTSVC ∨ t = FT_ORIGIN.
Proof. rewrite mem_In. set_solver. Qed.

Lemma failure_eq t start stop msg code s :
  payload_failure t start stop (HTTP2FrameParsingError msg code) s =
    if (code =? EC_ENHANCE_YOUR_CALM) ||
       (negb (fr_forensic s) && negb (mem t [FT_ALTSVC; FT_ORIGIN]))
    then (Err (HTTP2FrameParsingError msg code), s)
    else (Ok (UnknownPayload t (slice (fr_data s) start stop) (Some msg) (Some code)),
          fr_set_pos stop s).
Proof.
  unfold payload_failure. destruct (code =? EC_ENHANCE_YOUR_CALM); [done|].
  unfold gets, mbind, M_bind. by destruct (negb _ && _).
Qed.

(** A frame whose payload is in the buffer and not too long. *)
Lemma body_sound c h start pre pl tl ent :
  bytes_ok pl → within c ent → fh_length h = zlen pl → zlen pl ≤ c_max_frame_size c →
  match parse_frame_body (pre ++ pl ++ tl) start h (st c None pre (pl ++ tl) ent) with
  | (Ok f, s') => ∃ k, within c (ent + Z.of_nat k) ∧
      f = mkParsedFrame h (pf_payload f) (slice (pre ++ pl ++ tl) start (zlen pre + zlen pl)) ∧
      s' = st c None (pre ++ pl) tl (ent + Z.of_nat k) ∧
      frame_outcome c h pl (pf_payload f) k
  | (Err e, s') => frame_exn c e ∧
      (c_forensic c = true → ∃ msg, e = HTTP2FrameParsingError msg EC_ENHANCE_YOUR_CALM) ∧
      ∃ pre' w' k, pre' ++ w' = pre ++ pl ++ tl ∧ within c (ent + Z.of_nat k) ∧
        s' = st c None pre' w' (ent + Z.of_nat k)
  end.
Proof.
  intros Hpl Hent Hl Hmax. pose proof (zlen_nonneg tl).
  unfold parse_frame_body. erewrite bind_ok by done. cbn [fr_max_frame_size st].
  rewrite Z.gtb_ltb, (proj2 (Z.ltb_ge _ _)) by lia.
  erewrite bind_ok by done. cbn [fr_pos st]. rewrite Z.gtb_ltb, (proj2 (Z.ltb_ge _ _))
    by (rewrite !zlen_app; lia).
  cbv zeta. erewrite bind_ok by done. rewrite Hl. rewrite st_bound.
  unfold finally, try_except. unfold mbind at 1, M_bind at 1.
  destruct (exact_sound c h tl pre pl ent Hpl Hent Hl) as (bs & w' & k & -> & Hk & HS & HR).
  pose proof (exact_portable c h tl pre (bs ++ w') ent) as HP.
  destruct (parse_exact_payload h _ _) as [[p|e] s1]; simpl in HS, HR; subst s1.
  { destruct HR as (-> & Hw & ->). rewrite st_unbound. simpl. exists (entries_of p).
    rewrite app_nil_r in *. split_and!; try done. by constructor. }
  destruct HR as (msg & code & -> & Hmsg & Hcode & Hcalm). rewrite failure_eq.
  cbn [fr_forensic st]. destruct (_ || _) eqn:Hraise; simpl.
  - rewrite st_unbound. split_and!; [eexists _, _; done| |].
    + intros Hf. rewrite Hf, orb_false_r in Hraise. apply Z.eqb_eq in Hraise as ->. by eexists.
    + eexists _, _, k. split_and!; [|done|done]. by rewrite <-!app_assoc.
  - rewrite st_skip, st_unbound. exists k. split_and!; [done|done|done|]. simpl.
    apply orb_false_iff in Hraise as [Hne%Z.eqb_neq Hkeep].
    replace (slice _ _ _) with (bs ++ w')
      by (rewrite <-(slice_prefix pre (bs ++ w') tl) at 1; by rewrite <-!app_assoc).
    assert (payload_outcome (c_strict c) h (bs ++ w') = Err (HTTP2FrameParsingError msg code)) as Hout.
    { destruct (HP _ _ eq_refl) as [[m [= _ ->]]|?]; [done|done]. }
    constructor; [done| |set_solver| |done].
    2:{ intros p Hp. unfold payload_outcome in Hout.
        pose proof (exact_complete (mkConfig 0 (c_strict c) true None) h [] [] (bs ++ w') 0 p Hp Hl I) as HC.
        change (zlen []) with 0 in HC. by rewrite HC in Hout. }
    apply andb_false_iff in Hkeep as [Hkeep%negb_false_iff|Hkeep%negb_false_iff]; [by left|].
    right. by apply mem_extension.
Qed.

Lemma size_exn c msg :
  error_text msg → frame_exn c (HTTP2FrameParsingError msg EC_FRAME_SIZE_ERROR).
Proof. intros. exists msg, EC_FRAME_SIZE_ERROR. split_and!; [done|done|set_solver|done]. Qed.

Lemma parse_frame_short c pre w ent :
  ¬ FRAME_HEADER_SIZE ≤ zlen w →
  parse_frame (st c None pre w ent) =
    (Err (HTTP2FrameParsingError (u "Incomplete frame header") EC_FRAME_SIZE_ERROR),
     st c None pre w ent).
Proof.
  intros H9. unfold parse_frame. erewrite bind_ok by done. erewrite bind_ok by done.
  cbn [fr_pos fr_data st]. simpl default.
  rewrite (proj2 (Z.ltb_lt _ _)) by (rewrite app_nil_r, zlen_app; lia). done.
Qed.

(** A header that announces too much: nothing but the header is consumed. *)
Lemma body_short c h start pre w ent :
  ¬ (fh_length h ≤ c_max_frame_size c ∧ fh_length h ≤ zlen w) →
  ∃ msg, error_text msg ∧ parse_frame_body (pre ++ w) start h (st c None pre w ent) =
    (Err (HTTP2FrameParsingError msg EC_FRAME_SIZE_ERROR), st c None pre w ent).
Proof.
  intros Hbig. unfold parse_frame_body. erewrite bind_ok by done. cbn [fr_max_frame_size st].
  rewrite Z.gtb_ltb. destruct (Z.ltb_spec (c_max_frame_size c) (fh_length h));
    [eexists; split; [|reflexivity]; error_text|].
  erewrite bind_ok by done. cbn [fr_pos st].
  rewrite Z.gtb_ltb, (proj2 (Z.ltb_lt _ _)) by (rewrite zlen_app; lia).
  eexists; split; [|reflexivity]; error_text.
Qed.

Lemma frame_parses c pre h hb p pl tl ent :
  header_wire h hb → payload_wire (c_strict c) h p pl →
  fh_length h = zlen pl → zlen pl ≤ c_max_frame_size c →
  within c (ent + Z.of_nat (entries_of p)) →
  parse_frame (st c None pre (hb ++ pl ++ tl) ent) =
    (Ok (mkParsedFrame h p (hb ++ pl)),
     st c None (pre ++ hb ++ pl) tl (ent + Z.of_nat (entries_of p))).
Proof.
  intros Hh Hp Hl Hmax Hk. pose proof (zlen_nonneg tl).
  rewrite (header_parses c pre h hb _ ent Hh) by (eapply within_mono; [done|lia]).
  unfold parse_frame_body. erewrite bind_ok by done. cbn [fr_max_frame_size st].
  rewrite Z.gtb_ltb, (proj2 (Z.ltb_ge _ _)) by lia.
  erewrite bind_ok by done. cbn [fr_pos st].
  rewrite Z.gtb_ltb, (proj2 (Z.ltb_ge _ _)) by (rewrite !zlen_app; lia).
  cbv zeta. erewrite bind_ok by done. rewrite Hl, st_bound.
  unfold finally, try_except. unfold mbind at 1, M_bind at 1.
  rewrite (exact_complete c h tl (pre ++ hb) pl ent p Hp Hl Hk). rewrite st_unbound.
  unfold mret, M_ret. rewrite <-app_assoc. do 3 f_equal.
  rewrite <-(slice_prefix pre (hb ++ pl) tl) at 1. rewrite <-!app_assoc, !zlen_app.
  f_equal; lia.
Qed.

Lemma unpadded strict h content : has_flag h FF_PADDED = false → padded_wire strict h content content.
Proof.
  intros Hp. exists []. unfold pad_ok, pad_prefix. rewrite Hp, app_nil_r.
  split_and!; done || by constructor.
Qed.

Lemma build_frame_eq t f sid pl :
  _build_frame t f sid pl =
    if bool_decide (zlen pl > MAX_ALLOWED_FRAME_SIZE) then
      Err (ValueError (u "Frame length exceeds maximum (16777215)"))
    else if bool_decide (sid < 0 ∨ MAX_STREAM_ID < sid) then
      Err (ValueError (u "Stream ID must be between 0 and 2147483647"))
    else if bool_decide (is_byte t ∧ is_byte f) then
      Ok (be_bytes 3 (zlen pl) ++ be_bytes 1 t ++ be_bytes 1 f ++ be_bytes 4 sid ++ pl)
    else Err StructError.
Proof.
  unfold _build_frame, struct_pack, is_byte, MAX_ALLOWED_FRAME_SIZE, MAX_STREAM_ID.
  pose proof (zlen_nonneg pl). rewrite Z.gtb_ltb. change (256 ^ Z.of_nat 1) with 256.
  change (256 ^ Z.of_nat 4) with 4294967296.
  destruct (Z.ltb_spec 16777215 (zlen pl)); [by rewrite bool_decide_true by lia|].
  rewrite bool_decide_false by lia.
  destruct (Z.leb_spec 0 sid), (Z.leb_spec sid 2147483647); simpl;
    try (by rewrite bool_decide_true by lia).
  rewrite bool_decide_false by lia.
  rewrite (proj2 (Z.leb_le 0 (zlen pl))), (proj2 (Z.ltb_lt (zlen pl) _)) by lia.
  rewrite (proj2 (Z.ltb_lt sid 4294967296)) by lia. simpl.
  destruct (Z.leb_spec 0 t), (Z.ltb_spec t 256), (Z.leb_spec 0 f), (Z.ltb_spec f 256);
    simpl; try lia; (rewrite bool_decide_true by lia) || (rewrite bool_decide_false by lia);
    reflexivity.
Qed.

Lemma build_frame_ok t f sid pl :
  zlen pl ≤ MAX_ALLOWED_FRAME_SIZE → 0 ≤ sid ≤ MAX_STREAM_ID → is_byte t → is_byte f →
  _build_frame t f sid pl =
    Ok (be_bytes 3 (zlen pl) ++ be_bytes 1 t ++ be_bytes 1 f ++ be_bytes 4 sid ++ pl).
Proof.
  intros. rewrite build_frame_eq, bool_decide_false, bool_decide_false, bool_decide_true;
    done || lia.
Qed.

Lemma built_header len t f sid :
  0 ≤ len ≤ MAX_ALLOWED_FRAME_SIZE → 0 ≤ sid ≤ MAX_STREAM_ID → is_byte t → is_byte f →
  header_wire (mkFrameHeader len t f sid)
    (be_bytes 3 len ++ be_bytes 1 t ++ be_bytes 1 f ++ be_bytes 4 sid).
Proof.
  unfold MAX_ALLOWED_FRAME_SIZE, MAX_STREAM_ID, is_byte. intros.
  split_and!; simpl; try lia. exists (be_bytes 4 sid). split; [|done].
  split; [lia|]. by exists false.
Qed.

Lemma frame_parses_built c t f sid pl p :
  zlen pl ≤ MAX_ALLOWED_FRAME_SIZE → 0 ≤ sid ≤ MAX_STREAM_ID →
  zlen pl ≤ c_max_frame_size c → is_byte t → is_byte f →
  payload_wire (c_strict c) (mkFrameHeader (zlen pl) t f sid) p pl →
  within c (0 + Z.of_nat (entries_of p)) →
  let raw := be_bytes 3 (zlen pl) ++ be_bytes 1 t ++ be_bytes 1 f ++ be_bytes 4 sid ++ pl in
  parse_frame (st c None [] raw 0) =
    (Ok (mkParsedFrame (mkFrameHeader (zlen pl) t f sid) p raw),
     st c None raw [] (Z.of_nat (entries_of p))).
Proof.
  intros Hl Hsid Hmax Ht Hf Hp Hk. cbv zeta. pose proof (zlen_nonneg pl).
  pose proof (frame_parses c [] _ _ p pl [] 0 (built_header (zlen pl) t f sid
    ltac:(lia) Hsid Ht Hf) Hp eq_refl Hmax Hk) as HP.
  by rewrite app_nil_r, <-!app_assoc in HP.
Qed.

Lemma pack_settings_ok d acc :
  Forall setting_ok d → pack_settings d acc = Ok (acc ++ concat (enc_setting <$> d)).
Proof.
  intros Hd. revert acc. induction Hd as [|[i v] d (Hi & Hv & _) Hd IH]; intros acc.
  { simpl. by rewrite app_nil_r. }
  cbn [pack_settings]. unfold struct_pack. simpl fst in Hi. simpl snd in Hv.
  change (256 ^ Z.of_nat 2) with 65536. change (256 ^ Z.of_nat 4) with 4294967296.
  rewrite (proj2 (Z.leb_le 0 i)), (proj2 (Z.ltb_lt i _)), (proj2 (Z.leb_le 0 v)),
    (proj2 (Z.ltb_lt v _)) by lia.
  cbn [andb mbind result_bind]. rewrite IH, fmap_cons. cbn [concat].
  unfold enc_setting at 2. simpl fst; simpl snd. by rewrite <-!app_assoc.
Qed.

(** ** Theorems *)

(** C1: decoding a payload is exact. With the [fh_length] octets of the payload as
    its bound, the reader returns payload [p] if and only if these octets carry
    [p] under the wire format of the frame's type and the entries of [p] fit the
    budget; it then stands at the end of the payload and has counted the entries. *)
Theorem payload_exact c h tl pre w ent p s' :
  bytes_ok w → within c ent → fh_length h = zlen w →
  parse_exact_payload h (zlen pre) (st c (Some tl) pre w ent) = (Ok p, s') ↔
  payload_wire (c_strict c) h p w ∧ within c (ent + Z.of_nat (entries_of p)) ∧
  s' = st c (Some tl) (pre ++ w) [] (ent + Z.of_nat (entries_of p)).
Proof.
  intros Hw Hent Hl. split.
  - intros HP. destruct (exact_sound c h tl pre w ent Hw Hent Hl)
      as (bs & w' & k & -> & Hk & HS & HR).
    rewrite HP in HS, HR. simpl in HS, HR. subst s'. destruct HR as (-> & HR & ->).
    rewrite app_nil_r in *. done.
  - intros (Hp & Hk & ->). by apply exact_complete.
Qed.

Lemma parse_frame_spec c pre w ent :
  bytes_ok w → within c ent →
  match parse_frame (st c None pre w ent) with
  | (Ok f, s') => ∃ hb pl tl k,
      w = hb ++ pl ++ tl ∧ pf_raw f = hb ++ pl ∧ header_wire (pf_header f) hb ∧
      fh_length (pf_header f) = zlen pl ∧ zlen pl ≤ c_max_frame_size c ∧
      within c (ent + Z.of_nat k) ∧ s' = st c None (pre ++ pf_raw f) tl (ent + Z.of_nat k) ∧
      frame_outcome c (pf_header f) pl (pf_payload f) k
  | (Err e, s') => frame_exn c e ∧
      ∃ pre' w' k, pre' ++ w' = pre ++ w ∧ within c (ent + Z.of_nat k) ∧
        s' = st c None pre' w' (ent + Z.of_nat k)
  end.
Proof.
  intros Hw Hent. destruct (decide (FRAME_HEADER_SIZE ≤ zlen w)) as [H9|H9].
  2:{ rewrite parse_frame_short by done. split; [apply size_exn; error_text|].
      exists pre, w, 0%nat. by rewrite Z.add_0_r. }
  destruct (header_split w Hw H9) as (h & hb & tl & -> & Hh & Hhb & Htl).
  rewrite (header_parses c pre h hb tl ent Hh Hent).
  destruct (decide (fh_length h ≤ c_max_frame_size c ∧ fh_length h ≤ zlen tl)) as [[Hmax Hin]|Hbig].
  2:{ destruct (body_short c h (zlen pre) (pre ++ hb) tl ent) as (msg & Hmsg & HE); [done|].
      rewrite <-app_assoc in HE. rewrite HE. split; [by apply size_exn|].
      exists (pre ++ hb), tl, 0%nat. rewrite <-app_assoc, Z.add_0_r. done. }
  assert (0 ≤ fh_length h) by apply Hh.
  set (pl := take (Z.to_nat (fh_length h)) tl). set (tl' := drop (Z.to_nat (fh_length h)) tl).
  assert (tl = pl ++ tl') as Etl by (symmetry; apply take_drop).
  assert (fh_length h = zlen pl) as Hl by (unfold pl; rewrite zlen_take; lia).
  rewrite Etl in Htl |- *. apply bytes_ok_app in Htl as [Hpl _].
  pose proof (body_sound c h (zlen pre) (pre ++ hb) pl tl' ent Hpl Hent Hl ltac:(lia)) as HB.
  rewrite <-app_assoc in HB.
  destruct (parse_frame_body _ _ _ _) as [[f|e] s'].
  2:{ destruct HB as (He & _ & pre' & w' & k & HE & Hk & ->). split; [done|].
      exists pre', w', k. done. }
  destruct HB as (k & Hk & Hf & -> & Hout). exists hb, pl, tl', k.
  assert (pf_raw f = hb ++ pl) as Hraw.
  { rewrite Hf. simpl. rewrite <-(slice_prefix pre (hb ++ pl) tl') at 1.
    rewrite <-!app_assoc, !zlen_app. f_equal; lia. }
  rewrite Hraw, Hf. cbn [pf_header]. rewrite <-app_assoc. split_and!; try done. lia.
Qed.

(** C2: [parse_frame] consumes exactly one frame. On success the octets ahead are
    a header, a payload of the announced length (at most the maximum frame size)
    and a rest; [raw] is header and payload, the reader stands at the rest with its
    payload bound lifted, and the payload was decoded, or kept with its error where
    failures are kept. On failure the exception is a frame error, nothing of the
    buffer is lost, and the bound is lifted all the same. *)
Theorem parse_frame_sound c pre w ent :
  bytes_ok w → within c ent →
  match parse_frame (st c None pre w ent) with
  | (Ok f, s') => ∃ hb pl tl k,
      w = hb ++ pl ++ tl ∧ pf_raw f = hb ++ pl ∧ header_wire (pf_header f) hb ∧
      fh_length (pf_header f) = zlen pl ∧ zlen pl ≤ c_max_frame_size c ∧
      within c (ent + Z.of_nat k) ∧ s' = st c None (pre ++ pf_raw f) tl (ent + Z.of_nat k) ∧
      frame_outcome c (pf_header f) pl (pf_payload f) k
  | (Err e, s') => frame_exn c e ∧
      ∃ pre' w' k, pre' ++ w' = pre ++ w ∧ within c (ent + Z.of_nat k) ∧
        s' = st c None pre' w' (ent + Z.of_nat k)
  end.
Proof. apply parse_frame_spec. Qed.

(** C3: [parse_frame] is complete. A header and a payload of the announced length,
    within the size and entry limits, are read as that frame in any surroundings. *)
Theorem parse_frame_complete c pre h hb p pl tl ent :
  header_wire h hb → payload_wire (c_strict c) h p pl →
  fh_length h = zlen pl → zlen pl ≤ c_max_frame_size c →
  within c (ent + Z.of_nat (entries_of p)) →
  parse_frame (st c None pre (hb ++ pl ++ tl) ent) =
    (Ok (mkParsedFrame h p (hb ++ pl)),
     st c None (pre ++ hb ++ pl) tl (ent + Z.of_nat (entries_of p))).
Proof.
  intros Hh Hp Hl Hmax Hk. by apply frame_parses.
Qed.

(** Forensic reading is total. A reader that keeps malformed payloads and has
    no entry limit never fails on a complete frame of an allowed size, whatever its
    type, flags and payload. *)
Theorem forensic_total c pre h hb w ent :
  bytes_ok w → header_wire h hb → c_forensic c = true → c_max_entries c = None →
  fh_length h ≤ c_max_frame_size c → fh_length h ≤ zlen w →
  ∃ f s', parse_frame (st c None pre (hb ++ w) ent) = (Ok f, s') ∧ pf_header f = h.
Proof.
  intros Hw Hh Hf Hnone Hmax Hin. assert (0 ≤ fh_length h) by apply Hh.
  assert (within c ent) as Hent by (unfold within; by rewrite Hnone).
  rewrite (header_parses c pre h hb w ent Hh Hent).
  rewrite <-(take_drop (Z.to_nat (fh_length h)) w).
  set (pl := take _ w). set (tl := drop _ w).
  assert (fh_length h = zlen pl) as Hl by (unfold pl; rewrite zlen_take; lia).
  pose proof (body_sound c h (zlen pre) (pre ++ hb) pl tl ent
    (bytes_ok_take _ _ Hw) Hent Hl ltac:(lia)) as HB. rewrite <-app_assoc in HB.
  destruct (parse_frame_body _ _ _ _) as [[f|e] s'].
  - exists f, s'. split; [done|]. destruct HB as (k & _ & -> & _). done.
  - destruct HB as ((msg & code & -> & _ & _ & Hcalm) & Hc & _).
    destruct (Hc Hf) as [msg' [= -> ->]]. by destruct (Hcalm eq_refl).
Qed.

(** The effective settings. A SETTINGS frame that is accepted carries only
    parameters in their allowed ranges, overwritten ones included; its dictionary
    has one value per identifier, the one of the last entry with that identifier. *)
Theorem settings_effective c h tl pre w ent d es s' :
  bytes_ok w → within c ent → fh_length h = zlen w →
  parse_exact_payload h (zlen pre) (st c (Some tl) pre w ent) =
    (Ok (SettingsPayload false (Some d) es), s') →
  Forall setting_ok es ∧ w = concat (enc_setting <$> es) ∧ NoDup d.*1 ∧
  ∀ i, dict_get i d = snd <$> last (filter (λ e, e.1 = i) es).
Proof.
  intros Hw Hent Hl HP.
  destruct (exact_sound c h tl pre w ent Hw Hent Hl) as (bs & w' & k & -> & Hk & HS & HR).
  rewrite HP in HR. destruct HR as (_ & HW & _). inversion HW; subst.
  split_and!; [done|done|apply dict_of_NoDup|]. intros i. apply dict_get_of.
Qed.

(** ** The builder *)

(** The builder's contract on every branch. A payload over 24 bits of length
    or a stream identifier over 31 bits is a [ValueError], a type or flags octet
    out of range a [struct.error]; everything else becomes the frame. *)
Theorem build_frame_spec t f sid pl :
  _build_frame t f sid pl =
    if bool_decide (zlen pl > MAX_ALLOWED_FRAME_SIZE) then
      Err (ValueError (u "Frame length exceeds maximum (16777215)"))
    else if bool_decide (sid < 0 ∨ MAX_STREAM_ID < sid) then
      Err (ValueError (u "Stream ID must be between 0 and 2147483647"))
    else if bool_decide (is_byte t ∧ is_byte f) then
      Ok (be_bytes 3 (zlen pl) ++ be_bytes 1 t ++ be_bytes 1 f ++ be_bytes 4 sid ++ pl)
    else Err StructError.
Proof. apply build_frame_eq. Qed.

(** HEADERS frames survive a round trip. What [build_headers_frame] writes for
    a stream identifier and a block within the limits is read back as a HEADERS
    frame with that block, no priority, no padding and the same flags. *)
Theorem build_headers_roundtrip c sid block es eh :
  0 < sid ≤ MAX_STREAM_ID → zlen block ≤ MAX_ALLOWED_FRAME_SIZE →
  zlen block ≤ c_max_frame_size c → within c 0 →
  ∃ raw, build_headers_frame sid block es eh = Ok raw ∧
    ∃ h, fh_stream_id h = sid ∧
      parse_frame (st c None [] raw 0) =
        (Ok (mkParsedFrame h (HeadersPayload block None es eh false) raw),
         st c None raw [] 0).
Proof.
  intros Hsid Hblock Hmax Hent. unfold build_headers_frame.
  set (f := if eh then _ else _).
  assert (is_byte f ∧ Z.land f FF_PADDED = 0 ∧ Z.land f FF_PRIORITY = 0 ∧
          negb (Z.land f FF_END_STREAM =? 0) = es ∧
          negb (Z.land f FF_END_HEADERS =? 0) = eh) as (Hf & Hp & Hpr & Hes & Heh)
    by (unfold f; destruct es, eh; split_and!; by_eval).
  rewrite build_frame_ok by first [assumption|lia|by_eval]. eexists. split; [done|].
  set (h := mkFrameHeader (zlen block) FT_HEADERS f sid). exists h. split; [done|].
  rewrite (frame_parses_built c FT_HEADERS f sid block
    (HeadersPayload block None es eh false)); [done|done|lia|done|by_eval|done| |done].
  fold h.
  assert (has_flag h FF_PADDED = false) as Hp' by (unfold has_flag; simpl; by rewrite Hp).
  assert (payload_wire (c_strict c) h (HeadersPayload block None (has_flag h FF_END_STREAM)
      (has_flag h FF_END_HEADERS) (has_flag h FF_PADDED)) block) as HW.
  { eapply (PW_headers _ _ _ None []); [done|simpl; lia|split; [|done]|by apply unpadded].
    unfold has_flag; simpl. by rewrite Hpr. }
  rewrite Hp' in HW. unfold has_flag in HW. simpl in HW. by rewrite Hes, Heh in HW.
Qed.

(** SETTINGS frames survive a round trip. A settings dictionary with values in
    their allowed ranges is read back entry by entry, in its order, as the same
    dictionary; an acknowledgement is read back as an acknowledgement. *)
Theorem build_settings_roundtrip c d :
  NoDup d.*1 → Forall setting_ok d → 6 * zlen d ≤ MAX_ALLOWED_FRAME_SIZE →
  6 * zlen d ≤ c_max_frame_size c → within c (zlen d) → within c 0 →
  (∃ raw h, build_settings_frame (Some d) false = Ok raw ∧
     parse_frame (st c None [] raw 0) =
       (Ok (mkParsedFrame h (SettingsPayload false (Some d) d) raw),
        st c None raw [] (zlen d))) ∧
  (∃ raw h, build_settings_frame None true = Ok raw ∧
     parse_frame (st c None [] raw 0) =
       (Ok (mkParsedFrame h (SettingsPayload true None []) raw), st c None raw [] 0)).
Proof.
  intros Hnd Hd Hmax Hmax' Hent H0. pose proof (zlen_nonneg d). split.
  - unfold build_settings_frame. rewrite (pack_settings_ok d []) by done.
    rewrite app_nil_l. cbn [mbind result_bind]. set (pl := concat (enc_setting <$> d)).
    assert (zlen pl = 6 * zlen d) as Hl by apply zlen_settings.
    eexists _, (mkFrameHeader (zlen pl) FT_SETTINGS 0 0). split.
    { apply build_frame_ok; [lia|by_eval..]. }
    apply (frame_parses_built c FT_SETTINGS 0 0 pl (SettingsPayload false (Some d) d));
      [lia|by_eval|lia|by_eval|by_eval| |done].
    rewrite <-(dict_of_id d Hnd) at 1. by constructor.
  - eexists _, (mkFrameHeader 0 FT_SETTINGS FF_ACK 0). split.
    { apply build_frame_ok; by_eval. }
    apply (frame_parses_built c FT_SETTINGS FF_ACK 0 [] (SettingsPayload true None []));
      [by_eval|by_eval|rewrite zlen_nil; lia|by_eval|by_eval| |done].
    by constructor.
Qed.

(** ** Witnesses *)

(** Witness of C1. *)
Lemma payload_exact_witness :
  payload_wire true sample_header
    (SettingsPayload false (Some [(4, 65536)]) [(4, 65535); (4, 65536)]) sample_payload.
Proof.
  refine (proj1 (proj1 (payload_exact sample_config sample_header [7] [] sample_payload 0 _ _
    _ _ _) eq_refl)); [by_eval|done|reflexivity].
Defined.

(** Witness of C2. *)
Lemma parse_frame_sound_witness :
  ∃ f s', parse_frame (st sample_config None [] (sample_frame ++ [7]) 0) = (Ok f, s') ∧
    ∃ hb pl, sample_frame ++ [7] = hb ++ pl ++ [7] ∧ pf_raw f = hb ++ pl.
Proof.
  pose proof (parse_frame_sound sample_config [] (sample_frame ++ [7]) 0
    ltac:(by_eval) ltac:(done)) as HS.
  destruct (parse_frame _) as [[f|e] s'] eqn:E; [|by vm_compute in E].
  exists f, s'. split; [done|]. destruct HS as (hb & pl & tl & k & Hw & Hr & _).
  exists hb, pl. split; [|done]. rewrite Hw. f_equal. f_equal.
  assert (pf_raw f = sample_frame) as Hf by (vm_compute in E; injection E as <- <-; done).
  rewrite Hr in Hf. rewrite app_assoc, Hf in Hw. by apply app_inv_head in Hw.
Defined.

(** Witness of C3. *)
Lemma parse_frame_complete_witness :
  ∃ h p, parse_frame (st sample_config None [9] ([0; 0; 4; 8; 0; 0; 0; 0; 0] ++
      [128; 0; 0; 5] ++ [1]) 3) =
    (Ok (mkParsedFrame h p ([0; 0; 4; 8; 0; 0; 0; 0; 0] ++ [128; 0; 0; 5])),
     st sample_config None ([9] ++ [0; 0; 4; 8; 0; 0; 0; 0; 0] ++ [128; 0; 0; 5]) [1] (3 + 0)).
Proof.
  exists (mkFrameHeader 4 FT_WINDOW_UPDATE 0 0), (WindowUpdatePayload 5).
  apply (parse_frame_complete sample_config [9] _ _ (WindowUpdatePayload 5)); try by_eval.
  - split_and!; try by_eval. exists [0; 0; 0; 0]. split; [|done]. split; [by_eval|].
    by exists false.
  - apply PW_window_update; [done|split; [by_eval|by exists true]|done].
  - done.
Defined.

(** A concrete input for [forensic_total]: a DATA frame on stream 0 is kept with its error. *)
Lemma forensic_total_witness :
  ∃ f s', parse_frame (st (mkConfig 16384 false true None) None []
    ([0; 0; 1; 0; 0; 0; 0; 0; 0] ++ [65; 66]) 0) = (Ok f, s') ∧
    pf_header f = mkFrameHeader 1 FT_DATA 0 0.
Proof.
  apply forensic_total; try by_eval; try done.
  split_and!; try by_eval. exists [0; 0; 0; 0]. split; [|done]. split; [by_eval|].
  by exists false.
Defined.

(** A concrete input for [settings_effective]. *)
Lemma settings_effective_witness :
  dict_get 4 [(4, 65536)] =
    snd <$> last (filter (λ e : Z * Z, e.1 = 4) [(4, 65535); (4, 65536)]).
Proof.
  refine (proj2 (proj2 (proj2 (settings_effective sample_config sample_header [7] []
    sample_payload 0 _ _ _ _ _ _ eq_refl))) 4); [by_eval|done|reflexivity].
Defined.

(** A concrete input for [build_headers_roundtrip]. *)
Lemma build_headers_roundtrip_witness :
  ∃ raw, build_headers_frame 1 [130; 132] true true = Ok raw ∧
    ∃ h, fh_stream_id h = 1 ∧
      parse_frame (st sample_config None [] raw 0) =
        (Ok (mkParsedFrame h (HeadersPayload [130; 132] None true true false) raw),
         st sample_config None raw [] 0).
Proof. apply build_headers_roundtrip; by_eval || done. Defined.

(** A concrete input for [build_settings_roundtrip]. *)
Lemma build_settings_roundtrip_witness :
  ∃ raw h, build_settings_frame (Some [(3, 100); (4, 65535)]) false = Ok raw ∧
    parse_frame (st sample_config None [] raw 0) =
      (Ok (mkParsedFrame h (SettingsPayload false (Some [(3, 100); (4, 65535)])
             [(3, 100); (4, 65535)]) raw),
       st sample_config None raw [] 2).
Proof.
  refine (proj1 (build_settings_roundtrip sample_config [(3, 100); (4, 65535)] _ _ _ _ _ _));
    try by_eval; try done.
Defined.
