(* ===== verification/HttpFields.v ===== *)
(** * HTTP field helpers (src/solvetls/http_fields.py)

    The response framing rule shared by both protocol versions and the quoted-list
    scanner that the Expect, TE and Transfer-Encoding fields go through. *)

From S2P Require Import Prelude PyText.

(** A field value: HTTP/1 gives [str], HTTP/2 gives [bytes]. *)
Inductive field_value :=
  | FStr (s : text)
  | FBytes (b : bytes).

Definition as_text (value : field_value) : text :=
  match value with FStr s => s | FBytes b => decode_latin1 b end.

Definition no_content_status (status_code : Z) : bool :=
  mem status_code [204; 304] || ((100 <=? status_code) && (status_code <? 200)).

Definition prepare_response (content : bytes) (headers : option (list (text * text)))
    (status_code : Z) : bytes * list (text * text) :=
  let normalized := dict_of ((λ kv, (lower kv.1, kv.2)) <$> default [] headers) in
  if no_content_status status_code then
    ([], dict_pop (u "content-length") normalized)
  else
    (content, dict_set (u "content-length") (str_int (zlen content)) normalized).

(** The characters the scanner tests. *)
Definition COMMA : Z := 44.
Definition DQUOTE : Z := 34.
Definition BACKSLASH : Z := 92.
Definition OWS : text := [32; 9].

(** The loop variables of [parse_http_list]. *)
Record list_scan := mkListScan {
  ls_result : list text;
  ls_start : Z;
  ls_quoted : bool;
  ls_escaped : bool;
}.

(** [member = combined[start:index].strip(" \t")], appended unless empty. *)
Definition add_member (result : list text) (chunk : text) : list text :=
  match strip OWS chunk with
  | [] => result
  | member => result ++ [member]
  end.

Definition list_step (combined : text) (index char : Z) (s : list_scan) : list_scan :=
  if ls_escaped s then mkListScan (ls_result s) (ls_start s) (ls_quoted s) false
  else if ls_quoted s && (char =? BACKSLASH) then
    mkListScan (ls_result s) (ls_start s) (ls_quoted s) true
  else if char =? DQUOTE then
    mkListScan (ls_result s) (ls_start s) (negb (ls_quoted s)) (ls_escaped s)
  else if (char =? COMMA) && negb (ls_quoted s) then
    mkListScan (add_member (ls_result s) (slice combined (ls_start s) index)) (index + 1)
      (ls_quoted s) (ls_escaped s)
  else s.

(** [for index, char in enumerate(combined)] from [index] on. *)
Fixpoint list_loop (combined : text) (index : Z) (chars : text) (s : list_scan) : list_scan :=
  match chars with
  | [] => s
  | char :: chars => list_loop combined (index + 1) chars (list_step combined index char s)
  end.

Definition parse_http_list (values : list field_value) : result (list text) :=
  let combined := join [COMMA] (as_text <$> values) in
  let s := list_loop combined 0 combined (mkListScan [] 0 false false) in
  if ls_quoted s || ls_escaped s then
    Err (ValueError (u "Unterminated quoted HTTP list member"))
  else
    Ok (add_member (ls_result s) (slice combined (ls_start s) (zlen combined))).

Definition parse_expectations (values : list field_value) : result (list text) :=
  xs ← parse_http_list values; mret (map lower xs).

(** ** What a list is

    The quoting state after each character, and the chunks of a list: pieces that
    close their quotes and have no comma outside of them. *)
Inductive quoting := Plain | Quoted | Escaped.

Global Instance quoting_eq_dec : EqDecision quoting.
Proof. solve_decision. Defined.

Definition quote_step (q : quoting) (c : Z) : quoting :=
  match q with
  | Escaped => Quoted
  | Quoted =>
      if decide (c = BACKSLASH) then Escaped else if decide (c = DQUOTE) then Plain else Quoted
  | Plain => if decide (c = DQUOTE) then Quoted else Plain
  end.

Definition quote_scan (q : quoting) (l : text) : quoting := foldl quote_step q l.

(** No character of [l] is a comma outside quotes, when [l] is scanned from [q]. *)
Fixpoint no_plain_comma (q : quoting) (l : text) : Prop :=
  match l with
  | [] => True
  | c :: l => (c = COMMA → q ≠ Plain) ∧ no_plain_comma (quote_step q c) l
  end.

Global Instance no_plain_comma_dec l : ∀ q, Decision (no_plain_comma q l).
Proof. induction l as [|c l IH]; intros q; simpl; apply _. Defined.

Definition list_chunk (l : text) : Prop := quote_scan Plain l = Plain ∧ no_plain_comma Plain l.

Global Instance list_chunk_dec l : Decision (list_chunk l).
Proof. unfold list_chunk. apply _. Defined.

(** The members: the chunks without surrounding blanks, empty ones dropped. *)
Definition members (chunks : list text) : list text :=
  filter (λ m, m ≠ []) (strip OWS <$> chunks).

(** ** Lemmas *)

Definition flags (q : quoting) : bool * bool :=
  match q with Plain => (false, false) | Quoted => (true, false) | Escaped => (true, true) end.

(** One turn of the loop, by quoting state. *)
Lemma list_step_quoting combined i c res start q :
  let s := mkListScan res start (flags q).1 (flags q).2 in
  list_step combined i c s =
    (if decide (c = COMMA ∧ q = Plain) then
       mkListScan (add_member res (slice combined start i)) (i + 1) false false
     else mkListScan res start (flags (quote_step q c)).1 (flags (quote_step q c)).2).
Proof.
  destruct q; simpl; unfold list_step; simpl.
  - destruct (Z.eqb_spec c DQUOTE) as [->|].
    { rewrite (decide_True (P := DQUOTE = DQUOTE)) by done.
      by rewrite decide_False by (by intros [? _]). }
    rewrite (decide_False (P := c = DQUOTE)) by done.
    destruct (Z.eqb_spec c COMMA); simpl; [by rewrite decide_True|].
    by rewrite decide_False by tauto.
  - rewrite decide_False by (by intros [_ ?]).
    destruct (Z.eqb_spec c BACKSLASH) as [->|]; [by rewrite decide_True|].
    rewrite (decide_False (P := c = BACKSLASH)) by done.
    destruct (Z.eqb_spec c DQUOTE) as [->|]; [by rewrite decide_True|].
    rewrite (decide_False (P := c = DQUOTE)) by done. simpl. by rewrite andb_false_r.
  - by rewrite decide_False by (by intros [_ ?]).
Qed.

Lemma loop_app combined i l k s :
  list_loop combined i (l ++ k) s = list_loop combined (i + zlen l) k (list_loop combined i l s).
Proof.
  revert i s. induction l as [|c l IH]; intros i s; simpl.
  { by rewrite add_zlen_nil. }
  rewrite IH, zlen_cons. f_equal. lia.
Qed.

(** Inside a chunk only the flags move. *)
Lemma loop_chunk combined i l res start q :
  no_plain_comma q l →
  list_loop combined i l (mkListScan res start (flags q).1 (flags q).2) =
    mkListScan res start (flags (quote_scan q l)).1 (flags (quote_scan q l)).2.
Proof.
  revert i q. induction l as [|c l IH]; intros i q; cbn [list_loop no_plain_comma]; [done|].
  intros [Hc Hl]. rewrite list_step_quoting, decide_False by tauto. by rewrite IH.
Qed.

Lemma add_member_members res chunks c :
  add_member (res ++ members chunks) c = res ++ members (chunks ++ [c]).
Proof.
  unfold add_member, members. rewrite fmap_app, filter_app. simpl.
  rewrite filter_cons, filter_nil. destruct (strip OWS c); simpl.
  - by rewrite app_nil_r.
  - by rewrite app_assoc.
Qed.

Lemma join_snoc sep (ps : list text) p :
  ps ≠ [] → join sep (ps ++ [p]) = join sep ps ++ sep ++ p.
Proof.
  induction ps as [|a ps IH]; [done|]. intros _. destruct ps as [|b ps]; [done|].
  specialize (IH ltac:(done)). simpl in *. rewrite IH. by rewrite !app_assoc.
Qed.

Lemma join_app sep (ps qs : list text) :
  ps ≠ [] → qs ≠ [] → join sep (ps ++ qs) = join sep ps ++ sep ++ join sep qs.
Proof.
  intros Hp Hq. induction ps as [|a ps IH]; [done|]. destruct ps as [|b ps].
  { simpl. by destruct qs. }
  simpl in *. rewrite IH by done. by rewrite !app_assoc.
Qed.

(** What the loop has done after whole chunks and a last, maybe open, piece. *)
Lemma loop_chunks chunks last tl :
  Forall list_chunk chunks → no_plain_comma Plain last →
  let combined := join [COMMA] (chunks ++ [last]) ++ tl in
  list_loop combined 0 (join [COMMA] (chunks ++ [last])) (mkListScan [] 0 false false) =
    mkListScan (members chunks) (zlen (join [COMMA] (chunks ++ [last])) - zlen last)
      (flags (quote_scan Plain last)).1 (flags (quote_scan Plain last)).2.
Proof.
  revert last tl. induction chunks as [|c chunks IH] using rev_ind; intros last tl Hc Hl combined.
  - simpl join. rewrite (loop_chunk _ _ _ _ _ Plain) by done. f_equal. lia.
  - apply Forall_app in Hc as [Hcs [[Hq Hn] _]%Forall_cons].
    subst combined. rewrite (join_snoc _ (chunks ++ [c]) last) by (by destruct chunks).
    set (J := join [COMMA] (chunks ++ [c])) in *.
    rewrite loop_app. specialize (IH c ([COMMA] ++ last ++ tl) Hcs Hn). fold J in IH.
    rewrite <-!app_assoc. cbv zeta in IH. rewrite IH, Hq. cbn [flags fst snd app list_loop].
    set (combined := J ++ _).
    pose proof (list_step_quoting combined (0 + zlen J) COMMA (members chunks)
      (zlen J - zlen c) Plain) as HS. cbv zeta in HS. cbn [flags fst snd] in HS. rewrite HS.
    rewrite decide_True by done.
    rewrite (loop_chunk _ _ _ _ _ Plain) by done. f_equal.
    + replace (slice combined _ _) with c; [apply (add_member_members [])|].
      assert (∃ p, J = p ++ c) as [p Hp].
      { unfold J. destruct chunks as [|a chunks]; [by exists []|].
        rewrite join_snoc by done. eexists. by rewrite app_assoc. }
      unfold combined. rewrite Hp, zlen_app, <-app_assoc.
      rewrite <-(slice_prefix p c) at 1. f_equal; lia.
    + rewrite zlen_app, zlen_cons. lia.
Qed.

(** Every text is a sequence of whole chunks and a last piece. *)
Lemma chunks_exist l :
  ∃ chunks last, l = join [COMMA] (chunks ++ [last]) ∧ Forall list_chunk chunks ∧
    no_plain_comma Plain last ∧ quote_scan Plain l = quote_scan Plain last.
Proof.
  induction l as [|c l IH] using rev_ind.
  { exists [], []. by repeat constructor. }
  destruct IH as (chunks & last & -> & Hcs & Hl & Hq).
  assert (∀ q x, no_plain_comma q last → (x = COMMA → quote_scan q last ≠ Plain) →
            no_plain_comma q (last ++ [x])) as Hsnoc.
  { clear. induction last as [|y last IH]; intros q x; simpl; [tauto|].
    intros [? ?] ?. split; [done|]. by apply IH. }
  assert (∀ x, quote_scan Plain (join [COMMA] (chunks ++ [last]) ++ [x]) =
            quote_step (quote_scan Plain last) x) as Hx.
  { intros x. rewrite <-Hq. unfold quote_scan. by rewrite foldl_app. }
  destruct (decide (c = COMMA ∧ quote_scan Plain last = Plain)) as [[-> Hp]|Hn].
  - exists (chunks ++ [last]), []. rewrite (join_snoc _ (chunks ++ [last]) []) by (by destruct chunks).
    rewrite app_nil_r. split_and!; [done| |done|by rewrite Hx, Hp].
    apply Forall_app; split; [done|]. by repeat constructor.
  - exists chunks, (last ++ [c]). split_and!; [|done|apply Hsnoc; [done|tauto]|].
    + destruct chunks as [|a chunks]; [done|].
      rewrite !join_snoc by done. by rewrite <-!app_assoc.
    + rewrite Hx. unfold quote_scan at 2. by rewrite foldl_app.
Qed.

Lemma http_list_chunks values chunks last :
  join [COMMA] (as_text <$> values) = join [COMMA] (chunks ++ [last]) →
  Forall list_chunk chunks → no_plain_comma Plain last →
  parse_http_list values =
    if decide (quote_scan Plain last = Plain) then Ok (members (chunks ++ [last]))
    else Err (ValueError (u "Unterminated quoted HTTP list member")).
Proof.
  intros HJ Hcs Hl. unfold parse_http_list. rewrite HJ.
  set (J := join [COMMA] (chunks ++ [last])).
  pose proof (loop_chunks chunks last [] Hcs Hl) as HL. cbv zeta in HL. fold J in HL.
  rewrite app_nil_r in HL. rewrite HL.
  assert (∃ p, J = p ++ last) as [p Hp].
  { unfold J. destruct chunks as [|a chunks]; [by exists []|].
    rewrite join_snoc by done. eexists. by rewrite app_assoc. }
  destruct (quote_scan Plain last); simpl; [|done..].
  f_equal. replace (slice J _ _) with last; [apply (add_member_members [])|].
  rewrite Hp, zlen_app. rewrite <-(slice_prefix p last []) at 1.
  rewrite app_nil_r. f_equal; lia.
Qed.

Lemma http_list_iff values r :
  parse_http_list values = Ok r ↔
  ∃ chunks, chunks ≠ [] ∧ Forall list_chunk chunks ∧
    join [COMMA] (as_text <$> values) = join [COMMA] chunks ∧ r = members chunks.
Proof.
  split.
  - destruct (chunks_exist (join [COMMA] (as_text <$> values))) as (cs & l & HJ & Hcs & Hl & Hq).
    rewrite (http_list_chunks values cs l HJ Hcs Hl). case_decide; [|done].
    intros [= <-]. exists (cs ++ [l]). split_and!; [by destruct cs| |done|done].
    apply Forall_app; split; [done|]. by repeat constructor.
  - intros (chunks & Hne & Hcs & HJ & ->).
    destruct chunks as [|l cs _] using rev_ind; [done|].
    apply Forall_app in Hcs as [Hcs [[Hq Hl] _]%Forall_cons].
    rewrite (http_list_chunks values cs l HJ Hcs Hl). by rewrite decide_True.
Qed.

(** ** Theorems *)

(** List members are read with their quoting. The combined field value is a
    list of chunks that close their quotes and have no comma outside of them, and
    the result is exactly the non-empty chunks without surrounding blanks, in
    order; where there are no such chunks (an open quote) a [ValueError] is
    raised. *)
Theorem http_list_exact values :
  match parse_http_list values with
  | Ok r => ∃ chunks, chunks ≠ [] ∧ Forall list_chunk chunks ∧
      join [COMMA] (as_text <$> values) = join [COMMA] chunks ∧ r = members chunks
  | Err e => e = ValueError (u "Unterminated quoted HTTP list member") ∧
      ¬ ∃ chunks, chunks ≠ [] ∧ Forall list_chunk chunks ∧
          join [COMMA] (as_text <$> values) = join [COMMA] chunks
  end.
Proof.
  destruct (parse_http_list values) as [r|e] eqn:E; [by apply http_list_iff|]. split.
  - unfold parse_http_list in E. destruct (_ || _); congruence.
  - intros (chunks & Hne & Hcs & HJ).
    assert (parse_http_list values = Ok (members chunks)) as E'
      by (apply http_list_iff; eauto 10). congruence.
Qed.

(** Repeated field lines are one list (RFC 9110 5.3). Two groups of field lines
    that are lists on their own give, taken together, the members of the first
    group and then those of the second. *)
Theorem http_list_combines vs ws xs ys :
  vs ≠ [] → ws ≠ [] → parse_http_list vs = Ok xs → parse_http_list ws = Ok ys →
  parse_http_list (vs ++ ws) = Ok (xs ++ ys).
Proof.
  intros Hv Hw (cs & Hc & Hcs & HJ & ->)%http_list_iff (ds & Hd & Hds & HJ' & ->)%http_list_iff.
  apply http_list_iff. exists (cs ++ ds). split_and!.
  - by destruct cs.
  - by apply Forall_app.
  - rewrite fmap_app, !join_app, HJ, HJ'; try done; by destruct vs, ws.
  - unfold members. by rewrite fmap_app, filter_app.
Qed.

(** Responses are framed. Field names are lower case and unique; a status that
    allows no content gets neither content nor Content-Length, and any other keeps
    its content and gets its exact length, whatever the caller passed. *)
Theorem prepare_response_framing content headers status :
  let '(content', fields) := prepare_response content headers status in
  NoDup fields.*1 ∧
  (if no_content_status status
   then content' = [] ∧ dict_get (u "content-length") fields = None
   else content' = content ∧
        dict_get (u "content-length") fields = Some (str_int (zlen content))) ∧
  ∀ k, k ≠ u "content-length" →
    dict_get k fields =
      snd <$> last (filter (λ kv, kv.1 = k) ((λ kv, (lower kv.1, kv.2)) <$> default [] headers)).
Proof.
  unfold prepare_response. set (d := dict_of _).
  assert (NoDup d.*1) as Hd by apply dict_of_NoDup.
  destruct (no_content_status status); split_and!; try done.
  - by apply dict_pop_NoDup.
  - by rewrite dict_get_pop, decide_True.
  - intros k Hk. rewrite dict_get_pop, decide_False by done. apply dict_get_of.
  - by apply dict_set_NoDup.
  - by rewrite dict_get_set, decide_True.
  - intros k Hk. rewrite dict_get_set, decide_False by done. apply dict_get_of.
Qed.

(** ** Witness *)

(** A concrete input for [http_list_combines]: a comma inside quotes does not split. *)
Lemma http_list_combines_witness :
  parse_http_list ([FStr ([97; DQUOTE; COMMA; DQUOTE] ++ u " , ,b")] ++ [FBytes (u "c")]) =
    Ok ([[97; DQUOTE; COMMA; DQUOTE]; u "b"] ++ [u "c"]).
Proof. apply http_list_combines; done. Defined.
