(* ===== verification/Hashes.v ===== *)
(** * Message digests: [hashlib.md5] and [hashlib.sha256]

    The two digests of the standard library that the fingerprints are made of,
    executable (RFC 1321, FIPS 180-4).  Words are integers below [2 ^ 32]. *)

From S2P Require Import Prelude PyText.

Definition w32 (x : Z) : Z := Z.land x 0xffffffff.

Definition add32 (x y : Z) : Z := w32 (x + y).

Definition not32 (x : Z) : Z := Z.lxor x 0xffffffff.

Definition rotl32 (x n : Z) : Z := w32 (Z.lor (Z.shiftl x n) (Z.shiftr x (32 - n))).

Definition rotr32 (x n : Z) : Z := rotl32 x (32 - n).

(** Little-endian words. *)
Definition le_val (l : bytes) : Z := be_val (rev l).
Definition le_bytes (n : nat) (v : Z) : bytes := rev (be_bytes n v).

(** The padding of both digests: one bit, zeros, the length in bits. *)
Definition md_pad (len : Z) (enc_len : bytes) : bytes :=
  128 :: replicate (Z.to_nat ((55 - len) mod 64)) 0 ++ enc_len.

(** Groups of [n] elements. *)
Fixpoint groups (fuel n : nat) (l : bytes) : list bytes :=
  match fuel, l with
  | O, _ | _, [] => []
  | S fuel, _ => take n l :: groups fuel n (drop n l)
  end.

Definition nth_word (ws : list Z) (i : nat) : Z := default 0 (ws !! i).

(** ** MD5 *)

Definition md5_K : list Z :=
  [0xd76aa478; 0xe8c7b756; 0x242070db; 0xc1bdceee; 0xf57c0faf; 0x4787c62a;
   0xa8304613; 0xfd469501; 0x698098d8; 0x8b44f7af; 0xffff5bb1; 0x895cd7be;
   0x6b901122; 0xfd987193; 0xa679438e; 0x49b40821; 0xf61e2562; 0xc040b340;
   0x265e5a51; 0xe9b6c7aa; 0xd62f105d; 0x02441453; 0xd8a1e681; 0xe7d3fbc8;
   0x21e1cde6; 0xc33707d6; 0xf4d50d87; 0x455a14ed; 0xa9e3e905; 0xfcefa3f8;
   0x676f02d9; 0x8d2a4c8a; 0xfffa3942; 0x8771f681; 0x6d9d6122; 0xfde5380c;
   0xa4beea44; 0x4bdecfa9; 0xf6bb4b60; 0xbebfbc70; 0x289b7ec6; 0xeaa127fa;
   0xd4ef3085; 0x04881d05; 0xd9d4d039; 0xe6db99e5; 0x1fa27cf8; 0xc4ac5665;
   0xf4292244; 0x432aff97; 0xab9423a7; 0xfc93a039; 0x655b59c3; 0x8f0ccc92;
   0xffeff47d; 0x85845dd1; 0x6fa87e4f; 0xfe2ce6e0; 0xa3014314; 0x4e0811a1;
   0xf7537e82; 0xbd3af235; 0x2ad7d2bb; 0xeb86d391].

Definition md5_S : list Z :=
  [7; 12; 17; 22; 7; 12; 17; 22; 7; 12; 17; 22; 7; 12; 17; 22;
   5; 9; 14; 20; 5; 9; 14; 20; 5; 9; 14; 20; 5; 9; 14; 20;
   4; 11; 16; 23; 4; 11; 16; 23; 4; 11; 16; 23; 4; 11; 16; 23;
   6; 10; 15; 21; 6; 10; 15; 21; 6; 10; 15; 21; 6; 10; 15; 21].

Definition md5_state : Type := Z * Z * Z * Z.

Definition md5_init : md5_state := (0x67452301, 0xefcdab89, 0x98badcfe, 0x10325476).

Definition md5_round (ws : list Z) (s : md5_state) (i : nat) : md5_state :=
  let '(a, b, c, d) := s in
  let '(f, g) :=
    if (i <? 16)%nat then (Z.lor (Z.land b c) (Z.land (not32 b) d), i)
    else if (i <? 32)%nat then
      (Z.lor (Z.land d b) (Z.land (not32 d) c), ((5 * i + 1) mod 16)%nat)
    else if (i <? 48)%nat then (Z.lxor b (Z.lxor c d), ((3 * i + 5) mod 16)%nat)
    else (Z.lxor c (Z.lor b (not32 d)), ((7 * i) mod 16)%nat) in
  let f := w32 (f + a + nth_word md5_K i + nth_word ws g) in
  (d, add32 b (rotl32 f (nth_word md5_S i)), b, c).

Definition md5_block (s : md5_state) (block : bytes) : md5_state :=
  let ws := le_val <$> groups 16 4 block in
  let '(a, b, c, d) := s in
  let '(a', b', c', d') := foldl (md5_round ws) s (seq 0 64) in
  (add32 a a', add32 b b', add32 c c', add32 d d').

Definition md5 (msg : bytes) : bytes :=
  let data := msg ++ md_pad (zlen msg) (le_bytes 8 (8 * zlen msg)) in
  let '(a, b, c, d) := foldl md5_block md5_init (groups (length data) 64 data) in
  le_bytes 4 a ++ le_bytes 4 b ++ le_bytes 4 c ++ le_bytes 4 d.

(** ** SHA-256 *)

(** FIPS 180-4 defines the constants by the fractional parts of the cube and square
    roots of the first primes, 32 bits of each. *)
Definition is_prime (n : nat) : bool :=
  (1 <? n)%nat && forallb (λ d, negb (n mod d =? 0)%nat) (seq 2 (n - 2)).

(** The largest root of at most [bits] bits whose cube is at most [n]. *)
Fixpoint cube_root (bits : nat) (root n : Z) : Z :=
  match bits with
  | O => root
  | S bits =>
      let r := root + 2 ^ Z.of_nat bits in
      cube_root bits (if r * r * r <=? n then r else root) n
  end.

Definition primes64 : list Z :=
  Eval vm_compute in Z.of_nat <$> List.filter is_prime (seq 0 312).

Definition sha256_K : list Z :=
  Eval vm_compute in (λ p, w32 (cube_root 36 0 (p * 2 ^ 96))) <$> primes64.

Definition sha256_init : list Z :=
  Eval vm_compute in (λ p, w32 (Z.sqrt (p * 2 ^ 64))) <$> take 8 primes64.

(** The message schedule, built from its last word backwards: [ws] is reversed. *)
Definition sha256_extend (ws : list Z) (_ : nat) : list Z :=
  let w n := nth_word ws n in
  let s0 := Z.lxor (rotr32 (w 14%nat) 7) (Z.lxor (rotr32 (w 14%nat) 18) (Z.shiftr (w 14%nat) 3)) in
  let s1 := Z.lxor (rotr32 (w 1%nat) 17) (Z.lxor (rotr32 (w 1%nat) 19) (Z.shiftr (w 1%nat) 10)) in
  w32 (w 15%nat + s0 + w 6%nat + s1) :: ws.

Definition sha256_schedule (block : bytes) : list Z :=
  rev (foldl sha256_extend (rev (be_val <$> groups 16 4 block)) (seq 16 48)).

Definition sha256_round (s : list Z) (kw : Z * Z) : list Z :=
  match s with
  | [a; b; c; d; e; f; g; h] =>
      let S1 := Z.lxor (rotr32 e 6) (Z.lxor (rotr32 e 11) (rotr32 e 25)) in
      let ch := Z.lxor (Z.land e f) (Z.land (not32 e) g) in
      let temp1 := w32 (h + S1 + ch + kw.1 + kw.2) in
      let S0 := Z.lxor (rotr32 a 2) (Z.lxor (rotr32 a 13) (rotr32 a 22)) in
      let maj := Z.lxor (Z.land a b) (Z.lxor (Z.land a c) (Z.land b c)) in
      [add32 temp1 (w32 (S0 + maj)); a; b; c; add32 d temp1; e; f; g]
  | _ => s
  end.

Definition sha256_block (s : list Z) (block : bytes) : list Z :=
  zip_with add32 s (foldl sha256_round s (zip sha256_K (sha256_schedule block))).

Definition sha256 (msg : bytes) : bytes :=
  let data := msg ++ md_pad (zlen msg) (be_bytes 8 (8 * zlen msg)) in
  concat (be_bytes 4 <$> foldl sha256_block sha256_init (groups (length data) 64 data)).

(** ** Sizes *)

Lemma length_md5 msg : length (md5 msg) = 16%nat.
Proof.
  unfold md5. destruct (foldl _ _ _) as [[[a b] c] d]. unfold le_bytes.
  by rewrite !length_app, !length_rev, !length_be_bytes.
Qed.

Lemma length_sha256_round s kw : length (sha256_round s kw) = length s.
Proof. do 9 (destruct s as [|? s]; [done|]). done. Qed.

Lemma length_sha256_block s block : length s = 8%nat → length (sha256_block s block) = 8%nat.
Proof.
  intros Hs. unfold sha256_block. rewrite length_zip_with.
  assert (∀ l s, length (foldl sha256_round s l) = length s) as ->.
  { clear. induction l as [|kw l IH]; intros s; simpl; [done|].
    by rewrite IH, length_sha256_round. }
  lia.
Qed.

Lemma length_sha256 msg : length (sha256 msg) = 32%nat.
Proof.
  unfold sha256. set (s := foldl _ _ _). assert (length s = 8%nat) as Hs.
  { unfold s. generalize (groups (length (msg ++ md_pad (zlen msg) (be_bytes 8 (8 * zlen msg)))) 64
      (msg ++ md_pad (zlen msg) (be_bytes 8 (8 * zlen msg)))). intros bs.
    assert (length sha256_init = 8%nat) as Hi by done. revert Hi. generalize sha256_init.
    induction bs as [|b bs IH]; intros st Hst; simpl; [done|].
    by apply IH, length_sha256_block. }
  do 9 (destruct s as [|? s]; [done|]). done.
Qed.

(** The test suite of RFC 1321 and the one-block example of FIPS 180-4. *)
Example md5_abc : hex (md5 (u "abc")) = u "900150983cd24fb0d6963f7d28e17f72".
Proof. vm_compute. reflexivity. Qed.

Example sha256_abc :
  hex (sha256 (u "abc")) = u "ba7816bf8f01cfea414140de5dae2223b00361a396177a9cb410ff61f20015ad".
Proof. vm_compute. reflexivity. Qed.
