(* ===== verification/Capture.v ===== *)
(** * The HTTP/2 capture (src/solvetls/http2/session.py, HTTP2Capture)

    What a session keeps for the report and the fingerprints. *)

From S2P Require Import Prelude Frames.

Record HTTP2Capture := mkCapture {
  frames : list ParsedFrame;
  initial_settings : option (list (Z * Z));
  headers : option (list (bytes * bytes));
  trailers : list (bytes * bytes);
  stream_id : option Z;
  expectation_failed : bool;
}.

(** [HTTP2Capture()] *)
Definition new_capture : HTTP2Capture := mkCapture [] None None [] None false.
