(* ===== verification/Fingerprints.v ===== *)
(** * Fingerprints (src/solvetls/fingerprints.py)

    JA3, JA4 and the Akamai HTTP/2 fingerprint.  The theorems state what the
    fingerprints are for: GREASE does not change them, JA4 does not depend on the
    order of ciphers and extensions, JA3 loses nothing of what it covers, and the
    Akamai fingerprint does not depend on traffic after the request. *)

From S2P Require Import Prelude PyText Wire TlsEnums Naming ClientHello Extensions.
From S2P Require Import Hashes Frames FrameSpec HttpFields Capture.

Definition JA4_VERSIONS : list (Z * text) :=
  [(0x0304, u "13"); (0x0303, u "12"); (0x0302, u "11"); (0x0301, u "10");
   (0x0300, u "s3"); (0x0002, u "s2")].

Definition JA4_EMPTY_HASH : text := u "000000000000".
Definition JA4_HASH_LENGTH : nat := 12.

Definition ET_SERVER_NAME : Z := Eval compute in member ExtensionType "SERVER_NAME".
Definition ET_ALPN : Z :=
  Eval compute in member ExtensionType "APPLICATION_LAYER_PROTOCOL_NEGOTIATION".
Definition ET_SUPPORTED_GROUPS : Z := Eval compute in member ExtensionType "SUPPORTED_GROUPS".
Definition ET_SUPPORTED_VERSIONS : Z :=
  Eval compute in member ExtensionType "SUPPORTED_VERSIONS".
Definition ET_SIGNATURE_ALGORITHMS : Z :=
  Eval compute in member ExtensionType "SIGNATURE_ALGORITHMS".
Definition ET_EC_POINT_FORMATS : Z := Eval compute in member ExtensionType "EC_POINT_FORMATS".

Definition JA4_UNHASHED_EXTENSIONS : list Z := [ET_SERVER_NAME; ET_ALPN].

(** ** Helpers *)

Definition _md5 (value : text) : text := hex (md5 (encode_utf8 value)).

Definition _truncated_sha256 (value : text) : text :=
  take JA4_HASH_LENGTH (hex (sha256 (encode_utf8 value))).

Definition _no_grease (values : list Z) : list Z :=
  List.filter (λ v, negb (is_grease v)) values.

Definition _dashed (values : list Z) : text := join (u "-") (str_int <$> values).

Definition _extension_types (ch : ClientHello) : list Z := ext_type <$> extensions ch.

Definition _extension_data (ch : ClientHello) (t : Z) : option bytes :=
  ext_data <$> List.find (λ e, ext_type e =? t) (extensions ch).

(** [try: ... except ValueError: return default] *)
Definition on_ValueError {A} (default : A) (r : result A) : result A :=
  match r with
  | Ok a => Ok a
  | Err e => if is_ValueError e then Ok default else Err e
  end.

Definition _uint16_vector (ch : ClientHello) (t length_bytes : Z) : result (list Z) :=
  match _extension_data ch t with
  | None => Ok []
  | Some data =>
      on_ValueError []
        ((v ← read_vector length_bytes; with_reader v (while_more read_uint16))
           (new_reader data)).1
  end.

Definition _supported_groups (ch : ClientHello) : result (list Z) :=
  _uint16_vector ch ET_SUPPORTED_GROUPS 2.

Definition _supported_versions (ch : ClientHello) : result (list Z) :=
  _uint16_vector ch ET_SUPPORTED_VERSIONS 1.

Definition _signature_algorithms (ch : ClientHello) : result (list Z) :=
  _uint16_vector ch ET_SIGNATURE_ALGORITHMS 2.

Definition _ec_point_formats (ch : ClientHello) : result (list Z) :=
  match _extension_data ch ET_EC_POINT_FORMATS with
  | None => Ok []
  | Some data => on_ValueError [] (read_vector 1 (new_reader data)).1
  end.

Definition _alpn_protocols (ch : ClientHello) : result (list bytes) :=
  match _extension_data ch ET_ALPN with
  | None => Ok []
  | Some data => on_ValueError [] (parse_alpn_protocols data)
  end.

Definition _ja4_alphanumeric (byte : Z) : bool :=
  ((0x30 <=? byte) && (byte <=? 0x39)) || ((0x41 <=? byte) && (byte <=? 0x5A)) ||
  ((0x61 <=? byte) && (byte <=? 0x7A)).

Definition _ja4_alpn (protocols : list bytes) : text :=
  let protocols :=
    List.filter (λ p, negb (zlen p =? 2) || negb (is_grease (be_val p))) protocols in
  match protocols with
  | (b :: _) as first :: _ =>
      let e := List.last first 0 in
      if negb (_ja4_alphanumeric b && _ja4_alphanumeric e) then
        let encoded := hex first in
        [List.hd 0 encoded; List.last encoded 0]
      else [b; e]
  | _ => u "00"
  end.

(** ** JA3 *)

(** The string [ja3] of [build_ja3]. *)
Definition ja3_string (ch : ClientHello) : result text :=
  groups ← _supported_groups ch;
  formats ← _ec_point_formats ch;
  mret (join (u ",")
          [str_int (version ch);
           _dashed (_no_grease (cipher_suites ch));
           _dashed (_no_grease (_extension_types ch));
           _dashed (_no_grease groups);
           _dashed formats]).

Definition build_ja3 (client_hello : option ClientHello) : result (list (text * json)) :=
  match client_hello with
  | None => Ok [(u "ja3", JNull); (u "ja3_hash", JNull)]
  | Some ch =>
      ja3 ← ja3_string ch;
      mret [(u "ja3", JStr ja3); (u "ja3_hash", JStr (_md5 ja3))]
  end.

(** ** JA4 *)

(** [max(versions) if versions else client_hello.version] *)
Definition ja4_version (versions : list Z) (legacy : Z) : Z :=
  match versions with
  | [] => legacy
  | v :: vs => foldl Z.max v vs
  end.

Definition ja4_a (ch : ClientHello) (version : Z) (ciphers extensions : nat)
    (protocols : list bytes) : text :=
  u "t" ++ default (u "00") (dict_get version JA4_VERSIONS) ++
  (match _extension_data ch ET_SERVER_NAME with Some _ => u "d" | None => u "i" end) ++
  fmt_dec 2 (Z.min (Z.of_nat ciphers) 99) ++ fmt_dec 2 (Z.min (Z.of_nat extensions) 99) ++
  _ja4_alpn protocols.

Definition ja4_b (ciphers : list text) : text :=
  match ciphers with
  | [] => JA4_EMPTY_HASH
  | _ => _truncated_sha256 (join (u ",") ciphers)
  end.

Definition ja4_c (hashed signatures : list text) : text :=
  match hashed with
  | [] => JA4_EMPTY_HASH
  | _ =>
      let tail := join (u ",") hashed in
      let tail := match signatures with
                  | [] => tail
                  | _ => tail ++ u "_" ++ join (u ",") signatures
                  end in
      _truncated_sha256 tail
  end.

Definition build_ja4 (client_hello : option ClientHello) : result (option text) :=
  match client_hello with
  | None => Ok None
  | Some ch =>
      supported ← _supported_versions ch;
      let version := ja4_version (_no_grease supported) (version ch) in
      let ciphers := sorted (fmt_hex 4 <$> _no_grease (cipher_suites ch)) in
      let extensions := _no_grease (_extension_types ch) in
      algorithms ← _signature_algorithms ch;
      let signatures := fmt_hex 4 <$> _no_grease algorithms in
      protocols ← _alpn_protocols ch;
      let a := ja4_a ch version (length ciphers) (length extensions) protocols in
      let hashed :=
        sorted (fmt_hex 4 <$> List.filter (λ v, negb (mem v JA4_UNHASHED_EXTENSIONS)) extensions) in
      mret (Some (a ++ u "_" ++ ja4_b ciphers ++ u "_" ++ ja4_c hashed signatures))
  end.

(** ** Akamai *)

(** The variables of the loop over the captured frames. *)
Record akamai_state := mkAkamai {
  window_update : text;
  window_update_seen : bool;
  priorities : list text;
}.

(** [frame.payload.increment], and the text of one PRIORITY frame. *)
Definition payload_increment (p : PayloadType) : result Z :=
  match p with WindowUpdatePayload inc => Ok inc | _ => Err AttributeError end.

Definition payload_priority (p : PayloadType) : result PriorityInfo :=
  match p with PriorityPayload i => Ok i | _ => Err AttributeError end.

Definition bit_text (b : bool) : text := if b then u "1" else u "0".

Fixpoint akamai_loop (fs : list ParsedFrame) (s : akamai_state) : result akamai_state :=
  match fs with
  | [] => Ok s
  | f :: fs =>
      let h := pf_header f in
      if fh_type h =? FT_HEADERS then Ok s
      else match pf_payload f with
      | UnknownPayload _ _ _ _ => akamai_loop fs s
      | p =>
          if (fh_type h =? FT_WINDOW_UPDATE) && (fh_stream_id h =? 0) &&
             negb (window_update_seen s) then
            inc ← payload_increment p;
            akamai_loop fs (mkAkamai (str_int inc) true (priorities s))
          else if fh_type h =? FT_PRIORITY then
            i ← payload_priority p;
            akamai_loop fs
              (mkAkamai (window_update s) (window_update_seen s)
                 (priorities s ++
                  [str_int (fh_stream_id h) ++ u ":" ++ bit_text (exclusive i) ++ u ":" ++
                   str_int (dependency i) ++ u ":" ++ str_int (weight i)]))
          else akamai_loop fs s
      end
  end.

(** The letter after the colon of each pseudo-header. *)
Definition pseudo_letters (fields : list (bytes * bytes)) : list text :=
  omap (λ f, match decode_latin1 f.1 with
             | c :: x :: _ => if c =? 58 then Some [x] else None
             | _ => None
             end) fields.

Definition akamai_string (c : HTTP2Capture) : result text :=
  let settings :=
    (λ e, str_int e.1 ++ u ":" ++ str_int e.2) <$> default [] (initial_settings c) in
  s ← akamai_loop (frames c) (mkAkamai (u "00") false []);
  mret (join (u "|")
          [join (u ";") settings;
           window_update s;
           (match priorities s with [] => u "0" | ps => join (u ",") ps end);
           join (u ",") (pseudo_letters (default [] (headers c)))]).

Definition build_akamai_fingerprint (capture : option HTTP2Capture)
    : result (list (text * json)) :=
  let none := [(u "akamai_fingerprint", JNull); (u "akamai_fingerprint_hash", JNull)] in
  match capture with
  | None => Ok none
  | Some c =>
      match frames c with
      | [] => Ok none
      | _ =>
          fingerprint ← akamai_string c;
          mret [(u "akamai_fingerprint", JStr fingerprint);
                (u "akamai_fingerprint_hash", JStr (_md5 fingerprint))]
      end
  end.

(** ** Specification vocabulary *)

(** Two hellos that differ in GREASE cipher suites and GREASE extensions only. *)
Definition plain_extensions (ch : ClientHello) : list Extension :=
  List.filter (λ e, negb (is_grease (ext_type e))) (extensions ch).

Definition grease_equiv (ch ch' : ClientHello) : Prop :=
  version ch = version ch' ∧ _no_grease (cipher_suites ch) = _no_grease (cipher_suites ch') ∧
  plain_extensions ch = plain_extensions ch'.

(** The captured frames in front of the request, malformed and unknown ones left out. *)
Fixpoint before_request (fs : list ParsedFrame) : list ParsedFrame :=
  match fs with
  | [] => []
  | f :: fs =>
      if fh_type (pf_header f) =? FT_HEADERS then []
      else match pf_payload f with
           | UnknownPayload _ _ _ _ => before_request fs
           | _ => f :: before_request fs
           end
  end.

Definition connection_window (f : ParsedFrame) : option Z :=
  match pf_payload f with
  | WindowUpdatePayload inc => if fh_stream_id (pf_header f) =? 0 then Some inc else None
  | _ => None
  end.

Definition priority_text (f : ParsedFrame) : option text :=
  match pf_payload f with
  | PriorityPayload i =>
      Some (str_int (fh_stream_id (pf_header f)) ++ u ":" ++ bit_text (exclusive i) ++ u ":" ++
            str_int (dependency i) ++ u ":" ++ str_int (weight i))
  | _ => None
  end.

(** A frame the reader of Frames.v can return. *)
Definition readable (f : ParsedFrame) : Prop :=
  ∃ c hb pl k, pf_raw f = hb ++ pl ∧ frame_outcome c (pf_header f) pl (pf_payload f) k.

(** The five fields of a JA3 string. *)
Definition ja3_fields (ch : ClientHello) (groups formats : list Z) : list (list Z) :=
  [[version ch]; _no_grease (cipher_suites ch); _no_grease (_extension_types ch);
   _no_grease groups; formats].

(** Sample hellos, the second with GREASE, and sample frames. *)
Definition sample_hello2 : ClientHello :=
  mkClientHello 771 (replicate 32 7) [] [4865; 4866] [0]
    [mkExtension 0 [0; 0]; mkExtension 10 [0; 2; 0; 29]].

Definition sample_hello3 : ClientHello :=
  mkClientHello 771 (replicate 32 8) [1] [0x3a3a; 4865; 4866] [0]
    [mkExtension 0x1a1a []; mkExtension 0 [0; 0]; mkExtension 10 [0; 2; 0; 29]].

Definition sample_window_frame : ParsedFrame :=
  mkParsedFrame (mkFrameHeader 4 FT_WINDOW_UPDATE 0 0) (WindowUpdatePayload 5)
    [0; 0; 4; 8; 0; 0; 0; 0; 0; 0; 0; 0; 5].

Definition sample_headers_frame : ParsedFrame :=
  mkParsedFrame (mkFrameHeader 1 FT_HEADERS 5 1) (HeadersPayload [132] None true true false)
    [0; 0; 1; 1; 5; 0; 0; 0; 1; 132].

(** ** Lemmas *)

Lemma filter_fmap_type (p : Z → bool) (l : list Extension) :
  List.filter p (ext_type <$> l) = ext_type <$> List.filter (λ e, p (ext_type e)) l.
Proof.
  induction l as [|e l IH]; [done|]. rewrite fmap_cons. cbn [List.filter]. rewrite IH.
  by destruct (p (ext_type e)).
Qed.

Lemma find_plain (t : Z) (l : list Extension) :
  is_grease t = false →
  List.find (λ e, ext_type e =? t) l =
    List.find (λ e, ext_type e =? t) (List.filter (λ e, negb (is_grease (ext_type e))) l).
Proof.
  intros Ht. induction l as [|e l IH]; simpl; [done|].
  destruct (Z.eqb_spec (ext_type e) t) as [Ee|Hne].
  - rewrite Ee, Ht. simpl. by rewrite (proj2 (Z.eqb_eq _ _) Ee).
  - destruct (is_grease (ext_type e)); simpl; [done|].
    by rewrite (proj2 (Z.eqb_neq _ _) Hne).
Qed.

Lemma grease_types ch ch' :
  grease_equiv ch ch' → _no_grease (_extension_types ch) = _no_grease (_extension_types ch').
Proof.
  intros (_ & _ & He). unfold _no_grease, _extension_types.
  rewrite !(filter_fmap_type (λ v, negb (is_grease v))). unfold plain_extensions in He. by rewrite He.
Qed.

Lemma grease_data ch ch' t :
  grease_equiv ch ch' → is_grease t = false → _extension_data ch t = _extension_data ch' t.
Proof.
  intros (_ & _ & He) Ht. unfold _extension_data. 
  rewrite (find_plain t (extensions ch)), (find_plain t (extensions ch')) by done.
  unfold plain_extensions in He. by rewrite He.
Qed.

Lemma find_perm (t : Z) (l k : list Extension) :
  l ≡ₚ k → NoDup (ext_type <$> l) →
  List.find (λ e, ext_type e =? t) l = List.find (λ e, ext_type e =? t) k.
Proof.
  induction 1 as [|e l k Hp IH|e1 e2 l|l1 l2 l3 H1 IH1 H2 IH2]; intros Hd; simpl; [done|..].
  - apply NoDup_cons in Hd as [_ Hd]. by rewrite IH.
  - apply NoDup_cons in Hd as [Hd _].
    destruct (Z.eqb_spec (ext_type e1) t), (Z.eqb_spec (ext_type e2) t); try done.
    exfalso. apply Hd. replace (ext_type e2) with (ext_type e1) by congruence. left.
  - rewrite IH1 by done. apply IH2. by rewrite <-H1.
Qed.

Lemma filter_perm {A} (p : A → bool) (l k : list A) :
  l ≡ₚ k → List.filter p l ≡ₚ List.filter p k.
Proof.
  induction 1 as [|e l k Hp IH|e1 e2 l|l1 l2 l3 H1 IH1 H2 IH2]; simpl; [done|..].
  - destruct (p e); by rewrite IH.
  - destruct (p e1), (p e2); done || by constructor.
  - by rewrite IH1.
Qed.

(** The vectors of a well-formed hello are read without an exception. *)
Lemma extension_data_ok ch t data :
  client_hello_ok ch → _extension_data ch t = Some data → bytes_ok data.
Proof.
  intros (_ & _ & _ & _ & _ & [He _]) Hd. unfold _extension_data in Hd.
  destruct (List.find _ _) as [e|] eqn:F; [|done]. injection Hd as <-.
  apply find_some in F as [F%list_elem_of_In _]. rewrite Forall_forall in He.
  by destruct (He e F) as [_ [Hb _]].
Qed.

Lemma uint16_vector_total k m ch t :
  WireFormat m (enc_vector k) (vector_ok k) → client_hello_ok ch →
  ∃ vs, match _extension_data ch t with
        | None => Ok []
        | Some data =>
            on_ValueError [] ((v ← m; with_reader v (while_more read_uint16)) (new_reader data)).1
        end = Ok vs ∧ Forall (λ v, 0 ≤ v) vs.
Proof.
  intros Hm Hok. destruct (_extension_data ch t) as [data|] eqn:Hd; [|by exists []].
  assert (bytes_ok data) as Hb by (by eapply extension_data_ok).
  assert (∀ a : Z, 0 ≤ a < 65536 → be_bytes 2 a ≠ []) as Hne
    by (intros a _ H%(f_equal length); by rewrite length_be_bytes in H).
  pose proof (@wire_sound _ _ _ _
    (while_more_vector_wire read_uint16 (be_bytes 2) _ Hne k m Hm) (new_reader data)
    (reader_ok_new _ Hb)) as HS.
  destruct ((v ← m; with_reader v (while_more read_uint16)) (new_reader data)) as [[vs|e] r'];
    simpl; [|rewrite HS; by exists []]. exists vs. split; [done|].
  destruct HS as [[HS _] _]. eapply Forall_impl; [done|]. simpl. lia.
Qed.

Lemma ec_point_formats_total ch :
  client_hello_ok ch → ∃ vs, _ec_point_formats ch = Ok vs ∧ Forall (λ v, 0 ≤ v) vs.
Proof.
  intros Hok. unfold _ec_point_formats.
  destruct (_extension_data ch _) as [data|] eqn:Hd; [|by exists []].
  assert (bytes_ok data) as Hb by (by eapply extension_data_ok).
  pose proof (@wire_sound _ _ _ _ vector8_wire (new_reader data) (reader_ok_new _ Hb)) as HS.
  destruct (read_vector 1 (new_reader data)) as [[vs|e] r']; simpl;
    [|rewrite HS; by exists []]. exists vs. split; [done|].
  destruct HS as [[HS _] _]. eapply Forall_impl; [done|]. unfold is_byte. lia.
Qed.

Lemma alpn_total ch : client_hello_ok ch → ∃ ps, _alpn_protocols ch = Ok ps ∧ Forall bytes_ok ps.
Proof.
  intros Hok. unfold _alpn_protocols.
  destruct (_extension_data ch _) as [data|] eqn:Hd; [|by eexists].
  pose proof (parse_alpn_exact data ltac:(by eapply extension_data_ok)) as HS.
  destruct (parse_alpn_protocols data) as [ps|e]; simpl.
  - exists ps. split; [done|]. destruct HS as [[HS _] _].
    eapply Forall_impl; [done|]. by intros p [? _].
  - destruct HS as [-> _]. by eexists.
Qed.

Lemma length_ja4_alpn ps : length (_ja4_alpn ps) = 2%nat.
Proof.
  unfold _ja4_alpn. destruct (List.filter _ ps) as [|[|b first] l]; [done..|].
  by destruct (negb _).
Qed.

Lemma length_truncated v : length (_truncated_sha256 v) = 12%nat.
Proof. unfold _truncated_sha256. by rewrite length_take, length_hex, length_sha256. Qed.

Lemma length_ja4_a ch v nc ne ps : length (ja4_a ch v nc ne ps) = 10%nat.
Proof.
  unfold ja4_a. rewrite !length_app, length_ja4_alpn, !length_fmt_dec by lia.
  assert (length (default (u "00") (dict_get v JA4_VERSIONS)) = 2%nat) as ->.
  { simpl. repeat case_decide; done. }
  by destruct (_extension_data ch ET_SERVER_NAME).
Qed.

Lemma length_ja4_b cs : length (ja4_b cs) = 12%nat.
Proof. destruct cs; [done|apply length_truncated]. Qed.

Lemma length_ja4_c hs ss : length (ja4_c hs ss) = 12%nat.
Proof. destruct hs; [done|apply length_truncated]. Qed.

Lemma str_int_no c n : 0 ≤ n → is_digit c = false → c ∉ str_int n.
Proof. intros Hn Hc Hin%str_int_digits; [congruence|done]. Qed.

Lemma dashed_chars c vs :
  Forall (λ v, 0 ≤ v) vs → is_digit c = false → c ≠ 45 → c ∉ _dashed vs.
Proof.
  intros Hvs Hc Hd. unfold _dashed. change (u "-") with [45].
  induction Hvs as [|v vs Hv Hvs IH]; [apply not_elem_of_nil|].
  destruct vs as [|w vs]; [by apply str_int_no|].
  change (join [45] (str_int <$> v :: w :: vs)) with
    (str_int v ++ [45] ++ join [45] (str_int <$> w :: vs)). rewrite !not_elem_of_app, not_elem_of_cons.
  split_and!; [by apply str_int_no|done|apply not_elem_of_nil|apply IH].
Qed.

Lemma dashed_inj vs ws :
  Forall (λ v, 0 ≤ v) vs → Forall (λ v, 0 ≤ v) ws → _dashed vs = _dashed ws → vs = ws.
Proof.
  unfold _dashed. change (u "-") with [45]. intros Hvs Hws HE.
  assert (∀ l, Forall (λ v, 0 ≤ v) l → Forall (λ p, 45 ∉ p) (str_int <$> l)) as Hno.
  { intros l Hl. apply Forall_fmap. eapply Forall_impl; [done|]. intros v Hv. by apply str_int_no. }
  assert (∀ (v : Z) l, join [45] (str_int <$> v :: l) ≠ []) as Hcons.
  { intros v [|w l]; [apply str_int_nonempty|].
    change (join [45] (str_int <$> v :: w :: l)) with
      (str_int v ++ [45] ++ join [45] (str_int <$> w :: l)).
    intros [H _]%app_eq_nil. by apply str_int_nonempty in H. }
  destruct vs as [|v vs], ws as [|w ws]; [done|by destruct (Hcons w ws)|by destruct (Hcons v vs)|].
  apply (f_equal (split 45)) in HE. rewrite !split_join in HE; [|by auto..].
  revert HE. generalize (v :: vs) (w :: ws) Hvs Hws. clear.
  intros l k Hl. revert k. induction Hl as [|x l Hx Hl IH]; intros [|y k] Hk; try done.
  intros [= HE1 HE2]. apply Forall_cons in Hk as [Hy Hk]. f_equal; [by apply str_int_inj|by apply IH].
Qed.

Lemma no_grease_Forall P vs : Forall P vs → Forall P (_no_grease vs).
Proof.
  intros Hvs. unfold _no_grease. rewrite Forall_forall in *. intros x Hx.
  apply Hvs. apply list_elem_of_In, filter_In in Hx as [Hx _]. by apply list_elem_of_In.
Qed.

(** The payload class of a readable frame goes with its type. *)
Lemma readable_type f :
  readable f →
  match pf_payload f with
  | UnknownPayload _ _ _ _ => True
  | WindowUpdatePayload _ => fh_type (pf_header f) = FT_WINDOW_UPDATE
  | PriorityPayload _ => fh_type (pf_header f) = FT_PRIORITY
  | _ => fh_type (pf_header f) ≠ FT_WINDOW_UPDATE ∧ fh_type (pf_header f) ≠ FT_PRIORITY
  end.
Proof.
  intros (c & hb & pl & k & _ & Ho). inversion Ho as [p Hp Hp'|]; [|done].
  destruct Hp; try done;
    match goal with Ht : fh_type _ = _ |- _ => rewrite Ht end; done.
Qed.

Lemma not_both_types t : 
  t ≠ FT_WINDOW_UPDATE ∧ t ≠ FT_PRIORITY → (t =? FT_WINDOW_UPDATE) = false ∧ (t =? FT_PRIORITY) = false.
Proof. rewrite !Z.eqb_neq. done. Qed.

(** What the loop over the frames computes. *)
Lemma akamai_loop_spec fs s :
  Forall readable fs →
  akamai_loop fs s =
    Ok (mkAkamai
          (if window_update_seen s then window_update s
           else default (window_update s)
                  (str_int <$> head (omap connection_window (before_request fs))))
          (window_update_seen s ||
             bool_decide (omap connection_window (before_request fs) ≠ []))
          (priorities s ++ omap priority_text (before_request fs))).
Proof.
  intros Hfs. revert s. induction Hfs as [|f fs Hf Hfs IH]; intros [w seen ps];
    cbn [akamai_loop before_request].
  { simpl. rewrite app_nil_r, orb_false_r. by destruct seen. }
  destruct (Z.eqb_spec (fh_type (pf_header f)) FT_HEADERS) as [Ht|Ht].
  { simpl. rewrite app_nil_r, orb_false_r. by destruct seen. }
  pose proof (readable_type f Hf) as Hty. destruct f as [h p raw]. cbn [pf_header pf_payload] in *.
  destruct p; try (by rewrite IH);
    try (apply not_both_types in Hty as [H1 H2]; rewrite H1, H2; cbn [andb]; by rewrite IH).
  - rewrite Hty. cbn [Z.eqb andb FT_WINDOW_UPDATE FT_PRIORITY payload_priority mbind result_bind].
    rewrite IH. simpl. by rewrite <-app_assoc.
  - rewrite Hty. cbn [window_update_seen priorities window_update].
    change (FT_WINDOW_UPDATE =? FT_WINDOW_UPDATE) with true.
    change (FT_WINDOW_UPDATE =? FT_PRIORITY) with false. cbn [andb].
    cbn [omap list_omap connection_window pf_payload pf_header].
    destruct (fh_stream_id h =? 0), seen; cbn [andb negb payload_increment mbind result_bind];
      rewrite IH; done.
Qed.

Lemma akamai_loop_cut fs h tl s :
  fh_type (pf_header h) = FT_HEADERS → akamai_loop (fs ++ h :: tl) s = akamai_loop fs s.
Proof.
  intros Hh. revert s. induction fs as [|f fs IH]; intros s; simpl; [by rewrite Hh|].
  destruct (_ =? FT_HEADERS); [done|].
  destruct (pf_payload f); try done;
    repeat (case_match; simpl; try done); apply IH.
Qed.

Lemma ja3_total ch :
  client_hello_ok ch →
  ∃ groups formats, _supported_groups ch = Ok groups ∧ _ec_point_formats ch = Ok formats ∧
    ja3_string ch = Ok (join [44] (_dashed <$> ja3_fields ch groups formats)) ∧
    Forall (Forall (λ v, 0 ≤ v)) (ja3_fields ch groups formats).
Proof.
  intros Hok. destruct (ec_point_formats_total ch Hok) as (fs & Hf & Hfs).
  destruct (uint16_vector_total 2 (read_vector 2) ch ET_SUPPORTED_GROUPS vector16_wire Hok)
    as (gs & Hg & Hgs). exists gs, fs. unfold ja3_string, _supported_groups.
  assert (_uint16_vector ch ET_SUPPORTED_GROUPS 2 = Ok gs) as Hg' by exact Hg.
  rewrite Hg', Hf. split_and!; [done..|].
  destruct Hok as (Hv & _ & _ & [Hc _] & _ & [He _]).
  assert (Forall (λ v, 0 ≤ v) (cipher_suites ch)) as Hc'
    by (eapply Forall_impl; [exact Hc|]; simpl; lia).
  assert (Forall (λ v, 0 ≤ v) (_extension_types ch)) as He'.
  { apply Forall_fmap. eapply Forall_impl; [exact He|]. intros e [? _]. simpl. lia. }
  unfold ja3_fields. constructor; [constructor; [lia|constructor]|].
  constructor; [by apply no_grease_Forall|]. constructor; [by apply no_grease_Forall|].
  constructor; [by apply no_grease_Forall|]. constructor; [exact Hfs|constructor].
Qed.

Lemma ja3_fields_inj (l k : list (list Z)) :
  length l = length k → Forall (Forall (λ v, 0 ≤ v)) l → Forall (Forall (λ v, 0 ≤ v)) k →
  join [44] (_dashed <$> l) = join [44] (_dashed <$> k) → l = k.
Proof.
  intros Hlen Hl Hk HE. destruct l as [|x l], k as [|y k]; try done.
  assert (∀ l, Forall (Forall (λ v, 0 ≤ v)) l → Forall (λ p, 44 ∉ p) (_dashed <$> l)) as Hno.
  { intros m Hm. apply Forall_fmap. eapply Forall_impl; [done|].
    intros v Hv. by apply dashed_chars. }
  apply (f_equal (split 44)) in HE. rewrite !split_join in HE; [|by auto..].
  revert HE. clear Hno Hlen. revert Hl Hk. generalize (x :: l) (y :: k). clear.
  intros l k Hl. revert k. induction Hl as [|x l Hx Hl IH]; intros [|y k] Hk; try done.
  intros [= HE1 HE2]. apply Forall_cons in Hk as [Hy Hk].
  f_equal; [by apply dashed_inj|by apply IH].
Qed.

(** ** Theorems *)

(** C38: GREASE leaves no trace. Two hellos that differ only in GREASE cipher suites
    and GREASE extensions have the same JA3 and the same JA4. *)
Theorem fingerprints_grease_invariant ch ch' :
  grease_equiv ch ch' →
  build_ja3 (Some ch) = build_ja3 (Some ch') ∧ build_ja4 (Some ch) = build_ja4 (Some ch').
Proof.
  intros HG. pose proof HG as (Hv & Hc & _). pose proof (grease_types ch ch' HG) as Ht.
  pose proof (λ t, grease_data ch ch' t HG) as Hd.
  unfold build_ja3, ja3_string, build_ja4, ja4_a, _supported_groups, _supported_versions,
    _signature_algorithms, _ec_point_formats, _alpn_protocols, _uint16_vector.
  rewrite !Hd by done. rewrite Ht, Hc, Hv. done.
Qed.

(** JA4 forgets the order. Permuting the cipher suites and the extensions of a
    hello without repeated extensions does not change its JA4. *)
Theorem ja4_order_invariant ch ch' :
  NoDup (_extension_types ch) → version ch = version ch' →
  cipher_suites ch ≡ₚ cipher_suites ch' → extensions ch ≡ₚ extensions ch' →
  build_ja4 (Some ch) = build_ja4 (Some ch').
Proof.
  intros Hnd Hv Hc He.
  assert (∀ t, _extension_data ch t = _extension_data ch' t) as Hd.
  { intros t. unfold _extension_data. by rewrite (find_perm t _ _ He). }
  assert (_no_grease (_extension_types ch) ≡ₚ _no_grease (_extension_types ch')) as Ht.
  { apply filter_perm. unfold _extension_types. by rewrite He. }
  assert (sorted (fmt_hex 4 <$> _no_grease (cipher_suites ch)) =
          sorted (fmt_hex 4 <$> _no_grease (cipher_suites ch'))) as Hs.
  { apply sorted_permutation. apply fmap_Permutation. by apply filter_perm. }
  unfold build_ja4, ja4_a, _supported_versions, _signature_algorithms, _alpn_protocols,
    _uint16_vector.
  rewrite !Hd, Hs, Hv, (Permutation_length Ht).
  pose proof (filter_perm (λ v, negb (mem v JA4_UNHASHED_EXTENSIONS)) _ _ Ht) as Hh.
  by rewrite (sorted_permutation _ _ (fmap_Permutation (fmt_hex 4) _ _ Hh)).
Qed.

Lemma ja4_total ch :
  client_hello_ok ch →
  ∃ a b c, build_ja4 (Some ch) = Ok (Some (a ++ u "_" ++ b ++ u "_" ++ c)) ∧
    length a = 10%nat ∧ length b = 12%nat ∧ length c = 12%nat.
Proof.
  intros Hok. unfold build_ja4.
  destruct (uint16_vector_total 1 (read_vector 1) ch ET_SUPPORTED_VERSIONS vector8_wire Hok)
    as (vs & Hvs & _).
  destruct (uint16_vector_total 2 (read_vector 2) ch ET_SIGNATURE_ALGORITHMS vector16_wire Hok)
    as (ss & Hss & _).
  destruct (alpn_total ch Hok) as (ps & -> & _).
  unfold _supported_versions, _signature_algorithms, _uint16_vector. rewrite Hvs, Hss. cbv zeta.
  cbn [mbind result_bind]. eexists _, _, _. split; [reflexivity|].
  split_and!; [apply length_ja4_a|apply length_ja4_b|apply length_ja4_c].
Qed.

(** The shape of JA4. Every well-formed hello has a JA4: ten characters, then
    twice an underscore and twelve characters. *)
Theorem ja4_shape ch :
  client_hello_ok ch →
  ∃ a b c, build_ja4 (Some ch) = Ok (Some (a ++ u "_" ++ b ++ u "_" ++ c)) ∧
    length a = 10%nat ∧ length b = 12%nat ∧ length c = 12%nat.
Proof. apply ja4_total. Qed.

(** JA3 is faithful. Two well-formed hellos with the same JA3 string have the
    same version and, GREASE aside, the same cipher suites, extension types, groups
    and point formats in the same order. *)
Theorem ja3_faithful ch ch' s :
  client_hello_ok ch → client_hello_ok ch' → ja3_string ch = Ok s → ja3_string ch' = Ok s →
  version ch = version ch' ∧ _no_grease (cipher_suites ch) = _no_grease (cipher_suites ch') ∧
  _no_grease (_extension_types ch) = _no_grease (_extension_types ch') ∧
  _no_grease <$> _supported_groups ch = _no_grease <$> _supported_groups ch' ∧
  _ec_point_formats ch = _ec_point_formats ch'.
Proof.
  intros Hok Hok'.
  destruct (ja3_total ch Hok) as (gs & fs & Hg & Hf & -> & HF).
  destruct (ja3_total ch' Hok') as (gs' & fs' & Hg' & Hf' & -> & HF').
  intros HE HE'. rewrite Hg, Hg', Hf, Hf'. unfold fmap, result_fmap.
  assert (ja3_fields ch gs fs = ja3_fields ch' gs' fs') as HJ
    by (apply ja3_fields_inj; [done..|congruence]).
  injection HJ as Hv Hc Ht Hgr Hfm. split_and!; congruence.
Qed.

(** C40: what the Akamai fingerprint is made of. For frames the reader can return it
    is, joined by bars: the initial settings in wire order; the increment of the
    first connection-level WINDOW_UPDATE in front of the request, or 00; the
    PRIORITY frames in front of the request, or 0; the pseudo-header letters in
    their order. *)
Theorem akamai_spec c :
  Forall readable (frames c) →
  akamai_string c =
    Ok (join (u "|")
          [join (u ";") ((λ e, str_int e.1 ++ u ":" ++ str_int e.2) <$>
                           default [] (initial_settings c));
           default (u "00")
             (str_int <$> head (omap connection_window (before_request (frames c))));
           (match omap priority_text (before_request (frames c)) with
            | [] => u "0"
            | ps => join (u ",") ps
            end);
           join (u ",") (pseudo_letters (default [] (headers c)))]).
Proof.
  intros Hf. unfold akamai_string. rewrite (akamai_loop_spec _ _ Hf). reflexivity.
Qed.

(** Traffic after the request does not count. Whatever follows the first HEADERS
    frame in the capture, the Akamai fingerprint is the same. *)
Theorem akamai_prefix c c' fs h tl tl' :
  fh_type (pf_header h) = FT_HEADERS →
  frames c = fs ++ h :: tl → frames c' = fs ++ h :: tl' →
  initial_settings c = initial_settings c' → headers c = headers c' →
  build_akamai_fingerprint (Some c) = build_akamai_fingerprint (Some c').
Proof.
  intros Hh Hc Hc' Hs Hhd. unfold build_akamai_fingerprint, akamai_string.
  rewrite Hc, Hc', Hs, Hhd.
  rewrite (akamai_loop_cut fs h tl), (akamai_loop_cut fs h tl') by done. by destruct fs.
Qed.

(** ** Witnesses *)

(** Witness of C38: a GREASE cipher suite and a GREASE extension in front. *)
Lemma fingerprints_grease_invariant_witness :
  build_ja4 (Some sample_hello2) = build_ja4 (Some sample_hello3).
Proof.
  refine (proj2 (fingerprints_grease_invariant sample_hello2 sample_hello3 _)).
  split_and!; reflexivity.
Defined.

(** A concrete input for [ja4_order_invariant]. *)
Lemma ja4_order_invariant_witness :
  build_ja4 (Some sample_hello2) =
    build_ja4 (Some (mkClientHello 771 (replicate 32 7) [] [4866; 4865] [0]
                       [mkExtension 10 [0; 2; 0; 29]; mkExtension 0 [0; 0]])).
Proof.
  apply ja4_order_invariant; [by_eval|reflexivity|apply Permutation_swap|apply Permutation_swap].
Defined.

(** A concrete input for [ja4_shape]. *)
Lemma ja4_shape_witness :
  ∃ a b c, build_ja4 (Some sample_hello2) = Ok (Some (a ++ u "_" ++ b ++ u "_" ++ c)) ∧
    length a = 10%nat ∧ length b = 12%nat ∧ length c = 12%nat.
Proof. apply ja4_shape. unfold client_hello_ok. split_and!; by_eval. Defined.

(** A concrete input for [ja3_faithful]. *)
Lemma ja3_faithful_witness :
  ja3_string sample_hello2 = Ok (u "771,4865-4866,0-10,29,") ∧
  _no_grease <$> _supported_groups sample_hello2 = _no_grease <$> _supported_groups sample_hello3.
Proof.
  assert (ja3_string sample_hello2 = Ok (u "771,4865-4866,0-10,29,")) as H2 by reflexivity.
  assert (ja3_string sample_hello3 = Ok (u "771,4865-4866,0-10,29,")) as H3 by reflexivity.
  split; [exact H2|].
  refine (proj1 (proj2 (proj2 (proj2 (ja3_faithful sample_hello2 sample_hello3 _ _ _ H2 H3)))));
    unfold client_hello_ok; split_and!; by_eval.
Defined.

(** Witness of C40. *)
Lemma akamai_spec_witness :
  akamai_string (mkCapture [sample_window_frame] (Some [(1, 65536); (4, 131072)])
    (Some [(u ":method", u "GET"); (u ":path", u "/")]) [] (Some 1) false) =
    Ok (u "1:65536;4:131072|5|0|m,p").
Proof.
  rewrite akamai_spec; [reflexivity|]. constructor; [|constructor].
  exists sample_config, [0; 0; 4; 8; 0; 0; 0; 0; 0], [0; 0; 0; 5], 0%nat. split; [reflexivity|].
  apply (FO_decoded _ _ _ (WindowUpdatePayload 5)).
  apply PW_window_update; [done|split; [by_eval|by exists false]|done].
Defined.

(** A concrete input for [akamai_prefix]. *)
Lemma akamai_prefix_witness :
  build_akamai_fingerprint (Some (mkCapture ([] ++ sample_headers_frame :: [])
    None (Some [(u ":path", u "/")]) [] (Some 1) false)) =
  build_akamai_fingerprint (Some (mkCapture ([] ++ sample_headers_frame :: [sample_window_frame])
    None (Some [(u ":path", u "/")]) [] (Some 1) false)).
Proof.
  apply (akamai_prefix _ _ [] sample_headers_frame [] [sample_window_frame]); reflexivity.
Defined.
