(* ===== verification/Uri.v ===== *)
(** * URI authorities and targets (src/solvetls/uri.py)

    The regular expressions are deterministic scanners here: each of them either
    has disjoint alternatives or repeats a class that excludes what follows.
    [urlsplit] is the function of [urllib.parse] on ASCII text, which is what the
    callers pass it: they refuse other characters before. *)

From S2P Require Import Prelude PyText IpAddress.

(** ** Regular expressions *)

(** [A-Za-z0-9\-._~!$&'()*+,;=] *)
Definition reg_char (c : Z) : bool := is_alnum c || mem c (u "-._~!$&'()*+,;=").

(** [(?:[...]|%[0-9A-Fa-f]{2})*] on the whole text. *)
Fixpoint pct_match (ok : Z → bool) (l : text) : bool :=
  match l with
  | [] => true
  | c :: l1 =>
      if ok c then pct_match ok l1
      else if c =? 37 then
        match l1 with
        | a :: b :: l2 => is_hexdigit a && is_hexdigit b && pct_match ok l2
        | _ => false
        end
      else false
  end.

Definition _REG_NAME_RE : text → bool := pct_match reg_char.
Definition _PATH_RE : text → bool := pct_match (λ c, reg_char c || mem c (u ":@/")).
Definition _QUERY_RE : text → bool := pct_match (λ c, reg_char c || mem c (u ":@/?")).

(** The longest prefix in a class, and the rest. *)
Fixpoint span (ok : Z → bool) (l : text) : text * text :=
  match l with
  | [] => ([], [])
  | c :: l' => if ok c then let '(a, b) := span ok l' in (c :: a, b) else ([], l)
  end.

(** [v[0-9A-Fa-f]+\.[...:]+], case-insensitive. *)
Definition _IPV_FUTURE_RE (l : text) : bool :=
  match l with
  | v :: l1 =>
      ((v =? 118) || (v =? 86)) &&
      match span is_hexdigit l1 with
      | (_ :: _, dot :: c :: l2) =>
          (dot =? 46) && forallb (λ c, reg_char c || (c =? 58)) (c :: l2)
      | _ => false
      end
  | [] => false
  end.

(** ** [urllib.parse.urlsplit] *)

Record SplitResult := mkSplitResult {
  scheme : text;
  netloc : text;
  path : text;
  query : text;
  fragment : text;
}.

Definition scheme_char (c : Z) : bool := is_alnum c || mem c (u "+-.").

(** The text in front of and behind the last [c]. *)
Definition rpartition (c : Z) (l : text) : text * bool * text :=
  let '(t, s, h) := partition_ c (rev l) in
  if s then (rev h, true, rev t) else ([], false, l).

(** [\Av[a-fA-F0-9]+\..+\Z]; the dot matches all but a line feed. *)
Definition ipvfuture_url (l : text) : bool :=
  match l with
  | 118 :: l1 =>
      match span is_hexdigit l1 with
      | (_ :: _, 46 :: c :: l2) => negb (mem 10 (c :: l2))
      | _ => false
      end
  | _ => false
  end.

Definition _check_bracketed_host (hostname : text) : result unit :=
  if startswith (u "v") hostname then
    if ipvfuture_url hostname then Ok tt
    else Err (ValueError (u "IPvFuture address is invalid"))
  else
    match ipv4_parse hostname with
    | Some _ => Err (ValueError (u "An IPv4 address cannot be in brackets"))
    | None =>
        match ipv6_parse hostname with
        | Some _ => Ok tt
        | None => Err (ValueError (u "not an IP address"))
        end
    end.

Definition _check_bracketed_netloc (netloc : text) : result unit :=
  let hostname_and_port := (rpartition 64 netloc).2 in
  let '(before_bracket, have_open_br, bracketed) := partition_ 91 hostname_and_port in
  if have_open_br : bool then
    match before_bracket with
    | _ :: _ => Err (ValueError (u "Invalid IPv6 URL"))
    | [] =>
        let '(hostname, _, port) := partition_ 93 bracketed in
        if bool_decide (port ≠ []) && negb (startswith (u ":") port)
        then Err (ValueError (u "Invalid IPv6 URL"))
        else _check_bracketed_host hostname
    end
  else
    let '(hostname, _, _) := partition_ 58 hostname_and_port in
    _check_bracketed_host hostname.

Definition split_scheme (url : text) : text * text :=
  match partition_ 58 url with
  | ((c :: _) as s, true, rest) =>
      if is_alpha c && forallb scheme_char s then (lower s, rest) else ([], url)
  | _ => ([], url)
  end.

Definition urlsplit (url : text) : result SplitResult :=
  let url := lstrip (seqZ 0 33) url in
  let url := List.filter (λ c, negb (mem c [9; 13; 10])) url in
  let '(scheme, url) := split_scheme url in
  split ←
    (if startswith (u "//") url then
       let '(netloc, rest) := span (λ c, negb (mem c (u "/?#"))) (drop 2 url) in
       if negb (Bool.eqb (mem 91 netloc) (mem 93 netloc)) then
         Err (ValueError (u "Invalid IPv6 URL"))
       else if mem 91 netloc && mem 93 netloc then
         _ ← _check_bracketed_netloc netloc; Ok (netloc, rest)
       else Ok (netloc, rest)
     else Ok ([], url));
  let '(netloc, url) := (split : text * text) in
  let '(url, _, fragment) := partition_ 35 url in
  let '(path, _, query) := partition_ 63 url in
  mret (mkSplitResult scheme netloc path query fragment).

(** ** The functions of the module *)

(** The match of a scheme, "://" and an authority that stops at a slash, question
    mark or number sign: the start of the authority and its text. *)
Definition match_authority (target : text) : option (nat * text) :=
  match target with
  | c :: _ =>
      let '(s, rest) := span scheme_char target in
      if is_alpha c && startswith (u "://") rest then
        let authority := (span (λ c, negb (mem c (u "/?#"))) (drop 3 rest)).1 in
        Some ((length s + 3)%nat, authority)
      else None
  | [] => None
  end.

(** [authority.rfind("@") + 1] *)
Definition host_start (authority : text) : nat :=
  (length authority - length (rpartition 64 authority).2)%nat.

Definition split_absolute_uri (target : text) : result SplitResult :=
  match match_authority target with
  | Some (start, authority) =>
      let hs := host_start authority in
      if startswith (u "[V") (drop hs authority) then
        let position := (start + hs + 1)%nat in
        parsed ← urlsplit (take position target ++ u "v" ++ drop (S position) target);
        mret (mkSplitResult (scheme parsed) authority (path parsed) (query parsed)
                (fragment parsed))
      else urlsplit target
  | None => urlsplit target
  end.

(** The part of an authority that [validate_authority] takes apart first. *)
Definition split_authority (authority : text) : result (text * option text) :=
  if startswith (u "[") authority then
    let '(before, closing, suffix) := partition_ 93 authority in
    if negb closing then Err (ValueError (u "Invalid IP literal in authority"))
    else
      let host := drop 1 before in
      if bool_decide (suffix ≠ []) && negb (startswith (u ":") suffix) then
        Err (ValueError (u "Invalid authority after IP literal"))
      else if negb (_IPV_FUTURE_RE host) &&
              (mem 37 host || bool_decide (ipv6_parse host = None)) then
        Err (ValueError (u "Invalid IP literal in authority"))
      else Ok (host, match suffix with [] => None | _ :: port => Some port end)
  else
    let '(host, separator, port_text) := partition_ 58 authority in
    if negb (_REG_NAME_RE host) then Err (ValueError (u "Invalid host in authority"))
    else Ok (host, if separator then Some port_text else None).

(** [port.lstrip("0") or "0"] *)
Definition significant (port : text) : text :=
  match lstrip (u "0") port with [] => u "0" | s => s end.

(** The checks of [validate_authority] on the host and the port. *)
Definition check_port (host : text) (port : option text) (connect : bool) : result text :=
  if connect && (bool_decide (host = []) ||
                 match port with Some (_ :: _) => false | _ => true end) then
    Err (ValueError (u "CONNECT requires a host and explicit port"))
  else
    match port with
    | None => mret host
    | Some port =>
        if bool_decide (port ≠ []) && (negb (isascii port) || negb (isdigit port)) then
          Err (ValueError (u "Invalid port in authority"))
        else
          let s := significant port in
          if (zlen s >? 5) || (int_of_digits s >? 65535) then
            Err (ValueError (u "Port is out of range"))
          else if connect && bool_decide (s = u "0") then
            Err (ValueError (u "CONNECT port must be nonzero"))
          else mret host
    end.

Definition validate_authority (authority : text) (connect : bool) : result text :=
  hp ← split_authority authority;
  check_port hp.1 hp.2 connect.

(** [normalize_escape] on [%ab]. *)
Definition upper_char (c : Z) : Z := if is_lower c then c - 32 else c.

Definition normalize_escape (a b : Z) : text :=
  let char := hex_value a * 16 + hex_value b in
  if (char <? 128) && (is_alnum char || mem char (u "-._~")) then [lower_char char]
  else upper_char <$> [37; a; b].

(** [re.sub(r"%[0-9a-f]{2}", normalize_escape, host)] *)
Definition is_lower_hex (c : Z) : bool := is_digit c || in_range 97 102 c.

Fixpoint sub_escapes (l : text) : text :=
  match l with
  | [] => []
  | c :: l1 =>
      match l1 with
      | a :: b :: l2 =>
          if (c =? 37) && is_lower_hex a && is_lower_hex b
          then normalize_escape a b ++ sub_escapes l2
          else c :: sub_escapes l1
      | _ => c :: sub_escapes l1
      end
  end.

(** [{"http": 80, "https": 443}.get(scheme.lower())] *)
Definition default_port (scheme : text) : option Z :=
  dict_get (lower scheme) [(u "http", 80); (u "https", 443)].

Definition normalize_authority (authority scheme : text) (connect : bool)
    : result (text * option Z) :=
  host ← validate_authority authority connect;
  let '(normalized_host, port_text) :=
    (if startswith (u "[") authority then
       let suffix := (partition_ 93 authority).2 in
       let n :=
         if _IPV_FUTURE_RE host then lower host
         else match ipv6_parse host with Some g => ipv6_compressed g | None => [] end in
       (u "[" ++ n ++ u "]", drop 1 suffix)
     else (sub_escapes (lower host), (partition_ 58 authority).2)) in
  let port :=
    match port_text with
    | [] => None
    | _ => Some (int_of_digits (significant port_text))
    end in
  mret (normalized_host, match port with None => default_port scheme | p => p end).

Definition validate_path_query (path query : text) : result unit :=
  if negb (_PATH_RE path) || negb (_QUERY_RE query)
  then Err (ValueError (u "Invalid path or query")) else Ok tt.

(** ** What an authority is (RFC 3986, 3.2; RFC 9112, 3.2.3 for CONNECT) *)

Definition port_text (port : option text) : text :=
  match port with None => [] | Some p => 58 :: p end.

Inductive authority_form : text → text → option text → Prop :=
  | AF_literal host port :
      93 ∉ host →
      (_IPV_FUTURE_RE host = true ∨ ((37 ∉ host) ∧ ipv6_parse host ≠ None)) →
      authority_form ([91] ++ host ++ [93] ++ port_text port) host port
  | AF_name host port :
      _REG_NAME_RE host = true → authority_form (host ++ port_text port) host port.

Definition port_ok (connect : bool) (port : option text) : Prop :=
  match port with
  | None => connect = false
  | Some p => Forall (λ c, is_digit c = true) p ∧ int_of_digits p ≤ 65535 ∧
      (connect = true → p ≠ [] ∧ int_of_digits p ≠ 0)
  end.

(** Percent-encoded text over a class. *)
Inductive pct_text (ok : Z → bool) : text → Prop :=
  | pct_nil : pct_text ok []
  | pct_char c l : ok c = true → pct_text ok l → pct_text ok (c :: l)
  | pct_escape a b l :
      is_hexdigit a = true → is_hexdigit b = true → pct_text ok l →
      pct_text ok (37 :: a :: b :: l).

(** ** Lemmas: decimal text *)

(** A port is compared without converting more than five digits. *)
Lemma significant_spec p :
  Forall (λ c, is_digit c = true) p →
  int_of_digits (significant p) = int_of_digits p ∧
  ((zlen (significant p) >? 5) || (int_of_digits (significant p) >? 65535) = false ↔
     int_of_digits p ≤ 65535) ∧
  (significant p = u "0" ↔ int_of_digits p = 0).
Proof.
  intros Hp. unfold significant. pose proof (lstrip0_value p) as Hv.
  destruct (lstrip (u "0") p) as [|c s] eqn:E.
  { assert (int_of_digits p = 0) as -> by (rewrite <-Hv; reflexivity). done. }
  assert (Forall (λ c, is_digit c = true) (c :: s)) as Hs.
  { destruct (lstrip_suffix (u "0") p) as [k Hk]. rewrite E in Hk. rewrite Hk in Hp.
    by apply Forall_app in Hp as [_ ?]. }
  pose proof (lstrip_head _ _ _ _ E) as Hc. pose proof (int_of_digits_cons c s) as HI.
  apply Forall_cons in Hs as [Hd Hs]. pose proof (int_of_digits_nonneg s Hs).
  assert (c ≠ 48) by (intros ->; discriminate Hc).
  pose proof (Z.pow_pos_nonneg 10 (zlen s) ltac:(lia) (zlen_nonneg s)).
  unfold is_digit in Hd. rewrite <-Hv, zlen_cons. split_and!; [done| |].
  - rewrite orb_false_iff, !Z.gtb_ltb, !Z.ltb_ge. split; [lia|]. intros Hle.
    split; [|lia]. destruct (decide (1 + zlen s ≤ 5)); [done|].
    assert (10 ^ 5 ≤ 10 ^ zlen s) by (apply Z.pow_le_mono_r; lia). nia.
  - change (u "0") with [48]. split; [intros [= ? ?]; lia|]. intros. nia.
Qed.

Lemma isdigit_Forall p :
  bool_decide (p ≠ []) && (negb (isascii p) || negb (isdigit p)) = false ↔
  Forall (λ c, is_digit c = true) p.
Proof.
  destruct p as [|c p]; [done|]. set (l := c :: p).
  rewrite bool_decide_true by done. cbn [andb].
  rewrite orb_false_iff, !negb_false_iff. unfold isascii, isdigit, l. fold l.
  rewrite !forallb_forall, Forall_forall.
  split; [intros [_ H] x Hx; apply H; by apply list_elem_of_In|].
  intros H. split; intros x Hx%list_elem_of_In; specialize (H x Hx); [|done].
  unfold is_digit in H. lia.
Qed.

(** ** Lemmas: authorities *)

Lemma reg_name_no c host : _REG_NAME_RE host = true → reg_char c = false → c ≠ 37 → c ∉ host.
Proof.
  intros H Hc H37. unfold _REG_NAME_RE in H. revert H.
  assert (∀ n host, (length host ≤ n)%nat → pct_match reg_char host = true → c ∉ host) as HH.
  2:{ by apply (HH (length host)). }
  clear host. induction n as [|n IH]; intros [|x host] Hn;
    [intros _; apply not_elem_of_nil|simpl in Hn; lia|intros _; apply not_elem_of_nil|].
  simpl in Hn.
  cbn [pct_match]. rewrite not_elem_of_cons.
  destruct (reg_char x) eqn:Ex.
  { intros H. split; [congruence|apply IH; [lia|done]]. }
  destruct (Z.eqb_spec x 37) as [->|]; [|done]. destruct host as [|a [|b host]]; try done.
  rewrite !andb_true_iff. intros [[Ha Hb] H]. split; [done|]. rewrite !not_elem_of_cons.
  assert (∀ y, is_hexdigit y = true → reg_char y = true) as Hhex.
  { intros y. unfold is_hexdigit, reg_char, is_alnum, is_alpha, is_upper, is_lower, is_digit. lia. }
  split_and!; [intros ->; by rewrite Hhex in Hc..|]. apply IH; [simpl in Hn; lia|done].
Qed.

Lemma partition_app c l k : (c ∉ l) → partition_ c (l ++ c :: k) = (l, true, k).
Proof.
  induction l as [|x l IH]; simpl; [by rewrite Z.eqb_refl|]. rewrite not_elem_of_cons.
  intros [Hx Hl]. rewrite (proj2 (Z.eqb_neq x c)) by congruence. by rewrite IH.
Qed.

Lemma partition_none c l : (c ∉ l) → partition_ c l = (l, false, []).
Proof.
  induction l as [|x l IH]; simpl; [done|]. rewrite not_elem_of_cons.
  intros [Hx Hl]. rewrite (proj2 (Z.eqb_neq x c)) by congruence. by rewrite IH.
Qed.

Lemma mem_false c l : mem c l = false ↔ (c ∉ l).
Proof. rewrite <-not_true_iff_false, mem_In. done. Qed.

Lemma startswith_bracket a : startswith (u "[") a = true ↔ ∃ l, a = 91 :: l.
Proof. rewrite startswith_app. done. Qed.

(** Taking an authority apart: exactly the two forms. *)
Lemma split_authority_exact a host port :
  split_authority a = Ok (host, port) ↔ authority_form a host port.
Proof.
  unfold split_authority. destruct (startswith (u "[") a) eqn:Hb.
  - apply startswith_bracket in Hb as [l ->].
    destruct (partition_ 93 (91 :: l)) as [[before closing] suffix] eqn:Hp.
    destruct (partition_spec _ _ _ _ _ Hp) as (Hm%mem_false & Hl & Hs). split.
    + destruct closing; [|done]. cbn [negb].
      destruct before as [|x before]; [by injection Hl|]. injection Hl as <- ->.
      apply not_elem_of_cons in Hm as [_ Hm]. cbn [drop]. rewrite ?drop_0.
      destruct (bool_decide (suffix ≠ []) && _) eqn:E1; [done|].
      destruct (negb _ && _) eqn:E2; [done|]. intros [= <- <-].
      assert (suffix = port_text (match suffix with [] => None | _ :: p => Some p end)) as Hsuf.
      { destruct suffix as [|y suffix]; [done|]. rewrite bool_decide_true in E1 by done.
        cbn [andb] in E1. rewrite negb_false_iff, startswith_app in E1.
        by destruct E1 as [k [= ->]]. }
      rewrite Hsuf at 1. apply AF_literal; [done|].
      destruct (_IPV_FUTURE_RE before); [by left|right]. simpl in E2.
      apply orb_false_iff in E2 as [E2%mem_false E3%bool_decide_eq_false]. done.
    + intros Hf. inversion Hf as [h p Hh Hv HE|h p Hr HE]; subst.
      * assert (93 ∉ 91 :: host) as H93 by (by apply not_elem_of_cons).
        pose proof (partition_app 93 (91 :: host) (port_text port) H93) as Hp'.
        assert ((before, closing, suffix) = (91 :: host, true, port_text port)) as Hp''
          by (rewrite <-Hp, <-Hp'; done). clear Hp Hp'. rename Hp'' into Hp.
        injection Hp as -> -> ->. cbn [negb]. cbn [drop]. rewrite ?drop_0.
        destruct port as [p|]; simpl port_text; cbn [startswith].
        -- rewrite bool_decide_true by done. simpl.
           replace (negb _ && _) with false; [done|]. symmetry.
           destruct Hv as [->|[H37%mem_false Hip]]; [done|]. rewrite H37, bool_decide_false by done.
           by rewrite andb_false_r.
        -- replace (negb _ && _) with false; [done|]. symmetry.
           destruct Hv as [->|[H37%mem_false Hip]]; [done|]. rewrite H37, bool_decide_false by done.
           by rewrite andb_false_r.
      * exfalso. destruct host as [|x host]; [by destruct port|]. injection HE as -> _.
        assert (91 ∉ 91 :: host) as H91 by (by apply reg_name_no). apply H91. left.
  - destruct (partition_ 58 a) as [[h sep] p] eqn:Hp.
    destruct (partition_spec _ _ _ _ _ Hp) as (Hm%mem_false & Hl & Hs). split.
    + destruct (_REG_NAME_RE h) eqn:Hr; [|done]. simpl. intros [= <- <-].
      rewrite Hl. destruct sep; [by apply (AF_name h (Some p))|].
      rewrite <-(app_nil_r h) at 1. by apply (AF_name h None).
    + intros Hf. inversion Hf as [h' p' Hh Hv HE|h' p' Hr HE]; subst.
      { exfalso. apply not_true_iff_false in Hb. apply Hb, startswith_bracket. by eexists. }
      assert (58 ∉ host) as H58 by (by apply reg_name_no).
      assert ((h, sep, p) = (host, match port with Some _ => true | None => false end,
                             default [] port)) as Hp'.
      { rewrite <-Hp, <-HE. destruct port as [q|]; [exact (partition_app 58 host q H58)|].
        cbn [port_text]. rewrite app_nil_r. exact (partition_none 58 host H58). }
      injection Hp' as -> -> ->. rewrite Hr. by destruct port.
Qed.

Lemma split_authority_err a e : split_authority a = Err e → is_ValueError e = true.
Proof.
  unfold split_authority. repeat case_match; intros; simplify_eq; done.
Qed.

(** The checks after the authority is taken apart. *)
Lemma check_port_spec (host : text) (port : option text) (connect : bool) :
  (check_port host port connect = Ok host ∧ port_ok connect port ∧ (connect = true → host ≠ [])) ∨
  ((∃ e, check_port host port connect = Err e ∧ is_ValueError e = true) ∧
   ¬ (port_ok connect port ∧ (connect = true → host ≠ []))).
Proof.
  unfold check_port. cbv zeta. destruct (connect && (bool_decide (host = []) || _)) eqn:E1.
  { right. split; [by eexists|]. intros [Hp Hh].
    apply andb_true_iff in E1 as [-> [E1%bool_decide_eq_true|E1]%orb_true_iff]; [by apply Hh|].
    destruct port as [[|c p]|]; [|done..]. by destruct Hp as (_ & _ & []). }
  assert (connect = true → host ≠ [] ∧ ∃ c p, port = Some (c :: p)) as Hc.
  { intros ->. apply orb_false_iff in E1 as [E1%bool_decide_eq_false E2].
    split; [done|]. destruct port as [[|c p]|]; [done|by eauto|done]. }
  destruct port as [p|].
  2:{ left. split_and!; [done| |exact (λ Ht, proj1 (Hc Ht))]. destruct connect; [|done].
      by destruct (Hc eq_refl) as (_ & ? & ? & ?). }
  destruct (bool_decide (p ≠ []) && _) eqn:E2.
  { right. split; [by eexists|]. intros [(Hd & _) _]. apply isdigit_Forall in Hd. congruence. }
  apply isdigit_Forall in E2. destruct (significant_spec p E2) as (Hv & Hr & H0).
  destruct ((zlen (significant p) >? 5) || _) eqn:E3.
  { right. split; [by eexists|]. intros [(_ & Hle & _) _]. apply Hr in Hle. congruence. }
  clear E3. pose proof (proj1 Hr eq_refl) as E3. destruct (connect && bool_decide _) eqn:E4.
  { right. split; [by eexists|]. intros [(_ & _ & Hnz) _].
    apply andb_true_iff in E4 as [-> E4%bool_decide_eq_true%H0]. by destruct (Hnz eq_refl). }
  left. split; [done|]. split; [|exact (λ Ht, proj1 (Hc Ht))]. split; [exact E2|].
  split; [exact E3|]. intros ->. split; [by destruct (Hc eq_refl) as (_ & ? & ? & [= ->])|].
  apply bool_decide_eq_false in E4. by rewrite <-H0.
Qed.

Lemma authority_form_unique a h p h' p' :
  authority_form a h p → authority_form a h' p' → h = h' ∧ p = p'.
Proof. rewrite <-!split_authority_exact. intros H1 H2. rewrite H1 in H2. by simplify_eq. Qed.

Lemma validate_authority_spec a connect :
  match validate_authority a connect with
  | Ok host => ∃ port, authority_form a host port ∧ port_ok connect port ∧
      (connect = true → host ≠ [])
  | Err e => is_ValueError e = true ∧
      ¬ ∃ host port, authority_form a host port ∧ port_ok connect port ∧
          (connect = true → host ≠ [])
  end.
Proof.
  unfold validate_authority. destruct (split_authority a) as [[host port]|e] eqn:E;
    cbn [mbind result_bind fst snd].
  - apply split_authority_exact in E.
    destruct (check_port_spec host port connect) as [(-> & ? & ?)|[(e & -> & He) Hno]]; [by eauto|].
    split; [done|]. intros (h & p & Hf & Hrest).
    destruct (authority_form_unique _ _ _ _ _ E Hf) as [-> ->]. by apply Hno.
  - split; [by eapply split_authority_err|]. intros (h & p & Hf & _).
    apply split_authority_exact in Hf. congruence.
Qed.

Lemma pct_match_text ok l : ok 37 = false → pct_match ok l = true ↔ pct_text ok l.
Proof.
  intros H37. split.
  - assert (∀ n l, (length l ≤ n)%nat → pct_match ok l = true → pct_text ok l) as HH.
    2:{ by apply (HH (length l)). }
    clear l. induction n as [|n IH]; intros [|c l] Hn; try (by constructor); simpl in Hn; [lia|].
    cbn [pct_match]. destruct (ok c) eqn:Hc; [constructor; [done|apply IH; [lia|done]]|].
    destruct (Z.eqb_spec c 37) as [->|]; [|done]. destruct l as [|a [|b l]]; try done.
    rewrite !andb_true_iff. intros [[Ha Hb] H]. simpl in Hn.
    constructor; [done..|apply IH; [lia|done]].
  - induction 1 as [|c l Hc Hl IH|a b l Ha Hb Hl IH]; cbn [pct_match]; [done|by rewrite Hc|].
    by rewrite H37, Ha, Hb.
Qed.

(** ** Lemmas: splitting a target *)

Lemma span_spec ok l a b :
  span ok l = (a, b) → l = a ++ b ∧ Forall (λ c, ok c = true) a ∧
    match b with [] => True | c :: _ => ok c = false end.
Proof.
  revert a b. induction l as [|c l IH]; intros a b; cbn [span]; [by intros [= <- <-]|].
  destruct (ok c) eqn:E; [|by intros [= <- <-]].
  destruct (span ok l) as [a' b'] eqn:F. intros [= <- <-].
  destruct (IH a' b' eq_refl) as (-> & Ha & Hb). split_and!; [done|by constructor|done].
Qed.

Lemma span_app ok a b :
  Forall (λ c, ok c = true) a → match b with [] => True | c :: _ => ok c = false end →
  span ok (a ++ b) = (a, b).
Proof.
  intros Ha Hb. induction Ha as [|c a Hc Ha IH]; cbn [app span].
  - destruct b as [|c b]; [done|]. cbn. by rewrite Hb.
  - by rewrite Hc, IH.
Qed.

(** Printable text, which [urlsplit] does not strip. *)
Definition printable (c : Z) : Prop := 32 < c < 127.

Global Instance printable_dec c : Decision (printable c).
Proof. unfold printable. apply _. Defined.

Lemma urlsplit_cleans l :
  Forall printable l → List.filter (λ c, negb (mem c [9; 13; 10])) (lstrip (seqZ 0 33) l) = l.
Proof.
  intros Hl. rewrite (proj2 (lstrip_id _ l)).
  - induction Hl as [|c l Hc Hl IH]; cbn [List.filter]; [done|]. unfold printable in Hc.
    assert (mem c [9; 13; 10] = false) as -> by (cbn; lia). cbn [negb]. by rewrite IH.
  - destruct Hl as [|c l Hc _]; [done|]. apply mem_false. rewrite elem_of_seqZ.
    unfold printable in Hc. lia.
Qed.

Lemma scheme_no_colon s : forallb scheme_char s = true → 58 ∉ s.
Proof. intros Hs Hin. by eapply forallb_forall in Hs; [|by apply list_elem_of_In]. Qed.

(** What [urlsplit] makes of a scheme and an authority. *)
Lemma urlsplit_absolute s k p :
  Forall printable (s ++ 58 :: k) → forallb scheme_char s = true →
  (∃ c s', s = c :: s' ∧ is_alpha c = true) → startswith (u "//") k = true →
  urlsplit (s ++ 58 :: k) = Ok p →
  scheme p = lower s ∧ netloc p = (span (λ c, negb (mem c (u "/?#"))) (drop 2 k)).1.
Proof.
  intros Hl Hs (c & s' & -> & Hc) Hk. unfold urlsplit. rewrite urlsplit_cleans by done.
  unfold split_scheme. rewrite partition_app by (by apply scheme_no_colon).
  rewrite Hc, Hs. cbn [andb]. rewrite Hk.
  destruct (span _ (drop 2 k)) as [n r]. cbn [fst].
  destruct (negb _); [done|]. intros Hp.
  assert (∀ q : text * text, q = (n, r) →
    (let '(netloc, url) := q in let '(url, _, fragment) := partition_ 35 url in
     let '(path, _, query) := partition_ 63 url in
     mret (mkSplitResult (lower (c :: s')) netloc path query fragment)) = Ok p →
    scheme p = lower (c :: s') ∧ netloc p = n) as Hend.
  { intros q -> Hq. destruct (partition_ 35 r) as [[r1 ?] ?]. destruct (partition_ 63 r1) as [[? ?] ?].
    by injection Hq as <-. }
  destruct (mem 91 n && mem 93 n); [destruct (_check_bracketed_netloc n); [|done]|];
    by apply (Hend (n, r)).
Qed.

(** What it made a scheme and an authority of. *)
Lemma urlsplit_inv l p :
  Forall printable l → urlsplit l = Ok p → scheme p ≠ [] → netloc p ≠ [] →
  ∃ s k, l = s ++ 58 :: k ∧ forallb scheme_char s = true ∧
    (∃ c s', s = c :: s' ∧ is_alpha c = true) ∧ startswith (u "//") k = true.
Proof.
  intros Hl. unfold urlsplit. rewrite urlsplit_cleans by done. unfold split_scheme.
  destruct (partition_ 58 l) as [[s sep] k] eqn:Ep. destruct (partition_spec _ _ _ _ _ Ep) as (_ & Es & _).
  assert (∀ (x : text) (q : text * text), q.1 = [] ∨ x = [] →
    (let '(netloc, url) := q in let '(url, _, fragment) := partition_ 35 url in
     let '(path, _, query) := partition_ 63 url in
     mret (mkSplitResult x netloc path query fragment)) = Ok p →
    scheme p ≠ [] → netloc p ≠ [] → False) as Hend.
  { intros x [n r] Hx Hq Hne1 Hne2. destruct (partition_ 35 r) as [[r1 ?] ?].
    destruct (partition_ 63 r1) as [[? ?] ?]. injection Hq as <-. cbn in *. by destruct Hx. }
  assert (∀ (m : result (text * text)),
    (split ← m; let '(netloc, url) := split in let '(url, _, fragment) := partition_ 35 url in
     let '(path, _, query) := partition_ 63 url in
     mret (mkSplitResult ([] : text) netloc path query fragment)) = Ok p →
    scheme p ≠ [] → netloc p ≠ [] → False) as Hno.
  { intros [q|e]; cbn [mbind result_bind]; [by apply Hend; right|done]. }
  destruct s as [|c s]; [intros; by edestruct Hno|]. destruct sep; [|intros; by edestruct Hno].
  destruct (is_alpha c && forallb scheme_char (c :: s)) eqn:Ea; [|intros; by edestruct Hno].
  apply andb_true_iff in Ea as [Hc Hs].
  destruct (startswith (u "//") k) eqn:Ek; [intros _ _ _; exists (c :: s), k; eauto 10|].
  intros. by edestruct (Hend (lower (c :: s)) ([], k)); [left|..].
Qed.

Abbreviation authority_of k := (span (λ c, negb (mem c (u "/?#"))) k).1.

Lemma match_authority_some s k :
  forallb scheme_char s = true → (∃ c s', s = c :: s' ∧ is_alpha c = true) →
  match_authority (s ++ u "://" ++ k) = Some ((length s + 3)%nat, authority_of k).
Proof.
  intros Hsc (c & s' & -> & Hc). unfold match_authority. cbn [app].
  change (c :: s' ++ u "://" ++ k) with ((c :: s') ++ 58 :: u "//" ++ k).
  rewrite span_app; [|by apply Forall_forall; intros x Hx%list_elem_of_In;
    eapply forallb_forall in Hsc|done]. rewrite Hc. reflexivity.
Qed.

Lemma match_authority_inv target n a :
  match_authority target = Some (n, a) →
  ∃ s k, target = s ++ u "://" ++ k ∧ forallb scheme_char s = true ∧
    (∃ c s', s = c :: s' ∧ is_alpha c = true) ∧ n = (length s + 3)%nat ∧ a = authority_of k.
Proof.
  unfold match_authority. destruct target as [|c t]; [done|].
  destruct (span scheme_char (c :: t)) as [s r] eqn:Es.
  destruct (span_spec _ _ _ _ Es) as (Et & Hs & _).
  destruct (is_alpha c) eqn:Hc; cbn [andb]; [|done].
  destruct (startswith (u "://") r) eqn:Er; [|done]. apply startswith_app in Er as [k ->].
  intros [= <- <-]. exists s, k. split_and!; [done| | |done|done].
  - apply forallb_forall. intros x Hx%list_elem_of_In. by eapply Forall_forall in Hs.
  - destruct s as [|c' s]; [|injection Et as -> _; eauto].
    cbn in Et. injection Et as -> _. by compute in Hc.
Qed.

(** An absolute target is its scheme, its authority and the rest. *)
Lemma absolute_split target p :
  Forall printable target → split_absolute_uri target = Ok p → scheme p ≠ [] → netloc p ≠ [] →
  ∃ s rest, target = s ++ u "://" ++ netloc p ++ rest ∧ lower s = scheme p.
Proof.
  intros Hl Hp Hs Hn. unfold split_absolute_uri in Hp.
  destruct (match_authority target) as [[n a]|] eqn:Em.
  - destruct (match_authority_inv _ _ _ Em) as (s & k & -> & Hsc & Ha & -> & ->). exists s.
    destruct (span _ k) as [a r] eqn:Ek. cbn [fst] in Hp.
    destruct (span_spec _ _ _ _ Ek) as (-> & _). exists r.
    assert (lower s = scheme p ∧ netloc p = a) as [-> ->]; [|done].
    destruct (startswith (u "[V") _).
    2:{ apply urlsplit_absolute in Hp as [-> ->]; [|done..]. split; [done|].
        transitivity (authority_of (a ++ r)); [reflexivity|by rewrite Ek]. }
    set (m := S (host_start a)).
    replace (length s + 3 + host_start a + 1)%nat with (length s + (3 + m))%nat in Hp by lia.
    rewrite take_app_add, <-Nat.add_succ_r, drop_app_add in Hp.
    change (take (3 + m) (u "://" ++ a ++ r)) with (58 :: u "//" ++ take m (a ++ r)) in Hp.
    change (drop (S (3 + m)) (u "://" ++ a ++ r)) with (drop (S m) (a ++ r)) in Hp.
    destruct (urlsplit _) as [q|] eqn:Eq; [|done]. injection Hp as <-. cbn [scheme netloc].
    split; [|done]. rewrite <-app_assoc in Eq. apply urlsplit_absolute in Eq as [-> _]; [done| |done..].
    apply Forall_app in Hl as [Hl1 Hl2]. apply Forall_app. split; [done|].
    apply (Forall_app _ (u "://")) in Hl2 as [Hl2 Hl3].
    apply (Forall_app _ (u "://")). split; [done|].
    apply Forall_app. split; [by apply Forall_take|]. constructor; [by split|].
    by apply Forall_drop.
  - destruct (urlsplit_inv _ _ Hl Hp Hs Hn) as (s & k & -> & Hsc & Ha & Hk).
    apply startswith_app in Hk as [k' ->]. exfalso.
    change (s ++ 58 :: u "//" ++ k') with (s ++ u "://" ++ k') in Em.
    by rewrite (match_authority_some s k' Hsc Ha) in Em.
Qed.

(** *** The path of a target *)

(** What [urlsplit] takes for the path, behind the authority [a] if there is one. *)
Definition path_of (t : text) : text := (partition_ 63 t).1.1.

Lemma urlsplit_path s k p :
  Forall printable (s ++ 58 :: k) → forallb scheme_char s = true →
  (∃ c s', s = c :: s' ∧ is_alpha c = true) → (35 ∉ k) → urlsplit (s ++ 58 :: k) = Ok p →
  path p = path_of (if startswith (u "//") k
    then (span (λ c, negb (mem c (u "/?#"))) (drop 2 k)).2 else k).
Proof.
  intros Hl Hs (c & s' & -> & Hc) Hk. unfold urlsplit. rewrite urlsplit_cleans by done.
  unfold split_scheme. rewrite partition_app by (by apply scheme_no_colon). rewrite Hc, Hs. cbn [andb].
  assert (∀ n r, (35 ∉ r) →
    (let '(netloc, url) := (n, r) : text * text in let '(url, _, fragment) := partition_ 35 url in
     let '(path, _, query) := partition_ 63 url in
     mret (mkSplitResult (lower (c :: s')) netloc path query fragment)) = Ok p →
    path p = path_of r) as Hend.
  { intros n r Hr. rewrite partition_none by done. unfold path_of.
    destruct (partition_ 63 r) as [[? ?] ?]. by intros [= <-]. }
  destruct (startswith (u "//") k); [|by apply (Hend [])].
  destruct (span _ (drop 2 k)) as [n r] eqn:En. destruct (span_spec _ _ _ _ En) as (E & _). cbn [snd].
  assert (35 ∉ r) as Hr.
  { intros Hin. apply Hk. rewrite <-(take_drop 2 k), E. apply elem_of_app. right. apply elem_of_app. by right. }
  destruct (negb _); [done|].
  destruct (mem 91 n && mem 93 n); [destruct (_check_bracketed_netloc n); [|done]|]; by apply Hend.
Qed.

(** The host of an authority begins inside of it. *)
Lemma host_start_in a : startswith (u "[V") (drop (host_start a) a) = true → (S (host_start a) < length a)%nat.
Proof.
  generalize (host_start a). intros n Hs. apply startswith_app in Hs as [l Hl]. apply (f_equal length) in Hl.
  rewrite length_drop, length_app in Hl. change (length (u "[V")) with 2%nat in Hl. lia.
Qed.

(** What [split_absolute_uri] takes for the path. *)
Lemma absolute_path s k p :
  Forall printable (s ++ 58 :: k) → forallb scheme_char s = true →
  (∃ c s', s = c :: s' ∧ is_alpha c = true) → (35 ∉ k) → split_absolute_uri (s ++ 58 :: k) = Ok p →
  path p = path_of (if startswith (u "//") k
    then (span (λ c, negb (mem c (u "/?#"))) (drop 2 k)).2 else k).
Proof.
  intros Hl Hsc Ha Hk. unfold split_absolute_uri.
  destruct (match_authority (s ++ 58 :: k)) as [[n a]|] eqn:Em; [|by apply urlsplit_path].
  destruct (startswith (u "[V") (drop (host_start a) a)) eqn:Ev; [|by apply urlsplit_path].
  assert (startswith (u "//") k = true) as Ek.
  { destruct (match_authority_inv _ _ _ Em) as (s2 & k2 & E & Hsc2 & _).
    assert (s = s2 ∧ k = u "//" ++ k2) as [_ ->]; [|done].
    assert (partition_ 58 (s ++ 58 :: k) = partition_ 58 (s2 ++ 58 :: u "//" ++ k2)) as Ep by (by rewrite E).
    rewrite !partition_app in Ep by (by apply scheme_no_colon). by injection Ep as -> ->. }
  rewrite Ek. apply startswith_app in Ek as [k2 ->].
  change (s ++ 58 :: u "//" ++ k2) with (s ++ u "://" ++ k2) in *.
  rewrite (match_authority_some s k2 Hsc Ha) in Em. injection Em as <- Ea.
  change (drop 2 (u "//" ++ k2)) with k2. destruct (span _ k2) as [a' r] eqn:En. cbn [fst snd] in *. subst a'.
  destruct (span_spec _ _ _ _ En) as (-> & Hf & Hr). apply host_start_in in Ev.
  set (m := S (host_start a)) in *.
  replace (length s + 3 + host_start a + 1)%nat with (length s + (3 + m))%nat by lia.
  rewrite take_app_add, <-Nat.add_succ_r, drop_app_add.
  change (take (3 + m) (u "://" ++ a ++ r)) with (58 :: u "//" ++ take m (a ++ r)).
  change (drop (S (3 + m)) (u "://" ++ a ++ r)) with (drop (S m) (a ++ r)).
  rewrite take_app_le, drop_app_le by lia. set (a2 := take m a ++ u "v" ++ drop (S m) a).
  replace ((s ++ 58 :: u "//" ++ take m a) ++ u "v" ++ drop (S m) a ++ r) with (s ++ 58 :: u "//" ++ a2 ++ r)
    by (unfold a2; rewrite <-!app_assoc; cbn; by rewrite <-!app_assoc).
  assert (span (λ c, negb (mem c (u "/?#"))) (a2 ++ r) = (a2, r)) as En2.
  { apply span_app; [|done]. unfold a2. apply Forall_app. split; [by apply Forall_take|].
    apply Forall_app. split; [by repeat constructor|by apply Forall_drop]. }
  destruct (urlsplit (s ++ 58 :: u "//" ++ a2 ++ r)) as [q|] eqn:Eq; [|done]. intros [= <-]. cbn [path].
  apply urlsplit_path in Eq; [|..|done|done|].
  - rewrite Eq. change (startswith (u "//") (u "//" ++ a2 ++ r)) with true. cbn beta iota.
    change (drop 2 (u "//" ++ a2 ++ r)) with (a2 ++ r). by rewrite En2.
  - apply Forall_app in Hl as [Hl1 Hl2]. apply Forall_app. split; [done|].
    apply (Forall_app _ (u "://")) in Hl2 as [Hl2 Hl3]. apply (Forall_app _ (u "://")). split; [done|].
    apply Forall_app in Hl3 as [Hl3 Hl4]. apply Forall_app. split; [|done]. unfold a2.
    apply Forall_app. split; [by apply Forall_take|]. constructor; [by split|by apply Forall_drop].
  - change (u "//" ++ a ++ r) with (47 :: 47 :: a ++ r) in Hk. change (u "//" ++ a2 ++ r) with (47 :: 47 :: a2 ++ r).
    rewrite !elem_of_cons, elem_of_app in Hk. rewrite !elem_of_cons, elem_of_app.
    intros [?|[?|[Hin|?]]]; [done|done| |tauto]. apply Hk. do 2 right. left. unfold a2 in Hin.
    rewrite !elem_of_app in Hin. destruct Hin as [Hin|[Hin|Hin]].
    + rewrite <-(take_drop m a). apply elem_of_app. by left.
    + by apply list_elem_of_singleton in Hin.
    + rewrite <-(take_drop (S m) a). apply elem_of_app. by right.
Qed.

(** *** Letter case *)

Lemma lower_idem l : lower (lower l) = lower l.
Proof.
  unfold lower. rewrite <-list_fmap_compose. apply list_fmap_ext. intros _ c _.
  unfold compose, lower_char. repeat case_match; lia.
Qed.

Lemma lower_char_fixed c x : c < 65 → lower_char x = c ↔ x = c.
Proof. unfold lower_char. case_match; lia. Qed.

Lemma partition_lower c l :
  c < 65 →
  partition_ c (lower l) =
    (lower (partition_ c l).1.1, (partition_ c l).1.2, lower (partition_ c l).2).
Proof.
  intros Hc. induction l as [|x l IH]; [done|]. unfold lower in *. cbn [fmap list_fmap partition_].
  change (list_fmap Z Z lower_char l) with (lower_char <$> l). rewrite IH.
  destruct (Z.eqb_spec x c) as [->|Hx].
  - by rewrite (proj2 (Z.eqb_eq _ _) (proj2 (lower_char_fixed c c Hc) eq_refl)).
  - rewrite (proj2 (Z.eqb_neq _ _)) by (by rewrite lower_char_fixed).
    by destruct (partition_ c l) as [[h s] t].
Qed.

Lemma reg_char_lower c : reg_char (lower_char c) = reg_char c.
Proof.
  unfold reg_char, lower_char, is_alnum, is_alpha, is_upper, is_lower, is_digit.
  change (mem ?x (u ?s)) with (existsb (Z.eqb x) (u s)).
  change (u "-._~!$&'()*+,;=") with [45; 46; 95; 126; 33; 36; 38; 39; 40; 41; 42; 43; 44; 59; 61].
  cbn [existsb]. case_match; lia.
Qed.

Lemma is_hexdigit_lower c : is_hexdigit (lower_char c) = is_hexdigit c.
Proof. unfold is_hexdigit, lower_char, is_digit. case_match; lia. Qed.

Lemma reg_name_lower l : _REG_NAME_RE (lower l) = _REG_NAME_RE l.
Proof.
  unfold _REG_NAME_RE, lower.
  assert (∀ n l, (length l ≤ n)%nat →
            pct_match reg_char (lower_char <$> l) = pct_match reg_char l) as HH.
  2:{ by apply (HH (length l)). }
  clear l. induction n as [|n IH]; intros [|c l] Hn; try done; simpl in Hn; [lia|].
  rewrite fmap_cons. cbn [pct_match]. rewrite reg_char_lower. destruct (reg_char c); [apply IH; lia|].
  rewrite (eq_bool_prop_intro (lower_char c =? 37) (c =? 37))
    by (rewrite !Is_true_true, !Z.eqb_eq; by apply lower_char_fixed).
  destruct (c =? 37); [|done]. destruct l as [|a [|b l]]; [done..|]. rewrite !fmap_cons.
  rewrite !is_hexdigit_lower, IH; [done|simpl in Hn; lia].
Qed.

Lemma digit_lower c : is_digit (lower_char c) = is_digit c.
Proof. unfold is_digit, lower_char. case_match; lia. Qed.

Lemma digits_lower p : Forall (λ c, is_digit c = true) p → lower p = p.
Proof.
  intros Hp. unfold lower. rewrite <-(list_fmap_id p) at 2. apply list_fmap_ext.
  intros i c Hi. rewrite Forall_forall in Hp. specialize (Hp c (list_elem_of_lookup_2 _ _ _ Hi)).
  unfold is_digit in Hp. unfold lower_char, id. case_match; lia.
Qed.

(** The port checks see letters of either case as no digits. *)
Lemma check_port_lower host port connect :
  check_port (lower host) (lower <$> port) connect = lower <$> check_port host port connect.
Proof.
  unfold check_port. replace (bool_decide (lower host = [])) with (bool_decide (host = []))
    by (by destruct host).
  destruct port as [p|]; simpl; [|by repeat case_match].
  destruct (bool_decide (p ≠ []) && (negb (isascii p) || negb (isdigit p))) eqn:E.
  - replace (bool_decide (lower p ≠ []) && _) with true.
    + replace (match lower p with [] => true | _ :: _ => false end)
        with (match p with [] => true | _ :: _ => false end) by (by destruct p).
      by destruct (connect && _).
    + symmetry. apply not_false_iff_true. intros Hf%isdigit_Forall.
      assert (Forall (λ c, is_digit c = true) p) as Hp%isdigit_Forall; [|congruence].
      unfold lower in Hf. rewrite Forall_fmap in Hf. eapply Forall_impl; [exact Hf|].
      intros c. simpl. by rewrite digit_lower.
  - apply isdigit_Forall in E as Hp. rewrite (digits_lower p Hp), E. cbv zeta.
    by repeat case_match.
Qed.

Lemma normalize_lower a s connect :
  startswith (u "[") a = false →
  normalize_authority (lower a) s connect = normalize_authority a s connect.
Proof.
  intros Hb. assert (startswith (u "[") (lower a) = false) as Hb'.
  { destruct a as [|c a]; [done|]. 
    change (startswith (u "[") (c :: a)) with ((91 =? c) && true) in Hb.
    change (startswith (u "[") (lower (c :: a))) with ((91 =? lower_char c) && true).
    rewrite andb_true_r in *. apply Z.eqb_neq in Hb. apply Z.eqb_neq.
    unfold lower_char. case_match; lia. }
  unfold normalize_authority, validate_authority, split_authority. rewrite Hb, Hb'.
  rewrite partition_lower by lia. destruct (partition_ 58 a) as [[host sep] port] eqn:Hpt.
  destruct (partition_spec _ _ _ _ _ Hpt) as (_ & _ & Hsep).
  cbn [fst snd]. rewrite reg_name_lower. destruct (_REG_NAME_RE host); [|done].
  cbn [negb mbind result_bind fst snd].
  assert ((if sep then Some (lower port) else None) = lower <$> (if sep then Some port else None))
    as -> by (by destruct sep).
  rewrite check_port_lower.
  destruct (check_port_spec host (if sep then Some port else None) connect)
    as [(-> & Hp & _)|[(e & -> & _) _]]; [|done].
  assert (lower port = port) as Hl.
  { destruct sep; [by apply digits_lower, Hp|by rewrite (Hsep eq_refl)]. }
  cbn. by rewrite Hl, lower_idem.
Qed.

(** ** Theorems *)

(** C34: authorities are validated exactly. [validate_authority] accepts the IP
    literals and registered names of RFC 3986 with an optional port of at most
    65535, for CONNECT with a host and a non-zero port, and returns the host;
    everything else is a [ValueError]. Ports of any number of digits are decided
    without converting more than five. *)
Theorem validate_authority_exact a connect :
  match validate_authority a connect with
  | Ok host => ∃ port, authority_form a host port ∧ port_ok connect port ∧
      (connect = true → host ≠ [])
  | Err e => is_ValueError e = true ∧
      ¬ ∃ host port, authority_form a host port ∧ port_ok connect port ∧
          (connect = true → host ≠ [])
  end.
Proof. apply validate_authority_spec. Qed.

(** Paths and queries consist of allowed characters and complete percent
    escapes. [validate_path_query] accepts exactly these. *)
Theorem validate_path_query_exact p q :
  validate_path_query p q = Ok tt ↔
  pct_text (λ c, reg_char c || mem c (u ":@/")) p ∧
  pct_text (λ c, reg_char c || mem c (u ":@/?")) q.
Proof.
  unfold validate_path_query, _PATH_RE, _QUERY_RE. rewrite <-!pct_match_text by reflexivity.
  destruct (pct_match _ p), (pct_match _ q); simpl; naive_solver.
Qed.

(** Equivalent authorities compare equal. For a registered name the comparison
    form does not depend on letter case, and writing out the default port of the
    scheme does not change it. *)
Theorem normalize_authority_equiv a s connect :
  startswith (u "[") a = false →
  normalize_authority (lower a) s connect = normalize_authority a s connect ∧
  ∀ p, default_port s = Some p → _REG_NAME_RE a = true →
    normalize_authority (a ++ u ":" ++ str_int p) s false = normalize_authority a s false.
Proof.
  intros Hb. split; [by apply normalize_lower|]. intros p Hp Ha.
  assert (58 ∉ a) as H58 by (by apply reg_name_no).
  assert (∃ c l, str_int p = c :: l ∧ int_of_digits (significant (str_int p)) = p ∧
            check_port a (Some (str_int p)) false = Ok a) as (c & l & Hc & Hv & Hk).
  { unfold default_port in Hp. simpl in Hp. repeat case_decide; simplify_eq;
      eexists _, _; split_and!; reflexivity. }
  assert (startswith (u "[") (a ++ u ":" ++ str_int p) = false) as Hb'.
  { destruct a as [|x a]; [done|]. exact Hb. }
  unfold normalize_authority, validate_authority, split_authority. rewrite Hb, Hb'.
  change (u ":" ++ str_int p) with (58 :: str_int p).
  rewrite partition_app, partition_none, Ha by done. cbn [negb mbind result_bind fst snd].
  rewrite Hk. cbn [mbind result_bind mret result_ret check_port andb]. rewrite Hc, <-Hc, Hv, Hp.
  reflexivity.
Qed.

(** ** Witnesses *)

(** A concrete input for [normalize_authority_equiv]. *)
Lemma normalize_authority_equiv_witness :
  normalize_authority (u "Example.COM" ++ u ":" ++ str_int 443) (u "https") false =
    normalize_authority (u "Example.COM") (u "https") false.
Proof.
  refine (proj2 (normalize_authority_equiv (u "Example.COM") (u "https") false _) 443 _ _);
    reflexivity.
Defined.
