(* ===== verification/Http1.v ===== *)
(** * HTTP/1.1 request heads (src/solvetls/http1.py)

    Size limits, request line, header fields, request target and message framing.
    The theorems show that an accepted head is what it looks like to every other
    reader of it: one first terminator, one Host, one framing. *)

From S2P Require Import Prelude PyText IpAddress HttpFields Uri.

Definition MAX_HEAD_SIZE : Z := 65536.
Definition CRLF : bytes := [13; 10].
Definition HEAD_END : bytes := [13; 10; 13; 10].

(** [_TCHAR_PATTERN] without its repetition. *)
Definition tchar (c : Z) : bool := is_alnum c || mem c (u "!#$%&'*+-.^_`|~").

Definition _TOKEN_RE (l : text) : bool :=
  match l with [] => false | _ => forallb tchar l end.

Definition _VERSION_RE (l : bytes) : bool :=
  match l with
  | [a; b; c; d; e; x; f; y] =>
      bool_decide ([a; b; c; d; e] = u "HTTP/") && is_digit x && (f =? 46) && is_digit y
  | _ => false
  end.

Definition _USER_INFO_RE : text → bool := pct_match (λ c, reg_char c || (c =? 58)).

(** [_SCHEME_RE.match(target)] *)
Definition _SCHEME_RE (l : text) : bool :=
  match l with
  | c :: _ => is_alpha c && startswith (u ":") (span scheme_char l).2
  | [] => false
  end.

(** The parameter value of a transfer coding: a token or a quoted string. *)
Fixpoint quoted_tail (l : text) : option text :=
  match l with
  | [] => None
  | c :: l1 =>
      if c =? DQUOTE then Some l1
      else if c =? BACKSLASH then
        match l1 with
        | d :: l2 => if d =? 10 then None else quoted_tail l2
        | [] => None
        end
      else quoted_tail l1
  end.

Definition coding_value (l : text) : option text :=
  match l with
  | c :: l1 =>
      if c =? DQUOTE then quoted_tail l1
      else match span tchar l with (_ :: _, rest) => Some rest | _ => None end
  | [] => None
  end.

(** [(?:[ \t]*;[ \t]*T[ \t]*=[ \t]*(?:T|"...") )*[ \t]*] to the end of the text: the
    separators are disjoint from the tokens, so there is nothing to backtrack. *)
Fixpoint coding_params (fuel : nat) (l : text) : bool :=
  match fuel with
  | O => false
  | S fuel =>
      match lstrip OWS l with
      | [] => true
      | c :: l1 =>
          if c =? 59 then
            match span tchar (lstrip OWS l1) with
            | (_ :: _, l2) =>
                match lstrip OWS l2 with
                | 61 :: l3 =>
                    match coding_value (lstrip OWS l3) with
                    | Some l4 => coding_params fuel l4
                    | None => false
                    end
                | _ => false
                end
            | _ => false
            end
          else false
      end
  end.

(** [_TRANSFER_CODING_RE.fullmatch(value)]: its first group. *)
Definition _TRANSFER_CODING_RE (value : text) : option text :=
  match span tchar value with
  | ((_ :: _) as coding, rest) =>
      if coding_params (S (length rest)) rest then Some coding else None
  | _ => None
  end.

Definition _KNOWN_TRANSFER_CODINGS : list text :=
  [u "chunked"; u "compress"; u "deflate"; u "gzip"].

Record HTTP1Request := mkRequest {
  method : text;
  path : text;
  headers : list (text * text);
  raw_head : bytes;
}.

(** [raise HTTP1Error(message)] with its default status. *)
Definition bad_request {A} (message : text) : result A := Err (HTTP1Error message 400).

(** [except ValueError as exc: raise HTTP1Error(str(exc)) from exc] *)
Definition as_HTTP1Error {A} (r : result A) : result A :=
  match r with
  | Ok a => Ok a
  | Err e => if is_ValueError e then bad_request (exn_str e) else Err e
  end.

(** The size of the head in [data]: up to its terminator, or all of it. *)
Definition head_size (data : bytes) : Z :=
  match find HEAD_END data with None => zlen data | Some end_ => end_ + zlen HEAD_END end.

Definition check_head_size (data : bytes) (incomplete : bool) : result unit :=
  let end_ := find HEAD_END data in
  let head_size := match end_ with None => zlen data | Some e => e + zlen HEAD_END end in
  let too_large :=
    (head_size >? MAX_HEAD_SIZE) ||
    (incomplete && bool_decide (end_ = None) && (head_size >=? MAX_HEAD_SIZE)) in
  if negb too_large then Ok tt
  else
    let start := if startswith CRLF data then 2 else 0 in
    let line_end := find_from CRLF data start in
    let request_line :=
      slice data start (match line_end with None => zlen data | Some e => e end) in
    let line_too_large :=
      match line_end with None => true | Some e => e + zlen HEAD_END >? MAX_HEAD_SIZE end in
    let '(meth, separator, remainder) := partition_ 32 request_line in
    let target := (partition_ 32 remainder).1.1 in
    let framing_size := start + zlen meth + zlen (u "  HTTP/1.1" ++ HEAD_END) in
    if line_too_large && separator && (0 <? MAX_HEAD_SIZE - framing_size) &&
       (MAX_HEAD_SIZE - framing_size <? zlen target)
    then Err (HTTP1Error (u "Request target too long") 414)
    else Err (HTTP1Error (u "Request head too large") 431).

(** ** The request target *)

(** The absolute form of [_validate_target]. *)
Definition validate_absolute (target : text) : result unit :=
  if negb (_SCHEME_RE target) || mem 35 target then
    Err (ValueError (u "Invalid request target"))
  else if existsb (λ c, (c <=? 32) || (127 <=? c)) target then
    Err (ValueError (u "Invalid character in request target"))
  else
    parsed ←
      (match split_absolute_uri target with
       | Ok p => Ok p
       | Err e =>
           if is_ValueError e
           then Err (ValueError (u "Invalid absolute-form request target")) else Err e
       end);
    _ ← validate_path_query (Uri.path parsed) (query parsed);
    let has_authority := startswith (u "//") (partition_ 58 target).2 in
    let http_scheme :=
      bool_decide (lower (scheme parsed) = u "http") ||
      bool_decide (lower (scheme parsed) = u "https") in
    host ←
      (if has_authority then
         authority ←
           (if mem 64 (netloc parsed) then
              let '(user_info, _, authority) := rpartition 64 (netloc parsed) in
              if http_scheme || negb (_USER_INFO_RE user_info) then
                Err (ValueError (u "Invalid user information in absolute-form target"))
              else Ok authority
            else Ok (netloc parsed));
         h ← validate_authority authority false;
         mret (Some h)
       else Ok None);
    if http_scheme && bool_decide (default [] (host : option text) = []) then
      Err (ValueError (u "HTTP absolute-form target requires an authority"))
    else Ok tt.

Definition _validate_target (method target : text) : result unit :=
  if bool_decide (method = u "CONNECT") then
    _ ← validate_authority target true; Ok tt
  else if bool_decide (target = u "*") then
    if negb (bool_decide (method = u "OPTIONS")) then
      Err (ValueError (u "Asterisk target is only valid for OPTIONS"))
    else Ok tt
  else if startswith (u "/") target then
    let '(path, _, query) := partition_ 63 target in
    validate_path_query path query
  else validate_absolute target.

(** ** Message framing *)

Abbreviation fields_dict := (list (text * list text)).

(** [fields.get(name, [])] *)
Definition field_values (fields : fields_dict) (name : text) : list text :=
  default [] (dict_get name fields).

(** [fields.setdefault(name, []).append(value)] *)
Definition add_field (name value : text) (fields : fields_dict) : fields_dict :=
  dict_set name (field_values fields name ++ [value]) fields.

(** [[part.strip(" \t") for value in lengths for part in value.split(",")]] *)
Definition length_parts (lengths : list text) : list text :=
  concat ((λ v, strip OWS <$> split COMMA v) <$> lengths).

Definition validate_lengths (lengths : list text) : result unit :=
  let values := length_parts lengths in
  if existsb (λ v, bool_decide (v = []) || negb (isascii v) || negb (isdigit v)) values then
    bad_request (u "Invalid Content-Length")
  else if negb (length (remove_dups (significant <$> values)) =? 1)%nat then
    bad_request (u "Conflicting Content-Length values")
  else Ok tt.

(** The loop over the transfer codings. *)
Fixpoint coding_loop (values codings : list text) : result (list text) :=
  match values with
  | [] => Ok codings
  | value :: values =>
      match _TRANSFER_CODING_RE value with
      | None => bad_request (u "Invalid Transfer-Encoding")
      | Some m =>
          let coding := lower m in
          if bool_decide (coding = u "chunked") && mem 59 value then
            bad_request (u "Chunked transfer coding cannot have parameters")
          else coding_loop values (codings ++ [coding])
      end
  end.

Definition validate_encodings (encodings : list text) : result unit :=
  coding_values ← as_HTTP1Error (parse_http_list (FStr <$> encodings));
  codings ← coding_loop coding_values [];
  if bool_decide (codings = []) || negb (bool_decide (last codings = Some (u "chunked"))) ||
     negb (length (filter (λ c, c = u "chunked") codings) =? 1)%nat then
    bad_request (u "Request Transfer-Encoding must end with one chunked coding")
  else if existsb (λ c, negb (bool_decide (c ∈ _KNOWN_TRANSFER_CODINGS))) codings then
    Err (HTTP1Error (u "Transfer coding is not supported") 501)
  else Ok tt.

Definition _validate_framing (fields : fields_dict) : result unit :=
  let lengths := field_values fields (u "content-length") in
  let encodings := field_values fields (u "transfer-encoding") in
  if bool_decide (lengths ≠ []) && bool_decide (encodings ≠ []) then
    bad_request (u "Transfer-Encoding and Content-Length cannot be combined")
  else
    _ ← (if bool_decide (lengths ≠ []) then validate_lengths lengths else Ok tt);
    (if bool_decide (encodings ≠ []) then validate_encodings encodings else Ok tt).

(** ** The request *)

(** One header field line. *)
Definition parse_field (line : bytes) : result (text * text) :=
  if startswith [32] line || startswith [9] line then
    bad_request (u "Folded or whitespace-prefixed header field")
  else
    let '(name, separator, value) := partition_ 58 line in
    if negb separator then bad_request (u "Header field has no colon")
    else
      match decode_ascii name with
      | Err _ => bad_request (u "Invalid header field name")
      | Ok name_text =>
          if negb (_TOKEN_RE name_text) then bad_request (u "Invalid header field name")
          else if existsb (λ b, ((b <? 32) && negb (b =? 9)) || (b =? 127)) value then
            bad_request (u "Invalid control character in header field")
          else Ok (name_text, decode_latin1 (strip OWS value))
      end.

(** The loop over the field lines. *)
Fixpoint parse_fields (lines : list bytes) (headers : list (text * text)) (fields : fields_dict)
    : result (list (text * text) * fields_dict) :=
  match lines with
  | [] => Ok (headers, fields)
  | line :: lines =>
      nv ← parse_field line;
      parse_fields lines (headers ++ [nv]) (add_field (lower nv.1) nv.2 fields)
  end.

(** The request line: method and target, both ASCII. *)
Definition parse_request_line (line : bytes) : result (text * text) :=
  match split 32 line with
  | [raw_method; raw_target; version] =>
      if bool_decide (raw_method = []) || bool_decide (raw_target = []) ||
         bool_decide (version = [])
      then bad_request (u "Invalid request line")
      else
        match decode_ascii raw_method, decode_ascii raw_target with
        | Ok method, Ok target =>
            if negb (_TOKEN_RE method) then bad_request (u "Invalid request method")
            else if negb (bool_decide (version = u "HTTP/1.1")) then
              Err (HTTP1Error (u "HTTP version is not supported")
                     (if _VERSION_RE version then 505 else 400))
            else
              _ ← as_HTTP1Error (_validate_target method target);
              mret (method, target)
        | _, _ => bad_request (u "Request line must be ASCII")
        end
  | _ => bad_request (u "Invalid request line")
  end.

(** The lines of a head; an initial empty line is ignored (RFC 9112 2.2). *)
Definition head_lines (head : bytes) : list bytes :=
  match split_crlf head with [] :: rest => rest | lines => lines end.

Definition parse_request (data : bytes) : result HTTP1Request :=
  _ ← check_head_size data false;
  match find HEAD_END data with
  | None => bad_request (u "Request head was not terminated")
  | Some end_ =>
      let raw_head := slice data 0 (end_ + zlen HEAD_END) in
      match head_lines (slice raw_head 0 (zlen raw_head - zlen HEAD_END)) with
      | [] => bad_request (u "Invalid request line ending")
      | first :: rest =>
          if existsb (λ l, mem 13 l || mem 10 l) (first :: rest) then
            bad_request (u "Invalid request line ending")
          else
            mt ← parse_request_line first;
            hf ← parse_fields rest [] [];
            match field_values hf.2 (u "host") with
            | [host] =>
                _ ← as_HTTP1Error (validate_authority host false);
                _ ← _validate_framing hf.2;
                mret (mkRequest mt.1 mt.2 hf.1 raw_head)
            | _ => bad_request (u "Exactly one Host header field is required")
            end
      end
  end.

(** ** What a request head is (RFC 9112) *)

Definition visible_byte (b : Z) : Prop := (32 ≤ b ∨ b = 9) ∧ b ≠ 127.

(** A field line carries name and value, with blanks around the value. *)
Definition field_line (nv : text * text) (line : bytes) : Prop :=
  _TOKEN_RE nv.1 = true ∧ strip OWS nv.2 = nv.2 ∧ Forall visible_byte nv.2 ∧
  ∃ a b, Forall (λ c, mem c OWS = true) a ∧ Forall (λ c, mem c OWS = true) b ∧
    line = nv.1 ++ [58] ++ a ++ nv.2 ++ b.

(** A target that can stand in a request line. *)
Definition target_text (t : text) : Prop :=
  t ≠ [] ∧ isascii t = true ∧ (32 ∉ t) ∧ (13 ∉ t) ∧ (10 ∉ t).

(** The octets of a head: an optional empty line, the request line, the field lines. *)
Definition request_wire (r : HTTP1Request) : Prop :=
  _TOKEN_RE (method r) = true ∧ target_text (path r) ∧
  ∃ lead lines, (lead = [] ∨ lead = [[]]) ∧ Forall2 field_line (headers r) lines ∧
    raw_head r =
      join CRLF (lead ++ (method r ++ [32] ++ path r ++ [32] ++ u "HTTP/1.1") :: lines) ++
      HEAD_END.

(** The fields by lower-case name, as [parse_request] collects them. *)
Definition fields_of (hs : list (text * text)) : fields_dict :=
  foldl (λ f nv, add_field (lower nv.1) nv.2 f) [] hs.

(** The semantic conditions on a head. *)
Definition request_ok (r : HTTP1Request) : Prop :=
  _validate_target (method r) (path r) = Ok tt ∧
  (∃ n h host, filter (λ nv, lower nv.1 = u "host") (headers r) = [(n, h)] ∧
     validate_authority h false = Ok host) ∧
  _validate_framing (fields_of (headers r)) = Ok tt.

(** The name of an accepted transfer coding; chunked has no parameters. *)
Definition coding_of (value coding : text) : Prop :=
  ∃ m, _TRANSFER_CODING_RE value = Some m ∧ coding = lower m ∧
    (coding = u "chunked" → 59 ∉ value).

(** ** Lemmas: characters *)

Lemma tchar_plain c : tchar c = true → 33 ≤ c < 127 ∧ c ≠ 58 ∧ c ≠ 44.
Proof.
  unfold tchar, is_alnum, is_alpha, is_upper, is_lower, is_digit.
  change (mem c (u "!#$%&'*+-.^_`|~")) with
    (existsb (Z.eqb c) [33; 35; 36; 37; 38; 39; 42; 43; 45; 46; 94; 95; 96; 124; 126]).
  cbn [existsb]. lia.
Qed.

Lemma token_chars l : _TOKEN_RE l = true → Forall (λ c, 33 ≤ c < 127 ∧ c ≠ 58 ∧ c ≠ 44) l.
Proof.
  unfold _TOKEN_RE. destruct l as [|c l]; [done|]. set (k := c :: l). intros H.
  apply Forall_forall. intros x Hx. apply tchar_plain.
  eapply forallb_forall in H; [done|by apply list_elem_of_In].
Qed.

Lemma token_no c l : _TOKEN_RE l = true → ¬ (33 ≤ c < 127 ∧ c ≠ 58 ∧ c ≠ 44) → c ∉ l.
Proof. intros Hl%token_chars Hc Hin. rewrite Forall_forall in Hl. by apply Hc, Hl. Qed.

Lemma token_ascii l : _TOKEN_RE l = true → isascii l = true.
Proof.
  intros Hl%token_chars. unfold isascii. apply forallb_forall. intros x Hx%list_elem_of_In.
  rewrite Forall_forall in Hl. specialize (Hl x Hx). lia.
Qed.

Lemma token_nonempty l : _TOKEN_RE l = true → l ≠ [].
Proof. by destruct l. Qed.

Lemma ows_visible c : mem c OWS = true → visible_byte c.
Proof.
  rewrite mem_In. unfold OWS, visible_byte.
  rewrite !elem_of_cons, elem_of_nil. intros [->|[->|[]]]; lia.
Qed.

Lemma visible_exists l :
  existsb (λ b, ((b <? 32) && negb (b =? 9)) || (b =? 127)) l = false ↔ Forall visible_byte l.
Proof.
  rewrite <-not_true_iff_false, existsb_exists, Forall_forall. unfold visible_byte. split.
  - intros H x Hx%list_elem_of_In. destruct (decide ((32 ≤ x ∨ x = 9) ∧ x ≠ 127)) as [|Hn]; [done|].
    exfalso. apply H. exists x. split; [done|]. lia.
  - intros H (x & Hx%list_elem_of_In & Hb). specialize (H x Hx). lia.
Qed.

(** ** Lemmas: field lines *)

Lemma parse_field_exact line nv : parse_field line = Ok nv ↔ field_line nv line.
Proof.
  unfold parse_field. split.
  - destruct (startswith [32] line || startswith [9] line); [done|].
    destruct (partition_ 58 line) as [[name sep] value] eqn:Hp.
    destruct (partition_spec _ _ _ _ _ Hp) as (_ & Hl & _).
    destruct sep; [|done]. cbn [negb]. unfold decode_ascii.
    destruct (isascii name); [|done]. destruct (_TOKEN_RE name) eqn:Ht; [|done]. cbn [negb].
    destruct (existsb _ value) eqn:Hv; [done|]. intros [= <-]. apply visible_exists in Hv.
    unfold decode_latin1. destruct (strip_split OWS value) as (a & b & Ha & Hb & Hval).
    split_and!; cbn [fst snd]; [done|apply strip_idem| |].
    + rewrite Hval in Hv. by apply Forall_app in Hv as [_ [? _]%Forall_app].
    + exists a, b. split_and!; [done..|]. rewrite Hl. by rewrite Hval at 1.
  - destruct nv as [n v]. intros (Ht & Hs & Hv & a & b & Ha & Hb & ->). cbn [fst snd] in *.
    assert (58 ∉ n) as H58 by (apply token_no; [done|lia]).
    assert (∀ x, x = 32 ∨ x = 9 → startswith [x] (n ++ [58] ++ a ++ v ++ b) = false) as Hst.
    { intros x Hx. destruct n as [|y n]; [done|]. apply not_true_iff_false.
      rewrite startswith_app. intros [k [= <- _]]. apply (token_no y (y :: n)) in Ht; [|lia].
      apply Ht. left. }
    rewrite !Hst by auto. cbn [orb].
    change ([58] ++ a ++ v ++ b) with (58 :: a ++ v ++ b). rewrite (partition_app 58 n (a ++ v ++ b) H58). cbn [negb].
    unfold decode_ascii. rewrite token_ascii, Ht by done. cbn [negb].
    assert (Forall visible_byte (a ++ v ++ b)) as Hvis.
    { rewrite !Forall_app. split_and!; [|done|]; (eapply Forall_impl; [done|]); apply ows_visible. }
    rewrite (proj2 (visible_exists _) Hvis). unfold decode_latin1. by rewrite strip_blank.
Qed.

Lemma parse_field_err line e : parse_field line = Err e → ∃ m, e = HTTP1Error m 400.
Proof. unfold parse_field, bad_request. repeat case_match; intros; simplify_eq; by eexists. Qed.

Lemma parse_fields_exact lines h f h' f' :
  parse_fields lines h f = Ok (h', f') ↔
  ∃ hs, Forall2 field_line hs lines ∧ h' = h ++ hs ∧
    f' = foldl (λ f nv, add_field (lower nv.1) nv.2 f) f hs.
Proof.
  revert h f. induction lines as [|line lines IH]; intros h f; cbn [parse_fields].
  { split.
    - intros [= <- <-]. exists []. by rewrite app_nil_r.
    - intros (hs & Hf%Forall2_nil_inv_r & -> & ->). subst. simpl. by rewrite app_nil_r. }
  split.
  - destruct (parse_field line) as [nv|e] eqn:E; [|done]. cbn [mbind result_bind].
    intros (hs & Hf & -> & ->)%IH. exists (nv :: hs). rewrite <-app_assoc.
    split_and!; [|done..]. constructor; [by apply parse_field_exact|done].
  - intros (hs & Hf & -> & ->). inversion Hf as [|nv ? hs' ? Hl Hf']; subst.
    apply parse_field_exact in Hl. rewrite Hl. cbn [mbind result_bind]. apply IH.
    exists hs'. by rewrite <-app_assoc.
Qed.

Lemma fields_of_values hs k :
  field_values (fields_of hs) k = (filter (λ nv, lower nv.1 = k) hs).*2.
Proof.
  unfold fields_of. induction hs as [|nv hs IH] using rev_ind; [done|].
  rewrite foldl_app, filter_app, fmap_app. simpl. unfold add_field at 1, field_values at 1.
  rewrite dict_get_set, filter_cons, filter_nil. case_decide as Hk; simpl.
  - by rewrite <-IH, Hk.
  - by rewrite app_nil_r, <-IH.
Qed.

(** ** Lemmas: the request line *)

Lemma as_HTTP1Error_ok {A} (r : result A) a : as_HTTP1Error r = Ok a ↔ r = Ok a.
Proof. destruct r as [x|e]; simpl; [done|]. by destruct (is_ValueError e). Qed.

Definition request_line (m t : text) : bytes := m ++ [32] ++ t ++ [32] ++ u "HTTP/1.1".

Lemma parse_request_line_exact line m t :
  parse_request_line line = Ok (m, t) ↔
  _TOKEN_RE m = true ∧ t ≠ [] ∧ isascii t = true ∧ (32 ∉ t) ∧ line = request_line m t ∧
  _validate_target m t = Ok tt.
Proof.
  unfold parse_request_line. split.
  - pose proof (join_split 32 line) as HJ. pose proof (split_pieces 32 line) as HP.
    destruct (split 32 line) as [|rm [|rt [|v [|]]]]; try done.
    destruct (_ || _ || _) eqn:E; [done|].
    apply orb_false_iff in E as [[_ Ht%bool_decide_eq_false]%orb_false_iff _].
    unfold decode_ascii. destruct (isascii rm) eqn:Ha; [|done].
    destruct (isascii rt) eqn:Ha'; [|done]. destruct (_TOKEN_RE rm) eqn:Hm; [|done]. cbn [negb].
    destruct (bool_decide (v = u "HTTP/1.1")) eqn:Hv; [|done]. cbn [negb].
    apply bool_decide_eq_true in Hv as ->. rewrite bind_Ok.
    intros ([] & HV & [= <- <-]). apply (proj1 (as_HTTP1Error_ok _ _)) in HV.
    apply Forall_cons in HP as [_ [HP _]%Forall_cons].
    split_and!; [done..|by rewrite <-HJ|done].
  - intros (Hm & Hne & Ha & Hsp & -> & HV).
    assert (split 32 (request_line m t) = [m; t; u "HTTP/1.1"]) as ->.
    { apply (split_join 32 [m; t; u "HTTP/1.1"]); [done|].
      constructor; [apply token_no; [done|lia]|]. constructor; [done|].
      constructor; [by_eval|constructor]. }
    rewrite (bool_decide_false (m = [])) by (by apply token_nonempty).
    rewrite (bool_decide_false (t = [])) by done. cbn [orb].
    unfold decode_ascii. rewrite token_ascii, Ha, Hm by done. cbn [negb].
    rewrite HV. reflexivity.
Qed.

(** ** Lemmas: the first terminator *)

Lemma find_skip l k :
  (13 ∉ l) → find_ HEAD_END (l ++ k) = (λ n, length l + n)%nat <$> find_ HEAD_END k.
Proof.
  induction l as [|x l IH]; [intros _; simpl; by destruct (find_ HEAD_END k)|].
  rewrite not_elem_of_cons. intros [Hx Hl].
  change ((x :: l) ++ k) with (x :: (l ++ k)). cbn [find_ HEAD_END startswith].
  rewrite (proj2 (Z.eqb_neq 13 x)) by congruence. cbn [andb].
  rewrite IH by done. by destruct (find_ HEAD_END k).
Qed.

Lemma find_crlf c k :
  c ≠ 13 → find_ HEAD_END (13 :: 10 :: c :: k) = (λ n, 2 + n)%nat <$> find_ HEAD_END (c :: k).
Proof.
  intros Hc. unfold HEAD_END. cbn [find_]. cbn [startswith].
  change (13 =? 10) with false. change (13 =? 13) with true. change (10 =? 10) with true.
  rewrite (proj2 (Z.eqb_neq 13 c)) by congruence. cbn [andb].
  by destruct (find_ [13; 10; 13; 10] k).
Qed.

(** The lines of a head: none empty, none with a carriage return. *)
Definition head_line (l : bytes) : Prop := l ≠ [] ∧ (13 ∉ l).

Lemma find_head ls body :
  ls ≠ [] → Forall head_line ls →
  find_ HEAD_END (join CRLF ls ++ HEAD_END ++ body) = Some (length (join CRLF ls)).
Proof.
  intros Hne Hls. induction Hls as [|l ls [Hl H13] Hls IH]; [done|].
  destruct ls as [|k ls].
  { simpl join. rewrite find_skip by done. simpl. by rewrite Nat.add_0_r. }
  change (join CRLF (l :: k :: ls)) with (l ++ 13 :: 10 :: join CRLF (k :: ls)).
  specialize (IH ltac:(done)). apply Forall_cons in Hls as [[Hk Hk13] _].
  assert (∃ c x, join CRLF (k :: ls) ++ HEAD_END ++ body = c :: x ∧ c ≠ 13) as (c & x & Hcx & Hc).
  { destruct k as [|c k]; [done|]. apply not_elem_of_cons in Hk13 as [Hc _].
    exists c. destruct ls as [|k' ls]; eexists; split; try reflexivity; congruence. }
  rewrite <-app_assoc, find_skip by done.
  change ((13 :: 10 :: join CRLF (k :: ls)) ++ HEAD_END ++ body)
    with (13 :: 10 :: (join CRLF (k :: ls) ++ HEAD_END ++ body)).
  rewrite Hcx, find_crlf, <-Hcx, IH by done. simpl. rewrite length_app. simpl. f_equal.
Qed.

Lemma find_head_lead lead ls body :
  lead = [] ∨ lead = [[]] → ls ≠ [] → Forall head_line ls →
  find_ HEAD_END (join CRLF (lead ++ ls) ++ HEAD_END ++ body) =
    Some (length (join CRLF (lead ++ ls))).
Proof.
  intros [->| ->] Hne Hls; [by apply find_head|].
  destruct ls as [|k ls]; [done|]. pose proof (find_head (k :: ls) body Hne Hls) as HF.
  change (join CRLF ([[]] ++ k :: ls)) with (13 :: 10 :: join CRLF (k :: ls)).
  change ((13 :: 10 :: join CRLF (k :: ls)) ++ HEAD_END ++ body)
    with (13 :: 10 :: (join CRLF (k :: ls) ++ HEAD_END ++ body)).
  apply Forall_cons in Hls as [[Hk Hk13] _].
  assert (∃ c x, join CRLF (k :: ls) ++ HEAD_END ++ body = c :: x ∧ c ≠ 13) as (c & x & Hcx & Hc).
  { destruct k as [|c k]; [done|]. apply not_elem_of_cons in Hk13 as [Hc _].
    exists c. destruct ls as [|k' ls]; eexists; split; try reflexivity; congruence. }
  rewrite Hcx, find_crlf, <-Hcx, HF by done. done.
Qed.

Lemma field_line_head nv line : field_line nv line → head_line line ∧ (10 ∉ line).
Proof.
  destruct nv as [n v]. intros (Ht & _ & Hv & a & b & Ha & Hb & ->). cbn [fst snd] in *.
  assert (∀ l, Forall visible_byte l → (13 ∉ l) ∧ (10 ∉ l)) as Hvis.
  { intros l Hl. rewrite Forall_forall in Hl. unfold visible_byte in Hl.
    split; intros Hin%Hl; lia. }
  assert (∀ l, Forall (λ c, mem c OWS = true) l → Forall visible_byte l) as Hows.
  { intros l Hl. eapply Forall_impl; [done|]. apply ows_visible. }
  destruct (Hvis a (Hows a Ha)), (Hvis b (Hows b Hb)), (Hvis v Hv).
  unfold head_line. rewrite !not_elem_of_app, !not_elem_of_cons.
  pose proof (token_no 13 n Ht ltac:(lia)). pose proof (token_no 10 n Ht ltac:(lia)).
  split_and!; try done; try apply not_elem_of_nil. by destruct n.
Qed.

Lemma find_split data e :
  find HEAD_END data = Some e →
  ∃ pre body, data = pre ++ HEAD_END ++ body ∧ e = zlen pre.
Proof.
  unfold find. destruct (find_ HEAD_END data) as [i|] eqn:E; [|done]. intros [= <-].
  destruct (find_Some _ _ _ E) as [[k Hk]%startswith_app Hi].
  exists (take i data), k. split; [by rewrite <-Hk, take_drop|].
  unfold zlen. rewrite length_take. simpl in Hi. lia.
Qed.

Lemma slice_0 {A} (l k : list A) : slice (l ++ k) 0 (zlen l) = l.
Proof. apply (slice_prefix []). Qed.

Lemma slice_all {A} (l : list A) n : n = zlen l → slice l 0 n = l.
Proof. intros ->. pose proof (slice_0 l []) as H. by rewrite app_nil_r in H. Qed.

Lemma check_head_size_ok data incomplete :
  check_head_size data incomplete = Ok tt ↔
  head_size data ≤ MAX_HEAD_SIZE ∧
  (incomplete = true → find HEAD_END data = None → head_size data < MAX_HEAD_SIZE).
Proof.
  unfold check_head_size. fold (head_size data). cbv zeta.
  rewrite Z.gtb_ltb, Z.geb_leb. destruct (_ || _) eqn:E; cbn [negb].
  - split.
    + destruct (partition_ 32 _) as [[? ?] ?]. by destruct (_ && _ && _ && _).
    + intros [H1 H2]. apply orb_true_iff in E as [E%Z.ltb_lt|E]; [lia|].
      rewrite !andb_true_iff in E. destruct E as [[-> E%bool_decide_eq_true] E'%Z.leb_le].
      specialize (H2 eq_refl E). lia.
  - split; [intros _|done]. apply orb_false_iff in E as [E%Z.ltb_ge E2]. split; [lia|].
    intros -> HN. rewrite bool_decide_true in E2 by done. by apply Z.leb_gt in E2.
Qed.

Lemma check_head_size_err data incomplete e :
  check_head_size data incomplete = Err e →
  ∃ m s, e = HTTP1Error m s ∧ (s = 414 ∨ s = 431).
Proof.
  unfold check_head_size. cbv zeta. destruct (_ || _); cbn [negb]; [|done].
  destruct (partition_ 32 _) as [[? ?] ?].
  destruct (_ && _ && _ && _); intros [= <-]; eauto 10.
Qed.

(** ** Reading a head piece by piece *)

(** [head] is the head that [whole] begins with: up to the first terminator. *)
Definition complete_head (whole head : bytes) : Prop :=
  ∃ pre rest, head = pre ++ HEAD_END ∧ whole = head ++ rest ∧
    find HEAD_END whole = Some (zlen pre) ∧ zlen head ≤ MAX_HEAD_SIZE.

(** [whole] has no terminator within the size of a head. *)
Definition head_too_long (whole : bytes) : Prop :=
  MAX_HEAD_SIZE ≤ zlen whole ∧ find HEAD_END (take (Z.to_nat MAX_HEAD_SIZE) whole) = None.

Lemma find_app_some p a b e : find p a = Some e → find p (a ++ b) = Some e.
Proof.
  unfold find. destruct (find_ p a) as [i|] eqn:E; [|done]. by rewrite (find_grow _ _ b _ E).
Qed.

Lemma head_found data rest e :
  check_head_size data true = Ok tt → find HEAD_END data = Some e →
  complete_head (data ++ rest) (slice data 0 (e + zlen HEAD_END)).
Proof.
  intros [Hsz _]%check_head_size_ok Hf. unfold head_size in Hsz. rewrite Hf in Hsz.
  destruct (find_split _ _ Hf) as (pre & body & -> & ->). exists pre, (body ++ rest).
  assert (slice (pre ++ HEAD_END ++ body) 0 (zlen pre + zlen HEAD_END) = pre ++ HEAD_END) as ->.
  { rewrite <-zlen_app, app_assoc. apply slice_0. }
  split_and!; [done|by rewrite <-!app_assoc|by apply find_app_some|by rewrite zlen_app].
Qed.

Lemma head_refused data rest e :
  check_head_size data true = Err e → head_too_long (data ++ rest).
Proof.
  intros He. assert (¬ check_head_size data true = Ok tt) as Hn by (by rewrite He).
  rewrite check_head_size_ok in Hn. unfold head_size, head_too_long in *. rewrite zlen_app.
  pose proof (zlen_nonneg rest). assert (0 ≤ MAX_HEAD_SIZE) by done.
  destruct (find HEAD_END data) as [i|] eqn:Ef.
  - assert (MAX_HEAD_SIZE < i + zlen HEAD_END) as Hi.
    { destruct (decide (MAX_HEAD_SIZE < i + zlen HEAD_END)); [done|]. destruct Hn. split; [lia|done]. }
    destruct (find_split _ _ Ef) as (pre & body & Hd & Hp).
    assert (zlen data = zlen pre + zlen HEAD_END + zlen body) by (rewrite Hd, !zlen_app; lia).
    pose proof (zlen_nonneg body). split; [lia|].
    destruct (find HEAD_END (take _ (data ++ rest))) as [j|] eqn:Ej; [|done].
    pose proof (find_app_some _ _ rest _ Ef) as Ew.
    assert (find HEAD_END (data ++ rest) = Some j) as Ew'.
    { rewrite <-(take_drop (Z.to_nat MAX_HEAD_SIZE) (data ++ rest)). by apply find_app_some. }
    assert (j = i) as -> by congruence. apply (find_take _ _ _ _ Ew) in Ej; lia.
  - assert (MAX_HEAD_SIZE ≤ zlen data) as Hl.
    { destruct (decide (MAX_HEAD_SIZE ≤ zlen data)); [done|]. destruct Hn. split; [lia|]. intros; lia. }
    split; [lia|]. rewrite take_app_le by (unfold zlen in Hl; lia). by apply find_take_None.
Qed.

Lemma head_continues data :
  check_head_size data true = Ok tt → find HEAD_END data = None → zlen data < MAX_HEAD_SIZE.
Proof.
  intros [_ H]%check_head_size_ok Hf. specialize (H eq_refl Hf). unfold head_size in H.
  by rewrite Hf in H.
Qed.

Lemma parse_request_eq pre body r :
  find HEAD_END (pre ++ HEAD_END ++ body) = Some (zlen pre) →
  parse_request (pre ++ HEAD_END ++ body) = Ok r ↔
  zlen (pre ++ HEAD_END) ≤ MAX_HEAD_SIZE ∧ raw_head r = pre ++ HEAD_END ∧
  ∃ first rest, head_lines pre = first :: rest ∧
    Forall (λ l, (13 ∉ l) ∧ (10 ∉ l)) (first :: rest) ∧
    parse_request_line first = Ok (method r, path r) ∧
    parse_fields rest [] [] = Ok (headers r, fields_of (headers r)) ∧
    (∃ n h host, filter (λ nv, lower nv.1 = u "host") (headers r) = [(n, h)] ∧
       validate_authority h false = Ok host) ∧
    _validate_framing (fields_of (headers r)) = Ok tt.
Proof.
  intros Hf. unfold parse_request. rewrite bind_Ok.
  assert (head_size (pre ++ HEAD_END ++ body) = zlen (pre ++ HEAD_END)) as Hsz
    by (unfold head_size; by rewrite Hf, zlen_app).
  assert (∀ k, check_head_size (pre ++ HEAD_END ++ body) false = Ok k ↔
               zlen (pre ++ HEAD_END) ≤ MAX_HEAD_SIZE) as Hchk.
  { intros []. rewrite check_head_size_ok, Hsz. naive_solver. }
  setoid_rewrite Hchk. rewrite Hf.
  replace (slice _ 0 (zlen pre + zlen HEAD_END)) with (pre ++ HEAD_END)
    by (rewrite <-zlen_app, app_assoc; symmetry; apply slice_0).
  replace (slice (pre ++ HEAD_END) 0 _) with pre
    by (rewrite zlen_app; replace (zlen pre + _ - _) with (zlen pre) by lia; symmetry; apply slice_0).
  cbv zeta.
  assert (∀ X : Prop, (∃ _ : unit, zlen (pre ++ HEAD_END) ≤ MAX_HEAD_SIZE ∧ X) ↔
                      zlen (pre ++ HEAD_END) ≤ MAX_HEAD_SIZE ∧ X) as Hun
    by (intros; split; [by intros [_ ?]|by exists tt]).
  rewrite Hun. apply and_iff_compat_l.
  destruct (head_lines pre) as [|first rest].
  { split; [done|]. by intros (_ & ? & ? & ? & _). }
  destruct (existsb _ (first :: rest)) eqn:Hcr.
  { split; [done|]. intros (_ & f & rs & [= <- <-] & Hno & _). exfalso.
    apply existsb_exists in Hcr as (l & Hl%list_elem_of_In & Hb). rewrite Forall_forall in Hno.
    destruct (Hno l Hl) as [H1%mem_false H2%mem_false]. by rewrite H1, H2 in Hb. }
  assert (Forall (λ l, (13 ∉ l) ∧ (10 ∉ l)) (first :: rest)) as Hno.
  { rewrite <-not_true_iff_false, existsb_exists in Hcr. apply Forall_forall. intros l Hl.
    rewrite <-!mem_false. destruct (mem 13 l) eqn:E1, (mem 10 l) eqn:E2; try done;
      exfalso; apply Hcr; exists l; (split; [by apply list_elem_of_In|by rewrite ?E1, ?E2]). }
  rewrite bind_Ok. split.
  - intros ([m t] & Hrl & H). rewrite bind_Ok in H. destruct H as ([hs fs] & Hpf & H).
    apply parse_fields_exact in Hpf as Hpf'. destruct Hpf' as (hs' & _ & -> & ->).
    cbn [fst snd app] in *. fold (fields_of hs') in *. rewrite fields_of_values in H.
    destruct (filter _ hs') as [|[n h] [|]] eqn:Hfl; try done. cbn in H.
    rewrite bind_Ok in H. destruct H as (a & Ha & H). apply (proj1 (as_HTTP1Error_ok _ _)) in Ha.
    rewrite bind_Ok in H. destruct H as ([] & Hfr & [= <-]). cbn [method path headers raw_head].
    split; [done|]. exists first, rest. split_and!; try done. by exists n, h, a.
  - intros (Hraw & f & rs & [= <- <-] & _ & Hrl & Hpf & (n & h & a & Hfl & Ha) & Hfr).
    exists (method r, path r). split; [done|]. rewrite bind_Ok.
    exists (headers r, fields_of (headers r)). split; [done|]. cbn [fst snd].
    rewrite fields_of_values, Hfl. cbn. rewrite bind_Ok. exists a.
    split; [by apply as_HTTP1Error_ok|]. rewrite bind_Ok. exists tt. split; [done|].
    rewrite <-Hraw. by destruct r.
Qed.

Lemma head_lines_join lead ls :
  lead = [] ∨ lead = [[]] → ls ≠ [] → Forall head_line ls →
  head_lines (join CRLF (lead ++ ls)) = ls.
Proof.
  intros Hlead Hne Hls. unfold head_lines, CRLF.
  assert (Forall (λ l, 13 ∉ l) ls) as H13 by (eapply Forall_impl; [done|]; by intros l [_ ?]).
  rewrite split_crlf_join.
  - destruct Hlead as [->| ->]; [|done]. destruct Hls as [|l ls [Hl _] _]; [done|]. by destruct l.
  - by destruct lead, ls.
  - apply Forall_app. split; [|done]. destruct Hlead as [->| ->]; [done|].
    constructor; [apply not_elem_of_nil|constructor].
Qed.

Lemma head_lines_split pre first rest :
  head_lines pre = first :: rest →
  ∃ lead, (lead = [] ∨ lead = [[]]) ∧ pre = join CRLF (lead ++ first :: rest).
Proof.
  unfold head_lines. pose proof (join_split_crlf pre) as HJ. fold CRLF in HJ.
  destruct (split_crlf pre) as [|[|c l] ls]; [done|..].
  - intros ->. exists [[]]. split; [by right|done].
  - intros [= <- <-]. exists []. split; [by left|done].
Qed.

Lemma request_line_head m t :
  _TOKEN_RE m = true → (13 ∉ t) → (10 ∉ t) →
  head_line (request_line m t) ∧ (10 ∉ request_line m t).
Proof.
  intros Hm H13 H10. unfold head_line, request_line.
  rewrite !not_elem_of_app, !not_elem_of_cons.
  pose proof (token_no 13 m Hm ltac:(lia)). pose proof (token_no 10 m Hm ltac:(lia)).
  split_and!; try done; try apply not_elem_of_nil; try by_eval. by destruct m.
Qed.

Lemma request_line_target m t c : (c ∉ request_line m t) → c ∉ t.
Proof. unfold request_line. rewrite !not_elem_of_app. tauto. Qed.

(** *** Exceptions *)

Definition http1_exn (e : exn) : Prop :=
  ∃ m s, e = HTTP1Error m s ∧ s ∈ [400; 414; 431; 501; 505].

Lemma bad_request_exn m : http1_exn (HTTP1Error m 400).
Proof. exists m, 400. split; [done|set_solver]. Qed.

Lemma as_HTTP1Error_err {A} (r : result A) e :
  (∀ x, r = Err x → is_ValueError x = true) → as_HTTP1Error r = Err e → http1_exn e.
Proof.
  intros Hr. destruct r as [a|x]; [done|]. simpl. rewrite (Hr x eq_refl).
  intros [= <-]. apply bad_request_exn.
Qed.

Lemma validate_authority_err a c e : validate_authority a c = Err e → is_ValueError e = true.
Proof. intros H. pose proof (validate_authority_spec a c) as HS. rewrite H in HS. apply HS. Qed.

Lemma urlsplit_err url e : urlsplit url = Err e → is_ValueError e = true.
Proof.
  unfold urlsplit. destruct (split_scheme _) as [s rest].
  intros [H|([nl tl] & _ & H)]%bind_Err.
  - destruct (startswith _ rest); [|done]. destruct (span _ _) as [nl tl].
    destruct (negb _); [by injection H as <-|]. destruct (_ && _); [|done].
    apply bind_Err in H as [H|([] & _ & H)]; [|done].
    unfold _check_bracketed_netloc, _check_bracketed_host in H.
    repeat case_match; simplify_eq; done.
  - destruct (partition_ 35 tl) as [[? ?] ?]. by destruct (partition_ 63 _) as [[? ?] ?].
Qed.

Lemma split_absolute_uri_err t e : split_absolute_uri t = Err e → is_ValueError e = true.
Proof.
  unfold split_absolute_uri. destruct (match_authority t) as [[st au]|]; [|apply urlsplit_err].
  destruct (startswith _ _); [|apply urlsplit_err].
  intros [H|(p & _ & H)]%bind_Err; [by eapply urlsplit_err|done].
Qed.

Lemma validate_path_query_err p q e : validate_path_query p q = Err e → is_ValueError e = true.
Proof. unfold validate_path_query. destruct (_ || _); [|done]. by intros [= <-]. Qed.

Lemma validate_absolute_err t e : validate_absolute t = Err e → is_ValueError e = true.
Proof.
  unfold validate_absolute. destruct (_ || _); [by intros [= <-]|].
  destruct (existsb _ _); [by intros [= <-]|].
  intros [H|(p & _ & H)]%bind_Err.
  { destruct (split_absolute_uri t) as [|x] eqn:E; [done|].
    apply split_absolute_uri_err in E. rewrite E in H. by injection H as <-. }
  apply bind_Err in H as [H|([] & _ & H)]; [by eapply validate_path_query_err|].
  apply bind_Err in H as [H|(h & _ & H)].
  - destruct (startswith _ _); [|done]. apply bind_Err in H as [H|(au & _ & H)].
    + destruct (mem 64 _); [|done]. destruct (rpartition 64 _) as [[? ?] ?].
      destruct (_ || _); [|done]. by injection H as <-.
    + apply bind_Err in H as [H|(h & _ & H)]; [by eapply validate_authority_err|done].
  - destruct (_ && _); [|done]. by injection H as <-.
Qed.

Lemma validate_target_err m t e : _validate_target m t = Err e → is_ValueError e = true.
Proof.
  unfold _validate_target. destruct (bool_decide _).
  { intros [H|(h & _ & H)]%bind_Err; [by eapply validate_authority_err|done]. }
  destruct (bool_decide _). { destruct (negb _); [|done]. by intros [= <-]. }
  destruct (startswith _ _); [|apply validate_absolute_err].
  destruct (partition_ 63 t) as [[? ?] ?]. apply validate_path_query_err.
Qed.

Lemma parse_request_line_err line e : parse_request_line line = Err e → http1_exn e.
Proof.
  unfold parse_request_line, bad_request. intros H.
  destruct (split 32 line) as [|rm [|rt [|v [|]]]]; try (injection H as <-; apply bad_request_exn).
  destruct (_ || _ || _); [injection H as <-; apply bad_request_exn|].
  destruct (decode_ascii rm), (decode_ascii rt); try (injection H as <-; apply bad_request_exn).
  destruct (negb _); [injection H as <-; apply bad_request_exn|].
  destruct (negb _).
  { injection H as <-. destruct (_VERSION_RE v); [|apply bad_request_exn].
    eexists _, 505. split; [done|set_solver]. }
  apply bind_Err in H as [H|([] & _ & H)]; [|done].
  eapply as_HTTP1Error_err; [|done]. apply validate_target_err.
Qed.

Lemma parse_fields_err lines h f e : parse_fields lines h f = Err e → http1_exn e.
Proof.
  revert h f. induction lines as [|l lines IH]; intros h f; [done|]. cbn [parse_fields].
  intros [H|(nv & _ & H)]%bind_Err; [|by eapply IH].
  apply parse_field_err in H as [m ->]. apply bad_request_exn.
Qed.

Lemma parse_http_list_err vs e : parse_http_list vs = Err e → is_ValueError e = true.
Proof. unfold parse_http_list. destruct (_ || _); [|done]. by intros [= <-]. Qed.

Lemma coding_loop_err vs cs e : coding_loop vs cs = Err e → http1_exn e.
Proof.
  revert cs. induction vs as [|v vs IH]; intros cs; [done|]. cbn [coding_loop].
  destruct (_TRANSFER_CODING_RE v); [|intros [= <-]; apply bad_request_exn].
  cbv zeta. destruct (_ && _); [intros [= <-]; apply bad_request_exn|apply IH].
Qed.

Lemma validate_framing_err f e : _validate_framing f = Err e → http1_exn e.
Proof.
  unfold _validate_framing. destruct (_ && _); [intros [= <-]; apply bad_request_exn|].
  intros [H|([] & _ & H)]%bind_Err.
  - destruct (bool_decide _); [|done]. unfold validate_lengths in H.
    destruct (existsb _ _); [injection H as <-; apply bad_request_exn|].
    destruct (negb _); [|done]. injection H as <-; apply bad_request_exn.
  - destruct (bool_decide _); [|done]. unfold validate_encodings in H.
    apply bind_Err in H as [H|(vs & _ & H)].
    { eapply as_HTTP1Error_err; [|done]. apply parse_http_list_err. }
    apply bind_Err in H as [H|(cs & _ & H)]; [by eapply coding_loop_err|].
    destruct (_ || _ || _); [injection H as <-; apply bad_request_exn|].
    destruct (existsb _ _); [|done]. injection H as <-. eexists _, 501. split; [done|set_solver].
Qed.

(** *** Framing *)

Lemma int_of_digits_snoc l c : int_of_digits (l ++ [c]) = 10 * int_of_digits l + (c - 48).
Proof. unfold int_of_digits. rewrite foldl_app. simpl. lia. Qed.

Definition no_lead0 (l : text) : Prop := match l with [] => True | c :: _ => c ≠ 48 end.

Lemma no_lead0_pos c l :
  Forall (λ c, is_digit c = true) (c :: l) → no_lead0 (c :: l) → 0 < int_of_digits (c :: l).
Proof.
  intros [Hc Hl]%Forall_cons H0. simpl in H0. rewrite int_of_digits_cons.
  pose proof (int_of_digits_nonneg l Hl). unfold is_digit in Hc.
  pose proof (Z.pow_pos_nonneg 10 (zlen l) ltac:(lia) (zlen_nonneg l)). nia.
Qed.

Lemma int_of_digits_inj l k :
  Forall (λ c, is_digit c = true) l → Forall (λ c, is_digit c = true) k →
  no_lead0 l → no_lead0 k → int_of_digits l = int_of_digits k → l = k.
Proof.
  revert k. induction l as [|a l IH] using rev_ind; intros k Hl Hk H0 H0' HE.
  { destruct k as [|c k]; [done|]. pose proof (no_lead0_pos c k Hk H0'). 
    change (int_of_digits []) with 0 in HE. lia. }
  destruct k as [|b k _] using rev_ind.
  { destruct (l ++ [a]) as [|c m] eqn:E; [done|]. pose proof (no_lead0_pos c m Hl H0).
    change (int_of_digits []) with 0 in HE. lia. }
  rewrite !int_of_digits_snoc in HE.
  apply Forall_app in Hl as [Hl [Ha _]%Forall_cons], Hk as [Hk [Hb _]%Forall_cons].
  unfold is_digit in Ha, Hb.
  assert (a = b ∧ int_of_digits l = int_of_digits k) as [-> HE'] by lia.
  f_equal. apply IH; try done; [by destruct l|by destruct k].
Qed.

Lemma lstrip0_eq p q :
  Forall (λ c, is_digit c = true) p → Forall (λ c, is_digit c = true) q →
  lstrip (u "0") p = lstrip (u "0") q ↔ int_of_digits p = int_of_digits q.
Proof.
  intros Hp Hq. split; intros HE; [by rewrite <-(lstrip0_value p), HE, lstrip0_value|].
  assert (∀ l, Forall (λ c, is_digit c = true) l →
    Forall (λ c, is_digit c = true) (lstrip (u "0") l) ∧ no_lead0 (lstrip (u "0") l)) as Hst.
  { intros l Hl. split.
    - destruct (lstrip_suffix (u "0") l) as [k Hk]. rewrite Hk in Hl. by apply Forall_app in Hl as [_ ?].
    - destruct (lstrip (u "0") l) as [|c k] eqn:E; [done|]. simpl. intros ->.
      apply lstrip_head in E. discriminate E. }
  destruct (Hst p Hp), (Hst q Hq).
  apply int_of_digits_inj; try done. by rewrite !lstrip0_value.
Qed.

Lemma significant_eq p q :
  Forall (λ c, is_digit c = true) p → Forall (λ c, is_digit c = true) q →
  significant p = significant q ↔ int_of_digits p = int_of_digits q.
Proof.
  intros Hp Hq. destruct (significant_spec p Hp) as (Hvp & _ & _).
  destruct (significant_spec q Hq) as (Hvq & _ & _).
  split; [intros HE; by rewrite <-Hvp, <-Hvq, HE|]. intros HE%lstrip0_eq; [|done..].
  unfold significant. by rewrite HE.
Qed.

Lemma remove_dups_one (l : list text) :
  length (remove_dups l) = 1%nat ↔ l ≠ [] ∧ ∀ x y, x ∈ l → y ∈ l → x = y.
Proof.
  pose proof (NoDup_remove_dups l) as Hd. split.
  - intros Hl. destruct (remove_dups l) as [|z [|]] eqn:E; try done.
    assert (∀ x, x ∈ l → x = z) as Hz.
    { intros x Hx. apply elem_of_remove_dups in Hx. rewrite E in Hx. by apply list_elem_of_singleton. }
    split; [by intros ->|]. intros x y Hx%Hz Hy%Hz. congruence.
  - intros [Hne Hall]. destruct l as [|x l]; [done|].
    destruct (remove_dups (x :: l)) as [|a [|b k]] eqn:E; [..|exfalso].
    + assert (x ∈ remove_dups (x :: l)) as Hx by (apply elem_of_remove_dups; left).
      rewrite E in Hx. by apply elem_of_nil in Hx.
    + done.
    + apply NoDup_cons in Hd as [Hd _]. apply Hd. replace a with b; [left|].
      apply Hall; apply elem_of_remove_dups; rewrite E; [right; left|left].
Qed.

Lemma split_nonempty c l : split c l ≠ [].
Proof. destruct l as [|x l]; simpl; [done|]. destruct (x =? c); [done|]. by destruct (split c l). Qed.

Lemma validate_lengths_exact lengths :
  lengths ≠ [] →
  validate_lengths lengths = Ok tt ↔
  ∃ n, Forall (λ p, p ≠ [] ∧ Forall (λ c, is_digit c = true) p ∧ int_of_digits p = n)
         (length_parts lengths).
Proof.
  intros Hne. unfold validate_lengths. cbv zeta.
  assert (length_parts lengths ≠ []) as Hparts.
  { unfold length_parts. destruct lengths as [|v vs]; [done|]. rewrite fmap_cons. cbn [concat].
    pose proof (split_nonempty COMMA v). by destruct (split COMMA v). }
  set (ps := length_parts lengths) in *.
  assert (∀ p : text, bool_decide (p = []) || negb (isascii p) || negb (isdigit p) = false ↔
            p ≠ [] ∧ Forall (λ c, is_digit c = true) p) as Hp.
  { intros p. rewrite <-isdigit_Forall. destruct p as [|c p]; [naive_solver|].
    rewrite bool_decide_false, bool_decide_true by done. cbn [orb andb]. naive_solver. }
  destruct (existsb _ ps) eqn:E.
  - split; [done|]. intros [n Hn]. apply existsb_exists in E as (p & Hin%list_elem_of_In & Hb).
    rewrite Forall_forall in Hn. destruct (Hn p Hin) as (H1 & H2 & _).
    rewrite (proj2 (Hp p)) in Hb by done. done.
  - assert (Forall (λ p, p ≠ [] ∧ Forall (λ c, is_digit c = true) p) ps) as Hok.
    { apply Forall_forall. intros p Hin. apply Hp. apply not_true_iff_false. intros Hb.
      rewrite <-not_true_iff_false, existsb_exists in E. apply E. exists p.
      split; [by apply list_elem_of_In|done]. }
    rewrite Forall_forall in Hok.
    destruct (Nat.eqb_spec (length (remove_dups (significant <$> ps))) 1) as [H1|H1]; cbn [negb].
    + split; [intros _|done]. apply remove_dups_one in H1 as [_ Hall].
      destruct ps as [|p0 ps']; [done|]. exists (int_of_digits p0). apply Forall_forall.
      intros p Hin. destruct (Hok p Hin) as [Hpn Hpd]. split_and!; [done..|].
      apply significant_eq; [done|by apply Hok; left|].
      apply Hall; apply list_elem_of_fmap_2; [done|left].
    + split; [done|]. intros [n Hn]. exfalso. apply H1, remove_dups_one. rewrite Forall_forall in Hn.
      split; [by destruct ps|]. intros x y (p & -> & Hpi)%list_elem_of_fmap (q & -> & Hqi)%list_elem_of_fmap.
      destruct (Hn p Hpi) as (_ & Hpd & Hpv), (Hn q Hqi) as (_ & Hqd & Hqv).
      apply significant_eq; [done..|congruence].
Qed.

Lemma coding_loop_sound vs cs out :
  coding_loop vs cs = Ok out → ∃ names, out = cs ++ names ∧ Forall2 coding_of vs names.
Proof.
  revert cs. induction vs as [|v vs IH]; intros cs; cbn [coding_loop].
  { intros [= <-]. exists []. rewrite app_nil_r. by split; [|constructor]. }
  destruct (_TRANSFER_CODING_RE v) as [m|] eqn:E; [|done]. cbv zeta.
  destruct (bool_decide (lower m = u "chunked") && mem 59 v) eqn:Eb; [done|].
  intros (names & -> & Hf)%IH. exists (lower m :: names). rewrite <-app_assoc. split; [done|].
  constructor; [|done]. exists m. split_and!; [done..|]. intros Hc.
  rewrite bool_decide_true in Eb by done. by apply mem_false.
Qed.

Lemma validate_encodings_sound es :
  validate_encodings es = Ok tt →
  ∃ values codings, parse_http_list (FStr <$> es) = Ok values ∧
    Forall2 coding_of values (codings ++ [u "chunked"]) ∧
    (u "chunked" ∉ codings) ∧ Forall (.∈ _KNOWN_TRANSFER_CODINGS) codings.
Proof.
  unfold validate_encodings. rewrite bind_Ok.
  intros (values & Hv & H). apply (proj1 (as_HTTP1Error_ok _ _)) in Hv.
  rewrite bind_Ok in H. destruct H as (names & (ns & -> & Hf)%coding_loop_sound & H).
  cbn [app] in H.
  destruct (_ || _ || _) eqn:E1; [done|]. destruct (existsb _ ns) eqn:E2; [done|].
  apply orb_false_iff in E1 as [[_ E1]%orb_false_iff E3].
  apply negb_false_iff, bool_decide_eq_true in E1. apply negb_false_iff, Nat.eqb_eq in E3.
  apply last_Some in E1 as [cs ->]. exists values, cs. split_and!; [done|done|..].
  - rewrite filter_app, length_app in E3. intros Hin.
    assert (u "chunked" ∈ filter (λ c, c = u "chunked") cs) as Hin'
      by (by apply list_elem_of_filter).
    rewrite filter_cons, decide_True in E3 by done. simpl in E3.
    destruct (filter _ cs); [by apply elem_of_nil in Hin'|]. simpl in E3. lia.
  - rewrite <-not_true_iff_false, existsb_exists in E2. apply Forall_forall. intros c Hc.
    destruct (decide (c ∈ _KNOWN_TRANSFER_CODINGS)) as [|Hn]; [done|]. exfalso. apply E2.
    exists c. split; [apply list_elem_of_In, elem_of_app; by left|].
    by rewrite bool_decide_false.
Qed.

(** ** Theorems *)

Lemma parse_request_iff data r :
  parse_request data = Ok r ↔
  (∃ body, data = raw_head r ++ body) ∧ zlen (raw_head r) ≤ MAX_HEAD_SIZE ∧
  request_wire r ∧ request_ok r.
Proof.
  split.
  - intros HP. assert (∃ e, find HEAD_END data = Some e) as [e He].
    { unfold parse_request in HP. rewrite bind_Ok in HP. destruct HP as (_ & _ & HP).
      destruct (find HEAD_END data); [by eexists|done]. }
    destruct (find_split _ _ He) as (pre & body & -> & ->).
    apply (parse_request_eq _ _ _ He) in HP
      as (Hsz & Hraw & first & rest & Hln & Hno & Hrl & Hpf & Hhost & Hfr).
    apply parse_request_line_exact in Hrl as (Hm & Hne & Ha & Hsp & Hfirst & HV).
    apply parse_fields_exact in Hpf as (hs & Hf2 & Hhs & _). simpl in Hhs. subst hs.
    destruct (head_lines_split _ _ _ Hln) as (lead & Hlead & ->).
    apply Forall_cons in Hno as [[H13 H10] _]. rewrite Hfirst in H13, H10.
    split_and!; [exists body; by rewrite Hraw, <-app_assoc|by rewrite Hraw| |done].
    split; [done|]. split.
    { split_and!; try done; by eapply request_line_target. }
    exists lead, rest. split_and!; [done..|]. by rewrite Hraw, Hfirst.
  - intros ((body & ->) & Hsz & (Hm & (Hne & Ha & Hsp & H13 & H10) & lead & lines & Hlead & Hf2 & Hraw)
      & (HV & Hhost & Hfr)).
    destruct (request_line_head _ _ Hm H13 H10) as [Hrh Hr10].
    assert (Forall (λ l, head_line l ∧ (10 ∉ l)) lines) as Hln.
    { clear -Hf2. induction Hf2 as [|nv l hs ls Hl Hf2 IH]; constructor; [|done].
      by eapply field_line_head. }
    set (ls := request_line (method r) (path r) :: lines) in *.
    assert (Forall head_line ls) as Hls.
    { constructor; [done|]. eapply Forall_impl; [done|]. by intros l [? _]. }
    set (pre := join CRLF (lead ++ ls)) in *.
    assert (raw_head r = pre ++ HEAD_END) as Hraw' by exact Hraw. rewrite Hraw' in Hsz |- *.
    rewrite <-app_assoc. apply parse_request_eq.
    { unfold find, pre. by rewrite find_head_lead. }
    split_and!; [done|done|]. exists (request_line (method r) (path r)), lines. split_and!; try done.
    + unfold pre. by apply head_lines_join.
    + constructor; [by split; [apply Hrh|]|]. eapply Forall_impl; [done|].
      by intros l [[_ ?] ?].
    + apply parse_request_line_exact. by split_and!.
    + apply parse_fields_exact. by exists (headers r).
Qed.

(** C31: request heads are parsed exactly. [parse_request] accepts [data] with
    result [r] if and only if [data] starts with a head of at most 65536 octets
    whose request line, field lines and terminator are those of [r], the target
    suits the method, exactly one Host field has a valid authority, and the
    framing fields are unambiguous. Only the first terminator ends the head, names
    and their order are kept, and what follows belongs to the content. *)
Theorem parse_request_exact data r :
  parse_request data = Ok r ↔
  (∃ body, data = raw_head r ++ body) ∧ zlen (raw_head r) ≤ MAX_HEAD_SIZE ∧
  request_wire r ∧ request_ok r.
Proof. apply parse_request_iff. Qed.

(** Size limits are exact. A head is refused exactly when it is longer than
    65536 octets, or fills them without a terminator while more is awaited; the
    refusal is a 414 or a 431. *)
Theorem check_head_size_exact data incomplete :
  match check_head_size data incomplete with
  | Ok _ => head_size data ≤ MAX_HEAD_SIZE ∧
      (incomplete = true → find HEAD_END data = None → head_size data < MAX_HEAD_SIZE)
  | Err e => (MAX_HEAD_SIZE < head_size data ∨
              incomplete = true ∧ find HEAD_END data = None ∧ MAX_HEAD_SIZE ≤ head_size data) ∧
      ∃ m s, e = HTTP1Error m s ∧ (s = 414 ∨ s = 431)
  end.
Proof.
  pose proof (check_head_size_ok data incomplete) as HO.
  destruct (check_head_size data incomplete) as [[]|e] eqn:E; [by apply HO|].
  split; [|by eapply check_head_size_err].
  destruct (decide (head_size data ≤ MAX_HEAD_SIZE)) as [H1|]; [right|left; lia].
  destruct (decide (incomplete = true ∧ find HEAD_END data = None)) as [[H2 H3]|H2].
  - split_and!; [done|done|]. destruct (decide (MAX_HEAD_SIZE ≤ head_size data)); [done|].
    assert (Err e = Ok ()) as [=]. apply HO. split; [done|]. intros _ _. lia.
  - assert (Err e = Ok ()) as [=]. apply HO. split; [done|]. intros ? ?. exfalso. by apply H2.
Qed.

Lemma parse_request_err data e :
  parse_request data = Err e → ∃ m s, e = HTTP1Error m s ∧ s ∈ [400; 414; 431; 501; 505].
Proof.
  unfold parse_request. intros [Hc|([] & _ & H)]%bind_Err.
  { apply check_head_size_err in Hc as (m & s & -> & [->| ->]); eexists _, _; split; try done; set_solver. }
  destruct (find HEAD_END data); [|injection H as <-; by apply bad_request_exn].
  cbv zeta in H. destruct (head_lines _) as [|first rest]; [injection H as <-; by apply bad_request_exn|].
  destruct (existsb _ _); [injection H as <-; by apply bad_request_exn|].
  apply bind_Err in H as [H|(mt & _ & H)]; [by eapply parse_request_line_err|].
  apply bind_Err in H as [H|(hf & _ & H)]; [by eapply parse_fields_err|].
  destruct (field_values _ _) as [|h [|]]; try (injection H as <-; by apply bad_request_exn).
  apply bind_Err in H as [H|(a & _ & H)].
  { eapply as_HTTP1Error_err; [|done]. intros x. apply validate_authority_err. }
  apply bind_Err in H as [H|([] & _ & H)]; [by eapply validate_framing_err|done].
Qed.

(** Every refusal is an HTTP response. Whatever the octets, [parse_request]
    returns a request or raises [HTTP1Error] with one of the status codes 400, 414,
    431, 501 and 505. *)
Theorem parse_request_errors data e :
  parse_request data = Err e → ∃ m s, e = HTTP1Error m s ∧ s ∈ [400; 414; 431; 501; 505].
Proof. apply parse_request_err. Qed.

(** C32: framing is unambiguous. Accepted fields never combine Content-Length with
    Transfer-Encoding; Content-Length is accepted exactly when every list element
    of every occurrence is a decimal number and they are all the same number; the
    transfer codings are known ones, the last one is chunked, and no other is. *)
Theorem framing_unambiguous fields :
  let lengths := field_values fields (u "content-length") in
  let encodings := field_values fields (u "transfer-encoding") in
  (_validate_framing fields = Ok tt → lengths = [] ∨ encodings = []) ∧
  (lengths ≠ [] → encodings = [] →
     (_validate_framing fields = Ok tt ↔
      ∃ n, Forall (λ p, p ≠ [] ∧ Forall (λ c, is_digit c = true) p ∧ int_of_digits p = n)
             (length_parts lengths))) ∧
  (encodings ≠ [] → _validate_framing fields = Ok tt →
     ∃ values codings, parse_http_list (FStr <$> encodings) = Ok values ∧
       Forall2 coding_of values (codings ++ [u "chunked"]) ∧
       (u "chunked" ∉ codings) ∧ Forall (.∈ _KNOWN_TRANSFER_CODINGS) codings).
Proof.
  cbv zeta. unfold _validate_framing.
  set (ls := field_values _ (u "content-length")).
  set (es := field_values _ (u "transfer-encoding")). split_and!.
  - destruct (decide (ls = [])), (decide (es = [])); auto. by rewrite !bool_decide_true by done.
  - intros Hl ->. rewrite bool_decide_true, bool_decide_false by tauto. cbn [andb].
    rewrite bind_Ok. rewrite <-validate_lengths_exact by done.
    split; [by intros ([] & H & _)|]. intros H. by exists tt.
  - intros He. rewrite (bool_decide_true (es ≠ [])) by done. rewrite andb_true_r.
    destruct (bool_decide (ls ≠ [])); [done|]. cbn [mbind result_bind].
    apply validate_encodings_sound.
Qed.

(** ** Witnesses *)

(** A request with a Latin-1 field value and content after the head. *)
Example parse_request_sample :
  parse_request (join CRLF [u "GET /a?b HTTP/1.1"; u "Host: example.com"; u "X-A:  " ++ [233; 9]] ++
                 HEAD_END ++ u "tail") =
    Ok (mkRequest (u "GET") (u "/a?b") [(u "Host", u "example.com"); (u "X-A", [233])]
          (join CRLF [u "GET /a?b HTTP/1.1"; u "Host: example.com"; u "X-A:  " ++ [233; 9]] ++
           HEAD_END)).
Proof. vm_compute. reflexivity. Qed.

(** A concrete input for [parse_request_errors]: an HTTP/2.0 request line is a 505. *)
Lemma parse_request_errors_witness :
  ∃ m s, parse_request (u "GET / HTTP/2.0" ++ HEAD_END) = Err (HTTP1Error m s) ∧
    s ∈ [400; 414; 431; 501; 505].
Proof.
  destruct (parse_request_errors (u "GET / HTTP/2.0" ++ HEAD_END)
    (HTTP1Error (u "HTTP version is not supported") 505) ltac:(vm_compute; reflexivity))
    as (m & s & E & Hs).
  exists m, s. split; [|exact Hs]. rewrite <-E. vm_compute. reflexivity.
Defined.

(** Witness of C32: two spellings of the same length are accepted. *)
Lemma framing_unambiguous_witness :
  _validate_framing [(u "content-length", [u "5, 05"; u "005"])] = Ok tt.
Proof.
  refine (proj2 (proj1 (proj2 (framing_unambiguous
    [(u "content-length", [u "5, 05"; u "005"])])) _ _) _); [by_eval|reflexivity|].
  exists 5. by_eval.
Defined.
