(* ===== verification/Validation.v ===== *)
(** * HTTP/2 field validation (src/solvetls/http2/validation.py)

    The rules a decoded field list has to meet before it becomes a request.  The
    last step is [h2.utilities.validate_headers], third-party code: it is the
    parameter [h2_validate] of the definitions, called with the working copy. *)

From S2P Require Import Prelude PyText HttpFields Uri Http1.

Abbreviation field := (bytes * bytes)%type.

(** [raise ProtocolError(message)]; h2 gives it the code PROTOCOL_ERROR. *)
Definition h2_error {A} (message : text) : result A := Err (ProtocolError message 1).

Definition TOKEN (l : bytes) : bool :=
  match l with
  | [] => false
  | _ => forallb (λ c, is_alnum c || mem c (u "!#$%&'*+.^_`|~-")) l
  end.

Definition SCHEME (l : bytes) : bool :=
  match l with [] => false | c :: l => is_alpha c && forallb scheme_char l end.

(** [value and (value[:1] in (b" ", b"\t") or value[-1:] in (b" ", b"\t"))] *)
Definition blank_ends (value : bytes) : bool :=
  match value with
  | [] => false
  | b :: _ => mem b OWS || mem (List.last value 0) OWS
  end.

Fixpoint _validate_raw_fields (headers : list field) (trailers : bool) : result unit :=
  match headers with
  | [] => Ok tt
  | (name, value) :: headers =>
      if existsb (λ b, mem b value) [0; 10; 13] || blank_ends value then
        h2_error (u "Invalid HTTP field value")
      else if negb (startswith (u ":") name) && negb (TOKEN name) then
        h2_error (u "Invalid HTTP field name")
      else if bool_decide (name = u "content-length") &&
              (bool_decide (value = []) || negb (isdigit value) || trailers) then
        h2_error (u "Invalid Content-Length field")
      else _validate_raw_fields headers trailers
  end.

(** [[value for name, value in headers if name == key]] *)
Definition values_of (key : bytes) (headers : list field) : list bytes :=
  (filter (λ f, f.1 = key) headers).*2.

Definition _validate_field_lists (headers : list field) : result unit :=
  let lengths := values_of (u "content-length") headers in
  if existsb (λ v, negb (bool_decide (lstrip (u "0") v = lstrip (u "0") (List.hd [] lengths))))
       lengths then
    h2_error (u "Conflicting Content-Length fields")
  else if (1 <? length (values_of (u "host") headers))%nat then
    h2_error (u "Duplicate Host fields")
  else
    transfer_options ←
      (match parse_http_list (FBytes <$> values_of (u "te") headers) with
       | Ok l => Ok l
       | Err e => if is_ValueError e then h2_error (exn_str e) else Err e
       end);
    if existsb (λ v, negb (bool_decide (lower v = u "trailers"))) transfer_options then
      h2_error (u "Invalid TE field")
    else Ok tt.

(** [except ValueError as error: raise ProtocolError(message) from error] *)
Definition as_h2_error {A} (message : exn → text) (r : result A) : result A :=
  match r with
  | Ok a => Ok a
  | Err e => if is_ValueError e then h2_error (message e) else Err e
  end.

(** The [try] block of [_validate_request_authority]. *)
Definition check_authority (values : list field) (connect : bool) (scheme : bytes)
    : result text :=
  let authority :=
    decode_latin1
      (default (default [] (dict_get (u "host") values)) (dict_get (u ":authority") values)) in
  host ← validate_authority authority connect;
  match dict_get (u ":authority") values, dict_get (u "host") values with
  | Some _, Some h =>
      let scheme_text := decode_latin1 scheme in
      normalized_authority ← normalize_authority authority scheme_text connect;
      normalized_host ← normalize_authority (decode_latin1 h) scheme_text connect;
      if negb (bool_decide (normalized_authority = normalized_host)) then
        h2_error (u "Host and :authority do not match")
      else Ok host
  | _, _ => Ok host
  end.

Definition _validate_request_authority (values : list field) (connect : bool) (scheme : bytes)
    : result unit :=
  host ← as_h2_error exn_str (check_authority values connect scheme);
  if bool_decide (host = []) then h2_error (u "Invalid request authority") else Ok tt.

Definition _validate_request_target (values : list field) : result unit :=
  let method := default [] (dict_get (u ":method") values) in
  if negb (TOKEN method) then h2_error (u "Invalid request method")
  else if bool_decide (u ":protocol" ∈ values.*1) then
    h2_error (u "Extended CONNECT was not enabled")
  else
    let scheme := default [] (dict_get (u ":scheme") values) in
    let connect := bool_decide (method = u "CONNECT") in
    _ ←
      (if negb connect then
         let path := default [] (dict_get (u ":path") values) in
         if negb (SCHEME scheme) then h2_error (u "Invalid request scheme")
         else if (bool_decide (lower_bytes scheme = u "http") ||
                  bool_decide (lower_bytes scheme = u "https")) &&
                 negb (startswith (u "/") path ||
                       (bool_decide (path = u "*") && bool_decide (method = u "OPTIONS"))) then
           h2_error (u "Invalid request path")
         else
           as_h2_error (λ _, u "Invalid request path")
             (p ← decode_ascii path;
              validate_path_query (partition_ 63 p).1.1 (partition_ 63 p).2)
       else if bool_decide (default [] (dict_get (u ":authority") values) = []) then
         h2_error (u "CONNECT requires an authority")
       else Ok tt);
    _validate_request_authority values connect scheme.

Definition _headers_for_h2 (headers values : list field) (trailers : bool) : list field :=
  (λ f : field,
     if bool_decide (f.1 = u "te") then (f.1, u "trailers")
     else
       match dict_get (u ":authority") values with
       | Some a =>
           if bool_decide (f.1 = u "host") && negb trailers then (f.1, a) else f
       | None => f
       end) <$> headers.

Definition validate_fields (h2_validate : list field → bool → result unit)
    (headers : list field) (trailers : bool) : result unit :=
  let values := dict_of headers in
  _ ← _validate_raw_fields headers trailers;
  _ ← _validate_field_lists headers;
  _ ← (if trailers then Ok tt else _validate_request_target values);
  h2_validate (_headers_for_h2 headers values trailers) trailers.

(** ** The rules *)

(** RFC 9113 8.2.1 and RFC 9110 5.5, 8.6 for one field line. *)
Definition raw_field_ok (trailers : bool) (f : field) : Prop :=
  (0 ∉ f.2) ∧ (10 ∉ f.2) ∧ (13 ∉ f.2) ∧ strip OWS f.2 = f.2 ∧
  (TOKEN f.1 = true ∨ ∃ n, f.1 = 58 :: n) ∧
  (f.1 = u "content-length" → f.2 ≠ [] ∧ Forall (λ c, is_digit c = true) f.2 ∧ trailers = false).

(** The rules on repeated fields. *)
Definition field_lists_ok (headers : list field) : Prop :=
  (∀ v w, v ∈ values_of (u "content-length") headers →
     w ∈ values_of (u "content-length") headers → int_of_digits v = int_of_digits w) ∧
  (length (values_of (u "host") headers) ≤ 1)%nat ∧
  ∃ options, parse_http_list (FBytes <$> values_of (u "te") headers) = Ok options ∧
    Forall (λ v, lower v = u "trailers") options.

(** The rules on the request pseudo-fields; [values] is the field dictionary. *)
Definition target_ok (values : list field) : Prop :=
  let get k := default [] (dict_get (u k) values) in
  TOKEN (get ":method") = true ∧ (u ":protocol" ∉ values.*1) ∧
  (get ":method" ≠ u "CONNECT" →
     SCHEME (get ":scheme") = true ∧ isascii (get ":path") = true ∧
     validate_path_query (partition_ 63 (get ":path")).1.1 (partition_ 63 (get ":path")).2 = Ok tt ∧
     (lower_bytes (get ":scheme") = u "http" ∨ lower_bytes (get ":scheme") = u "https" →
        (∃ p, get ":path" = 47 :: p) ∨ get ":path" = u "*" ∧ get ":method" = u "OPTIONS")) ∧
  (get ":method" = u "CONNECT" → get ":authority" ≠ []).

(** The authority of the request, and Host beside it. *)
Definition authority_ok (values : list field) : Prop :=
  let get k := default [] (dict_get (u k) values) in
  let connect := bool_decide (get ":method" = u "CONNECT") in
  let authority := default (get "host") (dict_get (u ":authority") values) in
  (∃ host, validate_authority authority connect = Ok host ∧ host ≠ []) ∧
  (∀ h, dict_get (u "host") values = Some h → dict_get (u ":authority") values ≠ None →
     ∃ n, normalize_authority authority (get ":scheme") connect = Ok n ∧
          normalize_authority h (get ":scheme") connect = Ok n).

(** ** What is accepted *)

Lemma blank_ends_spec l : blank_ends l = false ↔ strip OWS l = l.
Proof.
  assert (blank_ends l = false ↔ lstrip OWS l = l ∧ rstrip OWS l = l) as ->.
  - destruct l as [|b l]; [by compute|]. unfold blank_ends, rstrip.
    rewrite lstrip_id, orb_false_iff. apply and_iff_compat_l.
    destruct (exists_last (l := b :: l)) as (k & x & ->); [done|].
    rewrite last_last, rev_app_distr. change (rev [x] ++ rev k) with (x :: rev k).
    pose proof (lstrip_id OWS (x :: rev k)) as Hi. cbn iota in Hi.
    rewrite <-Hi. split; intros H.
    + rewrite H. simpl. by rewrite rev_involutive.
    + rewrite <-(rev_involutive (lstrip OWS _)), H, rev_app_distr. done.
  - split; [|apply strip_id]. intros [Hl Hr]. unfold strip. by rewrite Hl.
Qed.

Lemma digits_Forall l : forallb is_digit l = true ↔ Forall (λ c, is_digit c = true) l.
Proof. rewrite forallb_forall, Forall_forall. by setoid_rewrite <-list_elem_of_In. Qed.

Lemma raw_fields_exact trailers hs :
  _validate_raw_fields hs trailers = Ok tt ↔ Forall (raw_field_ok trailers) hs.
Proof.
  induction hs as [|[n v] hs IH]; [by split; [constructor|]|].
  rewrite Forall_cons. cbn [_validate_raw_fields]. rewrite <-IH. clear IH.
  unfold raw_field_ok at 1. cbn [fst snd].
  rewrite <-blank_ends_spec, <-digits_Forall, <-!mem_false. cbn [existsb].
  change (∃ k, n = 58 :: k) with (∃ k, n = u ":" ++ k). rewrite <-startswith_app.
  destruct (mem 0 v); [split; [done|naive_solver]|].
  destruct (mem 10 v); [split; [done|naive_solver]|].
  destruct (mem 13 v); [split; [done|naive_solver]|].
  destruct (blank_ends v); [split; [done|naive_solver]|]. cbn [orb].
  destruct (startswith (u ":") n), (TOKEN n); cbn [negb andb]; try (split; [done|naive_solver]).
  all: destruct (decide (n = u "content-length")) as [E|E];
    [rewrite (bool_decide_true _ E)|rewrite (bool_decide_false _ E)]; cbn [andb];
    [|naive_solver].
  all: destruct v as [|c v]; [rewrite bool_decide_true by done; split; [done|naive_solver]|].
  all: rewrite (bool_decide_false (c :: v = [])) by done; cbn [orb].
  all: change (isdigit (c :: v)) with (forallb is_digit (c :: v)); destruct (forallb is_digit (c :: v)), trailers; cbn [negb orb]; naive_solver.
Qed.

Lemma existsb_false {A} (f : A → bool) l : existsb f l = false ↔ ∀ x, x ∈ l → f x = false.
Proof.
  rewrite <-not_true_iff_false, existsb_exists. split.
  - intros H x Hx. destruct (f x) eqn:E; [|done]. destruct H. exists x. by rewrite <-list_elem_of_In.
  - intros H (x & Hx%list_elem_of_In & Hf). rewrite (H x Hx) in Hf. done.
Qed.

Lemma neq_negb {A} `{EqDecision A} (x y : A) : negb (bool_decide (x = y)) = false ↔ x = y.
Proof. destruct (decide (x = y)) as [E|E];
  [rewrite (bool_decide_true _ E)|rewrite (bool_decide_false _ E)]; naive_solver. Qed.

(** Lengths compared without their leading zeros are compared as numbers. *)
Lemma same_lengths ls :
  Forall (Forall (λ c, is_digit c = true)) ls →
  existsb (λ v, negb (bool_decide (lstrip (u "0") v = lstrip (u "0") (List.hd [] ls)))) ls = false ↔
  ∀ v w, v ∈ ls → w ∈ ls → int_of_digits v = int_of_digits w.
Proof.
  intros Hls. rewrite existsb_false. setoid_rewrite neq_negb. rewrite Forall_forall in Hls.
  destruct ls as [|x ls]; [by split; [set_solver|intros _ ? ?%not_elem_of_nil]|]. cbn [List.hd].
  assert (x ∈ x :: ls) as Hx by left. split.
  - intros H v w Hv Hw. apply lstrip0_eq; [by apply Hls..|]. by rewrite (H v Hv), (H w Hw).
  - intros H v Hv. apply lstrip0_eq; [by apply Hls..|]. by apply H.
Qed.

Lemma values_of_elem k hs v : v ∈ values_of k hs ↔ (k, v) ∈ hs.
Proof.
  unfold values_of. rewrite list_elem_of_fmap. setoid_rewrite list_elem_of_filter. split.
  - intros ([n w] & -> & <- & H). done.
  - intros H. by exists (k, v).
Qed.

Lemma field_lists_exact trailers hs :
  Forall (raw_field_ok trailers) hs →
  _validate_field_lists hs = Ok tt ↔ field_lists_ok hs.
Proof.
  intros Hraw. unfold _validate_field_lists, field_lists_ok.
  assert (Forall (Forall (λ c, is_digit c = true)) (values_of (u "content-length") hs)) as Hd.
  { apply Forall_forall. intros v Hv%values_of_elem. rewrite Forall_forall in Hraw.
    apply (Hraw _ Hv). done. }
  pose proof (same_lengths _ Hd) as Hs. destruct (existsb _ (values_of (u "content-length") hs)).
  { split; [done|]. intros [H _]. apply Hs in H. done. }
  destruct (1 <? _)%nat eqn:E1.
  { apply Nat.ltb_lt in E1. split; [done|]. intros (_ & H & _). lia. }
  apply Nat.ltb_ge in E1.
  destruct (parse_http_list _) as [l|e]; cbn [mbind result_bind].
  - pose proof (existsb_false (λ v, negb (bool_decide (lower v = u "trailers"))) l) as Hl.
    setoid_rewrite neq_negb in Hl. rewrite <-Forall_forall in Hl.
    destruct (existsb _ l).
    + split; [done|]. intros (_ & _ & o & [= <-] & Ho). apply Hl in Ho. done.
    + split; [|done]. intros _. split_and!; [by apply Hs|done|]. exists l. split; [done|]. by apply Hl.
  - split; [|naive_solver]. by destruct (is_ValueError e).
Qed.

Lemma as_h2_error_ok {A} f (r : result A) a : as_h2_error f r = Ok a ↔ r = Ok a.
Proof. destruct r as [x|e]; [done|]. cbn. by destruct (is_ValueError e). Qed.

Lemma if_err_Ok {A} (b : bool) m (r : result A) a :
  (if b then h2_error m else r) = Ok a ↔ b = false ∧ r = Ok a.
Proof. destruct b; naive_solver. Qed.

#[local] Opaque validate_authority normalize_authority validate_path_query.

Lemma authority_exact values :
  let get k := default [] (dict_get (u k) values) in
  _validate_request_authority values (bool_decide (get ":method" = u "CONNECT")) (get ":scheme")
    = Ok tt ↔ authority_ok values.
Proof.
  intros get. unfold _validate_request_authority, authority_ok. fold (get ":method").
  fold (get ":scheme") (get "host"). set (connect := bool_decide _).
  rewrite bind_Ok. setoid_rewrite as_h2_error_ok. setoid_rewrite if_err_Ok.
  unfold check_authority, decode_latin1. fold (get "host").
  set (authority := default (get "host") _). setoid_rewrite bind_Ok.
  assert (∀ l : text, bool_decide (l = []) = false ↔ l ≠ []) as Hne.
  { intros l. apply bool_decide_eq_false. }
  split.
  - intros (host & (host' & Hv & Hc) & Hb & _). apply Hne in Hb.
    assert (host' = host) as ->.
    { destruct (dict_get (u ":authority") values), (dict_get (u "host") values); try congruence.
      repeat (apply bind_Ok in Hc as (? & _ & Hc)). apply if_err_Ok in Hc as [_ Hc]. congruence. }
    split; [by exists host|]. intros h Hh Ha. rewrite Hh in Hc.
    destruct (dict_get (u ":authority") values); [|done].
    apply bind_Ok in Hc as (na & Hna & Hc). apply bind_Ok in Hc as (nh & Hnh & Hc).
    apply if_err_Ok in Hc as [->%neq_negb _]. by exists nh.
  - intros [(host & Hv & Hb) Hc]. exists host. split; [|by rewrite Hne].
    exists host. split; [done|].
    destruct (dict_get (u ":authority") values), (dict_get (u "host") values) as [h|]; try done.
    destruct (Hc h eq_refl ltac:(done)) as (n & Hna & Hnh).
    rewrite Hna. cbn. rewrite Hnh. cbn. by rewrite bool_decide_true.
Qed.

Lemma target_exact values :
  _validate_request_target values = Ok tt ↔ target_ok values ∧ authority_ok values.
Proof.
  rewrite <-authority_exact. cbn zeta. unfold _validate_request_target, target_ok.
  rewrite !if_err_Ok, negb_false_iff, bool_decide_eq_false, bind_unit_Ok.
  set (method := default [] (dict_get (u ":method") values)).
  set (scheme := default [] (dict_get (u ":scheme") values)).
  set (path := default [] (dict_get (u ":path") values)).
  assert (startswith (u "/") path = true ↔ ∃ p, path = 47 :: p) as Hslash
    by apply startswith_app.
  destruct (decide (method = u "CONNECT")) as [E|E];
    [rewrite !(bool_decide_true _ E)|rewrite !(bool_decide_false _ E)]; cbn [negb].
  - rewrite if_err_Ok, bool_decide_eq_false. naive_solver.
  - rewrite !if_err_Ok, as_h2_error_ok, bind_Ok. rewrite negb_false_iff, andb_false_iff, orb_false_iff, negb_false_iff.
    rewrite orb_true_iff, andb_true_iff, Hslash, !bool_decide_eq_true, !bool_decide_eq_false.
    unfold decode_ascii. destruct (isascii path).
    + split.
      * intros (H1 & H2 & (H3 & H4 & p & [= <-] & H5) & H6).
        split_and!; try done. intros _. split_and!; try done. tauto.
      * intros ((H1 & H2 & H3 & _) & H6). destruct (H3 E) as (H7 & _ & H8 & H9).
        split_and!; try done.
        -- destruct (decide (lower_bytes scheme = u "http")), (decide (lower_bytes scheme = u "https"));
             tauto.
        -- by exists path.
    + split; [intros (_ & _ & (_ & _ & p & [=] & _) & _)|].
      intros ((_ & _ & H & _) & _). by destruct (H E) as (_ & [=] & _).
Qed.


#[local] Transparent validate_authority normalize_authority validate_path_query.

#[local] Arguments validate_authority : simpl never.

Lemma normalize_authority_err a s c e :
  normalize_authority a s c = Err e → is_ValueError e = true.
Proof.
  unfold normalize_authority. intros [H|(h & _ & H)]%bind_Err; [by eapply validate_authority_err|].
  destruct (if startswith _ a then _ else _). discriminate H.
Qed.

(** [e] is an [h2.exceptions.ProtocolError]. *)
Definition is_protocol_error (e : exn) : Prop := ∃ m c, e = ProtocolError m c.

Lemma h2_error_err {A} m e : @h2_error A m = Err e → is_protocol_error e.
Proof. intros [= <-]. by eexists _, _. Qed.

Lemma as_h2_error_err {A} f (r : result A) e :
  (∀ e, r = Err e → is_ValueError e = true ∨ is_protocol_error e) →
  as_h2_error f r = Err e → is_protocol_error e.
Proof.
  intros Hr H. destruct r as [a|x]; [done|]. cbn in H. destruct (is_ValueError x) eqn:E.
  - by apply h2_error_err in H.
  - injection H as <-. destruct (Hr x eq_refl); [congruence|done].
Qed.

Lemma check_authority_err vs c s e :
  check_authority vs c s = Err e → is_ValueError e = true ∨ is_protocol_error e.
Proof.
  unfold check_authority.
  intros [H|(h & _ & H)]%bind_Err; [left; by eapply validate_authority_err|].
  destruct (dict_get (u ":authority") vs), (dict_get (u "host") vs); try done.
  apply bind_Err in H as [H|(na & _ & H)]; [left; by eapply normalize_authority_err|].
  apply bind_Err in H as [H|(nh & _ & H)]; [left; by eapply normalize_authority_err|].
  destruct (negb _); [right; by apply h2_error_err in H|done].
Qed.

Lemma raw_fields_err hs t e : _validate_raw_fields hs t = Err e → is_protocol_error e.
Proof.
  induction hs as [|[n v] hs IH]; [done|]. cbn [_validate_raw_fields].
  destruct (_ || _); [apply h2_error_err|].
  destruct (negb _ && _); [apply h2_error_err|].
  destruct (_ && _); [apply h2_error_err|done].
Qed.

Lemma field_lists_err hs e : _validate_field_lists hs = Err e → is_protocol_error e.
Proof.
  unfold _validate_field_lists.
  destruct (existsb _ _); [apply h2_error_err|]. destruct (_ <? _)%nat; [apply h2_error_err|].
  intros [H|(l & _ & H)]%bind_Err; [|destruct (existsb _ l); [by apply h2_error_err in H|done]].
  change (as_h2_error exn_str (parse_http_list (FBytes <$> values_of (u "te") hs)) = Err e) in H.
  eapply as_h2_error_err; [|done]. intros. left. by eapply parse_http_list_err.
Qed.

Lemma target_err vs e : _validate_request_target vs = Err e → is_protocol_error e.
Proof.
  unfold _validate_request_target.
  destruct (negb (TOKEN _)); [apply h2_error_err|].
  destruct (bool_decide (_ ∈ _)); [apply h2_error_err|].
  intros [H|(? & _ & H)]%bind_Err.
  - destruct (negb (bool_decide _)).
    + destruct (negb (SCHEME _)); [by apply h2_error_err in H|].
      destruct (_ && negb _); [by apply h2_error_err in H|].
      eapply as_h2_error_err; [|done]. intros x [Hx|(p & _ & Hx)]%bind_Err; left.
      * unfold decode_ascii in Hx. destruct (isascii _); [done|]. by injection Hx as <-.
      * by eapply validate_path_query_err.
    + destruct (bool_decide _); [by apply h2_error_err in H|done].
  - apply bind_Err in H as [H|(h & _ & H)].
    + eapply as_h2_error_err; [|done]. intros ?. apply check_authority_err.
    + destruct (bool_decide _); [by apply h2_error_err in H|done].
Qed.

Lemma validate_fields_ok h2_validate hs trailers :
  validate_fields h2_validate hs trailers = Ok tt ↔
  Forall (raw_field_ok trailers) hs ∧ field_lists_ok hs ∧
  (trailers = false → target_ok (dict_of hs) ∧ authority_ok (dict_of hs)) ∧
  h2_validate (_headers_for_h2 hs (dict_of hs) trailers) trailers = Ok tt.
Proof.
  unfold validate_fields. rewrite !bind_unit_Ok, raw_fields_exact.
  assert ((if trailers then Ok tt else _validate_request_target (dict_of hs)) = Ok tt ↔
    (trailers = false → target_ok (dict_of hs) ∧ authority_ok (dict_of hs))) as ->.
  { destruct trailers; [done|]. rewrite target_exact. naive_solver. }
  split; intros (H1 & H2 & H3); (split_and!; [done| |apply H3..]); by eapply field_lists_exact.
Qed.

(** C33: the field checks accept exactly the lists that meet the stated rules: every
    line's name and value are well formed ([raw_field_ok]), Content-Length fields
    name one number, Host occurs at most once, TE asks for trailers only
    ([field_lists_ok]); a request (not a trailer section) also has a valid
    method, scheme, path or CONNECT target and an authority that Host, if
    present, names too ([target_ok], [authority_ok]); and h2 accepts the working
    copy. *)
Theorem validate_fields_exact h2_validate hs trailers :
  validate_fields h2_validate hs trailers = Ok tt ↔
  Forall (raw_field_ok trailers) hs ∧ field_lists_ok hs ∧
  (trailers = false → target_ok (dict_of hs) ∧ authority_ok (dict_of hs)) ∧
  h2_validate (_headers_for_h2 hs (dict_of hs) trailers) trailers = Ok tt.
Proof. apply validate_fields_ok. Qed.

(** The last field of a name gives the dictionary's value; a name that occurs
    once gives its only one. *)
Lemma dict_of_once k hs v :
  (length (values_of k hs) ≤ 1)%nat → (k, v) ∈ hs → dict_get k (dict_of hs) = Some v.
Proof.
  intros Hlen Hv. rewrite dict_get_of. unfold values_of in Hlen. rewrite length_fmap in Hlen.
  assert ((k, v) ∈ filter (λ f : field, f.1 = k) hs) as Hf by (by apply list_elem_of_filter).
  destruct (filter _ hs) as [|x [|y l]]; [by apply not_elem_of_nil in Hf| |simpl in Hlen; lia].
  apply list_elem_of_singleton in Hf as <-. done.
Qed.

(** The working copy that h2 sees is the field list itself with two kinds of
    value replaced by an equivalent one: same names in the same order, a TE value by
    [trailers], and a Host value by an authority with the same normal form.  So
    h2's checks of order, duplicates and names are checks of the fields received,
    and h2 sees Host and :authority agree exactly when they denote one server. *)
Theorem working_copy_equivalent h2_validate hs trailers :
  validate_fields h2_validate hs trailers = Ok tt →
  Forall2 (λ f g : field, f.1 = g.1 ∧
    (f.2 = g.2 ∨ (f.1 = u "te" ∧ g.2 = u "trailers") ∨
     (f.1 = u "host" ∧ dict_get (u ":authority") (dict_of hs) = Some g.2 ∧
      ∃ n, let get k := default [] (dict_get (u k) (dict_of hs)) in
        let norm a := normalize_authority a (get ":scheme")
                        (bool_decide (get ":method" = u "CONNECT")) in
        norm f.2 = Ok n ∧ norm g.2 = Ok n)))
    hs (_headers_for_h2 hs (dict_of hs) trailers).
Proof.
  intros (_ & (_ & Hhost & _) & Hreq & _)%validate_fields_ok. unfold _headers_for_h2.
  apply Forall2_fmap_r, Forall_Forall2_diag, Forall_forall. intros [n v] Hin.
  cbn [fst snd compose].
  destruct (decide (n = u "te")) as [->|Hte].
  { rewrite bool_decide_true by done. split; [done|]. right; left. done. }
  rewrite bool_decide_false by done.
  destruct (dict_get (u ":authority") (dict_of hs)) as [a|] eqn:Ea; [|split; [done|by left]].
  destruct (decide (n = u "host")) as [->|Hn]; [|rewrite bool_decide_false by done; split; [done|by left]].
  rewrite bool_decide_true by done.
  destruct trailers; [split; [done|by left]|]. cbn [negb andb fst snd]. split; [done|]. right; right.
  split_and!; [done..|]. destruct (Hreq eq_refl) as [_ [_ Hau]].
  pose proof (dict_of_once _ _ _ Hhost Hin) as Hv.
  rewrite Ea in Hau. destruct (Hau v Hv ltac:(done)) as (m & H1 & H2). exists m. split; [apply H2|apply H1].
Qed.

Lemma validate_fields_err h2_validate hs trailers e :
  validate_fields h2_validate hs trailers = Err e →
  is_protocol_error e ∨ ∃ l, h2_validate l trailers = Err e.
Proof.
  unfold validate_fields.
  intros [H|(? & _ & H)]%bind_Err; [left; by eapply raw_fields_err|].
  apply bind_Err in H as [H|(? & _ & H)]; [left; by eapply field_lists_err|].
  apply bind_Err in H as [H|(? & _ & H)]; [|right; by eexists].
  destruct trailers; [done|left; by eapply target_err].
Qed.

(** When h2 raises nothing but [ProtocolError], so does the whole check: no
    [ValueError] of the list or URI parsers escapes to the connection. *)
Theorem validate_fields_errors h2_validate hs trailers e :
  (∀ l t e, h2_validate l t = Err e → is_protocol_error e) →
  validate_fields h2_validate hs trailers = Err e → is_protocol_error e.
Proof. intros Hh2 [H|[l H]]%validate_fields_err; [done|by eapply Hh2]. Qed.

(** ** Witnesses *)

Definition sample_fields : list field :=
  [(u ":method", u "GET"); (u ":scheme", u "https"); (u ":authority", u "example.com:443");
   (u ":path", u "/a?b"); (u "host", u "Example.com"); (u "te", u "Trailers, trailers")].

(** A validator that refuses upper-case names and every TE value but [trailers]. *)
Definition sample_validate (hs : list field) (trailers : bool) : result unit :=
  if forallb (λ f : field, bool_decide (lower_bytes f.1 = f.1) &&
       (negb (bool_decide (f.1 = u "te")) || bool_decide (f.2 = u "trailers"))) hs
  then Ok tt else Err (ProtocolError (u "refused") 1).

(** A concrete input for [working_copy_equivalent] *)
Lemma working_copy_equivalent_witness :
  ∃ n, normalize_authority (u "Example.com") (u "https") false = Ok n ∧
       normalize_authority (u "example.com:443") (u "https") false = Ok n.
Proof.
  pose proof (working_copy_equivalent sample_validate sample_fields false ltac:(by vm_compute)) as H.
  assert (sample_fields !! 4%nat = Some (u "host", u "Example.com")) as H1 by reflexivity.
  assert (_headers_for_h2 sample_fields (dict_of sample_fields) false !! 4%nat =
    Some (u "host", u "example.com:443")) as H2 by (vm_compute; reflexivity).
  destruct (Forall2_lookup_lr _ _ _ _ _ _ H H1 H2) as [_ Hx]; clear H H1 H2. cbn [fst snd] in Hx.
  destruct Hx as [Hx|[[Hx _]|(_ & _ & n & Hn)]]; [discriminate Hx|discriminate Hx|].
  exists n. exact Hn.
Defined.

(** A concrete input for [validate_fields_errors] *)
Lemma validate_fields_errors_witness :
  is_protocol_error (ProtocolError (u "Host and :authority do not match") 1).
Proof.
  apply (validate_fields_errors sample_validate
           (sample_fields ++ [(u ":authority", u "example.org")]) false).
  - intros l t e. unfold sample_validate. destruct (forallb _ _); [done|]. intros [= <-].
    by eexists _, _.
  - vm_compute. reflexivity.
Defined.
