(* ===== verification/Adapter.v ===== *)
(** * The h2 adapter (src/solvetls/http2/adapter.py)

    What the program adds to h2 and hpack: a decoder that classifies failures,
    bounds the octets it decodes over a connection and keeps the original header
    list beside the one h2 works on; an encoder that coalesces table size updates;
    and a connection that replays SETTINGS entries in wire order.

    h2 and hpack are third-party code.  The classes [HpackDecoder], [HpackEncoder]
    and [H2Connection] hold the methods and attributes the program uses; nothing
    is assumed of them here beyond their types.  With the connection goes the event
    loop's [sleep(0)], where a task that applies settings may be cancelled. *)

From S2P Require Import Prelude PyText Naming Frames HttpFields.

Abbreviation field := (bytes * bytes)%type.

Definition MAX_REQUEST_BODY : Z := 1048576.
Definition MAX_HEADER_LIST_SIZE : Z := 65536.
Definition MAX_DECODED_HEADER_BYTES : Z := 1048576.
Definition SETTINGS_BATCH_SIZE : Z := 128.
Definition MAX_HEADER_TABLE_SIZE_CHANGES : Z := 128.

(** [SettingCodes.HEADER_TABLE_SIZE] and [ErrorCodes.COMPRESSION_ERROR] of h2 have
    the values of the registries, which frames.py lists too. *)
Definition SC_HEADER_TABLE_SIZE : Z :=
  Eval compute in member SettingsIdentifier "HEADER_TABLE_SIZE".
Definition EC_COMPRESSION_ERROR : Z := Eval compute in member ErrorCode "COMPRESSION_ERROR".

(** ** The third-party interfaces *)

(** [hpack.Decoder]: the state is the dynamic table. *)
Class HpackDecoder (D : Type) := {
  super_decode : bytes → bool → M D (list field);
}.

(** [hpack.Encoder]: its queue of table size changes and its [encode]. *)
Class HpackEncoder (E : Type) := {
  table_size_changes : E → list Z;
  set_table_size_changes : list Z → E → E;
  super_encode : list field → bool → M E bytes;
}.

(** The events the session tells apart. [headers] of the first two is what h2
    passes on; the adapter replaces it. *)
Inductive event :=
  | RequestReceived (stream_id : Z) (headers : option (list field)) (stream_ended : bool)
  | TrailersReceived (stream_id : Z) (headers : option (list field))
  | DataReceived (stream_id : Z) (data : bytes) (flow_controlled_length : Z)
  | StreamEnded (stream_id : Z)
  | StreamReset (stream_id : Z)
  | OtherEvent.

(** [h2.connection.H2Connection] with its stream state, windows, settings and its
    output buffer; [data_to_send] empties the buffer.  [sleep] is [asyncio.sleep(0)]: it
    gives the other tasks a turn, who do not use the connection, and it may raise. *)
Class H2Connection (C : Type) := {
  SettingCodes : C → list Z;
  initiate_connection : M C unit;
  super_receive_data : bytes → M C (list event);
  data_to_send : M C bytes;
  close_connection : Z → option Z → M C unit;
  send_headers : Z → list field → bool → M C unit;
  send_data : Z → bytes → bool → M C unit;
  reset_stream : Z → Z → M C unit;
  acknowledge_received_data : Z → Z → M C unit;
  local_flow_control_window : Z → M C Z;
  max_outbound_frame_size : C → Z;
  max_inbound_frame_size : C → Z;
  highest_inbound_stream_id : C → Z;
  highest_outbound_stream_id : C → Z;
  open_inbound_streams : C → Z;
  stream_closed : Z → C → option bool;
  local_max_concurrent_streams : C → Z;
  remote_header_table_size : C → Z;
  decoder_original_headers : C → option (list field);
  set_local_settings : list (Z * Z) → C → C;
  set_max_inbound_frame_size : Z → C → C;
  sleep : M C unit;
}.

(** ** [bounded_content_length]: for a value of decimal digits *)

Definition bounded_content_length (value : bytes) : Z :=
  let significant := match lstrip (u "0") value with [] => u "0" | s => s end in
  if zlen significant >? zlen (str_int MAX_REQUEST_BODY) then MAX_REQUEST_BODY + 1
  else Z.min (int_of_digits significant) (MAX_REQUEST_BODY + 1).

(** ** The request decoder *)

Section decoder.
Context {D : Type} `{HpackDecoder D}.

Record _RequestDecoder := mkRequestDecoder {
  rd_super : D;
  original_headers : option (list field);
  decoded_bytes : Z;
}.

(** [_RequestDecoder()] around a new [hpack.Decoder]. *)
Definition new_request_decoder (d : D) : _RequestDecoder := mkRequestDecoder d None 0.

(** [sum(len(name) + len(value) + 32 for name, value in headers)] *)
Definition header_list_size (headers : list field) : Z :=
  foldr (λ f n, zlen f.1 + zlen f.2 + 32 + n) 0 headers.

Definition working_header (header : field) : field :=
  let '(name, value) := header in
  if bool_decide (name = u "content-length") && isdigit value then
    (name, str_int (bounded_content_length value))
  else header.

Definition set_decoder (d : D) (r : _RequestDecoder) : _RequestDecoder :=
  mkRequestDecoder d (original_headers r) (decoded_bytes r).

Definition decode (data : bytes) (raw : bool) : M _RequestDecoder (list field) := λ r,
  match super_decode data raw (rd_super r) with
  | (Err (OversizedHeaderListError m), d) => (Err (OversizedHeaderListError m), set_decoder d r)
  | (Err e, d) =>
      (Err (if is_HPACKError e then
              ProtocolError (u "Error decoding header block: " ++ exn_str e) EC_COMPRESSION_ERROR
            else e), set_decoder d r)
  | (Ok headers, d) =>
      let decoded := decoded_bytes r + header_list_size headers in
      if decoded >? MAX_DECODED_HEADER_BYTES then
        (Err (OversizedHeaderListError (u "HTTP/2 decoded header budget exceeded")),
         mkRequestDecoder d (original_headers r) decoded)
      else
        (Ok (if raw then working_header <$> headers else headers),
         mkRequestDecoder d (Some headers) decoded)
  end.

End decoder.
Arguments _RequestDecoder : clear implicits.

(** ** The response encoder *)

Section encoder.
Context {E : Type} `{HpackEncoder E}.

(** [[smallest] if smallest == final else [smallest, final]] *)
Definition coalesce (changes : list Z) : list Z :=
  match changes with
  | [] => []
  | c :: cs =>
      let smallest := foldl Z.min c cs in
      let final := List.last changes c in
      if smallest =? final then [smallest] else [smallest; final]
  end.

Definition encode (headers : list field) (huffman : bool) : M E bytes := λ e,
  match table_size_changes e with
  | [] => super_encode headers huffman e
  | changes => super_encode headers huffman (set_table_size_changes (coalesce changes) e)
  end.

End encoder.

(** ** The connection *)

Section adapter.
Context {C : Type} `{H2Connection C}.

Record H2Adapter := mkH2Adapter {
  conn : C;
  _header_table_size_changes : Z;
}.

(** [super().method(...)]: run a method of h2 on the adapter. *)
Definition on_conn {A} (m : M C A) : M H2Adapter A := λ a,
  let '(r, c) := m (conn a) in (r, mkH2Adapter c (_header_table_size_changes a)).

Definition add_table_changes (n : Z) (a : H2Adapter) : H2Adapter :=
  mkH2Adapter (conn a) (_header_table_size_changes a + n).

(** [event.headers = self.decoder.original_headers] *)
Definition set_headers (original : option (list field)) (e : event) : event :=
  match e with
  | RequestReceived sid _ ended => RequestReceived sid original ended
  | TrailersReceived sid _ => TrailersReceived sid original
  | e => e
  end.

Definition receive_data (data : bytes) : M H2Adapter (list event) :=
  events ← on_conn (super_receive_data data);
  original ← gets (λ a, decoder_original_headers (conn a));
  mret (set_headers original <$> events).

(** [SUPPORTED_SETTINGS]: the members of h2's [SettingCodes]. *)
Definition SUPPORTED_SETTINGS (a : H2Adapter) : list Z := SettingCodes (conn a).

(** The first loop of [apply_settings]: the entries to apply and the number of
    changes of the table size. *)
Fixpoint working_settings (supported : list Z) (entries : list (Z * Z)) (table_size table_changes : Z)
    : list (Z * Z) * Z :=
  match entries with
  | [] => ([], table_changes)
  | (identifier, value) :: entries =>
      if negb (mem identifier supported) then
        working_settings supported entries table_size table_changes
      else if identifier =? SC_HEADER_TABLE_SIZE then
        if value =? table_size then working_settings supported entries table_size table_changes
        else
          let '(working, n) := working_settings supported entries value (table_changes + 1) in
          ((identifier, value) :: working, n)
      else
        let '(working, n) := working_settings supported entries table_size table_changes in
        ((identifier, value) :: working, n)
  end.

(** The replay loop, at the entry [index]. *)
Fixpoint replay_settings (index : Z) (working : list (Z * Z)) : M H2Adapter unit :=
  match working with
  | [] => mret tt
  | (identifier, value) :: rest =>
      wire ← lift (build_settings_frame (Some [(identifier, value)]) false);
      _ ← receive_data wire;
      match rest with
      | [] => mret tt
      | _ =>
          acknowledgment ← on_conn data_to_send;
          ack ← lift (build_settings_frame None true);
          if negb (bool_decide (acknowledgment = ack)) then
            raise (RuntimeError (u "Unexpected response while applying SETTINGS"))
          else
            _ ← (if (index + 1) mod SETTINGS_BATCH_SIZE =? 0 then on_conn sleep else mret tt);
            replay_settings (index + 1) rest
      end
  end.

Definition apply_settings (entries : list (Z * Z)) : M H2Adapter unit :=
  table_size ← gets (λ a, remote_header_table_size (conn a));
  supported ← gets SUPPORTED_SETTINGS;
  let '(working, table_changes) := working_settings supported entries table_size 0 in
  changes ← gets _header_table_size_changes;
  if changes + table_changes >? MAX_HEADER_TABLE_SIZE_CHANGES then
    _ ← on_conn (close_connection EC_ENHANCE_YOUR_CALM None);
    raise (ProtocolError (u "HTTP/2 header table update limit exceeded") EC_ENHANCE_YOUR_CALM)
  else
    _ ← modify (add_table_changes table_changes);
    if zlen working =? zlen (dict_of working) then
      wire ← lift (build_settings_frame (Some (dict_of working)) false);
      _ ← receive_data wire;
      mret tt
    else replay_settings 0 working.

End adapter.
Arguments H2Adapter : clear implicits.

(** ** A connection that keeps a log

    The calls the program makes of h2, in order, recorded beside any h2: what the
    theorems about h2's use are stated on.  A call is recorded when it is made,
    also if it raises. *)
Inductive call :=
  | CInitiate
  | CReceive (data : bytes)
  | COutput (data : bytes)
  | CClose (error_code : Z) (last_stream_id : option Z) (returned : bool)
  | CSendHeaders (stream_id : Z) (headers : list field) (end_stream : bool)
  | CSendData (stream_id : Z) (data : bytes) (end_stream : bool)
  | CReset (stream_id error_code : Z)
  | CAcknowledge (length stream_id : Z)
  | CWindow (stream_id window : Z).

Record logged (C : Type) := mkLogged {
  lg_conn : C;
  lg_calls : list call;
}.
Arguments mkLogged {_} _ _.
Arguments lg_conn {_} _.
Arguments lg_calls {_} _.

Definition log_call {C A} (m : M C A) (f : result A → list call) : M (logged C) A := λ l,
  let '(r, c) := m (lg_conn l) in (r, mkLogged c (lg_calls l ++ f r)).

#[export] Instance logged_h2 {C} `{H2Connection C} : H2Connection (logged C) := {|
  SettingCodes l := SettingCodes (lg_conn l);
  initiate_connection := log_call initiate_connection (λ _, [CInitiate]);
  super_receive_data data := log_call (super_receive_data data) (λ _, [CReceive data]);
  data_to_send :=
    log_call data_to_send (λ r, match r with Ok ((_ :: _) as d) => [COutput d] | _ => [] end);
  close_connection code last := log_call (close_connection code last) (λ r, [CClose code last (is_Ok r)]);
  send_headers sid hs es := log_call (send_headers sid hs es) (λ _, [CSendHeaders sid hs es]);
  send_data sid d es := log_call (send_data sid d es) (λ _, [CSendData sid d es]);
  reset_stream sid code := log_call (reset_stream sid code) (λ _, [CReset sid code]);
  acknowledge_received_data n sid :=
    log_call (acknowledge_received_data n sid) (λ _, [CAcknowledge n sid]);
  local_flow_control_window sid := 
    log_call (local_flow_control_window sid)
      (λ r, match r with Ok n => [CWindow sid n] | Err _ => [] end);
  max_outbound_frame_size l := max_outbound_frame_size (lg_conn l);
  max_inbound_frame_size l := max_inbound_frame_size (lg_conn l);
  highest_inbound_stream_id l := highest_inbound_stream_id (lg_conn l);
  highest_outbound_stream_id l := highest_outbound_stream_id (lg_conn l);
  open_inbound_streams l := open_inbound_streams (lg_conn l);
  stream_closed sid l := stream_closed sid (lg_conn l);
  local_max_concurrent_streams l := local_max_concurrent_streams (lg_conn l);
  remote_header_table_size l := remote_header_table_size (lg_conn l);
  decoder_original_headers l := decoder_original_headers (lg_conn l);
  set_local_settings v l := mkLogged (set_local_settings v (lg_conn l)) (lg_calls l);
  set_max_inbound_frame_size v l :=
    mkLogged (set_max_inbound_frame_size v (lg_conn l)) (lg_calls l);
  sleep := log_call sleep (λ _, []);
|}.

(** ** Bounded lengths *)

(** Leading zeros and size aside, the number itself; never more than one above the
    body limit. *)
Lemma bounded_content_length_spec v :
  Forall (λ c, is_digit c = true) v →
  bounded_content_length v = Z.min (int_of_digits v) (MAX_REQUEST_BODY + 1).
Proof.
  intros Hv. unfold bounded_content_length. pose proof (lstrip0_value v) as H0.
  destruct (lstrip (u "0") v) as [|c s] eqn:Es.
  { assert (int_of_digits v = 0) as -> by (rewrite <-H0; done). done. }
  change (zlen (str_int MAX_REQUEST_BODY)) with 7. cbn zeta. rewrite H0, Z.gtb_ltb.
  destruct (Z.ltb_spec 7 (zlen (c :: s))) as [Hl|]; [|done]. rewrite Z.min_r; [done|].
  assert (Forall (λ c, is_digit c = true) (c :: s)) as [Hc Hs]%Forall_cons.
  { destruct (lstrip_suffix (u "0") v) as [k Hk]. rewrite Es in Hk. rewrite Hk in Hv.
    by apply Forall_app in Hv as [_ ?]. }
  pose proof (lstrip_head _ _ _ _ Es) as Hz. assert (c ≠ 48) by (intros ->; discriminate Hz).
  rewrite <-H0, int_of_digits_cons. pose proof (int_of_digits_nonneg s Hs).
  rewrite zlen_cons in Hl. assert (10 ^ 7 ≤ 10 ^ zlen s) by (apply Z.pow_le_mono_r; lia).
  unfold is_digit in Hc. unfold MAX_REQUEST_BODY. nia.
Qed.

Lemma working_header_name f : (working_header f).1 = f.1.
Proof. destruct f as [n v]. unfold working_header. by destruct (_ && _). Qed.

(** ** Table size updates *)

(** The dynamic table of RFC 7541: the sizes of its entries, newest first, and its
    maximum size.  A new maximum evicts from the end (4.3). *)
Fixpoint evict (limit : Z) (sizes : list Z) : list Z :=
  match sizes with
  | [] => []
  | s :: sizes => if s <=? limit then s :: evict (limit - s) sizes else []
  end.

Definition resize (table : list Z * Z) (limit : Z) : list Z * Z :=
  (evict limit table.1, limit).

Lemma evict_evict a b sizes :
  Forall (λ s, 0 ≤ s) sizes → evict a (evict b sizes) = evict (Z.min a b) sizes.
Proof.
  intros Hs. revert a b. induction Hs as [|s sizes Hs Hss IH]; intros a b; [done|]. cbn [evict].
  destruct (Z.leb_spec s b); cbn [evict].
  - destruct (Z.leb_spec s a); [|by rewrite (proj2 (Z.leb_gt s (Z.min a b))) by lia].
    rewrite (proj2 (Z.leb_le s (Z.min a b))) by lia. f_equal. rewrite IH. f_equal. lia.
  - by rewrite (proj2 (Z.leb_gt s (Z.min a b))) by lia.
Qed.

Lemma foldl_min_le x cs : foldl Z.min x cs ≤ x ∧ Forall (λ c, foldl Z.min x cs ≤ c) cs.
Proof.
  revert x. induction cs as [|c cs IH]; intros x; cbn [foldl]; [split; [lia|constructor]|].
  destruct (IH (Z.min x c)) as [H1 H2]. split; [lia|]. constructor; [lia|done].
Qed.

Lemma foldl_resize c cs sizes m :
  Forall (λ s, 0 ≤ s) sizes →
  foldl resize (sizes, m) (c :: cs) = (evict (foldl Z.min c cs) sizes, List.last (c :: cs) c).
Proof.
  intros Hs. induction cs as [|d cs IH] using rev_ind; [done|].
  rewrite app_comm_cons, foldl_app, IH. cbn [foldl]. unfold resize. cbn [fst].
  rewrite evict_evict, foldl_app, last_last by done. cbn [foldl]. f_equal. f_equal. lia.
Qed.

(** Sending only the smallest and the last of the queued table size updates, two
    at most, leaves the peer's dynamic table as all of them would: same entries,
    same maximum. *)
Theorem coalesce_equivalent changes sizes limit :
  Forall (λ s, 0 ≤ s) sizes →
  (length (coalesce changes) ≤ 2)%nat ∧
  foldl resize (sizes, limit) (coalesce changes) = foldl resize (sizes, limit) changes.
Proof.
  intros Hs. split.
  { unfold coalesce. destruct changes; simpl; [lia|]. case_match; simpl; lia. }
  destruct changes as [|c cs]; [done|]. rewrite foldl_resize by done. unfold coalesce.
  pose proof (foldl_min_le c cs) as Hm. set (m := foldl Z.min c cs) in *.
  set (final := List.last (c :: cs) c).
  assert (m ≤ final) as Hf.
  { assert (Forall (λ c, m ≤ c) (c :: cs)) as HF by (constructor; apply Hm).
    unfold final. destruct (exists_last (l := c :: cs)) as (k & x & E); [done|].
    rewrite E in HF |- *. rewrite last_last. by apply Forall_app in HF as [_ [? _]%Forall_cons]. }
  destruct (Z.eqb_spec m final) as [E|E]; cbn [foldl]; unfold resize; cbn [fst].
  - by rewrite E.
  - rewrite evict_evict by done. f_equal. f_equal. lia.
Qed.

(** ** The decoder *)

Section decoder_laws.
Context {D : Type} `{HpackDecoder D}.

(** What the decoder hands on in place of hpack's failure. *)
Definition decode_failure (e : exn) : exn :=
  match e with
  | OversizedHeaderListError m => OversizedHeaderListError m
  | HPACKError m =>
      ProtocolError (u "Error decoding header block: " ++ m) EC_COMPRESSION_ERROR
  | e => e
  end.

(** The list h2 works on beside the list received. *)
Definition adapted (f g : field) : Prop :=
  f.1 = g.1 ∧
  ((f.1 ≠ u "content-length" ∨ isdigit f.2 = false) ∧ f.2 = g.2 ∨
   f.1 = u "content-length" ∧ isdigit f.2 = true ∧ isdigit g.2 = true ∧
   int_of_digits g.2 = Z.min (int_of_digits f.2) (MAX_REQUEST_BODY + 1)).

Lemma isdigit_elem l : isdigit l = true ↔ l ≠ [] ∧ Forall (λ c, is_digit c = true) l.
Proof.
  rewrite Forall_forall. setoid_rewrite list_elem_of_In. rewrite <-forallb_forall.
  destruct l; [naive_solver|]. change (isdigit (z :: l)) with (forallb is_digit (z :: l)).
  naive_solver.
Qed.

Lemma working_header_adapted f : adapted f (working_header f).
Proof.
  destruct f as [n v]. unfold working_header, adapted.
  destruct (decide (n = u "content-length")) as [E|E];
    [rewrite (bool_decide_true _ E)|rewrite (bool_decide_false _ E)]; cbn [andb fst snd];
    [|by auto].
  destruct (isdigit v) eqn:Ev; cbn [fst snd]; [|by auto]. split; [done|]. right.
  split_and!; [done..| |].
  - apply isdigit_elem. split; [apply str_int_nonempty|]. apply Forall_forall. intros c.
    apply isdigit_elem in Ev as [_ Hv]. rewrite bounded_content_length_spec by done.
    apply str_int_digits. pose proof (int_of_digits_nonneg v Hv). unfold MAX_REQUEST_BODY. lia.
  - apply isdigit_elem in Ev as [_ Hv]. rewrite bounded_content_length_spec by done.
    apply int_of_str_int. pose proof (int_of_digits_nonneg v Hv). unfold MAX_REQUEST_BODY. lia.
Qed.

Lemma header_list_size_nonneg hs : 0 ≤ header_list_size hs.
Proof.
  induction hs as [|f hs IH]; cbn [header_list_size foldr]; [lia|].
  pose proof (zlen_nonneg f.1). pose proof (zlen_nonneg f.2). fold (header_list_size hs). lia.
Qed.

(** C30: one call of the decoder. When hpack raises, nothing but hpack's own state
    moves, an oversized list keeps its exception and any other HPACK failure becomes
    a [ProtocolError] with the code COMPRESSION_ERROR. When hpack returns a list, its
    size is charged to the connection, also if that exceeds the budget; within the
    budget the list is kept unchanged for the report, and h2 gets it with only the
    Content-Length numbers capped at one above the body limit. *)
Theorem decode_spec data raw (r : _RequestDecoder D) :
  match super_decode data raw (rd_super r) with
  | (Err e, d) => decode data raw r = (Err (decode_failure e), set_decoder d r)
  | (Ok headers, d) =>
      let total := decoded_bytes r + header_list_size headers in
      if decide (total ≤ MAX_DECODED_HEADER_BYTES) then
        ∃ handed, decode data raw r = (Ok handed, mkRequestDecoder d (Some headers) total) ∧
          (if raw then Forall2 adapted headers handed else handed = headers)
      else ∃ m, decode data raw r =
        (Err (OversizedHeaderListError m), mkRequestDecoder d (original_headers r) total)
  end.
Proof.
  unfold decode. destruct (super_decode data raw (rd_super r)) as [[hs|e] d].
  - cbn zeta. rewrite Z.gtb_ltb. case_decide as Hd.
    + rewrite (proj2 (Z.ltb_ge _ _)) by done. eexists. split; [done|]. destruct raw; [|done].
      apply Forall2_fmap_r, Forall_Forall2_diag, Forall_true, working_header_adapted.
    + rewrite (proj2 (Z.ltb_lt _ _)) by lia. by eexists.
  - by destruct e.
Qed.

End decoder_laws.

(** ** Replaying SETTINGS *)

(** The settings in force after a list of entries; [filter] keeps h2's codes. *)
Definition settings_run (m : gmap Z Z) (entries : list (Z * Z)) : gmap Z Z :=
  foldl (λ m e, <[e.1 := e.2]> m) m entries.

(** The values the table size takes, one after the other. *)
Definition table_sizes (entries : list (Z * Z)) : list Z :=
  (filter (λ e, e.1 = SC_HEADER_TABLE_SIZE) entries).*2.

(** [l] without the elements that repeat the one before them; [x] comes first. *)
Fixpoint destutter (x : Z) (l : list Z) : list Z :=
  match l with
  | [] => []
  | y :: l => if decide (y = x) then destutter x l else y :: destutter y l
  end.

Lemma working_settings_spec sup entries ts n :
  mem SC_HEADER_TABLE_SIZE sup = true →
  let '(w, n') := working_settings sup entries ts n in
  w `sublist_of` filter (λ e, e.1 ∈ sup) entries ∧
  table_sizes w = destutter ts (table_sizes entries) ∧
  n' = n + zlen (table_sizes w) ∧
  ∀ m, m !! SC_HEADER_TABLE_SIZE = Some ts →
    settings_run m w = settings_run m (filter (λ e, e.1 ∈ sup) entries).
Proof.
  intros Hsup. revert ts n.
  induction entries as [|[i v] es IH]; intros ts n; cbn [working_settings].
  { split_and!; [done..|change (zlen (table_sizes [])) with 0; lia|done]. }
  rewrite filter_cons. cbn [fst]. destruct (mem i sup) eqn:Ei; cbn [negb].
  2:{ specialize (IH ts n). destruct (working_settings sup es ts n) as [w n'].
      assert (i ∉ sup) as Hi by (rewrite <-mem_In, Ei; done). rewrite decide_False by done.
      unfold table_sizes at 2. rewrite filter_cons_False; [done|]. cbn [fst]. intros ->. congruence. }
  assert (i ∈ sup) as Hi by (by apply mem_In). rewrite decide_True by done.
  destruct (Z.eqb_spec i SC_HEADER_TABLE_SIZE) as [->|Hne].
  - unfold table_sizes at 2. rewrite filter_cons_True by done. cbn [fmap list_fmap snd].
    fold (table_sizes es). cbn [destutter].
    destruct (Z.eqb_spec v ts) as [->|Hv].
    + rewrite decide_True by done. specialize (IH ts n).
      destruct (working_settings sup es ts n) as [w n']. destruct IH as (H1 & H2 & H3 & H4).
      split_and!; [by apply sublist_cons|done|done|]. intros m Hm. cbn [settings_run foldl fst snd].
      rewrite insert_id by done. by apply H4.
    + rewrite decide_False by done. specialize (IH v (n + 1)).
      destruct (working_settings sup es v (n + 1)) as [w n']. destruct IH as (H1 & H2 & H3 & H4).
      unfold table_sizes in *. rewrite filter_cons_True by done. cbn [fmap list_fmap snd].
      split_and!; [by apply sublist_skip|by rewrite H2|rewrite zlen_cons; lia|].
      intros m Hm. cbn [settings_run foldl fst snd]. apply H4. by rewrite lookup_insert_eq.
  - specialize (IH ts n). destruct (working_settings sup es ts n) as [w n'].
    destruct IH as (H1 & H2 & H3 & H4). unfold table_sizes in *.
    rewrite !filter_cons_False by done.
    split_and!; [by apply sublist_skip|done|done|].
    intros m Hm. cbn [settings_run foldl fst snd]. apply H4. by rewrite lookup_insert_ne.
Qed.

Section settings_laws.
Context {C : Type} `{H2Connection C}.
Implicit Types (a : H2Adapter (logged C)) (w : list (Z * Z)).

Definition calls a : list call := lg_calls (conn a).

(** The frames among the calls. *)
Definition received (cs : list call) : list bytes :=
  omap (λ c, match c with CReceive d => Some d | _ => None end) cs.

(** [r] and [a'] come from handing h2 the frames of the groups of entries, in order;
    all of [w] unless an exception cut it short. *)
Definition delivers a w (r : result unit) a' : Prop :=
  _header_table_size_changes a' = _header_table_size_changes a ∧
  ∃ groups cs, calls a' = calls a ++ cs ∧
    Forall2 (λ g d, build_settings_frame (Some g) false = Ok d) groups (received cs) ∧
    Forall (λ g : list (Z * Z), NoDup g.*1) groups ∧
    concat groups `prefix_of` w ∧ (r = Ok tt → concat groups = w).

Lemma delivers_none a w e : delivers a w (Err e) a.
Proof.
  split; [done|]. exists [], []. rewrite app_nil_r. split_and!; [done|constructor|constructor|
    apply prefix_nil|done].
Qed.

Lemma receive_frame a d :
  ∃ r c, receive_data d a =
    (r, mkH2Adapter (mkLogged c (calls a ++ [CReceive d])) (_header_table_size_changes a)).
Proof.
  unfold receive_data, on_conn, mbind, M_bind. cbn [super_receive_data logged_h2].
  unfold log_call. destruct (super_receive_data d (lg_conn (conn a))) as [[evs|e] c]; cbn;
    by eexists _, _.
Qed.

Lemma output_call a :
  ∃ r c cs, on_conn data_to_send a =
      (r, mkH2Adapter (mkLogged c (calls a ++ cs)) (_header_table_size_changes a)) ∧ received cs = [].
Proof.
  unfold on_conn. cbn [data_to_send logged_h2]. unfold log_call.
  destruct (data_to_send (lg_conn (conn a))) as [[[|b d]|e] c]; by eexists _, _, _.
Qed.

(** A turn of the event loop hands over nothing. *)
Lemma sleep_call (b : bool) a :
  ∃ r c, (if b then on_conn sleep else mret tt) a =
      (r, mkH2Adapter (mkLogged c (calls a)) (_header_table_size_changes a)).
Proof.
  destruct b; [|by exists (Ok tt), (lg_conn (conn a)); destruct a as [[]]].
  unfold on_conn. cbn [sleep logged_h2]. unfold log_call. destruct (sleep (lg_conn (conn a))) as [r c].
  rewrite app_nil_r. by eexists _, _.
Qed.

(** One entry is delivered and the rest follows. *)
Lemma delivers_cons a a1 e w g r a' cs d :
  calls a1 = calls a ++ cs → received cs = [d] →
  _header_table_size_changes a1 = _header_table_size_changes a →
  build_settings_frame (Some g) false = Ok d → NoDup g.*1 →
  g ++ w = e → delivers a1 w r a' → delivers a e r a'.
Proof.
  intros Hc1 Hr Ht Hb Hnd <- (Ht' & groups & cs' & Hc & HF & HN & Hp & Hok).
  split; [congruence|]. exists (g :: groups), (cs ++ cs'). split_and!.
  - by rewrite Hc, Hc1, app_assoc.
  - unfold received. rewrite omap_app. fold (received cs) (received cs'). rewrite Hr. by constructor.
  - by constructor.
  - by apply prefix_app.
  - intros E. cbn [concat]. by rewrite Hok.
Qed.

Lemma delivers_one a a' g r d :
  calls a' = calls a ++ [CReceive d] →
  _header_table_size_changes a' = _header_table_size_changes a →
  build_settings_frame (Some g) false = Ok d → NoDup g.*1 → delivers a g r a'.
Proof.
  intros Hc Ht Hb Hnd. eapply (delivers_cons _ a' _ [] g _ _ [CReceive d]); try done.
  - by rewrite app_nil_r.
  - split; [done|]. exists [], []. rewrite app_nil_r.
    split_and!; [done|constructor|constructor|apply prefix_nil|done].
Qed.

Lemma replay_delivers index w a :
  let '(r, a') := replay_settings index w a in delivers a w r a'.
Proof.
  revert index a. induction w as [|[i v] w IH]; intros index a; cbn [replay_settings].
  { split; [done|]. exists [], []. rewrite app_nil_r. by split_and!; [|constructor|constructor| |]. }
  destruct (build_settings_frame (Some [(i, v)]) false) as [d|e] eqn:Eb;
    [|apply delivers_none].
  rewrite (bind_ok (lift _) _ _ _ _ eq_refl). destruct (receive_frame a d) as (r1 & c1 & E1).
  destruct r1 as [evs|e]; [rewrite (bind_ok _ _ _ _ _ E1)|rewrite (bind_err _ _ _ _ _ E1)].
  2:{ eapply (delivers_cons _ _ _ w [(i, v)]); [..|apply delivers_none]; try done.
      apply NoDup_singleton. }
  destruct w as [|e w]; [eapply delivers_one; try done; apply NoDup_singleton|].
  set (a1 := mkH2Adapter _ _) in *. destruct (output_call a1) as (r2 & c2 & cs & E2 & Hcs).
  set (a2 := mkH2Adapter (mkLogged c2 _) _) in *.
  assert (∀ r a', delivers a2 (e :: w) r a' → delivers a ((i, v) :: e :: w) r a') as Hstep.
  { intros r a' Hd. eapply (delivers_cons _ a2 _ (e :: w) [(i, v)] _ _ ([CReceive d] ++ cs) d); try done.
    - change (calls a2) with ((calls a ++ [CReceive d]) ++ cs). by rewrite app_assoc.
    - unfold received in *. by rewrite omap_app, Hcs.
    - apply NoDup_singleton. }
  destruct r2 as [out|x]; [rewrite (bind_ok _ _ _ _ _ E2)|rewrite (bind_err _ _ _ _ _ E2)].
  2:{ apply Hstep, delivers_none. }
  destruct (build_settings_frame None true) as [ack|x];
    [rewrite (bind_ok (lift _) _ _ _ _ eq_refl)|apply Hstep, delivers_none].
  destruct (negb _); [apply Hstep, delivers_none|].
  destruct (sleep_call ((index + 1) mod SETTINGS_BATCH_SIZE =? 0) a2) as ([[]|x] & c3 & E3);
    [rewrite (bind_ok _ _ _ _ _ E3)|rewrite (bind_err _ _ _ _ _ E3); apply (Hstep _ _ (delivers_none a2 _ x))].
  specialize (IH (index + 1) (mkH2Adapter (mkLogged c3 (calls a2)) (_header_table_size_changes a2))).
  destruct (replay_settings _ (e :: w) _) as [r a']. by apply Hstep.
Qed.

(** What [apply_settings] does with the working entries. *)
Lemma apply_settings_working a entries :
  let '(r, a') := apply_settings entries a in
  let '(w, n) :=
    working_settings (SUPPORTED_SETTINGS a) entries (remote_header_table_size (conn a)) 0 in
  if decide (_header_table_size_changes a + n ≤ MAX_HEADER_TABLE_SIZE_CHANGES) then
    delivers (add_table_changes n a) w r a'
  else
    _header_table_size_changes a' = _header_table_size_changes a ∧
    (∃ b, calls a' = calls a ++ [CClose EC_ENHANCE_YOUR_CALM None b]) ∧ r ≠ Ok tt.
Proof.
  unfold apply_settings. rewrite !(bind_ok (gets _) _ _ _ _ eq_refl).
  destruct (working_settings _ _ _ 0) as [w n].
  rewrite (bind_ok (gets _) _ _ _ _ eq_refl), Z.gtb_ltb.
  destruct (Z.ltb_spec MAX_HEADER_TABLE_SIZE_CHANGES (_header_table_size_changes a + n)) as [Hm|Hm].
  - unfold on_conn, mbind, M_bind. cbn [close_connection logged_h2]. unfold log_call.
    destruct (close_connection _ None (lg_conn (conn a))) as [[[]|e] c];
      cbn beta match delta [raise mret M_ret]; rewrite decide_False by lia; (split_and!; [done|by eexists|done]).
  - rewrite (bind_ok (modify _) _ _ _ _ eq_refl).
    assert (zlen w = zlen (dict_of w) ↔ NoDup w.*1) as Hlen.
    { rewrite <-(proj2 (length_dict_of w)). unfold zlen. lia. }
    set (a0 := add_table_changes n a). 
    destruct (Z.eqb_spec (zlen w) (zlen (dict_of w))) as [E|E].
    + apply Hlen in E. rewrite dict_of_id by done.
      destruct (build_settings_frame (Some w) false) as [d|e] eqn:Eb; cycle 1.
      { rewrite (bind_err (lift _) _ _ _ _ eq_refl), decide_True by lia. apply delivers_none. }
      rewrite (bind_ok (lift _) _ _ _ _ eq_refl). destruct (receive_frame a0 d) as (r1 & c1 & E1).
      destruct r1 as [evs|e]; [rewrite (bind_ok _ _ _ _ _ E1)|rewrite (bind_err _ _ _ _ _ E1)];
        (cbn beta match delta [raise mret M_ret]; rewrite decide_True by lia; by eapply delivers_one).
    + pose proof (replay_delivers 0 w a0) as Hr. fold (a0). destruct (replay_settings 0 w a0) as [r a'].
      by rewrite decide_True by lia.
Qed.

Lemma working_settings_sublist sup entries ts n :
  (working_settings sup entries ts n).1 `sublist_of` entries.
Proof.
  revert ts n. induction entries as [|[i v] es IH]; intros ts n; cbn [working_settings]; [done|].
  destruct (negb _); [by apply sublist_cons|].
  destruct (i =? SC_HEADER_TABLE_SIZE); [destruct (v =? ts); [by apply sublist_cons|]|].
  - specialize (IH v (n + 1)). destruct (working_settings _ _ _ _). by apply sublist_skip.
  - specialize (IH ts n). destruct (working_settings _ _ _ _). by apply sublist_skip.
Qed.

(** Whatever happens, h2 gets frames made of the received entries, in their order. *)
Lemma apply_settings_frames a entries :
  let '(_, a') := apply_settings entries a in
  ∃ groups cs, calls a' = calls a ++ cs ∧
    Forall2 (λ g d, build_settings_frame (Some g) false = Ok d) groups (received cs) ∧
    concat groups `sublist_of` entries.
Proof.
  pose proof (apply_settings_working a entries) as Ha.
  pose proof (working_settings_sublist (SUPPORTED_SETTINGS a) entries
    (remote_header_table_size (conn a)) 0) as Hs.
  destruct (apply_settings entries a) as [r a'], (working_settings _ _ _ 0) as [w n].
  destruct (decide _).
  - destruct Ha as (_ & groups & cs & E & HF & _ & Hp & _). exists groups, cs. split_and!; [done..|].
    etrans; [|exact Hs]. destruct Hp as [k ->]. by apply sublist_inserts_r.
  - destruct Ha as (_ & [b E] & _). exists [], [CClose EC_ENHANCE_YOUR_CALM None b].
    split_and!; [done|constructor|apply sublist_nil_l].
Qed.


End settings_laws.

(** ** A concrete h2 for the witnesses

    It acknowledges SETTINGS frames, answers each call of [receive_data] with the
    next events of a script, and has one open stream. *)
Record scripted := mkScripted {
  sc_events : list (list event);
  sc_headers : option (list field);
  sc_out : bytes;
}.

Definition event_headers (e : event) : option (list field) :=
  match e with RequestReceived _ h _ | TrailersReceived _ h => h | _ => None end.

Definition scripted_receive (data : bytes) : M scripted (list event) := λ s,
  let ack :=
    match data with
    | _ :: _ :: _ :: 4 :: 0 :: _ => [0; 0; 0; 4; 1; 0; 0; 0; 0]
    | _ => []
    end in
  match sc_events s with
  | [] => (Ok [], mkScripted [] (sc_headers s) (sc_out s ++ ack))
  | es :: rest =>
      (Ok es, mkScripted rest (foldl (λ h e, match event_headers e with None => h | h => h end)
                                 (sc_headers s) es) (sc_out s ++ ack))
  end.

Definition scripted_write (d : bytes) : M scripted unit :=
  modify (λ s, mkScripted (sc_events s) (sc_headers s) (sc_out s ++ d)).

#[export] Instance scripted_h2 : H2Connection scripted := {|
  SettingCodes _ := [1; 2; 3; 4; 5; 6; 8];
  initiate_connection := scripted_write [0; 0; 0; 4; 0; 0; 0; 0; 0];
  super_receive_data := scripted_receive;
  data_to_send := λ s, (Ok (sc_out s), mkScripted (sc_events s) (sc_headers s) []);
  close_connection code _ := scripted_write ([0; 0; 8; 7; 0; 0; 0; 0; 0; 0; 0; 0; 0] ++ be_bytes 4 code);
  send_headers sid _ _ := scripted_write ([0; 0; 0; 1; 4] ++ be_bytes 4 sid);
  send_data sid d _ := scripted_write (be_bytes 3 (zlen d) ++ [0; 0] ++ be_bytes 4 sid ++ d);
  reset_stream sid code := scripted_write ([0; 0; 4; 3; 0] ++ be_bytes 4 sid ++ be_bytes 4 code);
  acknowledge_received_data _ _ := mret tt;
  local_flow_control_window _ := mret 5;
  max_outbound_frame_size _ := 16384;
  max_inbound_frame_size _ := 65536;
  highest_inbound_stream_id _ := 1;
  highest_outbound_stream_id _ := 0;
  open_inbound_streams _ := 1;
  stream_closed sid _ := if sid =? 1 then Some false else None;
  local_max_concurrent_streams _ := 100;
  remote_header_table_size _ := 4096;
  decoder_original_headers := sc_headers;
  set_local_settings _ s := s;
  set_max_inbound_frame_size _ s := s;
  sleep := mret tt;
|}.

Definition sample_adapter : H2Adapter (logged scripted) :=
  mkH2Adapter (mkLogged (mkScripted [] None []) []) 0.

(** A concrete input for [coalesce_equivalent] *)
Lemma coalesce_equivalent_witness :
  foldl resize ([40; 50; 60], 4096) (coalesce [100; 0; 64; 4096]) = ([], 4096).
Proof.
  destruct (coalesce_equivalent [100; 0; 64; 4096] [40; 50; 60] 4096 ltac:(by_eval)) as [_ ->].
  reflexivity.
Defined.

