(* ===== verification/Session.v ===== *)
(** * The HTTP/2 session (src/solvetls/http2/session.py)

    One connection that serves one request and refuses further streams.  The state
    is the object [HTTP2Session]; the h2 connection inside it and the transport
    below it are the interfaces [H2Connection] and [HTTP2Transport], and
    [h2_validate] is h2's own check of a field list.  The transport may raise at any
    call, which is also how a deadline or a cancellation reaches a session that
    waits for the peer. *)

From S2P Require Import Prelude PyText Naming Frames HttpFields Validation Capture Adapter.

Definition HTTP2_PREFACE : bytes := Eval compute in
  u "PRI * HTTP/2.0" ++ [13; 10; 13; 10] ++ u "SM" ++ [13; 10; 13; 10].
Definition SERVER_MAX_FRAME_SIZE : Z := 65536.
Definition SERVER_INITIAL_WINDOW_SIZE : Z := 1048576.
Definition MAX_CAPTURE_BYTES : Z := 2097152.
Definition MAX_CAPTURE_FRAMES : Z := 4096.
Definition MAX_CAPTURE_ENTRIES : Z := 1024.

(** The codes of h2's [ErrorCodes] that frames.py does not name on its own. *)
Definition EC_REFUSED_STREAM : Z := Eval compute in member ErrorCode "REFUSED_STREAM".

(** [class HTTP2Transport(Protocol)] *)
Class HTTP2Transport (T : Type) := {
  t_read : M T bytes;
  t_write : bytes → M T unit;
}.

(** ** Changes to the capture *)

Definition add_frame (f : ParsedFrame) (c : HTTP2Capture) : HTTP2Capture :=
  mkCapture (frames c ++ [f]) (initial_settings c) (headers c) (trailers c) (stream_id c)
    (expectation_failed c).

Definition set_initial_settings (v : list (Z * Z)) (c : HTTP2Capture) : HTTP2Capture :=
  mkCapture (frames c) (Some v) (headers c) (trailers c) (stream_id c) (expectation_failed c).

Definition set_request (sid : Z) (v : list field) (c : HTTP2Capture) : HTTP2Capture :=
  mkCapture (frames c) (initial_settings c) (Some v) (trailers c) (Some sid)
    (expectation_failed c).

Definition set_trailers (v : list field) (c : HTTP2Capture) : HTTP2Capture :=
  mkCapture (frames c) (initial_settings c) (headers c) v (stream_id c) (expectation_failed c).

Definition fail_expectation (c : HTTP2Capture) : HTTP2Capture :=
  mkCapture (frames c) (initial_settings c) (headers c) (trailers c) (stream_id c) true.

(** ** The object *)

Section session.
Context {C T : Type} `{H2Connection C} `{HTTP2Transport T}.
Context (h2_validate : list field → bool → result unit).

Record HTTP2Session := mkSession {
  transport : T;
  capture : HTTP2Capture;
  connection : H2Adapter C;
  _buffer : bytes;
  _capture_bytes : Z;
  _capture_entries : Z;
  _first_frame : bool;
  _continuation_stream : option Z;
  _header_block_bytes : Z;
  _prioritized_idle_streams : gset Z;
  _request_ready : bool;
  _request_bytes : Z;
  _expected_length : option Z;
  _cancelled : bool;
  _initialized : bool;
  _closed : bool;
}.

(** Assignments to the attributes. *)
Definition set_transport (v : T) (s : HTTP2Session) : HTTP2Session :=
  mkSession v (capture s) (connection s) (_buffer s) (_capture_bytes s) (_capture_entries s)
    (_first_frame s) (_continuation_stream s) (_header_block_bytes s) (_prioritized_idle_streams
    s) (_request_ready s) (_request_bytes s) (_expected_length s) (_cancelled s) (_initialized
    s) (_closed s).

Definition set_capture (v : HTTP2Capture) (s : HTTP2Session) : HTTP2Session :=
  mkSession (transport s) v (connection s) (_buffer s) (_capture_bytes s) (_capture_entries s)
    (_first_frame s) (_continuation_stream s) (_header_block_bytes s) (_prioritized_idle_streams
    s) (_request_ready s) (_request_bytes s) (_expected_length s) (_cancelled s) (_initialized
    s) (_closed s).

Definition set_connection (v : H2Adapter C) (s : HTTP2Session) : HTTP2Session :=
  mkSession (transport s) (capture s) v (_buffer s) (_capture_bytes s) (_capture_entries s)
    (_first_frame s) (_continuation_stream s) (_header_block_bytes s) (_prioritized_idle_streams
    s) (_request_ready s) (_request_bytes s) (_expected_length s) (_cancelled s) (_initialized
    s) (_closed s).

Definition set_buffer (v : bytes) (s : HTTP2Session) : HTTP2Session :=
  mkSession (transport s) (capture s) (connection s) v (_capture_bytes s) (_capture_entries s)
    (_first_frame s) (_continuation_stream s) (_header_block_bytes s) (_prioritized_idle_streams
    s) (_request_ready s) (_request_bytes s) (_expected_length s) (_cancelled s) (_initialized
    s) (_closed s).

Definition set_capture_bytes (v : Z) (s : HTTP2Session) : HTTP2Session :=
  mkSession (transport s) (capture s) (connection s) (_buffer s) v (_capture_entries s)
    (_first_frame s) (_continuation_stream s) (_header_block_bytes s) (_prioritized_idle_streams
    s) (_request_ready s) (_request_bytes s) (_expected_length s) (_cancelled s) (_initialized
    s) (_closed s).

Definition set_capture_entries (v : Z) (s : HTTP2Session) : HTTP2Session :=
  mkSession (transport s) (capture s) (connection s) (_buffer s) (_capture_bytes s) v
    (_first_frame s) (_continuation_stream s) (_header_block_bytes s) (_prioritized_idle_streams
    s) (_request_ready s) (_request_bytes s) (_expected_length s) (_cancelled s) (_initialized
    s) (_closed s).

Definition set_first_frame (v : bool) (s : HTTP2Session) : HTTP2Session :=
  mkSession (transport s) (capture s) (connection s) (_buffer s) (_capture_bytes s)
    (_capture_entries s) v (_continuation_stream s) (_header_block_bytes s)
    (_prioritized_idle_streams s) (_request_ready s) (_request_bytes s) (_expected_length s)
    (_cancelled s) (_initialized s) (_closed s).

Definition set_continuation_stream (v : option Z) (s : HTTP2Session) : HTTP2Session :=
  mkSession (transport s) (capture s) (connection s) (_buffer s) (_capture_bytes s)
    (_capture_entries s) (_first_frame s) v (_header_block_bytes s) (_prioritized_idle_streams
    s) (_request_ready s) (_request_bytes s) (_expected_length s) (_cancelled s) (_initialized
    s) (_closed s).

Definition set_header_block_bytes (v : Z) (s : HTTP2Session) : HTTP2Session :=
  mkSession (transport s) (capture s) (connection s) (_buffer s) (_capture_bytes s)
    (_capture_entries s) (_first_frame s) (_continuation_stream s) v (_prioritized_idle_streams
    s) (_request_ready s) (_request_bytes s) (_expected_length s) (_cancelled s) (_initialized
    s) (_closed s).

Definition set_prioritized_idle_streams (v : gset Z) (s : HTTP2Session) : HTTP2Session :=
  mkSession (transport s) (capture s) (connection s) (_buffer s) (_capture_bytes s)
    (_capture_entries s) (_first_frame s) (_continuation_stream s) (_header_block_bytes s) v
    (_request_ready s) (_request_bytes s) (_expected_length s) (_cancelled s) (_initialized s)
    (_closed s).

Definition set_request_ready (v : bool) (s : HTTP2Session) : HTTP2Session :=
  mkSession (transport s) (capture s) (connection s) (_buffer s) (_capture_bytes s)
    (_capture_entries s) (_first_frame s) (_continuation_stream s) (_header_block_bytes s)
    (_prioritized_idle_streams s) v (_request_bytes s) (_expected_length s) (_cancelled s)
    (_initialized s) (_closed s).

Definition set_request_bytes (v : Z) (s : HTTP2Session) : HTTP2Session :=
  mkSession (transport s) (capture s) (connection s) (_buffer s) (_capture_bytes s)
    (_capture_entries s) (_first_frame s) (_continuation_stream s) (_header_block_bytes s)
    (_prioritized_idle_streams s) (_request_ready s) v (_expected_length s) (_cancelled s)
    (_initialized s) (_closed s).

Definition set_expected_length (v : option Z) (s : HTTP2Session) : HTTP2Session :=
  mkSession (transport s) (capture s) (connection s) (_buffer s) (_capture_bytes s)
    (_capture_entries s) (_first_frame s) (_continuation_stream s) (_header_block_bytes s)
    (_prioritized_idle_streams s) (_request_ready s) (_request_bytes s) v (_cancelled s)
    (_initialized s) (_closed s).

Definition set_cancelled (v : bool) (s : HTTP2Session) : HTTP2Session :=
  mkSession (transport s) (capture s) (connection s) (_buffer s) (_capture_bytes s)
    (_capture_entries s) (_first_frame s) (_continuation_stream s) (_header_block_bytes s)
    (_prioritized_idle_streams s) (_request_ready s) (_request_bytes s) (_expected_length s) v
    (_initialized s) (_closed s).

Definition set_initialized (v : bool) (s : HTTP2Session) : HTTP2Session :=
  mkSession (transport s) (capture s) (connection s) (_buffer s) (_capture_bytes s)
    (_capture_entries s) (_first_frame s) (_continuation_stream s) (_header_block_bytes s)
    (_prioritized_idle_streams s) (_request_ready s) (_request_bytes s) (_expected_length s)
    (_cancelled s) v (_closed s).

Definition set_closed (v : bool) (s : HTTP2Session) : HTTP2Session :=
  mkSession (transport s) (capture s) (connection s) (_buffer s) (_capture_bytes s)
    (_capture_entries s) (_first_frame s) (_continuation_stream s) (_header_block_bytes s)
    (_prioritized_idle_streams s) (_request_ready s) (_request_bytes s) (_expected_length s)
    (_cancelled s) (_initialized s) v.


Abbreviation SM := (M HTTP2Session).

(** A method of the adapter, of h2, of the transport. *)
Definition on_adapter {A} (m : M (H2Adapter C) A) : SM A := λ s,
  let '(r, a) := m (connection s) in (r, set_connection a s).

Definition on_h2 {A} (m : M C A) : SM A := on_adapter (on_conn m).

Definition on_transport {A} (m : M T A) : SM A := λ s,
  let '(r, t) := m (transport s) in (r, set_transport t s).

Definition h2_get {A} (f : C → A) : SM A := gets (λ s, f (conn (connection s))).

Definition update_capture (f : HTTP2Capture → HTTP2Capture) : SM unit :=
  modify (λ s, set_capture (f (capture s)) s).

(** [HTTP2Session(transport)]; [c] is a new [H2Connection]. *)
Definition new_session (t : T) (c : C) : HTTP2Session :=
  mkSession t new_capture
    (mkH2Adapter
       (set_max_inbound_frame_size SERVER_MAX_FRAME_SIZE
          (set_local_settings
             [(3, 100); (6, MAX_HEADER_LIST_SIZE); (4, SERVER_INITIAL_WINDOW_SIZE);
              (5, SERVER_MAX_FRAME_SIZE)] c)) 0)
    [] 0 0 true None 0 ∅ false 0 None false false false.

Definition _flush : SM unit :=
  data ← on_h2 data_to_send;
  match data with [] => mret tt | _ => on_transport (t_write data) end.

Definition close (error_code : Z) : SM unit :=
  closed ← gets _closed;
  _ ← (if closed : bool then mret tt
       else
         sid ← gets (λ s, stream_id (capture s));
         _ ← on_h2 (close_connection error_code (Some (default 0 sid)));
         modify (set_closed true));
  _flush.

Definition _fail {A} (message : text) (error_code : Z) : SM A :=
  _ ← close error_code;
  raise (ProtocolError message error_code).

Definition fail_protocol {A} (message : text) : SM A := _fail message EC_PROTOCOL_ERROR.

Definition fail_calm {A} (message : text) : SM A := _fail message EC_ENHANCE_YOUR_CALM.

Definition _check_cancelled : SM unit :=
  cancelled ← gets _cancelled;
  if cancelled : bool then
    raise (ConnectionResetError (u "HTTP/2 request stream was reset"))
  else
    closed ← gets _closed;
    if closed : bool then raise (ConnectionResetError (u "HTTP/2 connection is closed"))
    else mret tt.

(** ** Events *)

Definition _check_priority_limit : SM unit :=
  idle ← gets _prioritized_idle_streams;
  open ← h2_get open_inbound_streams;
  limit ← h2_get local_max_concurrent_streams;
  if Z.of_nat (size idle) + open >? limit then
    fail_protocol (u "PRIORITY_UPDATE stream limit exceeded")
  else mret tt.

(** An attribute that may be [None] where the code uses a value. *)
Definition need {A} (o : option A) (e : exn) : SM A :=
  match o with Some a => mret a | None => raise e end.

(** The [try] block around [validate_fields]. *)
Definition check_fields (event_headers : option (list field)) (trailers : bool) : SM unit :=
  hs ← need event_headers TypeError;
  match validate_fields h2_validate hs trailers with
  | Ok _ => mret tt
  | Err e => if is_ProtocolError e then fail_protocol (exn_str e) else raise e
  end.

(** [[(b":status", b"100")]] *)
Definition interim_response : list field := [(u ":status", u "100")].

(** [_process_event] for the accepted request. *)
Definition accept_request (sid : Z) (event_headers : option (list field)) (ended : bool)
    : SM unit :=
  hs ← need event_headers TypeError;
  _ ← update_capture (set_request sid hs);
  let values := dict_of hs in
  _ ← (match dict_get (u "content-length") values with
       | None => mret tt
       | Some content_length =>
           let expected := bounded_content_length content_length in
           _ ← modify (set_expected_length (Some expected));
           if expected >? MAX_REQUEST_BODY then
             fail_calm (u "HTTP/2 request body limit exceeded")
           else mret tt
       end);
  expectations ←
    (match parse_expectations (FBytes <$> values_of (u "expect") hs) with
     | Ok l => mret l
     | Err e => if is_ValueError e then mret [u "invalid expectation"] else raise e
     end);
  if existsb (λ v, negb (bool_decide (v = u "100-continue"))) expectations then
    _ ← update_capture fail_expectation;
    modify (set_request_ready true)
  else
    method ← need (dict_get (u ":method") values) KeyError;
    if bool_decide (method = u "CONNECT") then modify (set_request_ready true)
    else if negb (bool_decide (expectations = [])) && negb ended then
      on_h2 (send_headers sid interim_response false)
    else mret tt.

Definition _process_event (ev : event) : SM unit :=
  captured ← gets (λ s, stream_id (capture s));
  match ev with
  | RequestReceived sid hs ended =>
      idle ← gets _prioritized_idle_streams;
      _ ← modify (set_prioritized_idle_streams (filter (λ i, i > sid) idle));
      match captured with
      | Some _ => on_h2 (reset_stream sid EC_REFUSED_STREAM)
      | None =>
          _ ← _check_priority_limit;
          _ ← check_fields hs false;
          accept_request sid hs ended
      end
  | TrailersReceived sid hs =>
      _ ← check_fields hs true;
      if bool_decide (Some sid = captured) then
        l ← need hs TypeError;
        update_capture (set_trailers l)
      else mret tt
  | DataReceived sid data flow =>
      _ ← (if bool_decide (Some sid = captured) then
             n ← gets _request_bytes;
             _ ← modify (set_request_bytes (n + zlen data));
             if n + zlen data >? MAX_REQUEST_BODY then
               fail_calm (u "HTTP/2 request body limit exceeded")
             else mret tt
           else mret tt);
      on_h2 (acknowledge_received_data flow sid)
  | StreamEnded sid =>
      if bool_decide (Some sid = captured) then
        expected ← gets _expected_length;
        n ← gets _request_bytes;
        match expected with
        | Some m =>
            if negb (m =? n) then
              fail_protocol (u "HTTP/2 Content-Length does not match request body")
            else modify (set_request_ready true)
        | None => modify (set_request_ready true)
        end
      else mret tt
  | StreamReset sid =>
      if bool_decide (Some sid = captured) then modify (set_cancelled true) else mret tt
  | OtherEvent => mret tt
  end.

(** [for event in events: await self._process_event(event)] *)
Fixpoint process_events (events : list event) : SM unit :=
  match events with
  | [] => mret tt
  | ev :: events => _ ← _process_event ev; process_events events
  end.

(** ** Frames *)

(** The first frame has to be the client's SETTINGS. *)
Definition check_first_frame (h : FrameHeader) (payload : PayloadType) : SM unit :=
  first ← gets _first_frame;
  if first : bool then
    if negb (fh_type h =? FT_SETTINGS) || has_flag h FF_ACK then
      fail_protocol (u "First HTTP/2 frame must be client SETTINGS")
    else
      _ ← modify (set_first_frame false);
      match payload with
      | SettingsPayload _ _ entries => update_capture (set_initial_settings entries)
      | _ => mret tt
      end
  else mret tt.

(** A header block is not interrupted, and it is bounded. *)
Definition check_header_block (h : FrameHeader) : SM unit :=
  continuation ← gets _continuation_stream;
  _ ← (match continuation with
       | Some sid =>
           if negb (fh_type h =? FT_CONTINUATION) || negb (fh_stream_id h =? sid) then
             fail_protocol (u "CONTINUATION on the same stream was expected")
           else mret tt
       | None => mret tt
       end);
  if mem (fh_type h) [FT_HEADERS; FT_CONTINUATION] then
    n ← gets _header_block_bytes;
    _ ← modify (set_header_block_bytes (n + fh_length h));
    if n + fh_length h >? MAX_HEADER_LIST_SIZE then
      fail_calm (u "HTTP/2 header block limit exceeded")
    else if has_flag h FF_END_HEADERS then
      _ ← modify (set_continuation_stream None);
      modify (set_header_block_bytes 0)
    else modify (set_continuation_stream (Some (fh_stream_id h)))
  else mret tt.

(** [getattr(payload, "parse_error", None)] and its code. *)
Definition payload_error (payload : PayloadType) : option (text * Z) :=
  match payload with
  | UnknownPayload _ _ (Some ((_ :: _) as msg)) (Some code) => Some (msg, code)
  | _ => None
  end.

(** RST_STREAM of an idle stream. *)
Definition check_reset (h : FrameHeader) : SM unit :=
  highest ←
    (if negb (fh_stream_id h mod 2 =? 0) then h2_get highest_inbound_stream_id
     else h2_get highest_outbound_stream_id);
  if fh_stream_id h >? highest then fail_protocol (u "RST_STREAM refers to an idle stream")
  else mret tt.

Definition process_priority_update (payload : PayloadType) : SM unit :=
  match payload with
  | PriorityUpdatePayload sid _ =>
      if sid mod 2 =? 0 then
        fail_protocol (u "PRIORITY_UPDATE refers to an idle push stream")
      else
        highest ← h2_get highest_inbound_stream_id;
        if sid >? highest then
          idle ← gets _prioritized_idle_streams;
          _ ← modify (set_prioritized_idle_streams ({[sid]} ∪ idle));
          _check_priority_limit
        else
          stream ← h2_get (stream_closed sid);
          match stream with
          | None | Some true => mret tt
          | Some false => _check_priority_limit
          end
  | _ => raise AttributeError
  end.

Definition process_goaway (payload : PayloadType) : SM unit :=
  match payload with
  | GoawayPayload _ error_code _ =>
      if negb (error_code =? EC_NO_ERROR) then modify (set_cancelled true) else mret tt
  | _ => raise AttributeError
  end.

(** The frame h2 gets: HEADERS lose the priority and padding envelope. *)
Definition wire_for_h2 (h : FrameHeader) (payload : PayloadType) (wire : bytes) : SM bytes :=
  if (fh_type h =? FT_HEADERS) && has_flag h FF_PRIORITY then
    match payload with
    | HeadersPayload block _ end_stream end_headers _ =>
        lift (build_headers_frame (fh_stream_id h) block end_stream end_headers)
    | _ => raise AttributeError
    end
  else mret wire.

(** The [try] block: hand the frame to h2 and process its events. *)
Definition deliver (h : FrameHeader) (payload : PayloadType) (wire : bytes) : SM unit :=
  let receive := events ← on_adapter (receive_data wire); process_events events in
  if fh_type h =? FT_SETTINGS then
    match payload with
    | SettingsPayload false _ entries => on_adapter (apply_settings entries)
    | SettingsPayload true _ _ => receive
    | _ => raise AttributeError
    end
  else receive.

(** [except ProtocolError]: send the GOAWAY that h2 queued, if it did. *)
Definition rescue (e : exn) : SM unit :=
  if is_ProtocolError e then
    closed ← gets _closed;
    if closed : bool then raise e
    else
      pending ← on_h2 data_to_send;
      match pending with
      | [] => raise e
      | _ =>
          _ ← on_transport (t_write pending);
          _ ← modify (set_closed true);
          raise e
      end
  else raise e.

(** SETTINGS that were applied give the other tasks a turn. *)
Definition settle (h : FrameHeader) (payload : PayloadType) : SM unit :=
  if fh_type h =? FT_SETTINGS then
    match payload with
    | SettingsPayload false _ _ => on_h2 sleep
    | SettingsPayload true _ _ => mret tt
    | _ => raise AttributeError
    end
  else mret tt.

(** [_process_frame] behind the checks that hold for every frame. *)
Definition process_known (h : FrameHeader) (payload : PayloadType) (wire : bytes) : SM unit :=
  match payload_error payload with
  | Some (msg, code) => _fail msg code
  | None =>
      if fh_type h =? FT_PUSH_PROMISE then fail_protocol (u "Clients must not send PUSH_PROMISE")
      else
        _ ← (if fh_type h =? FT_RST_STREAM then check_reset h else mret tt);
        if fh_type h =? FT_PRIORITY then mret tt
        else if fh_type h =? FT_PRIORITY_UPDATE then process_priority_update payload
        else if fh_type h =? FT_GOAWAY then process_goaway payload
        else
          wire ← wire_for_h2 h payload wire;
          _ ← try_except (deliver h payload wire) rescue;
          _ ← _flush;
          settle h payload
  end.

Definition _process_frame (frame : ParsedFrame) (wire : bytes) : SM unit :=
  let h := pf_header frame in
  _ ← check_first_frame h (pf_payload frame);
  _ ← check_header_block h;
  if mem (fh_type h) [FT_ALTSVC; FT_ORIGIN] then mret tt
  else process_known h (pf_payload frame) wire.

(** Parse one complete frame, count it and keep it. *)
Definition capture_frame (wire : bytes) (maximum : Z) : SM ParsedFrame :=
  entries ← gets _capture_entries;
  let reader := new_frame_reader wire maximum false true (Some (MAX_CAPTURE_ENTRIES - entries)) in
  match parse_frame reader with
  | (Err (HTTP2FrameParsingError msg code), _) => _fail msg code
  | (Err e, _) => raise e
  | (Ok frame, reader) =>
      _ ← modify (set_capture_entries (entries + fr_entries_read reader));
      captured ← gets (λ s, frames (capture s));
      if zlen captured >=? MAX_CAPTURE_FRAMES then
        fail_calm (u "HTTP/2 frame count limit exceeded")
      else
        _ ← update_capture (add_frame frame);
        mret frame
  end.

(** The [while] loop of [_receive]; every turn takes nine octets at least from the
    buffer, so its length is fuel enough. *)
Fixpoint receive_frames (fuel : nat) : SM unit :=
  match fuel with
  | O => raise OutOfFuel
  | S fuel =>
      buffer ← gets _buffer;
      if zlen buffer <? FRAME_HEADER_SIZE then mret tt
      else
        let length := be_val (take 3 buffer) in
        maximum ← h2_get max_inbound_frame_size;
        if length >? maximum then
          _fail (u "HTTP/2 frame size limit exceeded") EC_FRAME_SIZE_ERROR
        else
          let frame_end := FRAME_HEADER_SIZE + length in
          if zlen buffer <? frame_end then mret tt
          else
            let wire := take (Z.to_nat frame_end) buffer in
            _ ← modify (set_buffer (drop (Z.to_nat frame_end) buffer));
            frame ← capture_frame wire maximum;
            _ ← _process_frame frame wire;
            receive_frames fuel
  end.

Definition _receive (data : bytes) : SM unit :=
  match data with
  | [] => raise (ConnectionResetError (u "HTTP/2 connection closed before completion"))
  | _ =>
      n ← gets _capture_bytes;
      _ ← modify (set_capture_bytes (n + zlen data));
      if n + zlen data >? MAX_CAPTURE_BYTES then
        fail_calm (u "HTTP/2 capture limit exceeded")
      else
        _ ← modify (λ s, set_buffer (_buffer s ++ data) s);
        buffer ← gets _buffer;
        _ ← receive_frames (S (length buffer));
        _ ← _flush;
        _check_cancelled
  end.

(** ** The public methods *)

Definition initialize (incoming_data : bytes) : SM unit :=
  initialized ← gets _initialized;
  if initialized : bool then raise (RuntimeError (u "HTTP/2 session already initialized"))
  else
    _ ← modify (set_initialized true);
    _ ← on_h2 initiate_connection;
    _ ← _flush;
    if negb (startswith HTTP2_PREFACE incoming_data) then
      fail_protocol (u "Invalid HTTP/2 connection preface")
    else
      _ ← on_adapter (receive_data HTTP2_PREFACE);
      match drop (length HTTP2_PREFACE) incoming_data with
      | [] => mret tt
      | remaining => _receive remaining
      end.

(** [while not self._request_ready], and after it [_check_cancelled]. Every turn adds
    at least one octet to a count that [_receive] bounds. *)
Fixpoint receive_request (fuel : nat) : SM unit :=
  ready ← gets _request_ready;
  if ready : bool then _check_cancelled
  else
    match fuel with
    | O => raise OutOfFuel
    | S fuel =>
        data ← on_transport t_read;
        _ ← _receive data;
        receive_request fuel
    end.

(** The loop of [send_response]. A turn sends a part of the content, an octet at least, or
    receives. *)
Fixpoint send_content (fuel : nat) (sid : Z) (content : bytes) (offset : Z) : SM unit :=
  if offset <? zlen content then
    match fuel with
    | O => raise OutOfFuel
    | S fuel =>
        _ ← _check_cancelled;
        window ← on_h2 (local_flow_control_window sid);
        largest ← h2_get max_outbound_frame_size;
        let available := Z.min window largest in
        if available <=? 0 then
          data ← on_transport t_read;
          _ ← _receive data;
          send_content fuel sid content offset
        else
          let end_ := Z.min (offset + available) (zlen content) in
          _ ← on_h2 (send_data sid (slice content offset end_) (end_ =? zlen content));
          _ ← _flush;
          send_content fuel sid content end_
    end
  else mret tt.

(** [{":status": str(status_code), **headers}] *)
Definition response_headers (status_code : Z) (headers : list (text * text)) : list field :=
  foldl (λ d kv, dict_set kv.1 kv.2 d) [(u ":status", str_int status_code)] headers.

Definition send_response (fuel : nat) (content : bytes) (headers : option (list (text * text)))
    (status_code : Z) : SM unit :=
  _ ← _check_cancelled;
  captured ← gets (λ s, stream_id (capture s));
  ready ← gets _request_ready;
  match captured, ready with
  | Some sid, true =>
      let '(content, headers) := prepare_response content headers status_code in
      _ ← on_h2 (send_headers sid (response_headers status_code headers)
                   (bool_decide (content = [])));
      _ ← _flush;
      send_content (length content + fuel) sid content 0
  | _, _ => raise (RuntimeError (u "No complete HTTP/2 request"))
  end.

End session.
