(* ===== verification/SessionLemmas.v ===== *)
(** * How a session's methods move its state

    The library behind SessionSpec.v: runs of a session, the preorders its methods
    move along (the capture grows, a GOAWAY is requested once, a quiet method touches
    only the transport and the connection), the frames that pass from the buffer to
    the capture ([captured], and [frame_of]: a frame and its octets), and what the log of
    h2's calls shows. *)

From S2P Require Import Prelude PyText Naming Frames FrameSpec HttpFields Validation.
From S2P Require Import Capture Adapter Session.

(** ** Runs of a session *)

(** The calls of a session's owner. *)
Inductive operation :=
  | OInitialize (incoming_data : bytes)
  | OReceiveRequest (fuel : nat)
  | OSendResponse (fuel : nat) (content : bytes) (headers : option (list (text * text)))
      (status_code : Z)
  | OClose (error_code : Z).

Section runs.
Context {C T : Type} `{H2Connection C} `{HTTP2Transport T}.
Context (h2_validate : list field → bool → result unit).
Abbreviation Session := (@HTTP2Session C T).
Implicit Types (s : Session).

Definition perform (op : operation) : M Session unit :=
  match op with
  | OInitialize data => initialize h2_validate data
  | OReceiveRequest fuel => receive_request h2_validate fuel
  | OSendResponse fuel content headers status =>
      send_response h2_validate fuel content headers status
  | OClose code => close code
  end.

(** The object after some operations, each of which may have raised. *)
Definition run (ops : list operation) (s : Session) : Session :=
  foldl (λ s op, (perform op s).2) s ops.

(** ** The capture only grows *)

(** What was captured stays: frames are appended, the request, its stream, the
    initial settings and the failed expectation are set once, and the flags of the
    session are never taken back. *)
Record grows s s' : Prop := mkGrows {
  gr_frames : frames (capture s) `prefix_of` frames (capture s');
  gr_request : stream_id (capture s) ≠ None →
    stream_id (capture s') = stream_id (capture s) ∧ headers (capture s') = headers (capture s);
  gr_settings : _first_frame s = false →
    _first_frame s' = false ∧ initial_settings (capture s') = initial_settings (capture s);
  gr_expectation : expectation_failed (capture s) = true → expectation_failed (capture s') = true;
  gr_bytes : _capture_bytes s ≤ _capture_bytes s';
  gr_ready : _request_ready s = true → _request_ready s' = true;
  gr_cancelled : _cancelled s = true → _cancelled s' = true;
  gr_initialized : _initialized s = true → _initialized s' = true;
  gr_closed : _closed s = true → _closed s' = true;
}.

#[export] Instance grows_preorder : PreOrder grows.
Proof.
  split.
  - intros s. by split.
  - intros s1 s2 s3 [] []. split; try (intros; auto; fail); try (etrans; done).
    + intros Hs. destruct (gr_request0 Hs) as [E1 E2].
      destruct (gr_request1 ltac:(by rewrite E1)) as [-> ->]. done.
    + intros Hs. destruct (gr_settings0 Hs) as [E1 E2].
      destruct (gr_settings1 E1) as [-> ->]. done.
Qed.

(** ** Quiet methods

    Methods that change nothing of the session but the transport, the connection
    and the closed flag, which they may only set. *)
Definition quiet s s' : Prop :=
  ∃ t a c, s' = set_closed c (set_connection a (set_transport t s)) ∧
    (_closed s = true → c = true).

#[export] Instance quiet_preorder : PreOrder quiet.
Proof.
  split.
  - intros s. exists (transport s), (connection s), (_closed s). by destruct s.
  - intros s1 s2 s3 (t & a & c & -> & Hc) (t' & a' & c' & -> & Hc').
    exists t', a', c'. split; [done|]. cbn in *. auto.
Qed.

Lemma quiet_grows s s' : quiet s s' → grows s s'.
Proof. intros (t & a & c & -> & Hc). by split. Qed.

Lemma stable_quiet_grows {A} (m : M Session A) : stable quiet m → stable grows m.
Proof. intros Hm s. apply quiet_grows, Hm. Qed.

(** Run a quiet method: all that is known of the rest of the object stays. *)
Lemma wp_quiet {A} (m : M Session A) (Q : A → Session → Prop) (E : exn → Session → Prop) s :
  stable quiet m → (∀ a s', quiet s s' → Q a s') → (∀ e s', quiet s s' → E e s') → wp m Q E s.
Proof. intros Hm HQ HE. eapply wp_wand; [by apply stable_wp|..]; auto. Qed.

Lemma on_adapter_quiet {A} (m : M (H2Adapter C) A) : stable quiet (on_adapter m).
Proof.
  intros s. unfold on_adapter. destruct (m (connection s)) as [r a].
  exists (transport s), a, (_closed s). by destruct s.
Qed.

Lemma on_h2_quiet {A} (m : M C A) : stable quiet (on_h2 m).
Proof. apply on_adapter_quiet. Qed.

Lemma on_transport_quiet {A} (m : M T A) : stable quiet (on_transport m).
Proof.
  intros s. unfold on_transport. destruct (m (transport s)) as [r t].
  exists t, (connection s), (_closed s). by destruct s.
Qed.

Lemma set_closed_quiet : stable quiet (modify (set_closed true)).
Proof. intros s. by exists (transport s), (connection s), true; destruct s. Qed.

Lemma h2_get_quiet {A} (f : C → A) : stable quiet (h2_get f).
Proof. apply stable_gets, _. Qed.

Lemma need_quiet {A} (o : option A) e : stable quiet (need o e).
Proof. unfold need. repeat stable_step. Qed.

#[local] Hint Resolve on_adapter_quiet on_h2_quiet on_transport_quiet set_closed_quiet
  h2_get_quiet need_quiet : stable.

Lemma flush_quiet : stable quiet _flush.
Proof. unfold _flush. repeat stable_step. Qed.
#[local] Hint Resolve flush_quiet : stable.

Lemma close_quiet code : stable quiet (close code).
Proof. unfold close. repeat stable_step. Qed.
#[local] Hint Resolve close_quiet : stable.

Lemma fail_quiet {A} m code : stable quiet (@_fail C T _ _ A m code).
Proof. unfold _fail. repeat stable_step. Qed.

Lemma fail_protocol_quiet {A} m : stable quiet (@fail_protocol C T _ _ A m).
Proof. apply fail_quiet. Qed.

Lemma fail_calm_quiet {A} m : stable quiet (@fail_calm C T _ _ A m).
Proof. apply fail_quiet. Qed.
#[local] Hint Resolve fail_quiet fail_protocol_quiet fail_calm_quiet : stable.

Lemma check_cancelled_quiet : stable quiet _check_cancelled.
Proof. unfold _check_cancelled. repeat stable_step. Qed.

Lemma priority_limit_quiet : stable quiet _check_priority_limit.
Proof. unfold _check_priority_limit. repeat stable_step. Qed.

Lemma check_fields_quiet hs trailers : stable quiet (check_fields h2_validate hs trailers).
Proof. unfold check_fields. repeat stable_step. Qed.

Lemma check_reset_quiet h : stable quiet (check_reset h).
Proof. unfold check_reset. repeat stable_step. Qed.

Lemma wire_for_h2_quiet h p w : stable quiet (wire_for_h2 h p w).
Proof. unfold wire_for_h2. repeat stable_step. Qed.

Lemma rescue_quiet e : stable quiet (rescue e).
Proof. unfold rescue. repeat stable_step. Qed.

Lemma settle_quiet h p : stable quiet (settle h p).
Proof. unfold settle. repeat stable_step. Qed.
#[local] Hint Resolve check_cancelled_quiet priority_limit_quiet check_fields_quiet
  check_reset_quiet wire_for_h2_quiet rescue_quiet settle_quiet : stable.

(** A failure leaves the method it is called in. *)
Lemma wp_fail {A} m code (Q : A → Session → Prop) (E : exn → Session → Prop) s :
  (∀ e s', quiet s s' → E e s') → wp (_fail m code) Q E s.
Proof.
  intros HE. unfold _fail. apply wp_bind, wp_quiet; [apply close_quiet| |done].
  intros [] s' Hs. by apply wp_raise, HE.
Qed.

(** [rescue] always raises. *)
Lemma rescue_raises e s (Q : unit → Session → Prop) : wp (rescue e) Q (λ _ _, True) s.
Proof.
  unfold rescue.
  repeat first [exact Logic.I|wp_step|apply wp_quiet; [solve [auto with stable]|intros..]].
Qed.

(** Symbolic execution: quiet calls are skipped, the other steps are run. *)
Ltac quiet_step :=
  apply wp_quiet; [solve [auto with stable]| |];
    [intros ? ? (? & ? & ? & -> & ?)|intros ? ? (? & ? & ? & -> & ?)].

Ltac run_step := first [progress cbn iota beta zeta | wp_step | quiet_step | apply wp_fail; intros ? ? (? & ? & ? & -> & ?)].

(** The end of a path: the assignments made are allowed by [grows]. *)
Ltac grow_end := split; cbn in *; intros; first [done|lia|by apply prefix_app_r|by auto|congruence].

Lemma accept_request_grows sid hs ended s :
  stream_id (capture s) = None →
  wp (accept_request sid hs ended) (λ _, grows s) (λ _, grows s) s.
Proof.
  intros Hs. unfold accept_request, update_capture. repeat run_step; grow_end.
Qed.

Lemma process_event_grows ev : stable grows (_process_event h2_validate ev).
Proof.
  apply wp_stable. intros s. unfold _process_event, update_capture.
  destruct ev; repeat run_step; try grow_end.
  all: eapply wp_wand; [apply accept_request_grows; cbn; done|..];
    (cbn; intros; etrans; [|done]; grow_end).
Qed.

Lemma quiet_growing {A} (m : M Session A) : stable quiet m → stable grows m.
Proof. apply stable_quiet_grows. Qed.

Lemma modify_grows f : (∀ s, grows s (f s)) → stable grows (modify f).
Proof. apply stable_modify. Qed.

(** Steps through a method: known methods, quiet methods, harmless assignments. *)
Ltac grows_step :=
  first
    [ stable_step
    | apply quiet_growing; solve [auto with stable]
    | apply modify_grows; solve [intros; split; cbn; intros; first [done|lia|by apply prefix_app_r]] ].

Lemma process_events_grows evs : stable grows (process_events h2_validate evs).
Proof.
  induction evs as [|ev evs IH]; cbn [process_events]; [apply stable_ret, _|].
  apply stable_bind; [apply _|apply process_event_grows|done].
Qed.

Lemma check_first_frame_grows h p : stable grows (check_first_frame h p).
Proof.
  apply wp_stable. intros s. unfold check_first_frame, update_capture. repeat run_step; grow_end.
Qed.

Lemma check_header_block_grows h : stable grows (check_header_block h).
Proof.
  unfold check_header_block, fail_protocol, fail_calm. repeat grows_step.
Qed.

Lemma priority_update_grows p : stable grows (process_priority_update p).
Proof. unfold process_priority_update. repeat grows_step. Qed.

Lemma goaway_grows p : stable grows (process_goaway p).
Proof. unfold process_goaway. repeat grows_step. Qed.

#[local] Hint Resolve process_events_grows check_first_frame_grows check_header_block_grows
  priority_update_grows goaway_grows : stable.

Lemma deliver_grows h p w : stable grows (deliver h2_validate h p w).
Proof. unfold deliver. repeat grows_step. Qed.
#[local] Hint Resolve deliver_grows : stable.

Lemma process_known_grows h p w : stable grows (process_known h2_validate h p w).
Proof. unfold process_known. repeat grows_step. Qed.
#[local] Hint Resolve process_known_grows : stable.

Lemma process_frame_grows f w : stable grows (_process_frame h2_validate f w).
Proof. unfold _process_frame. repeat grows_step. Qed.

Lemma capture_frame_grows w m : stable grows (capture_frame w m).
Proof.
  unfold capture_frame, update_capture. repeat grows_step.
Qed.
#[local] Hint Resolve process_frame_grows capture_frame_grows : stable.

Lemma receive_frames_grows fuel : stable grows (receive_frames h2_validate fuel).
Proof.
  induction fuel as [|fuel IH]; cbn [receive_frames]; repeat grows_step.
Qed.
#[local] Hint Resolve receive_frames_grows : stable.

Lemma receive_grows data : stable grows (_receive h2_validate data).
Proof.
  apply wp_stable. intros s. unfold _receive. destruct data as [|b data]; [apply wp_raise; done|].
  pose proof (zlen_nonneg (b :: data)).
  assert (grows s (set_capture_bytes (_capture_bytes s + zlen (b :: data)) s)) as HG by grow_end.
  apply wp_bind, wp_gets, wp_bind, wp_modify. eapply wp_stable_from; [apply _|exact HG|].
  repeat grows_step.
Qed.
#[local] Hint Resolve receive_grows : stable.

Lemma initialize_grows data : stable grows (initialize h2_validate data).
Proof. unfold initialize. repeat grows_step. Qed.

Lemma receive_request_grows fuel : stable grows (receive_request h2_validate fuel).
Proof. induction fuel as [|fuel IH]; cbn [receive_request]; repeat grows_step. Qed.

Lemma send_content_grows fuel sid content offset :
  stable grows (send_content h2_validate fuel sid content offset).
Proof.
  revert offset. induction fuel as [|fuel IH]; intros offset; cbn [send_content];
    repeat grows_step.
Qed.
#[local] Hint Resolve send_content_grows : stable.

Lemma send_response_grows fuel content hs status :
  stable grows (send_response h2_validate fuel content hs status).
Proof. unfold send_response. repeat grows_step. Qed.

#[local] Hint Resolve initialize_grows receive_request_grows send_response_grows : stable.

Lemma perform_grows op : stable grows (perform op).
Proof. destruct op; cbn [perform]; repeat grows_step. Qed.

Lemma run_grows ops s : grows s (run ops s).
Proof.
  revert s. induction ops as [|op ops IH]; intros s; [done|]. cbn [run foldl].
  etrans; [apply perform_grows|apply IH].
Qed.

End runs.

(** ** At most one GOAWAY

    Stated on the log of the calls made of h2. *)
Section goaway.
Context {C T : Type} `{H2Connection C} `{HTTP2Transport T}.
Context (h2_validate : list field → bool → result unit).
Abbreviation Session := (@HTTP2Session (logged C) T).
Implicit Types (s : Session) (a : H2Adapter (logged C)).

(** The code of a GOAWAY that the session requested and h2 accepted. *)
Definition goaway_request (c : call) : option Z :=
  match c with CClose code (Some _) true => Some code | _ => None end.

Definition adapter_goaways a : list Z := omap goaway_request (calls a).

Definition goaways s : list Z := adapter_goaways (connection s).

(** A closed session stays closed and requests no GOAWAY any more; one that is not
    closed has requested none. *)
Definition one_goaway s : Prop :=
  (length (goaways s) ≤ 1)%nat ∧ (_closed s = false → goaways s = []).

Definition goaway_step s s' : Prop :=
  (_closed s = true → _closed s' = true ∧ goaways s' = goaways s) ∧
  (one_goaway s → one_goaway s').

#[export] Instance goaway_step_preorder : PreOrder goaway_step.
Proof.
  split; [by split; auto|]. intros s1 s2 s3 [H1 H2] [H3 H4]. split; [|auto].
  intros Hc. destruct (H1 Hc) as [Hc2 <-]. by apply H3.
Qed.

Definition keep_goaways a a' : Prop := adapter_goaways a' = adapter_goaways a.

#[export] Instance keep_goaways_preorder : PreOrder keep_goaways.
Proof. unfold keep_goaways. split; [done|]. intros a b c H1 H2. congruence. Qed.

Lemma log_keeps {A} (m : M C A) f :
  (∀ r, omap goaway_request (f r) = []) → stable keep_goaways (on_conn (log_call m f)).
Proof.
  intros Hf a. unfold on_conn, log_call. destruct (m _) as [r c]. cbn.
  unfold keep_goaways, adapter_goaways, calls. cbn. by rewrite omap_app, Hf, app_nil_r.
Qed.

Lemma output_keeps : stable keep_goaways (on_conn data_to_send).
Proof. apply log_keeps. by intros [[]|]. Qed.

Lemma receive_data_keeps d : stable keep_goaways (receive_data d).
Proof.
  unfold receive_data. repeat first [stable_step|by apply log_keeps].
Qed.

Lemma sleep_keeps : stable keep_goaways (on_conn sleep).
Proof. by apply log_keeps. Qed.
#[local] Hint Resolve output_keeps receive_data_keeps sleep_keeps : stable.

Lemma replay_keeps index w : stable keep_goaways (replay_settings index w).
Proof.
  revert index. induction w as [|[i v] w IH]; intros index; cbn [replay_settings]; repeat stable_step.
Qed.
#[local] Hint Resolve replay_keeps : stable.

Lemma apply_settings_keeps entries : stable keep_goaways (apply_settings entries).
Proof.
  unfold apply_settings.
  repeat first [stable_step|apply stable_modify; done|by apply log_keeps].
Qed.
#[local] Hint Resolve apply_settings_keeps : stable.

(** What keeps the requests and does not clear the flag is a step. *)
Lemma goaway_step_keep s s' :
  goaways s' = goaways s → (_closed s = true → _closed s' = true) → goaway_step s s'.
Proof.
  intros Hg Hc. split; [by auto|]. intros [H1 H2]. split; [by rewrite Hg|].
  intros Hs'. rewrite Hg. apply H2. destruct (_closed s); [by rewrite Hc in Hs'|done].
Qed.

Lemma on_adapter_goaway {A} (m : M (H2Adapter (logged C)) A) :
  stable keep_goaways m → stable goaway_step (on_adapter m).
Proof.
  intros Hm s. specialize (Hm (connection s)). unfold on_adapter.
  destruct (m (connection s)) as [r a]. by apply goaway_step_keep.
Qed.

Lemma on_log_goaway {A} (m : M C A) f :
  (∀ r, omap goaway_request (f r) = []) → stable goaway_step (on_h2 (log_call m f)).
Proof. intros. by apply on_adapter_goaway, log_keeps. Qed.

Lemma on_transport_goaway {A} (m : M T A) : stable goaway_step (on_transport m).
Proof.
  intros s. unfold on_transport. destruct (m (transport s)) as [r t]. by apply goaway_step_keep.
Qed.

Lemma on_output_goaway : stable goaway_step (on_h2 data_to_send).
Proof. apply on_adapter_goaway, output_keeps. Qed.
#[local] Hint Resolve on_transport_goaway on_output_goaway : stable.

Lemma h2_get_goaway {A} (f : logged C → A) : stable goaway_step (h2_get f).
Proof. apply stable_gets, _. Qed.
#[local] Hint Resolve h2_get_goaway : stable.

Lemma flush_goaway : stable goaway_step _flush.
Proof. unfold _flush. repeat stable_step. Qed.
#[local] Hint Resolve flush_goaway : stable.

Lemma close_goaway code : stable goaway_step (close code).
Proof.
  unfold close. apply wp_stable. intros s. apply wp_bind, wp_gets, wp_bind.
  destruct (_closed s) eqn:Hc.
  { apply wp_ret. apply stable_wp, flush_goaway. }
  unfold wp at 1. unfold mbind, M_bind, gets, on_h2, on_adapter, on_conn.
  cbn [close_connection logged_h2]. unfold log_call.
  destruct (close_connection code _ _) as [[[]|e] c]; cbn.
  - apply wp_stable_from; [apply _| |apply flush_goaway]. split; [by rewrite Hc|].
    intros [_ Hno]. specialize (Hno Hc). unfold one_goaway, goaways, adapter_goaways, calls in *.
    cbn. rewrite omap_app, Hno. split; [done|by intros]. 
  - apply goaway_step_keep; [|done]. unfold goaways, adapter_goaways, calls. cbn.
    by rewrite omap_app, app_nil_r.
Qed.
#[local] Hint Resolve close_goaway : stable.

(** Steps through a method: calls of h2 by their log entries, assignments by
    inspection. *)
Ltac goaway_tac :=
  repeat first
    [ stable_step
    | apply on_adapter_goaway; solve [auto with stable]
    | apply on_log_goaway; solve [by intros []|done]
    | apply stable_modify; intros; apply goaway_step_keep; done ].

Lemma fail_goaway {A} m code : stable goaway_step (@_fail (logged C) T _ _ A m code).
Proof. unfold _fail. goaway_tac. Qed.
#[local] Hint Resolve fail_goaway : stable.

Lemma priority_limit_goaway : stable goaway_step _check_priority_limit.
Proof. unfold _check_priority_limit, fail_protocol. goaway_tac. Qed.

Lemma check_cancelled_goaway : stable goaway_step _check_cancelled.
Proof. unfold _check_cancelled. goaway_tac. Qed.
#[local] Hint Resolve priority_limit_goaway check_cancelled_goaway : stable.

Lemma need_goaway {A} (o : option A) e : stable goaway_step (need o e).
Proof. unfold need. goaway_tac. Qed.
#[local] Hint Resolve need_goaway : stable.

Lemma process_event_goaway ev : stable goaway_step (_process_event h2_validate ev).
Proof.
  unfold _process_event, check_fields, accept_request, fail_protocol, fail_calm, update_capture.
  cbn [send_headers reset_stream acknowledge_received_data logged_h2]. goaway_tac.
Qed.
#[local] Hint Resolve process_event_goaway : stable.

Lemma process_events_goaway evs : stable goaway_step (process_events h2_validate evs).
Proof. induction evs; cbn [process_events]; goaway_tac. Qed.
#[local] Hint Resolve process_events_goaway : stable.

Lemma process_frame_goaway f w : stable goaway_step (_process_frame h2_validate f w).
Proof.
  unfold _process_frame, check_first_frame, check_header_block, process_known, check_reset,
    process_priority_update, process_goaway, wire_for_h2, deliver, rescue, settle, fail_protocol,
    fail_calm, update_capture. cbn [sleep logged_h2]. goaway_tac.
Qed.
#[local] Hint Resolve process_frame_goaway : stable.

Lemma receive_frames_goaway fuel : stable goaway_step (receive_frames h2_validate fuel).
Proof.
  induction fuel as [|fuel IH]; cbn [receive_frames]; [goaway_tac|].
  unfold capture_frame, fail_calm, update_capture. goaway_tac.
Qed.
#[local] Hint Resolve receive_frames_goaway : stable.

Lemma receive_goaway data : stable goaway_step (_receive h2_validate data).
Proof. unfold _receive, fail_calm. goaway_tac. Qed.
#[local] Hint Resolve receive_goaway : stable.

Lemma receive_request_goaway fuel : stable goaway_step (receive_request h2_validate fuel).
Proof. induction fuel as [|fuel IH]; cbn [receive_request]; goaway_tac. Qed.

Lemma send_content_goaway fuel sid content offset :
  stable goaway_step (send_content h2_validate fuel sid content offset).
Proof.
  revert offset. induction fuel as [|fuel IH]; intros offset; cbn [send_content];
    cbn [local_flow_control_window send_data logged_h2]; goaway_tac.
Qed.
#[local] Hint Resolve receive_request_goaway send_content_goaway : stable.

Lemma perform_goaway op : stable goaway_step (perform h2_validate op).
Proof.
  destruct op; cbn [perform]; unfold initialize, send_response, fail_protocol;
    cbn [initiate_connection send_headers logged_h2]; goaway_tac.
Qed.

Lemma run_goaway ops s : goaway_step s (run h2_validate ops s).
Proof.
  revert s. induction ops as [|op ops IH]; intros s; [done|]. cbn [run foldl].
  etrans; [apply perform_goaway|apply IH].
Qed.

End goaway.

(** ** What is captured *)

Section capture.
Context {C T : Type} `{H2Connection C} `{HTTP2Transport T}.
Context (h2_validate : list field → bool → result unit).
Abbreviation Session := (@HTTP2Session C T).
Implicit Types (s : Session).

(** The way a session reads: any padding is accepted, malformed payloads are kept. *)
Definition capturing : config := mkConfig MAX_ALLOWED_FRAME_SIZE false true None.

(** [f] is the frame whose octets are [wire]: a header and a payload of the announced
    length, decoded if the payload is one of its type, and otherwise kept with the error
    that these octets give. *)
Definition frame_of (wire : bytes) (f : ParsedFrame) : Prop :=
  pf_raw f = wire ∧ ∃ hb pl k,
    wire = hb ++ pl ∧ header_wire (pf_header f) hb ∧ fh_length (pf_header f) = zlen pl ∧
    frame_outcome capturing (pf_header f) pl (pf_payload f) k.

Definition raw_octets (fs : list ParsedFrame) : bytes := concat (pf_raw <$> fs).

(** The decoded entries that the frames hold. *)
Definition entries_kept (fs : list ParsedFrame) : Z :=
  Z.of_nat (sum_list_with (λ f, entries_of (pf_payload f)) fs).
#[local] Arguments entries_kept : simpl never.

Lemma entries_kept_app fs gs : entries_kept (fs ++ gs) = entries_kept fs + entries_kept gs.
Proof. unfold entries_kept. rewrite sum_list_with_app. lia. Qed.

Lemma entries_kept_one f : entries_kept [f] = Z.of_nat (entries_of (pf_payload f)).
Proof. unfold entries_kept. cbn. lia. Qed.

Lemma entries_kept_nonneg fs : 0 ≤ entries_kept fs.
Proof. apply Nat2Z.is_nonneg. Qed.

Lemma outcome_entries c h pl p k : frame_outcome c h pl p k → (entries_of p ≤ k)%nat.
Proof. destruct 1; cbn; lia. Qed.

Lemma outcome_config c c0 h pl p k :
  c_strict c = c_strict c0 → c_forensic c = c_forensic c0 →
  frame_outcome c h pl p k → frame_outcome c0 h pl p k.
Proof. intros Es Ef Ho. destruct Ho; constructor; rewrite <-?Es, <-?Ef; done. Qed.

(** The captured frames are what their octets say, their number and that of their
    entries is bounded, and so is the number of octets kept; the counters count at least
    what is kept. *)
Record captured s : Prop := mkCaptured {
  cp_buffer : bytes_ok (_buffer s);
  cp_frames : zlen (frames (capture s)) ≤ MAX_CAPTURE_FRAMES;
  cp_entries : entries_kept (frames (capture s)) ≤ _capture_entries s ≤ MAX_CAPTURE_ENTRIES;
  cp_decoded : Forall (λ f, frame_of (pf_raw f) f) (frames (capture s));
  cp_counted : zlen (raw_octets (frames (capture s))) + zlen (_buffer s) ≤ _capture_bytes s;
  cp_bytes : zlen (raw_octets (frames (capture s))) + zlen (_buffer s) ≤ MAX_CAPTURE_BYTES;
}.

(** Methods that leave the captured frames, the buffer and the counters alone. *)
Definition keeps_capture s s' : Prop :=
  frames (capture s') = frames (capture s) ∧ _buffer s' = _buffer s ∧
  _capture_entries s' = _capture_entries s ∧ _capture_bytes s' = _capture_bytes s.

#[export] Instance keeps_capture_preorder : PreOrder keeps_capture.
Proof.
  unfold keeps_capture. split; [done|]. intros s1 s2 s3 (?&?&?&?) (?&?&?&?).
  split_and!; congruence.
Qed.

Lemma keeps_captured s s' : keeps_capture s s' → captured s → captured s'.
Proof.
  intros (E1 & E2 & E3 & E4) []. split; by rewrite ?E1, ?E2, ?E3, ?E4.
Qed.

Lemma quiet_keeps {A} (m : M Session A) : stable quiet m → stable keeps_capture m.
Proof. intros Hm s. by destruct (Hm s) as (t & a & c & -> & _). Qed.

(** The hints of the first section, for this one. *)
#[local] Hint Resolve @on_adapter_quiet @on_h2_quiet @on_transport_quiet @h2_get_quiet
  @need_quiet @flush_quiet @close_quiet @fail_quiet @fail_protocol_quiet @fail_calm_quiet
  @check_cancelled_quiet @priority_limit_quiet @check_fields_quiet @check_reset_quiet
  @wire_for_h2_quiet @rescue_quiet @settle_quiet : stable.

Ltac keeps_tac :=
  repeat first
    [ stable_step
    | apply quiet_keeps; solve [auto with stable]
    | apply stable_modify; done ].

Lemma process_event_keeps ev : stable keeps_capture (_process_event h2_validate ev).
Proof. unfold _process_event, accept_request, update_capture. keeps_tac. Qed.
#[local] Hint Resolve process_event_keeps : stable.

Lemma process_events_keeps evs : stable keeps_capture (process_events h2_validate evs).
Proof. induction evs; cbn [process_events]; keeps_tac. Qed.
#[local] Hint Resolve process_events_keeps : stable.

Lemma process_frame_keeps f w : stable keeps_capture (_process_frame h2_validate f w).
Proof.
  unfold _process_frame, check_first_frame, check_header_block, process_known,
    process_priority_update, process_goaway, deliver, update_capture. keeps_tac.
Qed.

(** Reading one complete frame. *)
Lemma parse_wire wire maximum entries :
  bytes_ok wire → 0 ≤ entries ≤ MAX_CAPTURE_ENTRIES →
  FRAME_HEADER_SIZE + be_val (take 3 wire) = zlen wire →
  match parse_frame (new_frame_reader wire maximum false true (Some (MAX_CAPTURE_ENTRIES - entries)))
  with
  | (Ok f, r) => frame_of wire f ∧
      entries + entries_kept [f] ≤ entries + fr_entries_read r ≤ MAX_CAPTURE_ENTRIES
  | (Err e, _) => ∃ msg code, e = HTTP2FrameParsingError msg code
  end.
Proof.
  intros Hw He Hl.
  set (c := mkConfig (Z.min maximum MAX_ALLOWED_FRAME_SIZE) false true
              (Some (MAX_CAPTURE_ENTRIES - entries))).
  replace (new_frame_reader _ _ _ _ _) with (st c None [] wire 0)
    by (unfold st, new_frame_reader; simpl; by rewrite app_nil_r).
  pose proof (parse_frame_spec c [] wire 0 Hw ltac:(unfold within; cbn; lia)) as HS.
  destruct (parse_frame _) as [[f|e] r]; [|destruct HS as [(m & code & -> & _) _]; by eexists _, _].
  destruct HS as (hb & pl & tl & k & -> & Hr & Hh & Hpl & _ & Hk & -> & HO).
  assert (zlen hb = FRAME_HEADER_SIZE ∧ be_val (take 3 (hb ++ pl ++ tl)) = zlen pl) as [Hhb Hlen].
  { destruct Hh as (Hf & _ & _ & sbs & Hs & ->).
    assert (length sbs = 4%nat) as Hsl.
    { destruct Hs as (_ & r & ->); by rewrite length_be_bytes. }
    split.
    - rewrite !zlen_app, !zlen_be_bytes. unfold zlen. rewrite Hsl. done.
    - rewrite <-app_assoc, take_app_le by (by rewrite length_be_bytes).
      rewrite firstn_all2 by (by rewrite length_be_bytes).
      rewrite be_val_bytes; [done|]. change (256 ^ Z.of_nat 3) with 16777216. lia. }
  assert (tl = []) as ->.
  { rewrite Hlen, !zlen_app in Hl. destruct tl as [|x tl]; [done|].
    rewrite zlen_cons in Hl. pose proof (zlen_nonneg tl). lia. }
  rewrite app_nil_r in *. split.
  - split; [done|]. exists hb, pl, k. split_and!; [done..|]. by eapply outcome_config; [| |exact HO].
  - rewrite entries_kept_one. apply outcome_entries in HO. unfold within in Hk. cbn in Hk |- *. lia.
Qed.

Lemma raw_octets_snoc fs f : raw_octets (fs ++ [f]) = raw_octets fs ++ pf_raw f.
Proof. unfold raw_octets. rewrite fmap_app, concat_app. cbn. by rewrite app_nil_r. Qed.

(** [capture_frame] appends the frame of [wire], or fails with the capture as it was. *)
Lemma capture_frame_spec wire maximum s :
  bytes_ok wire → 0 ≤ _capture_entries s ≤ MAX_CAPTURE_ENTRIES →
  FRAME_HEADER_SIZE + be_val (take 3 wire) = zlen wire →
  wp (capture_frame wire maximum)
    (λ f s', frame_of wire f ∧ zlen (frames (capture s)) < MAX_CAPTURE_FRAMES ∧
       frames (capture s') = frames (capture s) ++ [f] ∧ _buffer s' = _buffer s ∧
       _capture_entries s + entries_kept [f] ≤ _capture_entries s' ≤ MAX_CAPTURE_ENTRIES ∧
       _capture_bytes s' = _capture_bytes s)
    (λ e s', frames (capture s') = frames (capture s) ∧ _buffer s' = _buffer s ∧
       _capture_entries s ≤ _capture_entries s' ≤ MAX_CAPTURE_ENTRIES ∧
       _capture_bytes s' = _capture_bytes s) s.
Proof.
  intros Hw He Hl. unfold capture_frame, fail_calm, update_capture. apply wp_bind, wp_gets.
  cbn zeta. pose proof (parse_wire wire maximum _ Hw He Hl) as HP.
  destruct (parse_frame _) as [[f|e] r].
  - destruct HP as [Hf Hr]. pose proof (entries_kept_nonneg [f]). apply wp_bind, wp_modify, wp_bind, wp_gets. cbn.
    rewrite Z.geb_leb. destruct (Z.leb_spec MAX_CAPTURE_FRAMES (zlen (frames (capture s)))).
    + apply wp_fail. intros e s' (t & a & c & -> & _). cbn. split_and!; [done|done|lia|lia|done].
    + apply wp_bind, wp_modify, wp_ret. cbn. split_and!; (done || lia).
  - destruct HP as (m & code & ->). apply wp_fail. intros e s' (t & a & c & -> & _). cbn. by split_and!; (done || lia).
Qed.

(** The frames read move from the buffer to the capture, in order and unchanged;
    [rest] is what is left of the buffer. *)
Definition moved s s' (rest : bytes) : Prop :=
  ∃ new, frames (capture s') = frames (capture s) ++ new ∧
    raw_octets new ++ rest = _buffer s ∧ Forall (λ f, frame_of (pf_raw f) f) new ∧
    zlen (frames (capture s')) ≤ MAX_CAPTURE_FRAMES ∧
    _capture_entries s + entries_kept new ≤ _capture_entries s' ≤ MAX_CAPTURE_ENTRIES ∧
    _capture_bytes s' = _capture_bytes s.

(** No complete frame is left. *)
Definition drained (buffer : bytes) : Prop :=
  zlen buffer < FRAME_HEADER_SIZE ∨ zlen buffer < FRAME_HEADER_SIZE + be_val (take 3 buffer).

Lemma moved_none s s' :
  keeps_capture s s' → zlen (frames (capture s)) ≤ MAX_CAPTURE_FRAMES →
  0 ≤ _capture_entries s ≤ MAX_CAPTURE_ENTRIES → moved s s' (_buffer s).
Proof.
  intros (E1 & E2 & E3 & E4) Hf He. exists []. rewrite E1, E3, E4, app_nil_r.
  split_and!; [done|done|by apply Forall_nil|lia|unfold entries_kept; cbn; lia|lia|done].
Qed.

Lemma moved_cons s s1 s' f rest :
  frame_of (pf_raw f) f → frames (capture s1) = frames (capture s) ++ [f] →
  _capture_entries s + entries_kept [f] ≤ _capture_entries s1 →
  _capture_bytes s1 = _capture_bytes s → _buffer s = pf_raw f ++ _buffer s1 →
  moved s1 s' rest → moved s s' rest.
Proof.
  intros Hf Hs1 He Hb Hbuf (new & H1 & H2 & H3 & H4 & H5 & H6). exists (f :: new).
  pose proof (entries_kept_app [f] new) as HE. cbn [app] in HE.
  rewrite H1, Hs1 in *. split_and!; [by rewrite <-app_assoc| |by constructor|lia|lia|lia|congruence].
  rewrite Hbuf, <-H2. unfold raw_octets. cbn. by rewrite app_assoc.
Qed.

Lemma receive_frames_moved fuel s :
  bytes_ok (_buffer s) → zlen (frames (capture s)) ≤ MAX_CAPTURE_FRAMES →
  0 ≤ _capture_entries s ≤ MAX_CAPTURE_ENTRIES →
  wp (receive_frames h2_validate fuel)
    (λ _ s', moved s s' (_buffer s') ∧ drained (_buffer s'))
    (λ _ s', ∃ rest, moved s s' rest ∧ _buffer s' `suffix_of` rest) s.
Proof.
  revert s. induction fuel as [|fuel IH]; intros s Hb Hf He; cbn [receive_frames].
  { apply wp_raise. exists (_buffer s). split; [by apply moved_none|done]. }
  apply wp_bind, wp_gets. destruct (Z.ltb_spec (zlen (_buffer s)) FRAME_HEADER_SIZE) as [H9|H9].
  { apply wp_ret. split; [by apply moved_none|by left]. }
  apply wp_bind, wp_gets. set (b := _buffer s) in *. set (len := be_val (take 3 b)).
  apply wp_if; intros _.
  { apply wp_fail. intros e s' (t & a & c & -> & _). exists b. split; [by apply moved_none|done]. }
  cbn zeta. destruct (Z.ltb_spec (zlen b) (FRAME_HEADER_SIZE + len)) as [Hl|Hl].
  { apply wp_ret. split; [by apply moved_none|by right]. }
  assert (0 ≤ len) as Hlen by (apply be_val_range; by apply bytes_ok_take).
  set (n := Z.to_nat (FRAME_HEADER_SIZE + len)).
  assert (zlen (take n b) = FRAME_HEADER_SIZE + len) as Hwl
    by (apply zlen_take; unfold FRAME_HEADER_SIZE in *; lia).
  assert (take 3 (take n b) = take 3 b) as Ht.
  { rewrite take_take. f_equal. unfold n, FRAME_HEADER_SIZE. lia. }
  apply wp_bind, wp_modify, wp_bind.
  eapply wp_wand; [apply capture_frame_spec; cbn; [by apply bytes_ok_take|done|]|..].
  { by rewrite Ht, Hwl. }
  2:{ intros e s' (E1 & E2 & E3 & E4). cbn in *. exists b. split.
      - exists []. rewrite E1, app_nil_r.
        split_and!; [done|done|by apply Forall_nil|lia|unfold entries_kept; cbn; lia|lia|done].
      - rewrite E2. exists (take n b). by rewrite take_drop. }
  intros f s1 (Hfo & Hroom & E1 & E2 & E3 & E4). cbn in E1, E2, E3, E4, Hroom.
  pose proof (entries_kept_nonneg [f]) as Hk0.
  assert (pf_raw f = take n b) as Hraw by apply Hfo.
  assert (∀ s' rest, moved s1 s' rest → moved s s' rest) as Hmove.
  { intros s' rest. apply (moved_cons s s1 s' f); [by rewrite Hraw|done|lia|done|].
    rewrite Hraw, E2. by rewrite take_drop. }
  assert (zlen (frames (capture s1)) ≤ MAX_CAPTURE_FRAMES) as Hf1.
  { rewrite E1, zlen_app. change (zlen [f]) with 1. lia. }
  apply wp_bind. eapply wp_wand; [apply stable_wp, process_frame_keeps|..]; cbn.
  - intros _ s2 Hk. destruct Hk as (K1 & K2 & K3 & K4).
    assert (∀ s' rest, moved s2 s' rest → moved s1 s' rest) as Hmove2.
    { intros s' rest (new & ?). exists new. by rewrite <-K1, <-K2, <-K3, <-K4. }
    eapply wp_wand; [apply IH|..]; cbn.
    + rewrite K2, E2. by apply bytes_ok_drop.
    + by rewrite K1.
    + rewrite K3. lia.
    + intros _ s' [Hm Hd]. by auto.
    + intros _ s' (rest & Hm & Hr). exists rest. by auto.
  - intros e s2 Hk. exists (_buffer s1). split; [apply Hmove, moved_none; (done || lia)|].
    destruct Hk as (_ & -> & _). done.
Qed.

Lemma moved_captured s s' rest :
  captured s → moved s s' rest → _buffer s' `suffix_of` rest → captured s'.
Proof.
  intros [Hb Hf He Hd Hc Hm] (new & E1 & E2 & H3 & H4 & H5 & H6) [k Hk]. subst rest.
  rewrite <-E2 in *. apply bytes_ok_app in Hb as [_ Hb]. apply bytes_ok_app in Hb as [_ Hb].
  rewrite !zlen_app in *. pose proof (zlen_nonneg k).
  split; rewrite ?H6, ?E1; try done.
  - rewrite <-E1. done.
  - rewrite entries_kept_app. lia.
  - apply Forall_app. done.
  - unfold raw_octets in *. rewrite fmap_app, concat_app, zlen_app. lia.
  - unfold raw_octets in *. rewrite fmap_app, concat_app, zlen_app. lia.
Qed.

Lemma captured_entries s : captured s → 0 ≤ _capture_entries s ≤ MAX_CAPTURE_ENTRIES.
Proof. intros []. pose proof (entries_kept_nonneg (frames (capture s))). lia. Qed.

Lemma receive_captured data s :
  bytes_ok data → captured s →
  wp (_receive h2_validate data) (λ _, captured) (λ _, captured) s.
Proof.
  intros Hdata Hs. unfold _receive, fail_calm. destruct data as [|b data]; [by apply wp_raise|].
  set (d := b :: data) in *. clearbody d. clear b data. pose proof (zlen_nonneg d).
  apply wp_bind, wp_gets, wp_bind, wp_modify. rewrite Z.gtb_ltb.
  destruct Hs as [Hb Hf He Hd Hc Hm].
  destruct (Z.ltb_spec MAX_CAPTURE_BYTES (_capture_bytes s + zlen d)).
  { apply wp_fail. intros e s' (t & a & c & -> & _). split; cbn; try done; lia. }
  apply wp_bind, wp_modify, wp_bind, wp_gets. set (s1 := set_buffer _ _).
  assert (captured s1) as Hs1.
  { split; cbn; try done; [by apply bytes_ok_app| |]; rewrite zlen_app; lia. }
  apply wp_bind. eapply wp_wand; [by apply receive_frames_moved; [apply Hs1..|apply captured_entries]|..]; cbn.
  - intros _ s2 [Hm2 _]. assert (captured s2) as Hs2 by (by eapply moved_captured).
    apply wp_bind, wp_quiet; [apply flush_quiet| |].
    + intros _ s3 Hq. assert (captured s3) as Hs3.
      { eapply keeps_captured; [|exact Hs2]. by destruct Hq as (t & a & c & -> & _). }
      apply wp_quiet; [apply check_cancelled_quiet| |]; intros _ s4 (t & a & c & -> & _);
        (eapply keeps_captured; [|exact Hs3]; done).
    + intros _ s3 (t & a & c & -> & _). by eapply keeps_captured; [|exact Hs2].
  - intros e s2 (rest & Hm2 & Hr). by eapply moved_captured.
Qed.

(** All of [_receive]: what it captures, and what it leaves. *)
Lemma receive_moved data s :
  bytes_ok data → captured s →
  wp (_receive h2_validate data)
    (λ _ s', ∃ new rest, frames (capture s') = frames (capture s) ++ new ∧
       Forall (λ f, frame_of (pf_raw f) f) new ∧ raw_octets new ++ rest = _buffer s ++ data ∧
       (Ok tt = Ok tt → rest = _buffer s' ∧ drained rest))
    (λ _ s', ∃ new rest, frames (capture s') = frames (capture s) ++ new ∧
       Forall (λ f, frame_of (pf_raw f) f) new ∧ raw_octets new ++ rest = _buffer s ++ data) s.
Proof.
  intros Hdata Hs. unfold _receive, fail_calm.
  assert (∀ s', frames (capture s') = frames (capture s) → ∃ new rest,
    frames (capture s') = frames (capture s) ++ new ∧
    Forall (λ f, frame_of (pf_raw f) f) new ∧ raw_octets new ++ rest = _buffer s ++ data) as Hnone.
  { intros s' E. exists [], (_buffer s ++ data). rewrite app_nil_r. by split_and!; [|apply Forall_nil|]. }
  destruct data as [|b data]; [apply wp_raise; by apply Hnone|].
  set (d := b :: data) in *. clearbody d. clear b data.
  apply wp_bind, wp_gets, wp_bind, wp_modify, wp_if; intros _.
  { apply wp_fail. intros e s' (t & a & c & -> & _). by apply Hnone. }
  apply wp_bind, wp_modify, wp_bind, wp_gets. set (s1 := set_buffer _ _).
  pose proof (captured_entries s Hs) as He. destruct Hs as [Hb Hf _ Hd Hc Hm].
  apply wp_bind. eapply wp_wand; [by apply receive_frames_moved; [apply bytes_ok_app|..]|..]; cbn.
  - intros _ s2 [(new & H1 & H2 & H3 & _) Hdr].
    assert (∀ s3, quiet s2 s3 → frames (capture s3) = frames (capture s2) ∧ _buffer s3 = _buffer s2)
      as Hq by (intros s3 (t & a & c & -> & _); done).
    apply wp_bind, wp_quiet; [apply flush_quiet| |].
    2:{ intros e s3 [E _]%Hq. exists new, (_buffer s2). by rewrite E. }
    intros _ s3 H23. apply wp_quiet; [apply check_cancelled_quiet| |]; intros ? s4 H34;
      destruct (Hq s4) as [E1 E2]; try (by etrans); exists new, (_buffer s2); by rewrite E1, ?E2.
  - intros e s2 (rest & (new & H1 & H2 & H3 & _) & _). by exists new, rest.
Qed.

(** The transport hands over octets. *)
Context (t_read_bytes : ∀ (t : T) b t', t_read t = (Ok b, t') → bytes_ok b).

Definition captured_step s s' : Prop := captured s → captured s'.

#[export] Instance captured_step_preorder : PreOrder captured_step.
Proof. unfold captured_step. split; [by intros s|]. intros s1 s2 s3 ???. auto. Qed.

Lemma keeps_step {A} (m : M Session A) : stable keeps_capture m → stable captured_step m.
Proof. intros Hm s Hs. eapply keeps_captured; [apply Hm|done]. Qed.

Lemma receive_step data : bytes_ok data → stable captured_step (_receive h2_validate data).
Proof.
  intros Hd s Hs. pose proof (receive_captured data s Hd Hs) as Hw. unfold wp in Hw.
  by destruct (_receive _ _ s) as [[]].
Qed.

Lemma read_step {A} (k : bytes → M Session A) :
  (∀ data, bytes_ok data → stable captured_step (k data)) →
  stable captured_step (on_transport t_read ≫= k).
Proof.
  intros Hk s Hs. unfold on_transport, mbind, M_bind.
  destruct (t_read (transport s)) as [[d|e] t] eqn:E.
  - apply Hk; [by eapply t_read_bytes|]. by eapply keeps_captured; [|exact Hs].
  - by eapply keeps_captured; [|exact Hs].
Qed.

Ltac captured_tac :=
  repeat first
    [ apply read_step; intros
    | stable_step
    | apply keeps_step; solve [apply quiet_keeps; auto with stable]
    | apply receive_step; done
    | apply keeps_step, stable_modify; done ].

Lemma receive_request_step fuel : stable captured_step (receive_request h2_validate fuel).
Proof. induction fuel as [|fuel IH]; cbn [receive_request]; captured_tac. Qed.

Lemma send_content_step fuel sid content offset :
  stable captured_step (send_content h2_validate fuel sid content offset).
Proof.
  revert offset. induction fuel as [|fuel IH]; intros offset; cbn [send_content]; captured_tac.
Qed.
#[local] Hint Resolve receive_request_step send_content_step : stable.

(** The octets an owner passes in. *)
Definition octets (op : operation) : Prop :=
  match op with OInitialize data => bytes_ok data | _ => True end.

Lemma perform_step op : octets op → stable captured_step (perform h2_validate op).
Proof.
  destruct op; intros Hop; cbn [perform]; unfold send_response; [|captured_tac..].
  assert (bytes_ok (drop (length HTTP2_PREFACE) incoming_data)) by (by apply bytes_ok_drop).
  unfold initialize. captured_tac.
Qed.

Lemma run_captured ops s : Forall octets ops → captured s → captured (run h2_validate ops s).
Proof.
  intros Hops. revert s. induction Hops as [|op ops Hop Hops IH]; intros s Hs; [done|].
  cbn [run foldl]. by apply IH, perform_step.
Qed.

End capture.

(** ** What the log shows of a method

    [pr] picks the calls of one kind; the session's methods that make no such call
    leave them as they are. *)
Section observe.
Context {C T : Type} `{H2Connection C} `{HTTP2Transport T}.
Context (h2_validate : list field → bool → result unit).
Abbreviation Session := (@HTTP2Session (logged C) T).
Implicit Types (s : Session) (a : H2Adapter (logged C)).

Context {X : Type} (pr : call → option X).

Definition seen_calls a : list X := omap pr (calls a).

Definition seen s : list X := seen_calls (connection s).

Definition same_calls a a' : Prop := seen_calls a' = seen_calls a.

Definition same s s' : Prop := seen s' = seen s.

#[export] Instance same_calls_preorder : PreOrder same_calls.
Proof. unfold same_calls. split; [done|]. intros a b c ??. congruence. Qed.

#[export] Instance same_preorder : PreOrder same.
Proof. unfold same. split; [done|]. intros a b c ??. congruence. Qed.

Lemma log_same {A} (m : M C A) f :
  (∀ r, omap pr (f r) = []) → stable same_calls (on_conn (log_call m f)).
Proof.
  intros Hf a. unfold on_conn, log_call. destruct (m _) as [r c].
  unfold same_calls, seen_calls, calls. cbn. by rewrite omap_app, Hf, app_nil_r.
Qed.

Lemma on_adapter_same {A} (m : M (H2Adapter (logged C)) A) :
  stable same_calls m → stable same (on_adapter m).
Proof.
  intros Hm s. specialize (Hm (connection s)). unfold on_adapter.
  by destruct (m (connection s)) as [r a].
Qed.

Lemma on_log_same {A} (m : M C A) f :
  (∀ r, omap pr (f r) = []) → stable same (on_h2 (log_call m f)).
Proof. intros. by apply on_adapter_same, log_same. Qed.

Lemma on_transport_same {A} (m : M T A) : stable same (on_transport m).
Proof. intros s. unfold on_transport. by destruct (m (transport s)) as [r t]. Qed.

Lemma h2_get_same {A} (f : logged C → A) : stable same (h2_get f).
Proof. apply stable_gets, _. Qed.

Lemma need_same {A} (o : option A) e : stable same (need o e).
Proof. unfold need. repeat stable_step. Qed.
#[local] Hint Resolve on_transport_same h2_get_same need_same : stable.

(** [pr] is about frames received or data sent, not about these calls. *)
Context (pr_output : ∀ d, pr (COutput d) = None)
        (pr_close : ∀ code last b, pr (CClose code last b) = None)
        (pr_interim : ∀ sid, pr (CSendHeaders sid interim_response false) = None)
        (pr_reset : ∀ sid code, pr (CReset sid code) = None)
        (pr_acknowledge : ∀ n sid, pr (CAcknowledge n sid) = None).

Ltac log_none := intros; cbn; rewrite ?pr_close, ?pr_interim, ?pr_reset, ?pr_acknowledge; done.

Lemma output_same : stable same (on_h2 data_to_send).
Proof. apply on_log_same. intros [[|b d]|e]; cbn; by rewrite ?pr_output. Qed.
#[local] Hint Resolve output_same : stable.

Ltac same_tac :=
  repeat first
    [ stable_step
    | apply on_log_same; solve [log_none]
    | apply stable_modify; done ].

Lemma flush_same : stable same _flush.
Proof. unfold _flush. same_tac. Qed.
#[local] Hint Resolve flush_same : stable.

Lemma close_same code : stable same (close code).
Proof. unfold close. same_tac. Qed.
#[local] Hint Resolve close_same : stable.

Lemma fail_same {A} m code : stable same (@_fail (logged C) T _ _ A m code).
Proof. unfold _fail. same_tac. Qed.
#[local] Hint Resolve fail_same : stable.

Lemma process_event_same ev : stable same (_process_event h2_validate ev).
Proof.
  unfold _process_event, check_fields, accept_request, _check_priority_limit, fail_protocol,
    fail_calm, update_capture.
  cbn [send_headers reset_stream acknowledge_received_data logged_h2]. same_tac.
Qed.
#[local] Hint Resolve process_event_same : stable.

Lemma process_events_same evs : stable same (process_events h2_validate evs).
Proof. induction evs; cbn [process_events]; same_tac. Qed.

Lemma check_cancelled_same : stable same _check_cancelled.
Proof. unfold _check_cancelled. same_tac. Qed.

Lemma first_frame_same h p : stable same (check_first_frame h p).
Proof. unfold check_first_frame, fail_protocol, update_capture. same_tac. Qed.

Lemma header_block_same h : stable same (check_header_block h).
Proof. unfold check_header_block, fail_protocol, fail_calm. same_tac. Qed.

Lemma check_reset_same h : stable same (check_reset h).
Proof. unfold check_reset, fail_protocol. same_tac. Qed.

Lemma priority_update_same p : stable same (process_priority_update p).
Proof. unfold process_priority_update, _check_priority_limit, fail_protocol. same_tac. Qed.

Lemma goaway_same p : stable same (process_goaway p).
Proof. unfold process_goaway. same_tac. Qed.

Lemma wire_for_h2_same h p w : stable same (wire_for_h2 h p w).
Proof. unfold wire_for_h2. same_tac. Qed.

Lemma rescue_same e : stable same (rescue e).
Proof. unfold rescue. same_tac. Qed.

Lemma settle_same h p : stable same (settle h p).
Proof. unfold settle. cbn [sleep logged_h2]. same_tac. Qed.

Lemma capture_frame_same w m : stable same (capture_frame w m).
Proof. unfold capture_frame, fail_calm, update_capture. same_tac. Qed.
#[local] Hint Resolve process_events_same check_cancelled_same first_frame_same
  header_block_same check_reset_same priority_update_same goaway_same wire_for_h2_same
  rescue_same settle_same capture_frame_same : stable.

(** Nor about frames received. *)
Lemma receive_same data :
  (∀ d, pr (CReceive d) = None) → stable same (_receive h2_validate data).
Proof.
  intros pr_receive.
  assert (∀ d, stable same_calls (receive_data (C := logged C) d)) as Hrd.
  { intros d. unfold receive_data. repeat first
      [stable_step|apply log_same; intros; cbn; by rewrite pr_receive]. }
  assert (stable same_calls (on_conn (C := logged C) data_to_send)) as Hout.
  { apply log_same. intros [[|b d]|e]; cbn; by rewrite ?pr_output. }
  assert (stable same_calls (on_conn (C := logged C) sleep)) as Hsl by (by apply log_same).
  assert (∀ w index, stable same_calls (replay_settings (C := logged C) index w)) as Hrp.
  { intros w. induction w as [|[i v] w IH]; intros index; cbn [replay_settings]; repeat stable_step. }
  assert (∀ es, stable same_calls (apply_settings (C := logged C) es)) as Has.
  { intros es. unfold apply_settings. repeat first
      [stable_step|apply stable_modify; done|apply log_same; intros; cbn; by rewrite pr_close]. }
  assert (∀ fuel, stable same (receive_frames h2_validate fuel)) as Hrf.
  { induction fuel as [|fuel IH]; cbn [receive_frames]; [same_tac|].
    unfold _process_frame, process_known, deliver, fail_protocol.
    repeat first [stable_step|apply on_adapter_same; solve [auto]|apply stable_modify; done]. }
  unfold _receive, fail_calm. same_tac.
Qed.

End observe.

(** ** Calls are only appended *)

Section extends.
Context {C : Type} `{H2Connection C}.

Definition extends (a a' : H2Adapter (logged C)) : Prop := ∃ cs, calls a' = calls a ++ cs.

#[export] Instance extends_preorder : PreOrder extends.
Proof.
  split; [intros a; exists []; by rewrite app_nil_r|].
  intros a b c [k Hk] [l Hl]. exists (k ++ l). by rewrite Hl, Hk, app_assoc.
Qed.

Lemma log_extends {A} (m : M C A) f : stable extends (on_conn (log_call m f)).
Proof.
  intros a. unfold on_conn, log_call. destruct (m _) as [r c]. by exists (f r).
Qed.
#[local] Hint Resolve log_extends : stable.

Lemma receive_data_extends d : stable extends (receive_data (C := logged C) d).
Proof. unfold receive_data. repeat first [stable_step|apply log_extends]. Qed.
#[local] Hint Resolve receive_data_extends : stable.

Lemma replay_extends index w : stable extends (replay_settings (C := logged C) index w).
Proof.
  revert index. induction w as [|[i v] w IH]; intros index; cbn [replay_settings];
    repeat first [stable_step|apply log_extends].
Qed.
#[local] Hint Resolve replay_extends : stable.

Lemma apply_settings_extends entries : stable extends (apply_settings (C := logged C) entries).
Proof.
  unfold apply_settings.
  repeat first [stable_step|apply log_extends|apply stable_modify; intros; by exists []; rewrite app_nil_r].
Qed.
End extends.
