(* ===== verification/SessionSpec.v ===== *)
(** * The contract of the HTTP/2 session

    What Session.v guarantees whatever h2 and the transport do: the capture only
    grows and holds the octets received, its limits hold, one request is served, at
    most one GOAWAY is requested, which frames reach h2 and what a response sends.
    The lemmas are in SessionLemmas.v. *)

From S2P Require Import Prelude PyText Naming Frames FrameSpec HttpFields Validation.
From S2P Require Import Capture Adapter Session SessionLemmas.

(** ** A concrete transport for the witnesses *)

Record wires := mkWires {
  to_read : list bytes;
  written : bytes;
}.

#[export] Instance wires_transport : HTTP2Transport wires := {|
  t_read w :=
    match to_read w with
    | [] => (Ok [], w)
    | d :: ds => (Ok ((λ b, b mod 256) <$> d), mkWires ds (written w))
    end;
  t_write d w := (Ok tt, mkWires (to_read w) (written w ++ d));
|}.

(** h2 accepts every field list. *)
Definition accept_all (_ : list field) (_ : bool) : result unit := Ok tt.

Definition sample_request : list field :=
  [(u ":method", u "POST"); (u ":scheme", u "https"); (u ":path", u "/"); (u ":authority", u "a");
   (u "content-length", u "3")].

(** The client's preface, an empty SETTINGS frame, and the events of a POST request
    whose HEADERS and DATA frames arrive in two pieces. *)
Definition client_settings : bytes := [0; 0; 0; 4; 0; 0; 0; 0; 0].
Definition client_headers : bytes := [0; 0; 1; 1; 4; 0; 0; 0; 1; 0x83].
Definition client_data : bytes := [0; 0; 3; 0; 1; 0; 0; 0; 1; 7; 8; 9].

Definition sample_events : list (list event) :=
  [[]; []; [RequestReceived 1 (Some sample_request) false];
   [DataReceived 1 [7; 8; 9] 3; StreamEnded 1]].

Definition sample_session : @HTTP2Session (logged scripted) wires :=
  new_session (mkWires [take 3 client_data; drop 3 client_data] [])
    (mkLogged (mkScripted sample_events None []) []).

Definition sample_operations : list operation :=
  [OInitialize (HTTP2_PREFACE ++ client_settings ++ client_headers); OReceiveRequest 5;
   OSendResponse 20 (u "{}  12345678") None 200; OClose EC_NO_ERROR].

(** ** The capture *)

Section capture_theorems.
Context {C T : Type} `{H2Connection C} `{HTTP2Transport T}.
Context (h2_validate : list field → bool → result unit).
Abbreviation Session := (@HTTP2Session C T).

(** Whatever the owner calls, and however the calls end, what was captured is
    never changed: frames are only appended; the request's stream and fields, the
    initial settings and a failed expectation are set once; and a session that is
    ready, cancelled, initialized or closed stays so. *)
Theorem capture_grows (ops : list operation) (s : Session) : grows s (run h2_validate ops s).
Proof. apply run_grows. Qed.

(** C17: in every state a session can reach, also after an exception, at most
    [MAX_CAPTURE_FRAMES] frames are kept, the entries decoded from them are at most
    [MAX_CAPTURE_ENTRIES] and counted, and the octets kept (captured frames and
    buffer) are at most [MAX_CAPTURE_BYTES] and counted. Every captured frame is what
    its own octets say: a header and a payload of the announced length; decoded, if the
    payload is one of its type; and otherwise, never else, kept raw with the message
    and code that reading these octets gives. *)
Theorem capture_bounded (t : T) (c : C) (ops : list operation) :
  (∀ (t : T) b t', t_read t = (Ok b, t') → bytes_ok b) → Forall octets ops →
  captured (run h2_validate ops (new_session t c)).
Proof.
  intros Ht Hops. apply run_captured; [done|done|]. split; cbn; try done; constructor.
Qed.

(** C16: receiving loses nothing and changes nothing. The frames captured by a call,
    followed by what is left, are exactly the octets that were waiting in the buffer
    and those just received; each frame is what its octets say. If the call returns,
    what is left is the new buffer and holds no complete frame. *)
Theorem receive_lossless (data : bytes) (s : Session) :
  bytes_ok data → captured s →
  let '(r, s') := _receive h2_validate data s in
  ∃ new rest, frames (capture s') = frames (capture s) ++ new ∧
    Forall (λ f, frame_of (pf_raw f) f) new ∧
    raw_octets new ++ rest = _buffer s ++ data ∧
    (r = Ok tt → rest = _buffer s' ∧ drained rest).
Proof.
  intros Hdata Hs. pose proof (receive_moved h2_validate data s Hdata Hs) as Hw. unfold wp in Hw.
  destruct (_receive h2_validate data s) as [[[]|e] s'].
  - destruct Hw as (new & rest & H1 & H2 & H3 & H4). by exists new, rest.
  - destruct Hw as (new & rest & H1 & H2 & H3). by exists new, rest.
Qed.

End capture_theorems.

(** ** One GOAWAY *)

Section goaway_theorem.
Context {C T : Type} `{H2Connection C} `{HTTP2Transport T}.
Context (h2_validate : list field → bool → result unit).

(** Over the life of a session at most one GOAWAY is requested of h2, whatever
    the owner calls and however the calls end; once one was requested, or once the
    session is closed (also because h2 queued its own), later failures and a later
    [close] request none, so the code of the first stands. *)
Theorem goaway_once (t : T) (c : C) (ops1 ops2 : list operation) :
  let s := run h2_validate ops1 (new_session t (mkLogged c [])) in
  let s' := run h2_validate ops2 s in
  (length (goaways s') ≤ 1)%nat ∧
  (_closed s = true ∨ goaways s ≠ [] → _closed s' = true ∧ goaways s' = goaways s).
Proof.
  intros s s'. destruct (run_goaway h2_validate ops1 (new_session t (mkLogged c []))) as [_ H1].
  fold s in H1. destruct (run_goaway h2_validate ops2 s) as [H2 H3]. fold s' in H2, H3.
  assert (one_goaway s) as Hs by (apply H1; by split; [cbn; lia|]).
  split; [apply H3, Hs|]. intros Hc. apply H2. destruct Hc as [Hc|Hc]; [done|].
  destruct (_closed s) eqn:E; [done|]. by destruct Hs as [_ Hs]; rewrite Hs in Hc.
Qed.

End goaway_theorem.

(** ** The frames that reach h2 *)

Section admission.
Context {C T : Type} `{H2Connection C} `{HTTP2Transport T}.
Context (h2_validate : list field → bool → result unit).
Abbreviation Session := (@HTTP2Session (logged C) T).
Implicit Types (s : Session).

Definition frame_call (c : call) : option bytes :=
  match c with CReceive d => Some d | _ => None end.

(** The octets handed to h2 so far. *)
Definition h2_input s : list bytes := seen frame_call s.

(** The frame types that are never handed to h2. *)
Definition withheld : list Z :=
  [FT_ALTSVC; FT_ORIGIN; FT_PUSH_PROMISE; FT_PRIORITY; FT_PRIORITY_UPDATE; FT_GOAWAY].

(** In the state [s], the frame may be handed on: it is well formed, of a type that
    h2 handles, and in order. *)
Definition admitted (h : FrameHeader) (p : PayloadType) s : Prop :=
  payload_error p = None ∧ (fh_type h ∉ withheld) ∧
  (∀ sid, _continuation_stream s = Some sid →
     fh_type h = FT_CONTINUATION ∧ fh_stream_id h = sid) ∧
  (_first_frame s = true → fh_type h = FT_SETTINGS ∧ has_flag h FF_ACK = false) ∧
  (fh_type h ∈ [FT_HEADERS; FT_CONTINUATION] →
     _header_block_bytes s + fh_length h ≤ MAX_HEADER_LIST_SIZE).

(** What h2 gets for the frame: its octets; for HEADERS with a priority the same
    header block without it; for SETTINGS to apply, frames made of its entries in
    their order (which of them, [settings_delivered] says). *)
Inductive handed (h : FrameHeader) (p : PayloadType) (wire : bytes) : list bytes → Prop :=
  | handed_settings d entries groups ws :
      fh_type h = FT_SETTINGS → p = SettingsPayload false d entries →
      Forall2 (λ g d, build_settings_frame (Some g) false = Ok d) groups ws →
      concat groups `sublist_of` entries → handed h p wire ws
  | handed_headers block prio es eh padded w :
      fh_type h = FT_HEADERS → has_flag h FF_PRIORITY = true →
      p = HeadersPayload block prio es eh padded →
      build_headers_frame (fh_stream_id h) block es eh = Ok w → handed h p wire [w]
  | handed_wire :
      ¬ (fh_type h = FT_HEADERS ∧ has_flag h FF_PRIORITY = true) →
      (∀ d entries, fh_type h = FT_SETTINGS → p ≠ SettingsPayload false d entries) →
      handed h p wire [wire].

#[local] Hint Resolve first_frame_same header_block_same check_reset_same
  priority_update_same goaway_same rescue_same flush_same process_events_same fail_same
  : stable.

Lemma receive_one data :
  ∀ s, wp (on_adapter (receive_data data) : M Session (list event))
    (λ _ s', h2_input s' = h2_input s ++ [data]) (λ _ s', h2_input s' = h2_input s ++ [data]) s.
Proof.
  intros s. unfold wp, on_adapter. destruct (receive_frame (connection s) data) as (r & c & ->).
  unfold h2_input, seen, seen_calls. cbn. rewrite omap_app. by destruct r.
Qed.

(** Handing a frame over, and what follows from its events. *)
Lemma receive_events data s :
  wp (events ← on_adapter (receive_data data); process_events h2_validate events)
    (λ _ s', h2_input s' = h2_input s ++ [data]) (λ _ s', h2_input s' = h2_input s ++ [data]) s.
Proof.
  apply wp_bind. eapply wp_wand; [apply receive_one| |done]. intros evs s1 E. cbn.
  eapply wp_wand; [apply (stable_wp (same frame_call)); by apply process_events_same|..]; cbn;
    intros ? s2 E2; unfold h2_input; by rewrite E2.
Qed.

(** What [deliver] hands over: the octets it is given, or settings; nothing only if it
    raises. *)
Lemma deliver_handed h p wire s :
  let Q (ok : bool) s' := ∃ ws, h2_input s' = h2_input s ++ ws ∧
    ((ok = false ∧ ws = []) ∨
     (ws = [wire] ∧ ∀ d entries, fh_type h = FT_SETTINGS → p ≠ SettingsPayload false d entries) ∨
     (fh_type h = FT_SETTINGS ∧ ∃ d entries groups, p = SettingsPayload false d entries ∧
        Forall2 (λ g d, build_settings_frame (Some g) false = Ok d) groups ws ∧
        concat groups `sublist_of` entries)) in
  wp (deliver h2_validate h p wire) (λ _, Q true) (λ _, Q false) s.
Proof.
  intros Q. unfold deliver. cbn zeta.
  assert ((∀ d entries, fh_type h = FT_SETTINGS → p ≠ SettingsPayload false d entries) →
    wp (events ← on_adapter (receive_data wire); process_events h2_validate events)
      (λ _, Q true) (λ _, Q false) s) as Hrec.
  { intros Hp. eapply wp_wand; [apply receive_events|..]; cbn; intros ? s' E; exists [wire]; auto. }
  destruct (Z.eqb_spec (fh_type h) FT_SETTINGS) as [E|]; [|by apply Hrec].
  assert (wp (raise (A := unit) AttributeError) (λ _, Q true) (λ _, Q false) s) as Hno.
  { apply wp_raise. exists []. rewrite app_nil_r. auto. }
  destruct p; try exact Hno. destruct ack; [by apply Hrec|].
  unfold wp, on_adapter. pose proof (apply_settings_frames (connection s) entries) as Hf.
  destruct (apply_settings entries (connection s)) as [r a].
  destruct Hf as (groups & cs & Hcs & HF & Hs).   assert (∀ ok, Q ok (set_connection a s)) as HQ; [|by destruct r].
  intros ok. exists (received cs). split; [|right; right; eauto 10].
  unfold h2_input, seen, seen_calls. cbn. by rewrite Hcs, omap_app.
Qed.

(** Methods that hand nothing over keep what may be said of the input. *)
Lemma wp_same {A} (m : M Session A) s (Q : A → Session → Prop) (E : exn → Session → Prop) :
  stable (same frame_call) m → (∀ a s', h2_input s' = h2_input s → Q a s') →
  (∀ e s', h2_input s' = h2_input s → E e s') → wp m Q E s.
Proof.
  intros Hm HQ HE. eapply wp_wand; [by apply (stable_wp (same frame_call))|..]; cbn;
    intros ? s' Hs; [by apply HQ|by apply HE].
Qed.

(** The call of h2 with the octets [w] for the frame, the flush after it and the turn. *)
Lemma delivered h p wire w s :
  ((∀ d entries, fh_type h = FT_SETTINGS → p ≠ SettingsPayload false d entries) →
    handed h p wire [w]) →
  wp (_ ← try_except (deliver h2_validate h p w) rescue; _ ← _flush; settle h p)
    (λ _ s', ∃ ws, h2_input s' = h2_input s ++ ws ∧ handed h p wire ws)
    (λ _ s', ∃ ws, h2_input s' = h2_input s ++ ws ∧ (ws ≠ [] → handed h p wire ws)) s.
Proof.
  intros Hw. apply wp_bind, wp_try. eapply wp_wand; [apply deliver_handed|..]; cbn beta.
  - intros [] s1 (ws & E1 & Hws). assert (handed h p wire ws) as Hh.
    { destruct Hws as [[[=] _]|[[-> Hp]|(? & d & es & gs & ? & ? & ?)]]; [by apply Hw|].
      by eapply handed_settings. }
    apply wp_bind, wp_same; [by apply flush_same|..]; intros ? s2 E2;
      [apply wp_same; [by apply settle_same|..]; intros ? s3 E3|]; exists ws; by rewrite ?E3, E2, E1.
  - intros e s1 (ws & E1 & Hws). assert (ws ≠ [] → handed h p wire ws) as Hh.
    { intros Hne. destruct Hws as [[_ ->]|[[-> Hp]|(? & d & es & gs & ? & ? & ?)]];
        [done|by apply Hw|by eapply handed_settings]. }
    eapply wp_wand; [apply wp_and; [apply (rescue_raises _ _ (λ _ _, False))|
      by apply (stable_wp (same frame_call)), rescue_same]|by intros ? ? []|].
    intros e' s2 [_ E2]. exists ws. unfold h2_input in *. by rewrite E2, E1.
Qed.

Lemma process_known_handed h p wire s :
  (fh_type h ∉ [FT_ALTSVC; FT_ORIGIN]) →
  let ok := payload_error p = None ∧ (fh_type h ∉ withheld) in
  wp (process_known h2_validate h p wire)
    (λ _ s', ∃ ws, h2_input s' = h2_input s ++ ws ∧ (ws ≠ [] → ok) ∧ (ok → handed h p wire ws))
    (λ _ s', ∃ ws, h2_input s' = h2_input s ++ ws ∧ (ws ≠ [] → ok ∧ handed h p wire ws)) s.
Proof.
  intros Hadv ok. set (Qok := λ s', ∃ ws, _ ∧ (_ → ok) ∧ _). set (Q := λ s', ∃ ws, _ ∧ (_ → ok ∧ _)).
  assert (∀ s', h2_input s' = h2_input s → Q s') as Hnone.
  { intros s' E. exists []. by rewrite app_nil_r. }
  assert (∀ s', ¬ ok → h2_input s' = h2_input s → Qok s') as Hrefuse.
  { intros s' Hn E. exists []. by rewrite app_nil_r. }
  assert (∀ t, fh_type h = t → t ∈ withheld → ¬ ok) as Hwith by (intros t <- Ht [_ Hno]; done).
  unfold process_known. destruct (payload_error p) as [[m c]|] eqn:Hp.
  { apply wp_same; [by apply fail_same|intros; apply Hrefuse; [by intros []|done]|by auto]. }
  destruct (Z.eqb_spec (fh_type h) FT_PUSH_PROMISE) as [Ht|Hpp].
  { apply wp_same; [by apply fail_same|intros; apply Hrefuse; [|done]|by auto].
    by eapply Hwith, mem_In. }
  apply wp_bind. apply (wp_same _ _ _ (λ _, Q)); [|intros [] s1 E1|by auto].
  { destruct (fh_type h =? FT_RST_STREAM); [by apply check_reset_same|apply stable_ret, _]. }
  assert (∀ s', h2_input s' = h2_input s1 → Q s') as Hnone1 by (intros; apply Hnone; congruence).
  destruct (Z.eqb_spec (fh_type h) FT_PRIORITY) as [Ht|Hpr].
  { apply wp_ret, Hrefuse; [|done]. by eapply Hwith, mem_In. }
  destruct (Z.eqb_spec (fh_type h) FT_PRIORITY_UPDATE) as [Ht|Hpu].
  { apply wp_same; [by apply priority_update_same|intros; apply Hrefuse; [|congruence]|by auto].
    by eapply Hwith, mem_In. }
  destruct (Z.eqb_spec (fh_type h) FT_GOAWAY) as [Ht|Hga].
  { apply wp_same; [by apply goaway_same|intros; apply Hrefuse; [|congruence]|by auto].
    by eapply Hwith, mem_In. }
  assert (ok) as Hok.
  { split; [done|]. unfold withheld. rewrite !not_elem_of_cons in *. naive_solver. }
  assert (∀ w, ((∀ d entries, fh_type h = FT_SETTINGS → p ≠ SettingsPayload false d entries) →
      handed h p wire [w]) →
    wp (_ ← try_except (deliver h2_validate h p w) rescue; _ ← _flush; settle h p) (λ _, Qok) (λ _, Q) s1) as Hdel.
  { intros w Hw. eapply wp_wand; [by apply delivered|..]; cbn beta; intros ? s2 (ws & E2 & Hws);
      exists ws; rewrite E2, E1; auto. }
  apply wp_bind. unfold wire_for_h2.
  destruct ((fh_type h =? FT_HEADERS) && has_flag h FF_PRIORITY) eqn:Eh.
  - apply andb_true_iff in Eh as [Eh%Z.eqb_eq Ef].
    destruct p; try (apply wp_raise; by auto).
    apply wp_lift; [intros w Hw|intros; by auto]. apply Hdel. intros _. by eapply handed_headers.
  - apply wp_ret, Hdel. intros Hs. apply handed_wire; [|done]. intros [E Ef].
    rewrite E, Ef in Eh. done.
Qed.

Lemma first_frame_checked h p s :
  wp (check_first_frame h p)
    (λ _ s', h2_input s' = h2_input s ∧ _continuation_stream s' = _continuation_stream s ∧
       _header_block_bytes s' = _header_block_bytes s ∧
       (_first_frame s = true → fh_type h = FT_SETTINGS ∧ has_flag h FF_ACK = false))
    (λ _ s', h2_input s' = h2_input s) s.
Proof.
  eapply wp_wand; [apply wp_and with
    (Q := λ _ s', h2_input s' = h2_input s) (E := λ _ s', h2_input s' = h2_input s)
    (Q' := λ _ s', _continuation_stream s' = _continuation_stream s ∧
       _header_block_bytes s' = _header_block_bytes s ∧
       (_first_frame s = true → fh_type h = FT_SETTINGS ∧ has_flag h FF_ACK = false))
    (E' := λ _ _, True)|..].
  { apply wp_same; [by apply first_frame_same|done..]. }
  2:{ cbn. intros a s' [H1 H2]. split; [exact H1|exact H2]. }
  2:{ cbn. intros e s' [H1 _]. exact H1. }
  unfold check_first_frame, update_capture. apply wp_bind, wp_gets.
  destruct (_first_frame s) eqn:Ef; [|by apply wp_ret].
  apply wp_if; intros Hc; [apply wp_fail; done|].
  apply orb_false_iff in Hc as [Ht%negb_false_iff%Z.eqb_eq Ha].
  apply wp_bind, wp_modify. by destruct p.
Qed.

Lemma header_block_checked h s :
  wp (check_header_block h)
    (λ _ s', h2_input s' = h2_input s ∧
       (∀ sid, _continuation_stream s = Some sid →
          fh_type h = FT_CONTINUATION ∧ fh_stream_id h = sid) ∧
       (fh_type h ∈ [FT_HEADERS; FT_CONTINUATION] →
          _header_block_bytes s + fh_length h ≤ MAX_HEADER_LIST_SIZE))
    (λ _ s', h2_input s' = h2_input s) s.
Proof.
  eapply wp_wand; [apply wp_and with
    (Q := λ _ s', h2_input s' = h2_input s) (E := λ _ s', h2_input s' = h2_input s)
    (Q' := λ _ _, (∀ sid, _continuation_stream s = Some sid →
          fh_type h = FT_CONTINUATION ∧ fh_stream_id h = sid) ∧
       (fh_type h ∈ [FT_HEADERS; FT_CONTINUATION] →
          _header_block_bytes s + fh_length h ≤ MAX_HEADER_LIST_SIZE))
    (E' := λ _ _, True)|..].
  { apply wp_same; [by apply header_block_same|done..]. }
  2:{ cbn. intros a s' [H1 H2]. split; [exact H1|exact H2]. }
  2:{ cbn. intros e s' [H1 _]. exact H1. }
  unfold check_header_block, fail_protocol, fail_calm. apply wp_bind, wp_gets, wp_bind.
  eapply (wp_wand _ (λ _ s1, s1 = s ∧ ∀ sid, _continuation_stream s = Some sid →
    fh_type h = FT_CONTINUATION ∧ fh_stream_id h = sid) _ (λ _ _, True)); [|intros [] s1 [-> Hc]|done].
  { destruct (_continuation_stream s) as [sid|]; [|by apply wp_ret].
    apply wp_if; intros Hn; [by apply wp_fail|].
    apply orb_false_iff in Hn as [H1%negb_false_iff%Z.eqb_eq H2%negb_false_iff%Z.eqb_eq].
    apply wp_ret. split; [done|]. by intros ? [= <-]. }
  destruct (mem (fh_type h) [FT_HEADERS; FT_CONTINUATION]) eqn:Em.
  - apply wp_bind, wp_gets, wp_bind, wp_modify. rewrite Z.gtb_ltb.
    destruct (Z.ltb_spec MAX_HEADER_LIST_SIZE (_header_block_bytes s + fh_length h)).
    { by apply wp_fail. }
    apply wp_if; intros _; [apply wp_bind, wp_modify|]; apply wp_modify; auto.
  - apply wp_ret. split; [done|]. intros Hin%mem_In. congruence.
Qed.

(** C15: which frames reach h2, and as what. A frame that is malformed, of a type the
    program handles on its own (ALTSVC, ORIGIN, PUSH_PROMISE, PRIORITY,
    PRIORITY_UPDATE, GOAWAY), before the client's SETTINGS, out of turn while a header
    block is open, or that makes a header block too long is never handed over; every
    other frame is handed over unless processing it raises, and never more than once:
    byte for byte, but for HEADERS with a priority, which keep only their header
    block, and SETTINGS, which are applied entry by entry. *)
Theorem frame_admission (frame : ParsedFrame) (wire : bytes) (s : Session) :
  let '(r, s') := _process_frame h2_validate frame wire s in
  let h := pf_header frame in
  let p := pf_payload frame in
  ∃ ws, h2_input s' = h2_input s ++ ws ∧
    (ws ≠ [] → admitted h p s ∧ handed h p wire ws) ∧
    (r = Ok tt → admitted h p s → handed h p wire ws).
Proof.
  set (h := pf_header frame). set (p := pf_payload frame).
  set (Q := λ (r : result unit) s', ∃ ws, h2_input s' = h2_input s ++ ws ∧
    (ws ≠ [] → admitted h p s ∧ handed h p wire ws) ∧
    (r = Ok tt → admitted h p s → handed h p wire ws)).
  assert (wp (_process_frame h2_validate frame wire) (λ a, Q (Ok a)) (λ e, Q (Err e)) s) as Hw.
  2:{ unfold wp in Hw. by destruct (_process_frame h2_validate frame wire s) as [[]]. }
  assert (∀ e s', h2_input s' = h2_input s → Q (Err e) s') as Hnone.
  { intros e s' E. exists []. by rewrite app_nil_r. }
  unfold _process_frame. fold h p. apply wp_bind.
  eapply wp_wand; [apply first_frame_checked|intros [] s1 (E1 & Ec & Eb & Hf)|auto].
  apply wp_bind. eapply wp_wand; [apply header_block_checked|intros [] s2 (E2 & Hc & Hb)|].
  2:{ intros e s2 E2. apply Hnone. congruence. }
  rewrite Ec in Hc. rewrite Eb in Hb.
  destruct (mem (fh_type h) [FT_ALTSVC; FT_ORIGIN]) eqn:Em.
  { apply wp_ret. exists []. rewrite app_nil_r. split_and!; [congruence|done|].
    intros _ (_ & Hno & _). destruct Hno. apply mem_In in Em. unfold withheld. set_solver. }
  assert (fh_type h ∉ [FT_ALTSVC; FT_ORIGIN]) as Hadv by (rewrite <-mem_In, Em; done).
  assert (payload_error p = None ∧ (fh_type h ∉ withheld) → admitted h p s) as Hadm.
  { intros [? ?]. done. }
  eapply wp_wand; [by apply process_known_handed|..]; cbn beta;
    intros ? s3 (ws & E3 & Hws); exists ws; rewrite E3, E2, E1; (split; [done|]).
  - destruct Hws as [H1 H2]. split; [intros Hne; auto|]. intros _ (? & ? & _). auto.
  - split; [|done]. intros Hne. destruct (Hws Hne). auto.
Qed.

End admission.

(** ** What a response sends *)

Section response.
Context {C T : Type} `{H2Connection C} `{HTTP2Transport T}.
Context (h2_validate : list field → bool → result unit).
Abbreviation Session := (@HTTP2Session (logged C) T).
Implicit Types (s : Session) (sid : Z) (body : bytes).

(** Giving h2 a final response's fields, asking it for the window of a stream, and
    giving it data. *)
Inductive sending :=
  | SHeaders (stream_id : Z) (fields : list field) (end_stream : bool)
  | SWindow (stream_id window : Z)
  | SData (stream_id : Z) (data : bytes) (end_stream : bool).

Definition data_call (c : call) : option sending :=
  match c with
  | CSendHeaders sid hs es =>
      if bool_decide (hs = interim_response ∧ es = false) then None else Some (SHeaders sid hs es)
  | CWindow sid n => Some (SWindow sid n)
  | CSendData sid d es => Some (SData sid d es)
  | _ => None
  end.

(** A transmission of [body] on a stream: non-empty pieces in order, each within the
    window h2 has just reported, the last of them ending the stream. *)
Inductive transmits sid : bytes → list sending → Prop :=
  | transmits_nothing : transmits sid [] []
  | transmits_wait n body ops :
      body ≠ [] → transmits sid body ops → transmits sid body (SWindow sid n :: ops)
  | transmits_piece n d rest ops :
      0 < zlen d ≤ n → transmits sid rest ops →
      transmits sid (d ++ rest) (SWindow sid n :: SData sid d (bool_decide (rest = [])) :: ops).

Lemma transmits_some sid body : ∃ ops, transmits sid body ops.
Proof.
  destruct body as [|b body]; [exists []; constructor|].
  eexists. rewrite <-(app_nil_r (b :: body)). apply (transmits_piece _ (zlen (b :: body))).
  - rewrite zlen_cons. pose proof (zlen_nonneg body). lia.
  - constructor.
Qed.

(** Complete, or the beginning of a transmission. *)
Definition sent sid body s s' : Prop :=
  ∃ ops, seen data_call s' = seen data_call s ++ ops ∧ transmits sid body ops.

Definition sent_part sid body s s' : Prop :=
  ∃ ops rest, seen data_call s' = seen data_call s ++ ops ∧ transmits sid body (ops ++ rest).

Lemma sent_part_none sid body s s' :
  seen data_call s' = seen data_call s → sent_part sid body s s'.
Proof.
  intros E. destruct (transmits_some sid body) as [rest Hr]. exists [], rest. by rewrite app_nil_r.
Qed.

Lemma wp_silent {A} (m : M Session A) s (Q : A → Session → Prop) (E : exn → Session → Prop) :
  stable (same data_call) m → (∀ a s', seen data_call s' = seen data_call s → Q a s') →
  (∀ e s', seen data_call s' = seen data_call s → E e s') → wp m Q E s.
Proof.
  intros Hm HQ HE. eapply wp_wand; [by apply (stable_wp (same data_call))|..]; cbn;
    intros ? s' Hs; [by apply HQ|by apply HE].
Qed.

Lemma window_logged sid s :
  wp (on_h2 (local_flow_control_window sid))
    (λ n s', seen data_call s' = seen data_call s ++ [SWindow sid n])
    (λ _ s', seen data_call s' = seen data_call s) s.
Proof.
  unfold wp, on_h2, on_adapter, on_conn. cbn [local_flow_control_window logged_h2]. unfold log_call.
  destruct (local_flow_control_window sid _) as [[n|e] c]; unfold seen, seen_calls, calls; cbn;
    rewrite omap_app; cbn; by rewrite ?app_nil_r.
Qed.

Lemma data_logged sid d es s :
  wp (on_h2 (send_data sid d es))
    (λ _ s', seen data_call s' = seen data_call s ++ [SData sid d es])
    (λ _ s', seen data_call s' = seen data_call s ++ [SData sid d es]) s.
Proof.
  unfold wp, on_h2, on_adapter, on_conn. cbn [send_data logged_h2]. unfold log_call.
  destruct (send_data sid d es _) as [[n|e] c]; unfold seen, seen_calls, calls; cbn;
    rewrite omap_app; done.
Qed.

Lemma send_content_transmits fuel sid content offset s :
  0 ≤ offset ≤ zlen content →
  wp (send_content h2_validate fuel sid content offset)
    (λ _, sent sid (drop (Z.to_nat offset) content) s)
    (λ _, sent_part sid (drop (Z.to_nat offset) content) s) s.
Proof.
  revert offset s. induction fuel as [|fuel IH]; intros offset s Ho; cbn [send_content];
    (destruct (Z.ltb_spec offset (zlen content)) as [Hlt|Hge];
     [|apply wp_ret; exists []; rewrite app_nil_r, drop_ge by (unfold zlen in *; lia);
       split; [done|constructor]]).
  { apply wp_raise. by apply sent_part_none. }
  set (body := drop (Z.to_nat offset) content).
  assert (zlen body = zlen content - offset) as Hbl by (apply zlen_drop; lia).
  assert (body ≠ []) as Hne by (intros E; rewrite E, zlen_nil in Hbl; lia).
  apply wp_bind, wp_silent; [by apply check_cancelled_same| |by intros; apply sent_part_none].
  intros [] s1 E1. apply wp_bind.
  eapply wp_wand; [apply window_logged| |intros e s2 E2; apply sent_part_none; congruence].
  intros n s2 E2. cbn beta in E2. apply wp_bind, wp_gets. rewrite E1 in E2.
  set (largest := max_outbound_frame_size _). cbn zeta.
  destruct (Z.leb_spec (Z.min n largest) 0) as [Hw|Hw].
  - assert (∀ s', seen data_call s' = seen data_call s2 → sent_part sid body s s') as Hpart.
    { intros s' E. destruct (transmits_some sid body) as [rest Hr].
      exists [SWindow sid n], rest. rewrite E, E2. split; [done|]. by apply transmits_wait. }
    apply wp_bind, wp_silent; [by apply on_transport_same| |by auto]. intros data s3 E3.
    apply wp_bind, wp_silent; [by apply receive_same| |intros; apply Hpart; congruence].
    intros [] s4 E4. eapply wp_wand; [by apply IH|..]; cbn beta.
    + intros _ s5 (ops & E5 & Hops). exists (SWindow sid n :: ops).
      rewrite E5, E4, E3, E2, <-app_assoc. split; [done|]. by apply transmits_wait.
    + intros e s5 (ops & rest & E5 & Hops). exists (SWindow sid n :: ops), rest.
      rewrite E5, E4, E3, E2, <-app_assoc. split; [done|]. by apply transmits_wait.
  - set (stop := Z.min (offset + Z.min n largest) (zlen content)).
    set (d := slice content offset stop).
    assert (body = d ++ drop (Z.to_nat stop) content) as Hsplit by (apply slice_drop_split; lia).
    assert (zlen d = stop - offset) as Hd by (apply zlen_slice; lia).
    assert ((stop =? zlen content) = bool_decide (drop (Z.to_nat stop) content = [])) as Hes.
    { assert (zlen (drop (Z.to_nat stop) content) = zlen content - stop) as Hr
        by (apply zlen_drop; lia).
      destruct (Z.eqb_spec stop (zlen content)) as [E|E].
      - rewrite bool_decide_true; [done|]. apply drop_ge. unfold zlen in *. lia.
      - rewrite bool_decide_false; [done|]. intros Hn. rewrite Hn, zlen_nil in Hr. lia. }
    rewrite Hes. set (piece := [SWindow sid n; SData sid d (bool_decide (drop (Z.to_nat stop) content = []))]).
    assert (∀ s', seen data_call s' = seen data_call s ++ piece → sent_part sid body s s') as Hpart.
    { intros s' E. destruct (transmits_some sid (drop (Z.to_nat stop) content)) as [rest Hr].
      exists piece, rest. split; [done|]. rewrite Hsplit. apply transmits_piece; [lia|done]. }
    apply wp_bind. eapply wp_wand; [apply data_logged|..]; cbn beta.
    2:{ intros e s3 E3. apply Hpart. by rewrite E3, E2, <-app_assoc. }
    intros _ s3 E3. rewrite E2, <-app_assoc in E3. change ([SWindow sid n] ++ _) with piece in E3.
    apply wp_bind, wp_silent; [by apply flush_same| |intros; apply Hpart; congruence].
    intros [] s4 E4. eapply wp_wand; [apply IH; lia|..]; cbn beta; rewrite Hsplit.
    + intros _ s5 (ops & E5 & Hops). exists (piece ++ ops). rewrite E5, E4, E3, app_assoc.
      split; [done|]. apply transmits_piece; [lia|done].
    + intros e s5 (ops & rest & E5 & Hops). exists (piece ++ ops), rest.
      rewrite E5, E4, E3, <-!app_assoc. split; [done|]. apply transmits_piece; [lia|done].
Qed.

Lemma headers_logged sid hs es s :
  ¬ (hs = interim_response ∧ es = false) →
  let Q s' := seen data_call s' = seen data_call s ++ [SHeaders sid hs es] in
  wp (on_h2 (send_headers sid hs es)) (λ _, Q) (λ _, Q) s.
Proof.
  intros Hn Q. unfold wp, on_h2, on_adapter, on_conn. cbn [send_headers logged_h2]. unfold log_call.
  destruct (send_headers sid hs es _) as [[n|e] c]; unfold Q, seen, seen_calls, calls; cbn;
    rewrite omap_app; cbn [omap list_omap data_call]; by rewrite bool_decide_false.
Qed.

(** With a body there is a Content-Length field beside the status. *)
Lemma response_not_interim content hs status :
  let '(body, fields) := prepare_response content hs status in
  ¬ (response_headers status fields = interim_response ∧ bool_decide (body = []) = false).
Proof.
  unfold prepare_response. destruct (no_content_status status).
  { intros [_ Hb]. by rewrite bool_decide_true in Hb. }
  intros [Hr _]. set (d := dict_set _ _ _) in *.
  assert (u "content-length" ∈ (response_headers status d).*1) as Hin.
  { unfold response_headers. assert (u "content-length" ∈ d.*1) as Hd
      by (unfold d; rewrite dict_keys_set; by left).
    clearbody d. clear Hr. revert Hd. generalize [(u ":status", str_int status)] as acc.
    induction d as [|[k v] d' IH] using rev_ind; intros acc Hd; [by apply not_elem_of_nil in Hd|].
    rewrite foldl_app. cbn. rewrite dict_keys_set. rewrite fmap_app, elem_of_app in Hd. cbn in Hd.
    rewrite list_elem_of_singleton in Hd. destruct Hd as [Hd|Hd]; [right; by apply IH|by left]. }
  rewrite Hr in Hin. cbn in Hin. by apply list_elem_of_singleton in Hin.
Qed.

(** C22: a response that is sent is sent completely, on the request's stream: first
    its header fields, with END_STREAM exactly when [prepare_response] leaves no body;
    then the body in order, in non-empty pieces each within the window h2 reported
    just before, END_STREAM on the last piece only. A response that fails midway has
    sent nothing or the beginning of such a transmission. *)
Theorem response_sent fuel content hs status s sid :
  stream_id (capture s) = Some sid →
  let '(r, s') := send_response h2_validate fuel content hs status s in
  let '(body, fields) := prepare_response content hs status in
  let first := SHeaders sid (response_headers status fields) (bool_decide (body = [])) in
  ∃ ops rest, seen data_call s' = seen data_call s ++ ops ∧
    (r = Ok tt → rest = []) ∧ ∃ all, transmits sid body all ∧ ops ++ rest = first :: all.
Proof.
  intros Hsid. pose proof (response_not_interim content hs status) as Hni.
  destruct (prepare_response content hs status) as [body fields] eqn:Ep.
  set (first := SHeaders _ _ _).
  set (Q := λ r s', ∃ ops rest, seen data_call s' = seen data_call s ++ ops ∧
    (r = Ok tt → rest = []) ∧ ∃ all, transmits sid body all ∧ ops ++ rest = first :: all).
  assert (wp (send_response h2_validate fuel content hs status) (λ a, Q (Ok a)) (λ e, Q (Err e)) s)
    as Hw.
  2:{ unfold wp in Hw. by destruct (send_response _ _ _ _ _ s) as [[[]|e] s']. }
  destruct (transmits_some sid body) as [all Hall].
  assert (∀ e s', seen data_call s' = seen data_call s → Q (Err e) s') as Hnone.
  { intros e s' E. exists [], (first :: all). rewrite app_nil_r. split_and!; eauto; done. }
  assert (∀ e s', seen data_call s' = seen data_call s ++ [first] → Q (Err e) s') as Hfirst.
  { intros e s' E. exists [first], all. split; [done|]. split; [done|]. by exists all. }
  unfold send_response. apply wp_bind.
  eapply wp_wand; [apply wp_and; [apply (stable_wp quiet), check_cancelled_quiet|
    by apply (stable_wp (same data_call)), check_cancelled_same]|..]; cbn beta.
  2:{ intros e s1 [_ E]. by apply Hnone. }
  intros _ s1 [Hq E1]. apply wp_bind, wp_gets, wp_bind, wp_gets.
  assert (stream_id (capture s1) = Some sid) as -> by (by destruct Hq as (t & a & c & -> & _)).
  destruct (_request_ready s1); [|apply wp_raise; by apply Hnone].
  rewrite Ep. apply wp_bind. eapply wp_wand; [by apply headers_logged|..]; cbn beta.
  2:{ intros e s2 E2. apply Hfirst. by rewrite E2, E1. }
  intros [] s2 E2. rewrite E1 in E2. apply wp_bind, wp_silent; [by apply flush_same| |].
  2:{ intros e s3 E3. apply Hfirst. by rewrite E3. }
  intros [] s3 E3. pose proof (zlen_nonneg body). rewrite E2 in E3.
  eapply wp_wand; [apply (send_content_transmits _ _ _ 0); lia|..]; cbn beta.
  - intros [] s4 (ops & E4 & Hops). exists (first :: ops), []. rewrite E4, E3, <-app_assoc, app_nil_r.
    split; [done|]. split; [done|]. by exists ops.
  - intros e s4 (ops & rest & E4 & Hops). exists (first :: ops), rest. rewrite E4, E3, <-app_assoc.
    split; [done|]. split; [done|]. by exists (ops ++ rest).
Qed.

End response.

(** ** Witnesses *)

Lemma wires_bytes (t : wires) b t' : t_read t = (Ok b, t') → bytes_ok b.
Proof.
  cbn. destruct (to_read t) as [|d ds]; intros [= <- _]; [constructor|].
  apply Forall_fmap, Forall_true. intros x. unfold compose, is_byte.
  apply Z.mod_pos_bound. lia.
Qed.

Lemma sample_captured : captured sample_session.
Proof. split; cbn; try done; constructor. Qed.

(** Witness of C17 *)
Lemma capture_bounded_witness :
  captured (run accept_all sample_operations (new_session (mkWires [client_data] [])
    (mkScripted sample_events None []))).
Proof.
  apply capture_bounded; [apply wires_bytes|].
  apply Forall_cons; split; [by_eval|]. repeat constructor.
Defined.

(** Witness of C16 *)
Lemma receive_lossless_witness :
  ∃ new rest, raw_octets new ++ rest = client_settings ++ client_headers ∧
    length new = length (frames (capture (_receive accept_all (client_settings ++ client_headers)
                                            sample_session).2)).
Proof.
  pose proof (receive_lossless accept_all (client_settings ++ client_headers) sample_session
    ltac:(by_eval) sample_captured) as Hr.
  destruct (_receive _ _ _) as [r s']. destruct Hr as (new & rest & E1 & _ & E2 & _).
  exists new, rest. split; [exact E2|]. cbn [snd]. rewrite E1. reflexivity.
Defined.

Definition session_before_response : @HTTP2Session (logged scripted) wires :=
  run accept_all (take 2 sample_operations) sample_session.

(** Witness of C22 *)
Lemma response_sent_witness :
  ∃ all, transmits 1 (u "{}  12345678") all ∧
    seen data_call (send_response accept_all 20 (u "{}  12345678") None 200
                      session_before_response).2 =
      SHeaders 1 [(u ":status", u "200"); (u "content-length", u "12")] false :: all.
Proof.
  pose proof (response_sent accept_all 20 (u "{}  12345678") None 200 session_before_response 1
    ltac:(vm_compute; reflexivity)) as Hs.
  destruct (send_response _ _ _ _ _ _) as [r s'] eqn:E.
  change (prepare_response _ _ _) with (u "{}  12345678", [(u "content-length", u "12")]) in Hs.
  destruct Hs as (ops & rest & E1 & E2 & all & Hall & Hops). exists all. split; [exact Hall|].
  cbn [snd]. rewrite E1. assert (r = Ok tt) as Hr.
  { transitivity (send_response accept_all 20 (u "{}  12345678") None 200 session_before_response).1;
      [by rewrite E|vm_compute; reflexivity]. }
  rewrite (E2 Hr), app_nil_r in Hops. rewrite Hops.
  change (seen data_call session_before_response) with (@nil sending). reflexivity.
Defined.
