(* ===== verification/SessionRequest.v ===== *)
(** * The request of a session

    Invariants of the request that a session keeps: its fields are valid and its limits
    hold; a request that is handed over is live; and further streams are refused.  That
    it is complete is shown in SessionReady.v. *)

From S2P Require Import Prelude PyText Naming Frames FrameSpec HttpFields Validation.
From S2P Require Import Capture Adapter Session SessionLemmas SessionSpec.

Section request.
Context {C T : Type} `{H2Connection C} `{HTTP2Transport T}.
Context (h2_validate : list field → bool → result unit).
Abbreviation Session := (@HTTP2Session C T).
Implicit Types (s : Session).

(** ** What is known of the request *)

(** [hs] are the fields of an accepted request. *)
Definition request_fields s (hs : list field) : Prop :=
  headers (capture s) = Some hs ∧ validate_fields h2_validate hs false = Ok tt ∧
  _expected_length s = bounded_content_length <$> dict_get (u "content-length") (dict_of hs).

Record request_ok s : Prop := mkRequestOk {
  rq_none : stream_id (capture s) = None →
    _request_ready s = false ∧ _expected_length s = None ∧ _request_bytes s = 0;
  rq_some : stream_id (capture s) ≠ None → ∃ hs, request_fields s hs;
}.

(** The limits that hold whenever a method returns. *)
Record body_ok s : Prop := mkBodyOk {
  bd_bytes : 0 ≤ _request_bytes s ≤ MAX_REQUEST_BODY;
  bd_expected : ∀ n, _expected_length s = Some n → n ≤ MAX_REQUEST_BODY;
  bd_block : _header_block_bytes s ≤ MAX_HEADER_LIST_SIZE;
  bd_capture : _capture_bytes s ≤ MAX_CAPTURE_BYTES;
}.

Definition request_step s s' : Prop := request_ok s → request_ok s'.

#[export] Instance request_step_preorder : PreOrder request_step.
Proof. unfold request_step. split; [by intros s|]. intros s1 s2 s3 ???. auto. Qed.

#[local] Hint Resolve @on_adapter_quiet @on_h2_quiet @on_transport_quiet @h2_get_quiet
  @need_quiet @flush_quiet @close_quiet @fail_quiet @fail_protocol_quiet @fail_calm_quiet
  @check_cancelled_quiet @priority_limit_quiet @check_fields_quiet @check_reset_quiet
  @wire_for_h2_quiet @rescue_quiet @settle_quiet : stable.

Lemma quiet_request {A} (m : M Session A) : stable quiet m → stable request_step m.
Proof. intros Hm s Hs. destruct (Hm s) as (t & a & c & -> & _). by destruct Hs; split. Qed.

(** An assignment to something the request does not depend on. *)
Lemma modify_request f :
  (∀ s, capture (f s) = capture s ∧ _request_ready (f s) = _request_ready s ∧
        _expected_length (f s) = _expected_length s ∧ _request_bytes (f s) = _request_bytes s) →
  stable request_step (modify f).
Proof.
  intros Hf s [H1 H2]. destruct (Hf s) as (E1 & E2 & E3 & E4). cbn.
  unfold request_fields in *. split; unfold request_fields; rewrite E1, ?E2, ?E3, ?E4; done.
Qed.

Lemma check_fields_valid hs trailers s :
  wp (check_fields h2_validate hs trailers)
    (λ _ s', quiet s s' ∧ ∃ l, hs = Some l ∧ validate_fields h2_validate l trailers = Ok tt)
    (λ _ s', quiet s s') s.
Proof.
  unfold check_fields. apply wp_bind. unfold need.
  destruct hs as [l|]; [apply wp_ret|apply wp_raise; reflexivity].
  destruct (validate_fields h2_validate l trailers) as [[]|e] eqn:Ev.
  - apply wp_ret. split; [reflexivity|]. by exists l.
  - apply wp_if; intros _; [|apply wp_raise; reflexivity].
    unfold fail_protocol. by apply wp_fail.
Qed.

(** Accepting a request whose fields are valid. *)
Lemma accept_request_ok sid hs ended s :
  request_ok s → stream_id (capture s) = None → validate_fields h2_validate hs false = Ok tt →
  wp (accept_request sid (Some hs) ended) (λ _, request_ok) (λ _, request_ok) s.
Proof.
  intros [Hno _] Hs Hv. destruct (Hno Hs) as (Hr & He & Hb).
  set (hl := bounded_content_length <$> dict_get (u "content-length") (dict_of hs)).
  assert (∀ s', stream_id (capture s') = Some sid → headers (capture s') = Some hs →
    _expected_length s' = hl → request_ok s') as Hok.
  { intros s' E1 E2 E3. split; [by rewrite E1|]. intros _. by exists hs. }
  unfold accept_request, need, update_capture, fail_calm. apply wp_bind, wp_ret, wp_bind, wp_modify.
  cbn zeta. apply wp_bind. unfold hl in Hok.
  set (Q := λ s', stream_id (capture s') = Some sid ∧ headers (capture s') = Some hs ∧
                  _expected_length s' = hl).
  apply wp_wand with (Q := λ _, Q) (E := λ _, Q).
  3:{ intros e s' (? & ? & ?). by apply Hok. }
  { unfold Q, hl. destruct (dict_get (u "content-length") (dict_of hs)) as [v|] eqn:Ed.
    - apply wp_bind, wp_modify, wp_if; intros _; [|by apply wp_ret].
      apply wp_fail. by intros e s' (t & a & c & -> & _).
    - by apply wp_ret. }
  intros [] s1 (E1 & E2 & E3). apply wp_bind.
  apply wp_wand with (Q := λ _ s', s' = s1) (E := λ _ s', s' = s1).
  { destruct (parse_expectations _) as [l|e]; [by apply wp_ret|].
    destruct (is_ValueError e); [by apply wp_ret|by apply wp_raise]. }
  2:{ intros e s' ->. by apply Hok. }
  intros es s2 ->. apply wp_if; intros _.
  { apply wp_bind, wp_modify, wp_modify. by apply Hok. }
  apply wp_bind. destruct (dict_get (u ":method") (dict_of hs)) as [m|];
    [apply wp_ret|apply wp_raise; by apply Hok].
  apply wp_if; intros _; [apply wp_modify; by apply Hok|].
  apply wp_if; intros _; [|apply wp_ret; by apply Hok].
  apply wp_quiet; [apply on_h2_quiet|..]; intros ? s' (t & a & c & -> & _); by apply Hok.
Qed.

Lemma process_event_request ev : stable request_step (_process_event h2_validate ev).
Proof.
  intros s Hs. 
  assert (wp (_process_event h2_validate ev) (λ _, request_ok) (λ _, request_ok) s) as Hw.
  2:{ unfold wp in Hw. by destruct (_process_event h2_validate ev s) as [[]]. }
  unfold _process_event, fail_calm, fail_protocol, update_capture. apply wp_bind, wp_gets.
  assert (∀ s', quiet s s' → request_ok s') as Hq.
  { intros s' (t & a & c & -> & _). by destruct Hs; split. }
  destruct ev as [sid hs ended|sid hs|sid data flow|sid|sid|].
  - apply wp_bind, wp_gets, wp_bind, wp_modify. set (s1 := set_prioritized_idle_streams _ _).
    assert (request_ok s1) as Hs1 by (by destruct Hs; split).
    assert (∀ s', quiet s1 s' → request_ok s' ∧ stream_id (capture s') = stream_id (capture s)) as Hq1.
    { intros s' (t & a & c & -> & _). split; [by destruct Hs1; split|done]. }
    destruct (stream_id (capture s)) as [x|] eqn:Ex.
    { apply wp_quiet; [apply on_h2_quiet|..]; intros ? s' ?; by apply Hq1. }
    apply wp_bind, wp_quiet; [apply priority_limit_quiet| |intros; by apply Hq1].
    intros _ s2 H12. apply wp_bind. eapply wp_wand; [apply check_fields_valid|..]; cbn beta.
    2:{ intros e s3 H23. apply Hq1. by etrans. }
    intros _ s3 [H23 (l & -> & Hv)]. destruct (Hq1 s3) as [Hs3 Hn]; [by etrans|].
    by apply accept_request_ok.
  - apply wp_bind. eapply wp_wand; [apply check_fields_valid|..]; cbn beta.
    2:{ intros e s1 Hs1. by apply Hq. }
    intros _ s1 [Hs1 (l & -> & _)]. apply wp_if; intros _; [|apply wp_ret; by apply Hq].
    apply wp_bind, wp_ret, wp_modify. by destruct (Hq s1 Hs1); split.
  - apply wp_bind. apply wp_wand with (Q := λ _, request_ok) (E := λ _, request_ok).
    + apply wp_if; intros Hc; [|by apply wp_ret]. apply bool_decide_eq_true in Hc.
      apply wp_bind, wp_gets, wp_bind, wp_modify. set (s1 := set_request_bytes _ _).
      assert (request_ok s1) as Hs1.
      { destruct Hs as [_ Hs]. split; [cbn; congruence|]. done. }
      apply wp_if; intros _; [|by apply wp_ret].
      apply wp_fail. intros e s' (t & a & c & -> & _). by destruct Hs1; split.
    + intros _ s1 Hs1. apply wp_quiet; [apply on_h2_quiet|..];
        intros ? s' (t & a & c & -> & _); by destruct Hs1; split.
    + done.
  - apply wp_if; intros Hc; [|by apply wp_ret]. apply bool_decide_eq_true in Hc.
    assert (request_ok (set_request_ready true s)) as Hr.
    { destruct Hs as [_ Hs]. split; [cbn; congruence|done]. }
    apply wp_bind, wp_gets, wp_bind, wp_gets. destruct (_expected_length s) as [m|];
      [|by apply wp_modify].
    apply wp_if; intros _; [|by apply wp_modify]. apply wp_fail. intros e s' ?. by apply Hq.
  - apply wp_if; intros _; [|by apply wp_ret]. apply wp_modify. by destruct Hs; split.
  - by apply wp_ret.
Qed.
#[local] Hint Resolve process_event_request : stable.

Ltac request_tac :=
  repeat first
    [ stable_step
    | apply quiet_request; solve [auto with stable]
    | apply modify_request; done ].

Lemma process_events_request evs : stable request_step (process_events h2_validate evs).
Proof. induction evs; cbn [process_events]; request_tac. Qed.
#[local] Hint Resolve process_events_request : stable.

(** Changes of the capture that leave the request alone. *)
Lemma capture_request f :
  (∀ c, stream_id (f c) = stream_id c ∧ headers (f c) = headers c) →
  stable request_step (update_capture (C := C) (T := T) f).
Proof.
  intros Hf s [H1 H2]. destruct (Hf (capture s)) as [E1 E2].
  split; unfold request_fields in *; cbn; by rewrite ?E1, ?E2.
Qed.

Lemma process_frame_request f w : stable request_step (_process_frame h2_validate f w).
Proof.
  unfold _process_frame, check_first_frame, check_header_block, process_known,
    process_priority_update, process_goaway, deliver.
  repeat first [progress request_tac|apply capture_request; done].
Qed.

Lemma capture_frame_request w m : stable request_step (capture_frame w m).
Proof. unfold capture_frame. repeat first [progress request_tac|apply capture_request; done]. Qed.
#[local] Hint Resolve process_frame_request capture_frame_request : stable.

Lemma receive_frames_request fuel : stable request_step (receive_frames h2_validate fuel).
Proof. induction fuel as [|fuel IH]; cbn [receive_frames]; request_tac. Qed.
#[local] Hint Resolve receive_frames_request : stable.

Lemma received_request_step data : stable request_step (_receive h2_validate data).
Proof. unfold _receive. request_tac. Qed.
#[local] Hint Resolve received_request_step : stable.

Lemma initialize_request data : stable request_step (initialize h2_validate data).
Proof. unfold initialize. request_tac. Qed.

Lemma wait_request fuel : stable request_step (receive_request h2_validate fuel).
Proof. induction fuel as [|fuel IH]; cbn [receive_request]; request_tac. Qed.

(** ** Limits *)

Lemma quiet_body {A} (m : M Session A) : stable quiet m → maintains body_ok m.
Proof.
  intros Hm s Hs. apply wp_quiet; [done| |done]. intros _ s' (t & a & c & -> & _).
  by destruct Hs; split.
Qed.

Lemma modify_body f :
  (∀ s, _request_bytes (f s) = _request_bytes s ∧ _expected_length (f s) = _expected_length s ∧
        _header_block_bytes (f s) = _header_block_bytes s ∧ _capture_bytes (f s) = _capture_bytes s) →
  maintains body_ok (modify f).
Proof.
  intros Hf s []. destruct (Hf s) as (E1 & E2 & E3 & E4).
  apply wp_modify. by split; rewrite ?E1, ?E2, ?E3, ?E4.
Qed.

(** Counting, and failing above the limit. *)
Lemma expected_body n m :
  maintains body_ok
    (_ ← modify (set_expected_length (Some n));
     if n >? MAX_REQUEST_BODY then fail_calm m else mret tt).
Proof.
  intros s []. apply wp_bind, wp_modify, wp_if; intros Hb; [by apply wp_fail|].
  rewrite Z.gtb_ltb in Hb. apply Z.ltb_ge in Hb. apply wp_ret. split; cbn; try done.
  by intros ? [= <-].
Qed.

Lemma counted_body (data : bytes) m :
  maintains body_ok
    (n ← gets _request_bytes;
     _ ← modify (set_request_bytes (n + zlen data));
     if n + zlen data >? MAX_REQUEST_BODY then fail_calm m else mret tt).
Proof.
  intros s []. apply wp_bind, wp_gets, wp_bind, wp_modify, wp_if; intros Hb; [by apply wp_fail|].
  rewrite Z.gtb_ltb in Hb. apply Z.ltb_ge in Hb. apply wp_ret. pose proof (zlen_nonneg data).
  split; cbn; try done. lia.
Qed.

Lemma header_block_body h : maintains body_ok (check_header_block h).
Proof.
  intros s []. unfold check_header_block, fail_protocol, fail_calm. apply wp_bind, wp_gets, wp_bind.
  apply wp_wand with (Q := λ _ s', s' = s) (E := λ _ _, True); [|intros [] s1 ->|done].
  { destruct (_continuation_stream s); [|by apply wp_ret].
    apply wp_if; intros _; [by apply wp_fail|by apply wp_ret]. }
  apply wp_if; intros _; [|apply wp_ret; by split].
  apply wp_bind, wp_gets, wp_bind, wp_modify, wp_if; intros Hb; [by apply wp_fail|].
  rewrite Z.gtb_ltb in Hb. apply Z.ltb_ge in Hb.
  apply wp_if; intros _; [apply wp_bind, wp_modify|]; apply wp_modify; by split.
Qed.
#[local] Hint Resolve header_block_body : maintains.

Ltac body_tac :=
  repeat first
    [ apply expected_body
    | apply counted_body
    | maintains_step
    | apply quiet_body; solve [auto with stable]
    | apply modify_body; done ].

Lemma process_event_body ev : maintains body_ok (_process_event h2_validate ev).
Proof. unfold _process_event, accept_request, update_capture. body_tac. Qed.
#[local] Hint Resolve process_event_body : maintains.

Lemma process_events_body evs : maintains body_ok (process_events h2_validate evs).
Proof. induction evs; cbn [process_events]; body_tac. Qed.
#[local] Hint Resolve process_events_body : maintains.

Lemma maintains_try {A} (m : M Session A) h :
  maintains body_ok m → (∀ e s, wp (h e) (λ _, body_ok) (λ _ _, True) s) →
  maintains body_ok (try_except m h).
Proof.
  intros Hm Hh s Hs. apply wp_try. eapply wp_wand; [by apply Hm|done|]. intros e s' _. apply Hh.
Qed.

Lemma first_frame_body h p : maintains body_ok (check_first_frame h p).
Proof. unfold check_first_frame, update_capture. body_tac. Qed.

Lemma priority_update_body p : maintains body_ok (process_priority_update p).
Proof. unfold process_priority_update. body_tac. Qed.

Lemma goaway_body p : maintains body_ok (process_goaway p).
Proof. unfold process_goaway. body_tac. Qed.
#[local] Hint Resolve first_frame_body priority_update_body goaway_body : maintains.

(** The handler raises again. *)
Lemma process_frame_body f w : maintains body_ok (_process_frame h2_validate f w).
Proof.
  unfold _process_frame, process_known, deliver.
  repeat first
    [ apply maintains_try; [|intros; apply rescue_raises]
    | progress body_tac ].
Qed.

Lemma capture_frame_body w m : maintains body_ok (capture_frame w m).
Proof. unfold capture_frame, update_capture. body_tac. Qed.
#[local] Hint Resolve process_frame_body capture_frame_body : maintains.

Lemma receive_frames_body fuel : maintains body_ok (receive_frames h2_validate fuel).
Proof. induction fuel as [|fuel IH]; cbn [receive_frames]; body_tac. Qed.
#[local] Hint Resolve receive_frames_body : maintains.

Lemma receive_body data : maintains body_ok (_receive h2_validate data).
Proof.
  intros s Hs. unfold _receive, fail_calm. destruct data as [|b data]; [by apply wp_raise|].
  apply wp_bind, wp_gets, wp_bind, wp_modify, wp_if; intros Hb; [by apply wp_fail|].
  rewrite Z.gtb_ltb in Hb. apply Z.ltb_ge in Hb.
  eapply (maintains_bind body_ok); [apply modify_body; done|intros; body_tac|].
  by destruct Hs; split.
Qed.
#[local] Hint Resolve receive_body : maintains.

Lemma initialize_body data : maintains body_ok (initialize h2_validate data).
Proof. unfold initialize. body_tac. Qed.

Lemma wait_body fuel : maintains body_ok (receive_request h2_validate fuel).
Proof. induction fuel as [|fuel IH]; cbn [receive_request]; body_tac. Qed.

Lemma wp_true {A} (m : M Session A) s : wp m (λ _ _, True) (λ _ _, True) s.
Proof. unfold wp. by destruct (m s) as [[]]. Qed.

(** [receive_request] returns from a session that is ready, live and open. *)
Lemma wait_ready fuel s :
  wp (receive_request h2_validate fuel)
    (λ _ s', _request_ready s' = true ∧ _cancelled s' = false ∧ _closed s' = false)
    (λ _ _, True) s.
Proof.
  revert s. induction fuel as [|fuel IH]; intros s; cbn [receive_request];
    apply wp_bind, wp_gets; (destruct (_request_ready s) eqn:Hr;
      [unfold _check_cancelled; apply wp_bind, wp_gets; destruct (_cancelled s) eqn:Hc;
         [by apply wp_raise|apply wp_bind, wp_gets];
       destruct (_closed s) eqn:Hd; [by apply wp_raise|by apply wp_ret]|]).
  - by apply wp_raise.
  - apply wp_bind. eapply wp_wand; [apply wp_true| |done]. intros d s1 _. apply wp_bind.
    eapply wp_wand; [apply wp_true| |done]. intros _ s2 _. apply IH.
Qed.

Lemma new_request_ok (t : T) (c : C) : request_ok (new_session t c) ∧ body_ok (new_session t c).
Proof. by split; split; cbn; try done; intros. Qed.

End request.

(** ** Further streams *)

Section refusal.
Context {C T : Type} `{H2Connection C} `{HTTP2Transport T}.
Context (h2_validate : list field → bool → result unit).
Abbreviation Session := (@HTTP2Session (logged C) T).

(** A request on another stream, once there is one, is refused with REFUSED_STREAM
    and changes nothing of what was captured or counted; its fields are not even
    looked at. *)
Theorem extra_stream_refused (s : Session) sid hs ended :
  stream_id (capture s) ≠ None →
  let '(_, s') := _process_event h2_validate (RequestReceived sid hs ended) s in
  calls (connection s') = calls (connection s) ++ [CReset sid EC_REFUSED_STREAM] ∧
  capture s' = capture s ∧ _request_ready s' = _request_ready s ∧
  _request_bytes s' = _request_bytes s ∧ _expected_length s' = _expected_length s.
Proof.
  intros Hs. unfold _process_event. destruct (stream_id (capture s)) as [x|] eqn:E; [|done].
  rewrite (bind_ok (gets _) _ _ _ _ eq_refl), (bind_ok (gets _) _ _ _ _ eq_refl),
    (bind_ok (modify _) _ _ _ _ eq_refl), E.
  unfold on_h2, on_adapter, on_conn. cbn [reset_stream logged_h2]. unfold log_call.
  by destruct (reset_stream sid _ _) as [r c].
Qed.

End refusal.

(** ** Witnesses *)

(** A concrete input for [extra_stream_refused] *)
Lemma extra_stream_refused_witness :
  calls (connection (_process_event accept_all (RequestReceived 3 None true)
                       session_before_response).2) =
    calls (connection session_before_response) ++ [CReset 3 EC_REFUSED_STREAM].
Proof.
  pose proof (extra_stream_refused accept_all session_before_response 3 None true
    ltac:(vm_compute; discriminate)) as Hx.
  destruct (_process_event _ _ _) as [r s']. exact (proj1 Hx).
Defined.
