(* ===== verification/SessionReady.v ===== *)
(** * A complete request

    What a session makes of the events that h2 reports: [account] relates the request
    that is kept to the events so far, and the request that the owner gets is complete
    by the events themselves. *)

From S2P Require Import Prelude PyText Naming Frames FrameSpec HttpFields Validation.
From S2P Require Import Capture Adapter Session SessionLemmas SessionSpec SessionRequest.

(** ** A connection that remembers what it reports

    Every reading of octets that h2 answers with events is kept beside the connection,
    with the events as [H2Adapter.receive_data] returns them. *)
Record heard (C : Type) := mkHeard {
  hd_conn : C;
  hd_reports : list (bytes * list event);
}.
Arguments mkHeard {_} _ _.
Arguments hd_conn {_} _.
Arguments hd_reports {_} _.

Definition pass {C A} (m : M C A) : M (heard C) A := λ l,
  let '(r, c) := m (hd_conn l) in (r, mkHeard c (hd_reports l)).

Definition keep_report {C} `{H2Connection C} (data : bytes) : M (heard C) (list event) := λ l,
  let '(r, c) := super_receive_data data (hd_conn l) in
  (r, mkHeard c (hd_reports l ++
        match r with
        | Ok events => [(data, set_headers (decoder_original_headers c) <$> events)]
        | Err _ => []
        end)).

#[export] Instance heard_h2 {C} `{H2Connection C} : H2Connection (heard C) := {|
  SettingCodes l := SettingCodes (hd_conn l);
  initiate_connection := pass initiate_connection;
  super_receive_data := keep_report;
  data_to_send := pass data_to_send;
  close_connection code last := pass (close_connection code last);
  send_headers sid hs es := pass (send_headers sid hs es);
  send_data sid d es := pass (send_data sid d es);
  reset_stream sid code := pass (reset_stream sid code);
  acknowledge_received_data n sid := pass (acknowledge_received_data n sid);
  local_flow_control_window sid := pass (local_flow_control_window sid);
  max_outbound_frame_size l := max_outbound_frame_size (hd_conn l);
  max_inbound_frame_size l := max_inbound_frame_size (hd_conn l);
  highest_inbound_stream_id l := highest_inbound_stream_id (hd_conn l);
  highest_outbound_stream_id l := highest_outbound_stream_id (hd_conn l);
  open_inbound_streams l := open_inbound_streams (hd_conn l);
  stream_closed sid l := stream_closed sid (hd_conn l);
  local_max_concurrent_streams l := local_max_concurrent_streams (hd_conn l);
  remote_header_table_size l := remote_header_table_size (hd_conn l);
  decoder_original_headers l := decoder_original_headers (hd_conn l);
  set_local_settings v l := mkHeard (set_local_settings v (hd_conn l)) (hd_reports l);
  set_max_inbound_frame_size v l :=
    mkHeard (set_max_inbound_frame_size v (hd_conn l)) (hd_reports l);
  sleep := pass sleep;
|}.

(** A frame of SETTINGS to apply; it is the only kind of frame whose events the program
    does not look at. The preface is no frame. *)
Definition sets_settings (data : bytes) : bool :=
  match drop 3 data with
  | t :: flags :: _ => (t =? FT_SETTINGS) && (Z.land flags FF_ACK =? 0)
  | _ => false
  end.

Definition heeded (data : bytes) : bool :=
  (FRAME_HEADER_SIZE + be_val (take 3 data) =? zlen data) && negb (sets_settings data).

(** ** What the events say of a request *)

Definition is_request (ev : event) : bool :=
  match ev with RequestReceived _ _ _ => true | _ => false end.

Definition no_request (evs : list event) : Prop := Forall (λ ev, is_request ev = false) evs.

(** The octets of the DATA frames of a stream. *)
Fixpoint body_octets (sid : Z) (evs : list event) : Z :=
  match evs with
  | [] => 0
  | DataReceived s d _ :: evs => (if s =? sid then zlen d else 0) + body_octets sid evs
  | _ :: evs => body_octets sid evs
  end.

(** The expectations of a request that the server does not meet. *)
Definition expectation_unmet (hs : list field) : Prop :=
  match parse_expectations (FBytes <$> values_of (u "expect") hs) with
  | Ok l => ∃ v, v ∈ l ∧ v ≠ u "100-continue"
  | Err _ => True
  end.

Definition is_connect (hs : list field) : Prop :=
  dict_get (u ":method") (dict_of hs) = Some (u "CONNECT").

(** Of the events after the request one ends its stream, and before it came as many
    octets as every Content-Length of the fields says. *)
Definition stream_complete (sid : Z) (hs : list field) (after : list event) : Prop :=
  ∃ body rest, after = body ++ StreamEnded sid :: rest ∧
    ∀ v, (u "content-length", v) ∈ hs → int_of_digits v = body_octets sid body.

Lemma body_octets_app sid evs ev :
  body_octets sid (evs ++ [ev]) = body_octets sid evs + body_octets sid [ev].
Proof.
  remember [ev] as l. clear Heql. induction evs as [|[] evs IH]; cbn [app body_octets]; [done|rewrite IH; lia..].
Qed.

(** ** Frames, and what is handed on *)

Lemma be_bytes_octet v : 0 ≤ v < 256 → be_bytes 1 v = [v].
Proof. intros Hv. change (be_bytes 1 v) with [v mod 256]. by rewrite Z.mod_small. Qed.

Lemma header_heeded h hb pl :
  header_wire h hb → fh_length h = zlen pl →
  heeded (hb ++ pl) = negb ((fh_type h =? FT_SETTINGS) && negb (has_flag h FF_ACK)).
Proof.
  intros (Hl & Ht & Hf & sbs & (_ & r & ->) & ->) Hpl. unfold heeded, sets_settings, has_flag.
  rewrite <-!app_assoc, take_app_le, firstn_all2, be_val_bytes
    by (rewrite ?length_be_bytes; done || (change (256 ^ Z.of_nat 3) with 16777216; lia)).
  rewrite drop_app_length' by (by rewrite length_be_bytes).
  rewrite !zlen_app, !zlen_be_bytes, (proj2 (Z.eqb_eq _ _)) by (unfold FRAME_HEADER_SIZE; lia).
  rewrite (be_bytes_octet (fh_type h)), (be_bytes_octet (fh_flags h)) by done.
  cbn. by rewrite negb_involutive.
Qed.

(** The program's own SETTINGS frames, and the HEADERS frames it rebuilds. *)
Lemma built_heeded t f sid pl data :
  _build_frame t f sid pl = Ok data →
  heeded data = negb ((t =? FT_SETTINGS) && (Z.land f FF_ACK =? 0)).
Proof.
  rewrite build_frame_eq. case_bool_decide; [done|]. case_bool_decide; [done|].
  case_bool_decide as Hb; [|done]. intros <-%(inj Ok). destruct Hb as [Ht Hf].
  pose proof (built_header (zlen pl) t f sid ltac:(pose proof (zlen_nonneg pl); lia) ltac:(lia) Ht Hf) as Hh.
  pose proof (header_heeded _ _ pl Hh eq_refl) as E. rewrite <-!app_assoc in E. rewrite E. unfold has_flag. cbn.
  by rewrite negb_involutive.
Qed.

Lemma settings_unheeded es data : build_settings_frame (Some es) false = Ok data → heeded data = false.
Proof.
  unfold build_settings_frame. intros (pl & _ & Hb)%bind_Ok.
  apply built_heeded in Hb as ->. done.
Qed.

Lemma headers_heeded sid block es eh data : build_headers_frame sid block es eh = Ok data → heeded data = true.
Proof. unfold build_headers_frame. intros Hb%built_heeded. by rewrite Hb. Qed.

(** A captured frame is heeded unless its SETTINGS are to be applied. *)
Lemma frame_heeded wire f :
  frame_of wire f →
  (fh_type (pf_header f) = FT_SETTINGS → ∃ d es, pf_payload f = SettingsPayload true d es) →
  heeded wire = true.
Proof.
  intros (_ & hb & pl & k & -> & Hh & Hl & Ho) Hs. rewrite (header_heeded _ _ _ Hh Hl).
  destruct (Z.eqb_spec (fh_type (pf_header f)) FT_SETTINGS) as [E|]; [|done].
  destruct (Hs E) as (d & es & Ep). rewrite Ep in Ho. inversion Ho as [p Hp Hp'|]; subst.
  inversion Hp; subst; try done. match goal with Ha : has_flag _ FF_ACK = true |- _ => by rewrite Ha end.
Qed.

(** The length that the body is checked against is the number that every Content-Length
    of accepted fields spells. *)
Lemma declared_length (h2_validate : list field → bool → result unit) hs v n :
  validate_fields h2_validate hs false = Ok tt → (u "content-length", v) ∈ hs →
  bounded_content_length <$> dict_get (u "content-length") (dict_of hs) = Some n →
  n ≤ MAX_REQUEST_BODY → int_of_digits v = n.
Proof.
  intros (Hraw & (Hsame & _) & _)%validate_fields_ok Hv Hn Hmax. rewrite dict_get_of in Hn.
  destruct (last (filter _ hs)) as [[k w]|] eqn:El; [|done]. cbn in Hn. apply (inj Some) in Hn.
  apply last_Some_elem_of, list_elem_of_filter in El as [Ek Hw]. cbn in Ek. subst k.
  rewrite Forall_forall in Hraw. destruct (Hraw _ Hw) as (_ & _ & _ & _ & _ & Hd). destruct (Hd eq_refl) as (_ & Hdig & _).
  rewrite bounded_content_length_spec in Hn by done.
  rewrite (Hsame v w); [lia|by apply values_of_elem..].
Qed.

Lemma declared_some (hs : list field) v : (u "content-length", v) ∈ hs → dict_get (u "content-length") (dict_of hs) ≠ None.
Proof.
  rewrite dict_get_of. intros Hv. destruct (last (filter _ hs)) eqn:El; [done|]. apply last_None in El.
  assert ((u "content-length", v) ∈ filter (λ p : field, p.1 = u "content-length") hs) as Hf
    by (by apply list_elem_of_filter).
  rewrite El in Hf. by apply not_elem_of_nil in Hf.
Qed.

(** ** The request of a session, told by events *)

Section ready.
Context {C T : Type} `{H2Connection C} `{HTTP2Transport T}.
Context (h2_validate : list field → bool → result unit).
Abbreviation Session := (@HTTP2Session (heard C) T).
Implicit Types (s : Session).

(** The events that h2 reported for the frames of the client, SETTINGS to apply aside. *)
Definition reports_of (a : H2Adapter (heard C)) : list event :=
  concat (snd <$> filter (λ r : bytes * list event, heeded r.1 = true) (hd_reports (conn a))).

Definition reported s : list event := reports_of (connection s).

(** The events [evs] and the request kept in [s]: nothing before the first request; and
    from then on its fields, the octets of its body, whether its expectations are met,
    and, once the session is ready, why it is. *)
Inductive account (evs : list event) s : Prop :=
  | account_none :
      no_request evs → stream_id (capture s) = None → _request_ready s = false →
      _expected_length s = None → _request_bytes s = 0 → expectation_failed (capture s) = false →
      account evs s
  | account_some before sid hs ended after :
      evs = before ++ RequestReceived sid (Some hs) ended :: after → no_request before →
      stream_id (capture s) = Some sid → request_fields h2_validate s hs →
      _request_bytes s = body_octets sid after →
      (expectation_failed (capture s) = true ↔ expectation_unmet hs) →
      (_request_ready s = true →
         expectation_unmet hs ∨ is_connect hs ∨ stream_complete sid hs after) →
      account evs s.

(** What [account] depends on. *)
Definition same_request s s' : Prop :=
  stream_id (capture s') = stream_id (capture s) ∧ headers (capture s') = headers (capture s) ∧
  expectation_failed (capture s') = expectation_failed (capture s) ∧
  _request_ready s' = _request_ready s ∧ _expected_length s' = _expected_length s ∧
  _request_bytes s' = _request_bytes s.

Lemma account_same evs s s' : same_request s s' → account evs s → account evs s'.
Proof.
  intros (E1 & E2 & E3 & E4 & E5 & E6) [?|before sid hs ended after ?? ? Hf].
  - apply account_none; congruence.
  - destruct Hf as (Hh & Hv & Hl).
    eapply account_some; [done|done|congruence| |congruence|by rewrite E3|by rewrite E4].
    split; [congruence|]. split; [done|congruence].
Qed.

(** An assignment to something else. *)
Lemma account_set evs s s' :
  account evs s →
  (capture s', _request_ready s', _expected_length s', _request_bytes s') =
    (capture s, _request_ready s, _expected_length s, _request_bytes s) → account evs s'.
Proof. intros Ha [= E1 E2 E3 E4]. apply (account_same _ s); [|done]. unfold same_request. by rewrite E1. Qed.

(** *** Methods that read no octets *)

(** Quiet methods that report nothing. *)
Definition still s s' : Prop :=
  quiet s s' ∧ hd_reports (conn (connection s')) = hd_reports (conn (connection s)).

#[export] Instance still_preorder : PreOrder still.
Proof.
  split; [intros s; by split|]. intros s1 s2 s3 [] []. split; [by etrans|congruence].
Qed.

Lemma still_same s s' : still s s' → same_request s s' ∧ reported s' = reported s.
Proof.
  intros [(t & a & c & -> & _) E]. split; [done|]. unfold reported, reports_of. by rewrite E.
Qed.

Lemma pass_still {A} (m : M C A) : stable still (on_h2 (pass m)).
Proof.
  intros s. split; [apply on_h2_quiet|]. unfold on_h2, on_adapter, on_conn, pass.
  by destruct (m _) as [r c].
Qed.

Lemma on_transport_still {A} (m : M T A) : stable still (on_transport m).
Proof.
  intros s. split; [apply on_transport_quiet|]. unfold on_transport. by destruct (m _) as [r t].
Qed.

Lemma set_closed_still : stable still (modify (set_closed true)).
Proof. intros s. split; [apply set_closed_quiet|done]. Qed.

Lemma h2_get_still {A} (f : heard C → A) : stable still (h2_get f).
Proof. apply stable_gets, _. Qed.

Lemma need_still {A} (o : option A) e : stable still (need o e).
Proof. unfold need. repeat stable_step. Qed.
#[local] Hint Resolve pass_still on_transport_still set_closed_still h2_get_still need_still : stable.

(** The calls of h2 made by a method, as [pass] of calls. *)
Ltac still_tac :=
  cbn [send_headers reset_stream acknowledge_received_data close_connection data_to_send
       initiate_connection heard_h2];
  repeat stable_step.

Lemma output_still : stable still (on_h2 data_to_send).
Proof. still_tac. Qed.
#[local] Hint Resolve output_still : stable.

Lemma flush_still : stable still _flush.
Proof. unfold _flush. still_tac. Qed.
#[local] Hint Resolve flush_still : stable.

Lemma close_still code : stable still (close code).
Proof. unfold close. still_tac. Qed.
#[local] Hint Resolve close_still : stable.

Lemma fail_still {A} m code : stable still (@_fail (heard C) T _ _ A m code).
Proof. unfold _fail. still_tac. Qed.
#[local] Hint Resolve fail_still : stable.

Lemma check_cancelled_still : stable still _check_cancelled.
Proof. unfold _check_cancelled. still_tac. Qed.

Lemma priority_limit_still : stable still _check_priority_limit.
Proof. unfold _check_priority_limit, fail_protocol. still_tac. Qed.

Lemma check_reset_still h : stable still (check_reset h).
Proof. unfold check_reset, fail_protocol. still_tac. Qed.

Lemma check_fields_still hs trailers : stable still (check_fields h2_validate hs trailers).
Proof. unfold check_fields, fail_protocol. still_tac. Qed.

Lemma settle_still h p : stable still (settle h p).
Proof. unfold settle. cbn [sleep heard_h2]. still_tac. Qed.
#[local] Hint Resolve check_cancelled_still priority_limit_still check_reset_still
  check_fields_still settle_still : stable.

Lemma wp_still {A} (m : M Session A) (Q : A → Session → Prop) s :
  stable still m → (∀ a s', still s s' → Q a s') → wp m Q (λ _ _, True) s.
Proof. intros Hm HQ. eapply wp_wand; [by apply stable_wp|..]; auto. Qed.

Lemma fail_true {A} m code (Q : A → Session → Prop) s : wp (_fail m code) Q (λ _ _, True) s.
Proof. by apply wp_fail. Qed.

(** *** Events *)

Lemma no_request_snoc evs ev : no_request evs → is_request ev = false → no_request (evs ++ [ev]).
Proof. intros H1 H2. apply Forall_app. split; [done|]. by constructor. Qed.

Lemma stream_complete_snoc sid hs after ev :
  stream_complete sid hs after → stream_complete sid hs (after ++ [ev]).
Proof.
  intros (body & rest & -> & Hl). exists body, (rest ++ [ev]). by rewrite <-app_assoc.
Qed.

(** An event that the kept request does not depend on. *)
Lemma account_skip evs ev s s' :
  account evs s → same_request s s' → (stream_id (capture s) = None → is_request ev = false) →
  (∀ sid, stream_id (capture s) = Some sid → body_octets sid [ev] = 0) →
  account (evs ++ [ev]) s'.
Proof.
  intros Ha Hs Hn Hb. apply (account_same _ _ _ Hs). clear Hs.
  destruct Ha as [H1 H2 ????|before sid hs ended after -> H2 H3 H4 H5 H6 H7].
  - apply account_none; try done. apply no_request_snoc; auto.
  - eapply (account_some _ _ before sid hs ended (after ++ [ev])); try done.
    + by rewrite <-app_assoc.
    + rewrite body_octets_app, Hb, Z.add_0_r by done. done.
    + intros Hr. destruct (H7 Hr) as [?|[?|?]]; [by left|by right; left|right; right].
      by apply stream_complete_snoc.
Qed.

(** Accepting a request: its own record, and ready at once only for a reason. *)
Lemma accept_account evs sid hs ended s :
  account evs s → stream_id (capture s) = None → validate_fields h2_validate hs false = Ok tt →
  wp (accept_request sid (Some hs) ended)
    (λ _, account (evs ++ [RequestReceived sid (Some hs) ended])) (λ _ _, True) s.
Proof.
  intros Ha Hs Hv. destruct Ha as [Hno _ Hr He Hb Hx|]; [|congruence].
  set (hl := bounded_content_length <$> dict_get (u "content-length") (dict_of hs)).
  set (Q := λ s', stream_id (capture s') = Some sid ∧ headers (capture s') = Some hs ∧
    _expected_length s' = hl ∧ _request_bytes s' = 0).
  assert (∀ s', Q s' → (expectation_failed (capture s') = true ↔ expectation_unmet hs) →
    (_request_ready s' = true → expectation_unmet hs ∨ is_connect hs) →
    account (evs ++ [RequestReceived sid (Some hs) ended]) s') as Hok.
  { intros s' (E1 & E2 & E3 & E4) Hf Hy. apply (account_some _ _ evs sid hs ended []); try done.
    intros [?|?]%Hy; auto. }
  unfold accept_request, need, update_capture, fail_calm. apply wp_bind, wp_ret, wp_bind, wp_modify.
  cbn zeta. apply wp_bind.
  set (Q1 := λ s', Q s' ∧ expectation_failed (capture s') = false ∧ _request_ready s' = false).
  apply wp_wand with (Q := λ _, Q1) (E := λ _ _, True); [| |done].
  { unfold Q1, Q, hl. destruct (dict_get (u "content-length") (dict_of hs)) as [v|] eqn:Ed.
    - apply wp_bind, wp_modify, wp_if; intros _; [apply fail_true|by apply wp_ret].
    - by apply wp_ret. }
  intros [] s1 (HQ & Hf & Hy). apply wp_bind.
  apply wp_wand with (Q := λ es s', s' = s1 ∧
    (existsb (λ v, negb (bool_decide (v = u "100-continue"))) es = true ↔ expectation_unmet hs))
    (E := λ _ _, True); [| |done].
  { unfold expectation_unmet. destruct (parse_expectations _) as [l|e].
    - apply wp_ret. split; [done|]. rewrite existsb_exists. setoid_rewrite <-list_elem_of_In.
      setoid_rewrite negb_true_iff. by setoid_rewrite bool_decide_eq_false.
    - destruct (is_ValueError e); [by apply wp_ret|by apply wp_raise]. }
  intros es s2 [-> Hes]. apply wp_if; intros Hex; rewrite Hex in Hes.
  { apply wp_bind, wp_modify, wp_modify. apply Hok; [exact HQ|..]; cbn; tauto. }
  assert (¬ expectation_unmet hs) as Hmet by (intros Hu; by apply Hes in Hu).
  apply wp_bind. destruct (dict_get (u ":method") (dict_of hs)) as [m|] eqn:Em; [apply wp_ret|by apply wp_raise].
  apply wp_if; intros Hm.
  { apply bool_decide_eq_true in Hm as ->. apply wp_modify. apply Hok; [exact HQ| |by right].
    cbn. split; [congruence|done]. }
  apply wp_if; intros _.
  - apply wp_still; [still_tac|]. intros _ s3 Hs3. destruct (still_same _ _ Hs3) as [Hsame _].
    apply (account_same _ s1 _ Hsame), Hok; [done|split; [congruence|done]|congruence].
  - apply wp_ret. apply Hok; [done|split; [congruence|done]|congruence].
Qed.

(** Ready by the end of the stream: the counted octets are those declared. *)
Lemma account_ended evs sid s :
  account evs s → body_ok s → stream_id (capture s) = Some sid →
  (∀ n, _expected_length s = Some n → n = _request_bytes s) →
  account (evs ++ [StreamEnded sid]) (set_request_ready true s).
Proof.
  intros Ha Hb Hsid Hn. destruct Ha as [_ Hno _ _ _ _|before x hs ended after -> H2 H3 Hf H5 H6 _]; [congruence|].
  assert (x = sid) as -> by congruence. pose proof Hf as (_ & Hv & Hl).
  eapply (account_some _ _ before sid hs ended (after ++ [StreamEnded sid])); try done.
  - by rewrite <-app_assoc.
  - cbn. rewrite body_octets_app. cbn. lia.
  - intros _. right; right. exists after, []. split; [done|]. intros v Hin.
    destruct (_expected_length s) as [n|] eqn:En.
    + rewrite <-H5, <-(Hn n eq_refl). eapply declared_length; [exact Hv|exact Hin|by rewrite <-Hl|].
      by apply (bd_expected s Hb).
    + exfalso. apply (declared_some _ _ Hin). by destruct (dict_get _ _).
Qed.

Lemma process_event_account evs ev s :
  account evs s → body_ok s →
  wp (_process_event h2_validate ev) (λ _, account (evs ++ [ev])) (λ _ _, True) s.
Proof.
  intros Ha Hb. unfold _process_event, fail_calm, fail_protocol, update_capture. apply wp_bind, wp_gets.
  destruct ev as [sid hs ended|sid hs|sid data flow|sid|sid|].
  - apply wp_bind, wp_gets, wp_bind, wp_modify. set (s1 := set_prioritized_idle_streams _ _).
    assert (same_request s s1) as Hs1 by done.
    destruct (stream_id (capture s)) as [x|] eqn:Ex.
    { apply wp_still; [still_tac|]. intros _ s2 Hs2. destruct (still_same _ _ Hs2) as [Hs _].
      eapply account_skip; [exact (account_same _ _ _ Hs1 Ha)|exact Hs|destruct Hs1 as (-> & _); by rewrite Ex|done]. }
    apply wp_bind, wp_still; [auto with stable|]. intros _ s2 H12. apply wp_bind.
    eapply wp_wand; [apply wp_and; [apply check_fields_valid|apply stable_wp, (check_fields_still hs false); apply _]| |done].
    cbn beta. intros _ s3 [[_ (l & -> & Hv)] H23].
    destruct (still_same s1 s3) as [Hs3 _]; [by etrans|].
    apply accept_account; [exact (account_same _ _ _ Hs3 (account_same _ _ _ Hs1 Ha))| |done].
    destruct Hs3 as (-> & _). done.
  - apply wp_bind, wp_still; [auto with stable|]. intros _ s1 Hs1.
    destruct (still_same _ _ Hs1) as [Hs _]. apply wp_if; intros _.
    + destruct hs as [l|]; [|by apply wp_bind, wp_raise]. apply wp_bind, wp_ret, wp_modify.
      by eapply account_skip.
    + apply wp_ret. by eapply account_skip.
  - apply wp_bind. apply wp_wand with (Q := λ _ s', account (evs ++ [DataReceived sid data flow]) s')
      (E := λ _ _, True); [| |done].
    + apply wp_if; intros Hc; [|apply wp_ret].
      * apply bool_decide_eq_true in Hc. apply wp_bind, wp_gets, wp_bind, wp_modify, wp_if; intros _; [apply fail_true|].
        apply wp_ret. destruct Ha as [_ Hno _ _ _ _|before x hs ended after -> H2 H3 Hf H5 H6 H7]; [congruence|].
        assert (x = sid) as -> by congruence.
        eapply (account_some _ _ before sid hs ended (after ++ [DataReceived sid data flow])); try done.
        -- by rewrite <-app_assoc.
        -- cbn. rewrite body_octets_app, H5. cbn. rewrite Z.eqb_refl. lia.
        -- intros Hr. destruct (H7 Hr) as [?|[?|?]]; [by left|by right; left|right; right].
           by apply stream_complete_snoc.
      * apply bool_decide_eq_false in Hc. eapply account_skip; [exact Ha|done|done|].
        intros x Hx. cbn. destruct (Z.eqb_spec sid x); [congruence|lia].
    + intros _ s1 Hs1. apply wp_still; [still_tac|]. intros _ s2 Hs2. eapply account_same; [|exact Hs1]. by apply still_same.
  - assert (account (evs ++ [StreamEnded sid]) s) as Hskip by (by eapply account_skip).
    apply wp_if; intros Hc; [|by apply wp_ret]. apply bool_decide_eq_true in Hc.
    apply wp_bind, wp_gets, wp_bind, wp_gets. destruct (_expected_length s) as [m|] eqn:Em.
    + apply wp_if; intros Hm; [apply fail_true|]. apply negb_false_iff, Z.eqb_eq in Hm. apply wp_modify.
      apply account_ended; [done..|]. rewrite Em. intros n Hn. congruence.
    + apply wp_modify. apply account_ended; [done..|]. congruence.
  - apply wp_if; intros _; [apply wp_modify|apply wp_ret]; by eapply account_skip.
  - apply wp_ret. by eapply account_skip.
Qed.

(** Processing reports nothing. *)
Definition quiet_reports s s' : Prop := reported s' = reported s.

#[export] Instance quiet_reports_preorder : PreOrder quiet_reports.
Proof. unfold quiet_reports. split; [done|]. intros s1 s2 s3 ??. congruence. Qed.

Lemma still_reports {A} (m : M Session A) : stable still m → stable quiet_reports m.
Proof. intros Hm s. apply still_same, Hm. Qed.

Ltac reports_tac :=
  cbn [send_headers reset_stream acknowledge_received_data close_connection data_to_send
       initiate_connection heard_h2];
  repeat first
    [ stable_step
    | apply still_reports; solve [auto with stable]
    | apply stable_modify; done ].

Lemma process_event_reports ev : stable quiet_reports (_process_event h2_validate ev).
Proof.
  unfold _process_event, accept_request, fail_protocol, fail_calm, update_capture. reports_tac.
Qed.

(** The events of one reading, in their order. *)
Lemma process_events_account new evs s :
  account evs s → body_ok s →
  wp (process_events h2_validate new)
    (λ _ s', account (evs ++ new) s' ∧ body_ok s' ∧ reported s' = reported s) (λ _ _, True) s.
Proof.
  revert evs s. induction new as [|ev new IH]; intros evs s Ha Hb; cbn [process_events].
  { apply wp_ret. by rewrite app_nil_r. }
  apply wp_bind. eapply wp_wand; [apply wp_and; [by apply process_event_account|apply wp_and;
    [by apply process_event_body|apply stable_wp, process_event_reports; apply _]]| |done].
  cbn beta. intros _ s1 (Ha1 & Hb1 & Hr1). specialize (IH _ _ Ha1 Hb1).
  eapply wp_wand; [exact IH| |done]. cbn beta. intros _ s2 (Ha2 & Hb2 & Hr2).
  rewrite <-app_assoc in Ha2. split; [done|]. split; [done|]. unfold quiet_reports in Hr1. congruence.
Qed.

(** *** Octets that are read *)

Lemma reports_snoc a a' data evs :
  hd_reports (conn a') = hd_reports (conn a) ++ [(data, evs)] →
  reports_of a' = reports_of a ++ if heeded data then evs else [].
Proof.
  intros E. unfold reports_of. rewrite E, filter_app, fmap_app, concat_app. f_equal.
  rewrite filter_cons, filter_nil. cbn [fst]. destruct (heeded data).
  - rewrite decide_True by done. cbn. by rewrite app_nil_r.
  - by rewrite decide_False.
Qed.

Lemma receive_reports data (a : H2Adapter (heard C)) :
  match receive_data data a with
  | (Ok evs, a') => reports_of a' = reports_of a ++ if heeded data then evs else []
  | (Err _, a') => reports_of a' = reports_of a
  end.
Proof.
  unfold receive_data, on_conn, mbind, M_bind. cbn [super_receive_data heard_h2]. unfold keep_report.
  destruct (super_receive_data data (hd_conn (conn a))) as [[evs|e] c]; cbn [lift gets mret M_ret].
  - by apply reports_snoc.
  - unfold reports_of. cbn. by rewrite app_nil_r.
Qed.

Definition same_reports (a a' : H2Adapter (heard C)) : Prop := reports_of a' = reports_of a.

#[export] Instance same_reports_preorder : PreOrder same_reports.
Proof. unfold same_reports. split; [done|]. intros a1 a2 a3 ??. congruence. Qed.

Lemma unheeded_reports data : heeded data = false → stable same_reports (receive_data (C := heard C) data).
Proof.
  intros Hd a. pose proof (receive_reports data a) as Hr. unfold same_reports.
  destruct (receive_data data a) as [[evs|e] a']; [|done]. by rewrite Hd, app_nil_r in Hr.
Qed.

Lemma pass_reports {A} (m : M C A) : stable same_reports (on_conn (pass m)).
Proof. intros a. unfold on_conn, pass. by destruct (m _) as [r c]. Qed.
#[local] Hint Resolve pass_reports : stable.

(** Settings to apply are built and read; their events do not count. *)
Lemma settings_reports es :
  stable same_reports
    (wire ← lift (build_settings_frame (Some es) false); receive_data (C := heard C) wire).
Proof.
  intros a. unfold mbind, M_bind, lift. destruct (build_settings_frame (Some es) false) as [wire|e] eqn:E; [|done].
  by apply unheeded_reports, (settings_unheeded es).
Qed.

Lemma settings_then {A} es (k : list event → M (H2Adapter (heard C)) A) :
  (∀ evs, stable same_reports (k evs)) →
  stable same_reports (wire ← lift (build_settings_frame (Some es) false); evs ← receive_data wire; k evs).
Proof.
  intros Hk a. pose proof (stable_bind _ _ k (settings_reports es) Hk a) as Hs.
  unfold mbind, M_bind, lift in *. by destruct (build_settings_frame (Some es) false).
Qed.

Lemma replay_reports index w : stable same_reports (replay_settings (C := heard C) index w).
Proof.
  revert index. induction w as [|[i v] w IH]; intros index; cbn [replay_settings]; [repeat stable_step|].
  apply settings_then. intros _. cbn [data_to_send sleep heard_h2]. repeat stable_step.
Qed.
#[local] Hint Resolve replay_reports : stable.

Lemma apply_settings_reports es : stable same_reports (apply_settings (C := heard C) es).
Proof.
  unfold apply_settings. cbn [close_connection heard_h2].
  repeat first [apply settings_then; intros|stable_step|apply stable_modify; done].
Qed.

(** *** The invariant of a session *)

(** What is kept of the request is what h2 reported. *)
Definition told s : Prop := account (reported s) s ∧ body_ok s.

(** Methods that leave both the request and the reports alone. *)
Definition aside s s' : Prop := same_request s s' ∧ quiet_reports s s'.

#[export] Instance aside_preorder : PreOrder aside.
Proof.
  unfold aside, same_request, quiet_reports. split; [done|].
  intros s1 s2 s3 ((?&?&?&?&?&?)&?) ((?&?&?&?&?&?)&?). split_and!; congruence.
Qed.

Lemma still_aside {A} (m : M Session A) : stable still m → stable aside m.
Proof. intros Hm s. apply still_same, Hm. Qed.

Lemma aside_told {A} (m : M Session A) : stable aside m → maintains body_ok m → maintains told m.
Proof.
  intros Hm Hb s [Ha Hs]. eapply wp_wand; [apply wp_and; [by apply Hb|by apply stable_wp]| |done].
  cbn beta. intros _ s' [Hs' [Hsame Hr]]. split; [|done]. rewrite Hr. by eapply account_same.
Qed.

Ltac aside_tac :=
  cbn [send_headers reset_stream acknowledge_received_data close_connection data_to_send
       initiate_connection heard_h2];
  repeat first
    [ stable_step
    | apply still_aside; solve [auto with stable]
    | apply stable_modify; done ].

Lemma apply_settings_aside es : stable aside (on_adapter (apply_settings es)).
Proof.
  intros s. pose proof (apply_settings_reports es (connection s)) as Hr. unfold on_adapter.
  destruct (apply_settings es (connection s)) as [r a]. split; [done|exact Hr].
Qed.

Lemma first_frame_aside h p : stable aside (check_first_frame h p).
Proof. unfold check_first_frame, fail_protocol, update_capture. aside_tac. Qed.

Lemma header_block_aside h : stable aside (check_header_block h).
Proof. unfold check_header_block, fail_protocol, fail_calm. aside_tac. Qed.

Lemma priority_update_aside p : stable aside (process_priority_update p).
Proof. unfold process_priority_update, fail_protocol. aside_tac. Qed.

Lemma goaway_aside p : stable aside (process_goaway p).
Proof. unfold process_goaway. aside_tac. Qed.

Lemma rescue_aside e : stable aside (rescue e).
Proof. unfold rescue. aside_tac. Qed.

Lemma capture_frame_aside w m : stable aside (capture_frame w m).
Proof. unfold capture_frame, fail_calm, update_capture. aside_tac. Qed.
#[local] Hint Resolve apply_settings_aside first_frame_aside header_block_aside
  priority_update_aside goaway_aside rescue_aside capture_frame_aside : stable.

(** Octets whose events are heeded, and these events. *)
Lemma receive_told w :
  heeded w = true →
  maintains told (events ← on_adapter (receive_data w); process_events h2_validate events).
Proof.
  intros Hw s [Ha Hb]. apply wp_bind. unfold wp, on_adapter.
  pose proof (receive_reports w (connection s)) as Hr. rewrite Hw in Hr.
  destruct (receive_data w (connection s)) as [[evs|e] a]; [|done].
  set (s1 := set_connection a s). fold (wp (process_events h2_validate evs) (λ _, told) (λ _ _, True) s1).
  assert (account (reported s) s1) as Ha1 by exact (account_set _ s s1 Ha eq_refl).
  assert (body_ok s1) as Hb1 by (by destruct Hb; split).
  eapply wp_wand; [by apply (process_events_account evs (reported s) s1)| |done]. cbn beta.
  intros _ s2 (Ha2 & Hb2 & Hr2). split; [|done]. rewrite Hr2. unfold reported at 1. cbn [s1 connection set_connection].
  by rewrite Hr.
Qed.

(** The frame is one whose events are heeded, or SETTINGS to apply. *)
Definition deliverable (h : FrameHeader) (p : PayloadType) (w : bytes) : Prop :=
  (fh_type h = FT_SETTINGS → ∃ d es, p = SettingsPayload true d es) → heeded w = true.

Lemma deliver_told h p w : deliverable h p w → maintains told (deliver h2_validate h p w).
Proof.
  intros Hd. unfold deliver. cbn zeta. destruct (Z.eqb_spec (fh_type h) FT_SETTINGS) as [E|E].
  2:{ apply receive_told, Hd. done. }
  destruct p; try (by apply maintains_raise). destruct ack.
  - apply receive_told, Hd. intros _. by eexists _, _.
  - apply aside_told; [auto with stable|]. apply quiet_body, on_adapter_quiet.
Qed.

Lemma maintains_rescue (m : M Session unit) : maintains told m → maintains told (try_except m rescue).
Proof.
  intros Hm s Hs. apply wp_try. eapply wp_wand; [by apply Hm|done|]. intros e s' _. apply rescue_raises.
Qed.

Lemma still_told {A} (m : M Session A) : stable still m → maintains told m.
Proof.
  intros Hm. apply aside_told; [by apply still_aside|]. apply quiet_body. intros s. apply Hm.
Qed.

(** The octets for h2 are those of the frame, or a HEADERS frame. *)
Lemma wire_deliverable h p w :
  deliverable h p w → ∀ s, wp (wire_for_h2 h p w) (λ w' s', s' = s ∧ deliverable h p w') (λ _ _, True) s.
Proof.
  intros Hd s. unfold wire_for_h2. apply wp_if; intros _; [|by apply wp_ret].
  destruct p; try (by apply wp_raise). apply wp_lift; [|done]. intros w' Hw'. split; [done|].
  intros _. by eapply headers_heeded.
Qed.

Lemma frame_told f wire : frame_of wire f → maintains told (_process_frame h2_validate f wire).
Proof.
  intros Hf. unfold _process_frame, process_known.
  apply maintains_bind; [apply aside_told; [auto with stable|apply first_frame_body]|intros _].
  apply maintains_bind; [apply aside_told; [auto with stable|apply header_block_body]|intros _].
  destruct (mem _ _); [by apply maintains_ret|].
  destruct (payload_error _) as [[m code]|]; [apply still_told; auto with stable|].
  destruct (_ =? _); [apply still_told; unfold fail_protocol; auto with stable|].
  apply maintains_bind.
  { destruct (_ =? _); [apply still_told; auto with stable|by apply maintains_ret]. }
  intros _. destruct (_ =? _); [by apply maintains_ret|].
  destruct (_ =? _); [apply aside_told; [auto with stable|apply priority_update_body]|].
  destruct (_ =? _); [apply aside_told; [auto with stable|apply goaway_body]|].
  intros s Hs. apply wp_bind. eapply wp_wand; [apply wire_deliverable with (p := pf_payload f)| |done].
  { intros Hp. by eapply frame_heeded. }
  cbn beta. intros w' s' [-> Hw']. eapply (maintains_bind told); [|intros _|exact Hs].
  - by apply maintains_rescue, deliver_told.
  - apply maintains_bind; [|intros _]; apply still_told; auto with stable.
Qed.

(** *** All of the session's reading *)

Lemma frames_told fuel s :
  told s → bytes_ok (_buffer s) → 0 ≤ _capture_entries s ≤ MAX_CAPTURE_ENTRIES →
  wp (receive_frames h2_validate fuel) (λ _, told) (λ _ _, True) s.
Proof.
  revert s. induction fuel as [|fuel IH]; intros s Hs Hb He; cbn [receive_frames]; [by apply wp_raise|].
  apply wp_bind, wp_gets. destruct (Z.ltb_spec (zlen (_buffer s)) FRAME_HEADER_SIZE) as [|H9]; [by apply wp_ret|].
  apply wp_bind, wp_gets, wp_if; intros _; [by apply wp_fail|]. cbn zeta.
  set (b := _buffer s) in *. set (len := be_val (take 3 b)).
  destruct (Z.ltb_spec (zlen b) (FRAME_HEADER_SIZE + len)) as [Hl|Hl]; [by apply wp_ret|].
  assert (0 ≤ len) as Hlen by (apply be_val_range; by apply bytes_ok_take).
  set (n := Z.to_nat (FRAME_HEADER_SIZE + len)).
  assert (FRAME_HEADER_SIZE + be_val (take 3 (take n b)) = zlen (take n b)) as Hwire.
  { rewrite take_take, Nat.min_l by (unfold n, FRAME_HEADER_SIZE in *; lia).
    unfold n. rewrite zlen_take by (unfold FRAME_HEADER_SIZE in *; lia). done. }
  apply wp_bind, wp_modify, wp_bind. set (s1 := set_buffer _ s).
  assert (told s1) as Hs1.
  { destruct Hs as [Ha Hbody]. split; [|by destruct Hbody; split].
    exact (account_set _ s s1 Ha eq_refl). }
  eapply wp_wand; [apply wp_and; [apply (capture_frame_spec _ _ s1); [by apply bytes_ok_take|exact He|exact Hwire]|
    apply (aside_told (capture_frame (take n b) _)); [auto with stable|apply capture_frame_body|exact Hs1]]| |done].
  cbn beta. intros f s2 ((Hf & _ & _ & E2 & E3 & _) & Hs2). cbn [s1 set_buffer _buffer _capture_entries] in E2, E3.
  pose proof (entries_kept_nonneg [f]).
  apply wp_bind. eapply wp_wand; [apply wp_and;
    [apply stable_wp, (process_frame_keeps h2_validate)|by apply frame_told]| |done].
  cbn beta. intros _ s3 [(_ & K2 & K3 & _) Hs3].
  apply IH; [done|rewrite K2, E2; by apply bytes_ok_drop|rewrite K3; lia].
Qed.

Lemma received_told data s :
  bytes_ok data → captured s → told s → wp (_receive h2_validate data) (λ _, told) (λ _ _, True) s.
Proof.
  intros Hdata Hc [Ha Hb]. unfold _receive, fail_calm. destruct data as [|b data]; [by apply wp_raise|].
  set (d := b :: data) in *. clearbody d. clear b data.
  apply wp_bind, wp_gets, wp_bind, wp_modify, wp_if; intros Hlim; [by apply wp_fail|].
  rewrite Z.gtb_ltb in Hlim. apply Z.ltb_ge in Hlim.
  apply wp_bind, wp_modify, wp_bind, wp_gets. set (s1 := set_buffer _ _).
  apply wp_bind. eapply wp_wand; [apply frames_told| |done].
  - split; [|destruct Hb; split; done].
    exact (account_set _ s s1 Ha eq_refl).
  - cbn. apply bytes_ok_app. split; [apply Hc|done].
  - exact (captured_entries s Hc).
  - cbn beta. intros _ s2 Hs2. eapply (maintains_bind told); [|intros _|exact Hs2]; apply still_told; auto with stable.
Qed.

Lemma initialize_told data s :
  bytes_ok data → captured s → told s → wp (initialize h2_validate data) (λ _, told) (λ _ _, True) s.
Proof.
  intros Hdata Hc Hs. unfold initialize, fail_protocol. apply wp_bind, wp_gets, wp_if; intros _; [by apply wp_raise|].
  apply wp_bind, wp_modify, wp_bind. set (s1 := set_initialized true s).
  assert (captured s1 ∧ told s1) as Hs1.
  { split; [by destruct Hc; split|]. destruct Hs as [Ha Hb]. split; [|by destruct Hb; split].
    exact (account_set _ s s1 Ha eq_refl). }
  assert (∀ A (m : M Session A) s, stable still m → captured s ∧ told s →
    wp m (λ _ s', captured s' ∧ told s') (λ _ _, True) s) as Hq.
  { intros A m s0 Hm [Hc0 Ht0]. eapply wp_wand; [apply wp_and; [by apply (stable_wp still)|by apply still_told]| |done].
    cbn beta. intros _ s' [[Hq _] Ht]. split; [|done]. eapply keeps_captured; [|exact Hc0].
    by destruct Hq as (t & a & c & -> & _). }
  eapply wp_wand; [apply Hq; [apply pass_still|exact Hs1]| |done]. cbn beta. intros _ s2 Hs2.
  apply wp_bind. eapply wp_wand; [apply Hq; [auto with stable|exact Hs2]| |done]. cbn beta. intros _ s3 Hs3.
  apply wp_if; intros _; [by apply wp_fail|]. apply wp_bind. unfold wp at 1, on_adapter.
  pose proof (unheeded_reports HTTP2_PREFACE ltac:(vm_compute; reflexivity) (connection s3)) as Hr.
  destruct (receive_data HTTP2_PREFACE (connection s3)) as [[evs|e] a]; [|done]. cbn [snd] in Hr.
  set (s4 := set_connection a s3). destruct Hs3 as [Hc3 [Ha3 Hb3]].
  assert (told s4) as Hs4.
  { split; [|by destruct Hb3; split]. unfold reported. cbn [s4 set_connection connection]. rewrite Hr.
    exact (account_set _ s3 s4 Ha3 eq_refl). }
  destruct (drop _ data) as [|b rest] eqn:Ed; [by apply wp_ret|]. apply received_told; [|by destruct Hc3; split|done].
  rewrite <-Ed. by apply bytes_ok_drop.
Qed.

Context (t_read_bytes : ∀ (t : T) b t', t_read t = (Ok b, t') → bytes_ok b).

Lemma wait_told fuel s :
  captured s → told s → wp (receive_request h2_validate fuel) (λ _, told) (λ _ _, True) s.
Proof.
  revert s. induction fuel as [|fuel IH]; intros s Hc Hs; cbn [receive_request];
    apply wp_bind, wp_gets; (destruct (_request_ready s); [by apply still_told; [auto with stable|]|]).
  { by apply wp_raise. }
  apply wp_bind. unfold wp at 1, on_transport. destruct (t_read (transport s)) as [[d|e] t] eqn:E; [|done].
  apply t_read_bytes in E. set (s1 := set_transport t s).
  assert (captured s1) as Hc1 by (by destruct Hc; split).
  assert (told s1) as Hs1.
  { destruct Hs as [Ha Hb]. split; [|by destruct Hb; split].
    exact (account_set _ s s1 Ha eq_refl). }
  apply wp_bind. eapply wp_wand; [apply wp_and; [by apply receive_captured|by apply received_told]| |done].
  cbn beta. intros _ s2 [Hc2 Hs2]. by apply IH.
Qed.

(** C19: a request that the owner gets (after [initialize] and [receive_request] have
    returned) is the first that h2 reported among the events of the client's frames, is
    neither reset nor on a closed connection, has fields that the field checks accept,
    and keeps to the limits on body, declared length, header blocks and capture; the
    octets counted are those of its DATA. It is complete: its stream has ended, and by
    then its DATA had as many octets as every Content-Length of its fields spells;
    unless it is a CONNECT or expects what the server does not do, and the latter, and
    nothing else, is recorded for the answer. *)
Theorem request_accepted (t : T) (c : C) incoming fuel s1 s2 :
  bytes_ok incoming →
  initialize h2_validate incoming (new_session t (mkHeard c [])) = (Ok tt, s1) →
  receive_request h2_validate fuel s1 = (Ok tt, s2) →
  _request_ready s2 = true ∧ _cancelled s2 = false ∧ _closed s2 = false ∧ body_ok s2 ∧
  ∃ before sid hs ended after,
    reported s2 = before ++ RequestReceived sid (Some hs) ended :: after ∧ no_request before ∧
    stream_id (capture s2) = Some sid ∧ request_fields h2_validate s2 hs ∧
    _request_bytes s2 = body_octets sid after ∧
    (expectation_failed (capture s2) = true ↔ expectation_unmet hs) ∧
    (expectation_unmet hs ∨ is_connect hs ∨ stream_complete sid hs after).
Proof.
  intros Hin E1 E2. set (s0 := new_session t (mkHeard c [])) in *.
  assert (captured s0) as Hc0 by (split; cbn; try done; constructor).
  assert (told s0) as Hs0.
  { split; [|by split; cbn; try done; intros]. apply account_none; try done. constructor. }
  pose proof (perform_step h2_validate t_read_bytes (OInitialize incoming) Hin s0 Hc0) as Hc1.
  cbn [perform] in Hc1. rewrite E1 in Hc1. cbn [snd] in Hc1.
  pose proof (wp_run _ _ _ _ _ _ (initialize_told incoming s0 Hin Hc0 Hs0) E1) as Hs1. cbn beta iota in Hs1.
  pose proof (wp_run _ _ _ _ _ _ (wait_told fuel s1 Hc1 Hs1) E2) as [Ha Hb]. cbn beta iota in Ha, Hb.
  destruct (wp_run _ _ _ _ _ _ (wait_ready h2_validate fuel s1) E2) as (Hy & Hc & Hd).
  split; [done|]. split; [done|]. split; [done|]. split; [done|].
  destruct Ha as [_ _ Hno _ _ _|before sid hs ended after E H1 H2 H3 H4 H5 H6]; [congruence|].
  exists before, sid, hs, ended, after. auto 10.
Qed.

End ready.

(** ** Witness *)

(** The session of the sample request: HEADERS and DATA arrive in two pieces. *)
Definition fresh_session : @HTTP2Session (heard scripted) wires :=
  new_session (mkWires [take 3 client_data; drop 3 client_data] [])
    (mkHeard (mkScripted sample_events None []) []).

Definition opened_session : @HTTP2Session (heard scripted) wires :=
  (initialize accept_all (HTTP2_PREFACE ++ client_settings ++ client_headers) fresh_session).2.

Definition ready_session : @HTTP2Session (heard scripted) wires :=
  (receive_request accept_all 5 opened_session).2.

(** Witness of C19 *)
Lemma request_accepted_witness :
  reported ready_session =
    [RequestReceived 1 (Some sample_request) false; DataReceived 1 [7; 8; 9] 3; StreamEnded 1] ∧
  stream_complete 1 sample_request [DataReceived 1 [7; 8; 9] 3; StreamEnded 1].
Proof.
  assert (reported ready_session =
    [RequestReceived 1 (Some sample_request) false; DataReceived 1 [7; 8; 9] 3; StreamEnded 1]) as Hr
    by (vm_compute; reflexivity).
  split; [exact Hr|].
  destruct (request_accepted accept_all wires_bytes (mkWires [take 3 client_data; drop 3 client_data] [])
    (mkScripted sample_events None [])
    (HTTP2_PREFACE ++ client_settings ++ client_headers) 5 opened_session ready_session)
    as (_ & _ & _ & _ & before & sid & hs & ended & after & E & Hno & _ & _ & _ & _ & Hcause).
  - by_eval.
  - vm_compute. reflexivity.
  - vm_compute. reflexivity.
  - rewrite Hr in E. destruct before as [|ev before].
    2:{ injection E as <- _. apply Forall_cons in Hno as [Hno _]. discriminate Hno. }
    injection E as <- <- <- <-. destruct Hcause as [Hu|[Hm|Hc]]; [|discriminate Hm|exact Hc].
    assert (parse_expectations (FBytes <$> values_of (u "expect") sample_request) = Ok []) as Hp
      by (vm_compute; reflexivity).
    unfold expectation_unmet in Hu. rewrite Hp in Hu. destruct Hu as (v & Hv & _).
    exfalso. exact (not_elem_of_nil v Hv).
Defined.
