(* ===== verification/SessionEnds.v ===== *)
(** * The loops of a session end

    The fuel of Session.v is enough: a loop that got the stated number of turns does
    not run out of it.  What is third-party, h2 and the transport, has to return or
    raise, which [h2_finite] and [transport_finite] say. *)

From S2P Require Import Prelude PyText Naming Frames FrameSpec HttpFields Uri Http1 Validation.
From S2P Require Import Capture Adapter Session SessionLemmas SessionSpec.

(** The methods of h2 do not themselves raise [OutOfFuel], the mark of a model. *)
Record h2_finite (C : Type) `{H2Connection C} : Prop := mkH2Finite {
  fin_initiate : finite (initiate_connection (C := C));
  fin_receive d : finite (super_receive_data (C := C) d);
  fin_output : finite (data_to_send (C := C));
  fin_close code last : finite (close_connection (C := C) code last);
  fin_headers sid hs es : finite (send_headers (C := C) sid hs es);
  fin_data sid d es : finite (send_data (C := C) sid d es);
  fin_reset sid code : finite (reset_stream (C := C) sid code);
  fin_acknowledge n sid : finite (acknowledge_received_data (C := C) n sid);
  fin_window sid : finite (local_flow_control_window (C := C) sid);
  fin_sleep : finite (sleep (C := C));
}.

(** Nor does the transport where [I] holds, which it keeps; what it delivers is octets. *)
Record transport_finite (T : Type) `{HTTP2Transport T} (I : T → Prop) : Prop := mkTransportFinite {
  fin_read t :
    I t → wp t_read (λ b t', bytes_ok b ∧ I t') (λ e t', e ≠ OutOfFuel ∧ I t') t;
  fin_write d : finite_in I (t_write (T := T) d);
}.

Lemma build_frame_fuel t f sid pl : _build_frame t f sid pl ≠ Err OutOfFuel.
Proof. rewrite build_frame_eq. by repeat case_bool_decide. Qed.

Lemma struct_pack_bind {A} n v (f : bytes → result A) :
  (∀ b, f b ≠ Err OutOfFuel) → (struct_pack n v ≫= f) ≠ Err OutOfFuel.
Proof. intros Hf. unfold struct_pack. destruct (_ && _); [apply Hf|discriminate]. Qed.

Lemma pack_settings_fuel d acc : pack_settings d acc ≠ Err OutOfFuel.
Proof.
  revert acc. induction d as [|[i v] d IH]; intros acc; [discriminate|]. cbn [pack_settings].
  apply struct_pack_bind. intros b. apply struct_pack_bind. intros b'. apply IH.
Qed.

Lemma build_settings_fuel d ack : build_settings_frame d ack ≠ Err OutOfFuel.
Proof.
  unfold build_settings_frame. destruct d as [d|]; [|apply build_frame_fuel].
  destruct ack; [apply build_frame_fuel|]. pose proof (pack_settings_fuel d []).
  destruct (pack_settings d []); [apply build_frame_fuel|done].
Qed.

Lemma expectations_fuel vs e : parse_expectations vs = Err e → e ≠ OutOfFuel.
Proof.
  unfold parse_expectations. destruct (parse_http_list vs) as [l|x] eqn:E; [done|].
  apply parse_http_list_err in E. by intros [= <-] ->.
Qed.

Section ends.
Context {C T : Type} `{H2Connection C} `{HTTP2Transport T}.
Context (h2_validate : list field → bool → result unit).
Context (Hh2 : h2_finite C) (I : T → Prop) (Htr : transport_finite T I).
Context (Hval : ∀ l b, h2_validate l b ≠ Err OutOfFuel).
Abbreviation Session := (@HTTP2Session C T).
Implicit Types (s : Session).

(** The session's transport is one that comes to an end. *)
Definition sound s : Prop := I (transport s).
Abbreviation ends := (finite_in sound).
Abbreviation fails := (λ e s', e ≠ OutOfFuel ∧ sound s').

Lemma on_conn_finite {A} (m : M C A) : finite m → finite (on_conn m).
Proof.
  intros Hm a. specialize (Hm (conn a)). unfold wp, on_conn in *. by destruct (m (conn a)) as [[]].
Qed.

Lemma on_adapter_finite {A} (m : M (H2Adapter C) A) : finite m → ends (on_adapter m).
Proof.
  intros Hm s Hs. specialize (Hm (connection s)). unfold wp, on_adapter in *.
  by destruct (m (connection s)) as [[]].
Qed.

Lemma on_h2_finite {A} (m : M C A) : finite m → ends (on_h2 m).
Proof. intros. by apply on_adapter_finite, on_conn_finite. Qed.

Lemma on_transport_finite {A} (m : M T A) : finite_in I m → ends (on_transport m).
Proof.
  intros Hm s Hs. specialize (Hm (transport s) Hs). unfold wp, on_transport in *.
  by destruct (m (transport s)) as [[]].
Qed.

Lemma h2_get_finite {A} (f : C → A) : ends (h2_get f).
Proof. apply finite_in_gets. Qed.

Lemma update_capture_finite f : ends (update_capture f).
Proof. by apply finite_in_modify. Qed.

#[local] Hint Resolve on_conn_finite on_adapter_finite on_h2_finite on_transport_finite
  h2_get_finite update_capture_finite fin_initiate fin_receive fin_output fin_close fin_headers
  fin_data fin_reset fin_acknowledge fin_window fin_sleep fin_read fin_write : finite.

Ltac finite_tac :=
  repeat first
    [ finite_step
    | first [apply finite_lift|apply finite_in_lift]; first [apply build_frame_fuel|apply build_settings_fuel] ].

Lemma receive_data_finite d : finite (receive_data (C := C) d).
Proof. unfold receive_data. finite_tac. Qed.
#[local] Hint Resolve receive_data_finite : finite.

Lemma replay_finite index w : finite (replay_settings (C := C) index w).
Proof. revert index. induction w as [|[i v] w IH]; intros index; cbn [replay_settings]; finite_tac. Qed.
#[local] Hint Resolve replay_finite : finite.

Lemma apply_settings_finite es : finite (apply_settings (C := C) es).
Proof. unfold apply_settings. finite_tac. Qed.
#[local] Hint Resolve apply_settings_finite : finite.

Lemma flush_finite : ends _flush.
Proof. unfold _flush. finite_tac. Qed.
#[local] Hint Resolve flush_finite : finite.

Lemma close_finite code : ends (close code).
Proof. unfold close. finite_tac. Qed.
#[local] Hint Resolve close_finite : finite.

Lemma fail_finite {A} m code : ends (@_fail C T _ _ A m code).
Proof. unfold _fail. finite_tac. Qed.
#[local] Hint Resolve fail_finite : finite.

Lemma check_cancelled_finite : ends _check_cancelled.
Proof. unfold _check_cancelled. finite_tac. Qed.
#[local] Hint Resolve check_cancelled_finite : finite.

Lemma check_fields_finite hs trailers : ends (check_fields h2_validate hs trailers).
Proof.
  unfold check_fields, need, fail_protocol. finite_tac.
  apply finite_in_raise. intros ->. destruct (validate_fields_err _ _ _ _ Heqr) as [(?&?&?)|[l Hl]];
    [done|by eapply Hval].
Qed.
#[local] Hint Resolve check_fields_finite : finite.

Lemma accept_request_finite sid hs ended : ends (accept_request sid hs ended).
Proof.
  unfold accept_request, need, fail_calm. finite_tac.
  apply finite_in_raise. by eapply expectations_fuel.
Qed.
#[local] Hint Resolve accept_request_finite : finite.

Lemma process_event_finite ev : ends (_process_event h2_validate ev).
Proof.
  unfold _process_event, _check_priority_limit, need, fail_calm, fail_protocol. finite_tac.
Qed.
#[local] Hint Resolve process_event_finite : finite.

Lemma process_events_finite evs : ends (process_events h2_validate evs).
Proof. induction evs; cbn [process_events]; finite_tac. Qed.
#[local] Hint Resolve process_events_finite : finite.

Lemma process_frame_finite f w : ends (_process_frame h2_validate f w).
Proof.
  unfold _process_frame, check_first_frame, check_header_block, process_known, check_reset,
    process_priority_update, process_goaway, wire_for_h2, deliver, rescue, settle, _check_priority_limit,
    fail_protocol, fail_calm, build_headers_frame. finite_tac.
Qed.

Lemma capture_frame_finite wire maximum s :
  sound s → bytes_ok wire → 0 ≤ _capture_entries s ≤ MAX_CAPTURE_ENTRIES →
  FRAME_HEADER_SIZE + be_val (take 3 wire) = zlen wire →
  wp (capture_frame wire maximum) (λ _, sound) fails s.
Proof.
  intros Hs Hw He Hl. unfold capture_frame. apply wp_bind, wp_gets. cbn zeta.
  pose proof (parse_wire wire maximum _ Hw He Hl) as HP.
  destruct (parse_frame _) as [[f|e] r].
  - assert (∀ n, ends (_ ← modify (set_capture_entries n);
      captured ← gets (λ s, frames (capture s));
      if zlen captured >=? MAX_CAPTURE_FRAMES then
        fail_calm (u "HTTP/2 frame count limit exceeded")
      else _ ← update_capture (add_frame f); mret f)) as Hf; [|by apply Hf].
    intros n. unfold fail_calm. finite_tac.
  - destruct HP as (m & code & ->). by apply fail_finite.
Qed.

(** Every turn of the frame loop takes octets from the buffer. *)
Lemma receive_frames_finite fuel s :
  sound s → bytes_ok (_buffer s) → zlen (frames (capture s)) ≤ MAX_CAPTURE_FRAMES →
  0 ≤ _capture_entries s ≤ MAX_CAPTURE_ENTRIES → (length (_buffer s) < fuel)%nat →
  wp (receive_frames h2_validate fuel) (λ _, sound) fails s.
Proof.
  revert s. induction fuel as [|fuel IH]; intros s Hs Hb Hf He Hfuel; [lia|]. cbn [receive_frames].
  apply wp_bind, wp_gets. destruct (Z.ltb_spec (zlen (_buffer s)) FRAME_HEADER_SIZE) as [|H9].
  { by apply wp_ret. }
  apply wp_bind, wp_gets. set (b := _buffer s) in *. set (len := be_val (take 3 b)).
  apply wp_if; intros _; [by apply fail_finite|].
  cbn zeta. destruct (Z.ltb_spec (zlen b) (FRAME_HEADER_SIZE + len)) as [Hl|Hl]; [by apply wp_ret|].
  assert (0 ≤ len) as Hlen by (apply be_val_range; by apply bytes_ok_take).
  set (n := Z.to_nat (FRAME_HEADER_SIZE + len)).
  assert (zlen (take n b) = FRAME_HEADER_SIZE + len) as Hwl
    by (apply zlen_take; unfold FRAME_HEADER_SIZE in *; lia).
  assert (take 3 (take n b) = take 3 b) as Ht.
  { rewrite take_take. f_equal. unfold n, FRAME_HEADER_SIZE. lia. }
  apply wp_bind, wp_modify, wp_bind.
  assert (bytes_ok (take n b)) as Hw by (by apply bytes_ok_take).
  assert (FRAME_HEADER_SIZE + be_val (take 3 (take n b)) = zlen (take n b)) as Hwire
    by (by rewrite Ht, Hwl).
  eapply wp_wand; [apply wp_and; [by apply capture_frame_spec|by apply capture_frame_finite]
    | |by intros e s' [_ ?]].
  intros f s1 [(Hfo & Hroom & E1 & E2 & E3 & E4) Hs1]. cbn in E1, E2, E3, E4, Hroom.
  pose proof (entries_kept_nonneg [f]).
  apply wp_bind. eapply wp_wand; [apply wp_and;
    [apply stable_wp, (process_frame_keeps h2_validate)|by apply process_frame_finite]| |by intros e s' [_ ?]].
  intros _ s2 [(K1 & K2 & K3 & K4) Hs2]. apply IH; [done|..].
  - rewrite K2, E2. by apply bytes_ok_drop.
  - rewrite K1, E1, zlen_app. change (zlen [f]) with 1. lia.
  - rewrite K3. lia.
  - rewrite K2, E2, length_drop. unfold n, FRAME_HEADER_SIZE, zlen in *. lia.
Qed.

Lemma fail_ends {A} m code s (Q : A → Session → Prop) :
  sound s → wp (_fail m code) Q fails s.
Proof.
  intros Hs. unfold _fail. apply wp_bind. eapply wp_wand; [by apply close_finite| |done].
  intros [] s' Hs'. by apply wp_raise.
Qed.

(** A session between two calls of its owner, and how such a call may raise. *)
Definition running s : Prop := captured s ∧ sound s.
Abbreviation stops := (λ e s', e ≠ OutOfFuel ∧ running s').

(** Receiving ends, and each return has counted more octets, up to the limit. *)
Lemma receive_progress data s :
  bytes_ok data → running s →
  wp (_receive h2_validate data)
    (λ _ s', running s' ∧ _capture_bytes s < _capture_bytes s' ≤ MAX_CAPTURE_BYTES) stops s.
Proof.
  intros Hd [Hs Ht].
  eapply wp_wand; [apply wp_and with (E := λ _, captured) (E' := fails)
    (Q' := λ _ s', sound s' ∧ _capture_bytes s < _capture_bytes s' ≤ MAX_CAPTURE_BYTES);
    [by apply receive_captured|]|unfold running; tauto|unfold running; tauto].
  unfold _receive, fail_calm. destruct data as [|b data]; [by apply wp_raise|].
  assert (0 < zlen (b :: data)) by (rewrite zlen_cons; pose proof (zlen_nonneg data); lia).
  set (d := b :: data) in *. clearbody d.
  apply wp_bind, wp_gets, wp_bind, wp_modify, wp_if; intros Hlim; [by apply fail_ends|].
  rewrite Z.gtb_ltb in Hlim. apply Z.ltb_ge in Hlim.
  apply wp_bind, wp_modify, wp_bind, wp_gets. set (s1 := set_buffer _ _).
  pose proof (captured_entries s Hs) as He. destruct Hs as [Hb Hf _ _ _ _].
  assert (bytes_ok (_buffer s1)) as Hb1 by (by apply bytes_ok_app).
  apply wp_bind. eapply wp_wand; [apply wp_and;
    [by apply receive_frames_moved|apply receive_frames_finite; try done; cbn; lia]|..]; cbn beta.
  2:{ by intros e s' [_ ?]. }
  intros _ s2 [[(new & _ & _ & _ & _ & _ & Ec) _] Hs2]. cbn in Ec.
  apply wp_bind. eapply wp_wand; [apply wp_and; [apply stable_wp, flush_quiet|by apply flush_finite]|
    |by intros e s' [_ ?]]. cbn beta. intros [] s3 [(t & a & c & -> & _) Hs3].
  eapply wp_wand; [apply wp_and; [apply stable_wp, check_cancelled_quiet|by apply check_cancelled_finite]|
    |by intros e s' [_ ?]]. cbn beta. intros [] s4 [(t' & a' & c' & -> & _) Hs4]. split; [done|]. cbn. lia.
Qed.

Lemma read_octets s :
  running s →
  wp (on_transport t_read)
    (λ d s', bytes_ok d ∧ running s' ∧ _capture_bytes s' = _capture_bytes s) stops s.
Proof.
  intros [Hs Ht]. pose proof (fin_read T I Htr (transport s) Ht) as Hf.
  assert (∀ t, captured (set_transport t s)) as Hc by (intros t; by destruct Hs; split).
  unfold wp, on_transport in *. destruct (t_read (transport s)) as [[d|e] t] eqn:E.
  - destruct Hf. by split_and!.
  - destruct Hf. by split_and!.
Qed.

Lemma quiet_finite {A} (m : M Session A) s (Q : A → Session → Prop) :
  running s → stable quiet m → ends m →
  (∀ a s', running s' → _capture_bytes s' = _capture_bytes s → Q a s') →
  wp m Q stops s.
Proof.
  intros [Hs Ht] Hm Hfin HQ.
  assert (∀ s', quiet s s' → captured s') as Hq.
  { intros s' (t & a' & c & -> & _). by destruct Hs; split. }
  eapply wp_wand; [apply wp_and; [by apply stable_wp|by apply Hfin]|..]; cbn beta.
  - intros a s' [Hqs ?]. apply HQ; [split; auto|]. by destruct Hqs as (t & a' & c & -> & _).
  - intros e s' [Hqs []]. split_and!; [done|split; auto].
Qed.

Lemma wait_ends fuel s :
  running s → (Z.to_nat (MAX_CAPTURE_BYTES - _capture_bytes s) < fuel)%nat →
  wp (receive_request h2_validate fuel) (λ _, running) stops s.
Proof.
  revert s. induction fuel as [|fuel IH]; intros s Hs Hfuel; [lia|]. cbn [receive_request].
  apply wp_bind, wp_gets, wp_if; intros _.
  { apply quiet_finite; [done|apply check_cancelled_quiet|apply check_cancelled_finite|done]. }
  apply wp_bind. eapply wp_wand; [by apply read_octets| |done]. intros d s1 (Hd & Hs1 & E1).
  apply wp_bind. eapply wp_wand; [by apply receive_progress| |done]. intros [] s2 [Hs2 Hp].
  apply IH; [done|lia].
Qed.

Lemma send_content_ends fuel sid content offset s :
  running s → 0 ≤ offset ≤ zlen content →
  (Z.to_nat (zlen content - offset) + Z.to_nat (MAX_CAPTURE_BYTES - _capture_bytes s) < fuel)%nat →
  wp (send_content h2_validate fuel sid content offset) (λ _, running) stops s.
Proof.
  revert offset s. induction fuel as [|fuel IH]; intros offset s Hs Ho Hfuel; [lia|].
  cbn [send_content]. destruct (Z.ltb_spec offset (zlen content)) as [Hlt|]; [|by apply wp_ret].
  apply wp_bind, quiet_finite; [done|apply check_cancelled_quiet|apply check_cancelled_finite|].
  intros _ s1 Hs1 E1. apply wp_bind, quiet_finite; [done|apply on_h2_quiet|by apply on_h2_finite, fin_window|].
  intros w s2 Hs2 E2. apply wp_bind, wp_gets. cbn zeta.
  destruct (Z.leb_spec (Z.min w (max_outbound_frame_size (conn (connection s2)))) 0) as [Hw|Hw].
  - apply wp_bind. eapply wp_wand; [by apply read_octets| |done]. intros d s3 (Hd & Hs3 & E3).
    apply wp_bind. eapply wp_wand; [by apply receive_progress| |done]. intros [] s4 [Hs4 Hp].
    apply IH; [done..|lia].
  - apply wp_bind, quiet_finite; [done|apply on_h2_quiet|by apply on_h2_finite, fin_data|].
    intros _ s3 Hs3 E3. apply wp_bind, quiet_finite; [done|apply flush_quiet|apply flush_finite|].
    intros _ s4 Hs4 E4. apply IH; [done|lia|lia].
Qed.

Lemma response_ends fuel content hs status s :
  running s → (Z.to_nat (MAX_CAPTURE_BYTES - _capture_bytes s) < fuel)%nat →
  wp (send_response h2_validate fuel content hs status) (λ _, running) stops s.
Proof.
  intros Hs Hfuel. unfold send_response.
  apply wp_bind, quiet_finite; [done|apply check_cancelled_quiet|apply check_cancelled_finite|].
  intros _ s1 Hs1 E1. apply wp_bind, wp_gets, wp_bind, wp_gets.
  destruct (stream_id (capture s1)) as [sid|]; [|by apply wp_raise].
  destruct (_request_ready s1); [|by apply wp_raise].
  destruct (prepare_response content hs status) as [body fields].
  apply wp_bind, quiet_finite; [done|apply on_h2_quiet|by apply on_h2_finite, fin_headers|].
  intros _ s2 Hs2 E2. apply wp_bind, quiet_finite; [done|apply flush_quiet|apply flush_finite|].
  intros _ s3 Hs3 E3. pose proof (zlen_nonneg body).
  apply send_content_ends; [done|lia|]. unfold zlen in *. lia.
Qed.

Lemma initialize_ends data s :
  running s → bytes_ok data → wp (initialize h2_validate data) (λ _, running) stops s.
Proof.
  intros Hs Hd. unfold initialize. apply wp_bind, wp_gets, wp_if; intros _; [by apply wp_raise|].
  apply wp_bind, wp_modify. set (s1 := set_initialized true s).
  assert (running s1) as Hs1 by (destruct Hs as [[] ?]; by split; [split|]).
  apply wp_bind, quiet_finite; [done|apply on_h2_quiet|by apply on_h2_finite, fin_initiate|].
  intros _ s2 Hs2 _. apply wp_bind, quiet_finite; [done|apply flush_quiet|apply flush_finite|].
  intros _ s3 Hs3 _. apply wp_if; intros _.
  { unfold fail_protocol. apply quiet_finite; [done|apply fail_quiet|apply fail_finite|done]. }
  apply wp_bind, quiet_finite; [done|apply on_adapter_quiet|by apply on_adapter_finite, receive_data_finite|].
  intros _ s4 Hs4 _. apply (bytes_ok_drop (length HTTP2_PREFACE)) in Hd.
  destruct (drop _ data) as [|b rest]; [by apply wp_ret|].
  eapply wp_wand; [by apply receive_progress|by intros [] s5 [? _]|done].
Qed.

End ends.

(** Waiting for a request ends. [receive_request] calls the transport at most once
    for every octet that may still be captured, because each call that returns adds
    to the capture and the capture is bounded; so that much fuel is never used up,
    whatever the peer sends, and the outcome is a request or one of the program's
    exceptions. The same for the response: a turn of [send_response] either sends a piece
    of the body, for which it has a turn an octet, or captures more. *)
Theorem session_ends {C T} `{H2Connection C} `{HTTP2Transport T} h2_validate
    (I : T → Prop) (s : @HTTP2Session C T) :
  h2_finite C → transport_finite T I → (∀ l b, h2_validate l b ≠ Err OutOfFuel) →
  captured s → I (transport s) →
  (∀ fuel, (Z.to_nat (MAX_CAPTURE_BYTES - _capture_bytes s) < fuel)%nat →
     (receive_request h2_validate fuel s).1 ≠ Err OutOfFuel) ∧
  (∀ fuel content hs status,
     (Z.to_nat (MAX_CAPTURE_BYTES - _capture_bytes s) < fuel)%nat →
     (send_response h2_validate fuel content hs status s).1 ≠ Err OutOfFuel).
Proof.
  intros Hh2 Htr Hval Hs Ht. assert (running I s) as Hr by done.
  assert (∀ (m : M (@HTTP2Session C T) unit),
    wp m (λ _, running I) (λ e s', e ≠ OutOfFuel ∧ running I s') s → (m s).1 ≠ Err OutOfFuel) as Hm.
  { intros m Hw. unfold wp in Hw. destruct (m s) as [[a|e] s']; [done|]. destruct Hw as [He _].
    by intros [= ->]. }
  split; intros; apply Hm; [by apply wait_ends|by apply response_ends].
Qed.

(** ** A witness *)

Lemma script_finite : h2_finite scripted.
Proof.
  split; intros; intros s; try exact Logic.I. cbn. unfold scripted_receive, wp. by destruct (sc_events s).
Qed.

Lemma scripted_finite : h2_finite (logged scripted).
Proof.
  assert (∀ A (m : M scripted A) f, finite m → finite (log_call m f)) as Hlog.
  { intros A m f Hm l. specialize (Hm (lg_conn l)). unfold wp, log_call in *.
    by destruct (m (lg_conn l)) as [[]]. }
  split; intros; apply Hlog, script_finite.
Qed.

Lemma wires_finite : transport_finite wires (λ _, True).
Proof.
  split; [|by intros d w _]. intros w _. unfold wp.
  destruct (t_read w) as [[b|e] w'] eqn:E; [by split; [eapply wires_bytes|]|].
  cbn in E. by destruct (to_read w); inversion E.
Qed.

(** A session that may capture three more octets. *)
Definition nearly_full : @HTTP2Session (logged scripted) wires :=
  set_capture_bytes (MAX_CAPTURE_BYTES - 3) sample_session.

(** A concrete input for [session_ends] *)
Lemma session_ends_witness :
  (receive_request accept_all 4 nearly_full).1 ≠ Err OutOfFuel ∧
  (send_response accept_all 4 (u "0123456789") None 200 nearly_full).1 ≠ Err OutOfFuel.
Proof.
  destruct (session_ends accept_all (λ _, True) nearly_full scripted_finite wires_finite
    ltac:(discriminate)) as [H1 H2].
  - split; cbn; try done; constructor.
  - done.
  - split; [apply H1; vm_compute; lia|apply H2; vm_compute; lia].
Defined.
