(* ===== verification/SessionTransport.v ===== *)
(** * The session and its transport (src/solvetls/http2/session.py)

    A session reaches its transport only through [read] and [write]: wherever
    writing moves a transport, every method moves it, but for the reads, which only
    [receive_request] and [send_response] make. *)

From S2P Require Import Prelude PyText Frames HttpFields Validation Capture Adapter Session SessionLemmas.

Section transport.
Context {C T : Type} `{H2Connection C} `{HTTP2Transport T}.
Context (h2_validate : list field → bool → result unit).
Abbreviation Session := (@HTTP2Session C T).
Context (R E : relation T) `{!PreOrder R} `{!Transitive E} `{!subrelation R E}.
Context (write_moves : ∀ d, confined R E (t_write d)).

Definition at_transport (Q : relation T) : relation Session :=
  λ s s', Q (transport s) (transport s').

Abbreviation moving := (confined (at_transport R) (at_transport E)).

#[local] Instance at_transport_preorder : PreOrder (at_transport R).
Proof. unfold at_transport. split; [intros s; reflexivity|intros x y z Ha Hb; by etrans]. Qed.

#[local] Instance at_transport_trans : Transitive (at_transport E).
Proof. unfold at_transport. intros x y z Ha Hb. by etrans. Qed.

#[local] Instance at_transport_sub : subrelation (at_transport R) (at_transport E).
Proof. unfold at_transport. intros x y Ha. by apply subrelation0. Qed.

Lemma moves_refl t : R t t.
Proof. reflexivity. Qed.

Lemma on_adapter_moves {A} (m : M (H2Adapter C) A) : moving (on_adapter m).
Proof.
  intros s. unfold wp, on_adapter. destruct (m (connection s)) as [[a|e] c]; [|apply subrelation0];
    apply moves_refl.
Qed.

Lemma on_h2_moves {A} (m : M C A) : moving (on_h2 m).
Proof. apply on_adapter_moves. Qed.

Lemma on_transport_moves {A} (m : M T A) : confined R E m → moving (on_transport m).
Proof.
  intros Hm s. specialize (Hm (transport s)). unfold wp, on_transport in *.
  destruct (m (transport s)) as [[a|e] t]; exact Hm.
Qed.

Lemma write_step_moves d : moving (on_transport (t_write d)).
Proof. apply on_transport_moves, write_moves. Qed.

Lemma h2_get_moves {A} (f : C → A) : moving (h2_get f).
Proof. apply confined_gets, _. Qed.

#[local] Hint Resolve on_adapter_moves on_h2_moves write_step_moves h2_get_moves : confined.

(** Steps through a method: known methods, and assignments to other attributes. *)
Ltac moves_step :=
  lazymatch goal with
  | |- confined _ _ (modify _) => apply confined_modify; intros ?; apply moves_refl
  | |- _ => confined_step
  end.
Ltac moves_all := unfold fail_protocol, fail_calm, update_capture, need; repeat moves_step.

Lemma flush_moves : moving _flush.
Proof. unfold _flush. moves_all. Qed.
#[local] Hint Resolve flush_moves : confined.

Lemma close_moves code : moving (close code).
Proof. unfold close. moves_all. Qed.
#[local] Hint Resolve close_moves : confined.

Lemma fail_moves {A} m code : moving (@_fail C T _ _ A m code).
Proof. unfold _fail. moves_all. Qed.
#[local] Hint Resolve fail_moves : confined.

Lemma check_cancelled_moves : moving _check_cancelled.
Proof. unfold _check_cancelled. moves_all. Qed.

Lemma priority_limit_moves : moving _check_priority_limit.
Proof. unfold _check_priority_limit. moves_all. Qed.
#[local] Hint Resolve check_cancelled_moves priority_limit_moves : confined.

Lemma accept_request_moves sid hs ended : moving (accept_request sid hs ended).
Proof. unfold accept_request. moves_all. Qed.

Lemma check_fields_moves hs trailers : moving (check_fields h2_validate hs trailers).
Proof. unfold check_fields. moves_all. Qed.
#[local] Hint Resolve accept_request_moves check_fields_moves : confined.

Lemma process_event_moves ev : moving (_process_event h2_validate ev).
Proof. unfold _process_event. moves_all. Qed.
#[local] Hint Resolve process_event_moves : confined.

Lemma process_events_moves evs : moving (process_events h2_validate evs).
Proof. induction evs as [|ev evs IH]; cbn [process_events]; moves_all. Qed.
#[local] Hint Resolve process_events_moves : confined.

Lemma rescue_moves e : raises (rescue e : M Session unit) ∧ moving (rescue e).
Proof.
  split; [|unfold rescue; moves_all]. intros s. unfold rescue.
  assert (∀ A (m : M Session A) (k : M Session unit), raises k → raises (_ ← m; k)) as Hb.
  { intros A m k Hk s'. apply wp_bind. unfold wp at 1. destruct (m s') as [[a|x] s1]; [apply Hk|done]. }
  assert (raises (S := Session) (raise (A := unit) e)) as He by done.
  destruct (is_ProtocolError e); [|apply He].
  apply wp_bind, wp_gets. destruct (_closed s); [apply He|].
  apply wp_bind. unfold wp at 1. destruct (on_h2 data_to_send s) as [[[|b d]|x] s1]; [apply He| |done].
  by apply Hb, Hb.
Qed.

Lemma deliver_moves h p w : moving (deliver h2_validate h p w).
Proof. unfold deliver. moves_all. Qed.

Lemma guarded_deliver_moves h p w : moving (try_except (deliver h2_validate h p w) rescue).
Proof. apply confined_try; [apply _|apply deliver_moves|apply rescue_moves]. Qed.
#[local] Hint Resolve guarded_deliver_moves : confined.

Lemma process_frame_moves f w : moving (_process_frame h2_validate f w).
Proof.
  unfold _process_frame, check_first_frame, check_header_block, process_known, check_reset,
    process_priority_update, process_goaway, wire_for_h2, settle. moves_all.
Qed.

Lemma capture_frame_moves w m : moving (capture_frame w m).
Proof. unfold capture_frame. moves_all. Qed.
#[local] Hint Resolve process_frame_moves capture_frame_moves : confined.

Lemma receive_frames_moves fuel : moving (receive_frames h2_validate fuel).
Proof. induction fuel as [|fuel IH]; cbn [receive_frames]; moves_all. Qed.
#[local] Hint Resolve receive_frames_moves : confined.

Lemma receive_moves data : moving (_receive h2_validate data).
Proof. unfold _receive. moves_all. Qed.
#[local] Hint Resolve receive_moves : confined.

Lemma initialize_moves data : moving (initialize h2_validate data).
Proof. unfold initialize. moves_all. Qed.

Context (read_moves : confined R E t_read).

Lemma read_step_moves : moving (on_transport t_read).
Proof. apply on_transport_moves, read_moves. Qed.
#[local] Hint Resolve read_step_moves : confined.

Lemma receive_request_moves fuel : moving (receive_request h2_validate fuel).
Proof. induction fuel as [|fuel IH]; cbn [receive_request]; moves_all. Qed.

Lemma send_content_moves fuel sid content offset :
  moving (send_content h2_validate fuel sid content offset).
Proof.
  revert offset. induction fuel as [|fuel IH]; intros offset; cbn [send_content]; moves_all.
Qed.
#[local] Hint Resolve send_content_moves : confined.

Lemma send_response_moves fuel content hs status :
  moving (Session.send_response h2_validate fuel content hs status).
Proof. unfold Session.send_response. moves_all. Qed.

End transport.

(** ** The capture and the octets of the transport

    [left t] is what a transport has yet to give: reading takes off its front, writing
    leaves it.  The frames captured are its octets, from the preface on. *)
Section reading.
Context {C T : Type} `{H2Connection C} `{HTTP2Transport T}.
Context (h2_validate : list field → bool → result unit).
Abbreviation Session := (@HTTP2Session C T).
Implicit Types (s : Session).
Context (left : T → bytes).
Context (read_left : ∀ t b t', t_read t = (Ok b, t') → left t = b ++ left t').
Context (write_left : ∀ d t t', t_write d t = (Ok tt, t') → left t' = left t).
Context (whole : bytes) (Hwhole : bytes_ok whole).

(** All that was taken is in a frame or in the buffer. *)
Definition in_sync s : Prop :=
  captured s ∧ whole = HTTP2_PREFACE ++ raw_octets (frames (capture s)) ++ _buffer s ++ left (transport s).

Definition seen_frames s : Prop :=
  Forall (λ f, frame_of (pf_raw f) f) (frames (capture s)) ∧
  (frames (capture s) = [] ∨ HTTP2_PREFACE ++ raw_octets (frames (capture s)) `prefix_of` whole).

Lemma in_sync_seen s : in_sync s → seen_frames s.
Proof. intros [Hc E]. split; [apply Hc|]. right. eexists. by rewrite E, <-app_assoc. Qed.

Lemma seen_nothing s : frames (capture s) = [] → seen_frames s.
Proof. intros E. split; [rewrite E; constructor|by left]. Qed.

Definition same_left (t t' : T) : Prop := left t' = left t.
Definition anything (t t' : T) : Prop := True.

#[local] Instance same_left_preorder : PreOrder same_left.
Proof. unfold same_left. split; [done|]. intros x y z Ha Hb. congruence. Qed.
#[local] Instance anything_trans : Transitive anything.
Proof. done. Qed.
#[local] Instance anything_sub : subrelation same_left anything.
Proof. done. Qed.

Lemma write_same_left d : confined same_left anything (t_write d).
Proof.
  intros t. unfold wp, same_left, anything. destruct (t_write d t) as [[[]|e] t'] eqn:E; [|done].
  by eapply write_left.
Qed.

Abbreviation sync_moving := (confined (at_transport same_left) (at_transport anything)).

(** A method that neither captures nor reads keeps the session in step. *)
Lemma wp_in_sync {A} (m : M Session A) (Q : A → Session → Prop) s :
  in_sync s → stable keeps_capture m → sync_moving m → (∀ a s', in_sync s' → Q a s') →
  wp m Q (λ _, seen_frames) s.
Proof.
  intros [Hc Hw] Hk Hm HQ. eapply wp_wand; [apply wp_and; [apply (stable_wp keeps_capture), Hk|apply Hm]|..].
  - intros a s' [K Hl]. apply HQ. split; [by eapply keeps_captured|].
    unfold at_transport, same_left in Hl. destruct K as (K1 & K2 & _). by rewrite K1, K2, Hl.
  - intros e s' [(K1 & _) _]. unfold seen_frames. rewrite K1. by apply in_sync_seen.
Qed.

Lemma receive_sync data s :
  captured s →
  whole = HTTP2_PREFACE ++ raw_octets (frames (capture s)) ++ _buffer s ++ data ++ left (transport s) →
  wp (_receive h2_validate data) (λ _, in_sync) (λ _, seen_frames) s.
Proof.
  intros Hc Hw. assert (bytes_ok data) as Hd by (rewrite Hw in Hwhole; rewrite !bytes_ok_app in Hwhole; tauto).
  pose proof (receive_moves h2_validate same_left anything write_same_left data s) as Hm.
  eapply wp_wand; [apply wp_and; [by apply receive_moved|apply wp_and; [by apply receive_captured|exact Hm]]|..].
  - intros [] s' [(new & rest & E1 & _ & E2 & E3) [Hc' Hl]]. split; [done|].
    destruct (E3 eq_refl) as [-> _]. unfold at_transport, same_left in Hl.
    rewrite Hl, E1, Hw. unfold raw_octets in *. rewrite fmap_app, concat_app, <-!app_assoc.
    do 2 f_equal. rewrite !app_assoc. f_equal. done.
  - intros e s' [(new & rest & E1 & _ & E2) [Hc' _]]. split; [apply Hc'|]. right. exists (rest ++ left (transport s)).
    rewrite E1, Hw. unfold raw_octets in *. rewrite fmap_app, concat_app, <-!app_assoc.
    do 2 f_equal. rewrite !app_assoc. f_equal. done.
Qed.

Lemma modify_keeps (f : Session → Session) :
  (∀ s, keeps_capture s (f s)) → stable keeps_capture (modify f).
Proof. apply stable_modify. Qed.

Lemma initialize_sync incoming t c :
  whole = incoming ++ left t →
  wp (initialize h2_validate incoming) (λ _, in_sync) (λ _, seen_frames) (new_session t c).
Proof.
  intros Hw. unfold initialize. set (s0 := new_session t c).
  apply wp_bind, wp_gets, wp_bind, wp_modify. set (s1 := set_initialized true s0).
  (** Up to the preface: nothing captured, nothing read. *)
  set (I := λ s, captured s ∧ frames (capture s) = [] ∧ _buffer s = [] ∧ left (transport s) = left t).
  assert (I s1) as HI1 by (split_and!; [split; cbn; try done; constructor|done..]).
  assert (∀ A (m : M Session A) (Q : A → Session → Prop) s, I s → stable keeps_capture m →
    sync_moving m → (∀ a s', I s' → Q a s') → wp m Q (λ _, seen_frames) s) as Hstep.
  { intros A m Q s (Hc & Hf & Hb & Hl) Hk Hm HQ.
    eapply wp_wand; [apply wp_and; [apply (stable_wp keeps_capture), Hk|apply Hm]|..].
    - intros a s' [K Hl']. apply HQ. unfold at_transport, same_left in Hl'.
      destruct (K) as (K1 & K2 & _). split_and!; [by eapply keeps_captured|congruence..].
    - intros e s' [(K1 & _) _]. apply seen_nothing. congruence. }
  apply wp_bind, Hstep; [done|apply quiet_keeps, on_h2_quiet|by apply on_h2_moves; apply _|].
  intros _ s2 HI2. apply wp_bind, Hstep; [done|apply quiet_keeps, flush_quiet| |].
  { by apply flush_moves; try apply _; apply write_same_left. }
  intros [] s3 HI3. destruct (startswith HTTP2_PREFACE incoming) eqn:Es; cbn [negb].
  2:{ apply wp_fail. intros e s' (? & ? & ? & -> & _). apply seen_nothing, HI3. }
  apply startswith_app in Es as [data Hdata].
  apply wp_bind, Hstep; [done|apply quiet_keeps, on_adapter_quiet|by apply on_adapter_moves; apply _|].
  intros _ s4 (Hc & Hf & Hb & Hl).
  assert (drop (length HTTP2_PREFACE) incoming = data) as -> by (rewrite Hdata; apply drop_app_length).
  assert (whole = HTTP2_PREFACE ++ raw_octets (frames (capture s4)) ++ _buffer s4 ++ data ++ left (transport s4))
    as Hsync by (by rewrite Hf, Hb, Hl, Hw, Hdata, <-app_assoc).
  destruct data as [|b data]; [by apply wp_ret|by apply receive_sync].
Qed.

Lemma wait_sync fuel s :
  in_sync s → wp (receive_request h2_validate fuel) (λ _, in_sync) (λ _, seen_frames) s.
Proof.
  revert s. induction fuel as [|fuel IH]; intros s Hs; cbn [receive_request];
    apply wp_bind, wp_gets; destruct (_request_ready s); try (by apply wp_raise, in_sync_seen);
    try (apply wp_in_sync; [done|apply quiet_keeps, check_cancelled_quiet|
      by apply check_cancelled_moves; try apply _; apply write_same_left|done]).
  destruct Hs as [Hc Hw]. apply wp_bind. unfold wp at 1, on_transport.
  destruct (t_read (transport s)) as [[d|e] t'] eqn:E.
  - apply wp_bind. rewrite (read_left _ _ _ E) in Hw.
    eapply wp_wand; [apply (receive_sync d)|..]; [by destruct Hc|done| |done].
    intros [] s'. apply IH.
  - apply (in_sync_seen s). by split.
Qed.

(** What the session takes for a request. *)
Lemma request_sync incoming fuel t c :
  whole = incoming ++ left t →
  wp (_ ← initialize h2_validate incoming; receive_request h2_validate fuel)
    (λ _, in_sync) (λ _, seen_frames) (new_session t c).
Proof.
  intros Hw. apply wp_bind. eapply wp_wand; [by apply initialize_sync| |done].
  intros [] s. apply wait_sync.
Qed.

End reading.
