(* ===== verification/Client.v ===== *)
(** * What a connection keeps for its report (src/solvetls/connection.py)

    The attributes of [ClientConnection] that the report and the server read: the
    addresses, the saved SYN packet, the ClientHello and the request of either
    protocol. *)

From S2P Require Import Prelude Frames ClientHello Http1 Capture.

(** The first two items of an address tuple: all the program reads of it. *)
Abbreviation address := (text * Z)%type.

Record Observed := mkObserved {
  peername : option address;
  sockname : option address;
  syn_packet : option bytes;
  http_version : option text;
  client_hello : option ClientHello;
  http1 : option HTTP1Request;
  http1_raw_head : option bytes;
  http2 : option HTTP2Capture;
}.

Definition HTTP_1_1 : text := u "HTTP/1.1".
Definition HTTP_2_0 : text := u "HTTP/2.0".

(** [ClientConnection(...)] before anything was read. *)
Definition new_observed (peer sock : option address) (syn : option bytes) : Observed :=
  mkObserved peer sock syn None None None None None.

Definition set_http_version (v : text) (o : Observed) : Observed :=
  mkObserved (peername o) (sockname o) (syn_packet o) (Some v) (client_hello o) (http1 o)
    (http1_raw_head o) (http2 o).

Definition set_client_hello (v : ClientHello) (o : Observed) : Observed :=
  mkObserved (peername o) (sockname o) (syn_packet o) (http_version o) (Some v) (http1 o)
    (http1_raw_head o) (http2 o).

Definition set_http1 (v : HTTP1Request) (o : Observed) : Observed :=
  mkObserved (peername o) (sockname o) (syn_packet o) (http_version o) (client_hello o) (Some v)
    (http1_raw_head o) (http2 o).

Definition set_http1_raw_head (v : bytes) (o : Observed) : Observed :=
  mkObserved (peername o) (sockname o) (syn_packet o) (http_version o) (client_hello o) (http1 o)
    (Some v) (http2 o).

Definition set_http2 (v : HTTP2Capture) (o : Observed) : Observed :=
  mkObserved (peername o) (sockname o) (syn_packet o) (http_version o) (client_hello o) (http1 o)
    (http1_raw_head o) (Some v).
