(* ===== verification/Report.v ===== *)
(** * The report (src/solvetls/report.py)

    What the service answers: a JSON object built from the observations of one
    connection.  [_plain] works on [pyvalue], the Python values a frame payload is
    made of; [asdict] lists the fields of each payload class as its declaration does. *)

From S2P Require Import Prelude PyText Wire TlsEnums Naming ClientHello Extensions Syn Frames.
From S2P Require Import FrameSpec HttpFields Capture Fingerprints Uri Http1 Client.

Definition SOURCE_URL : text := u "https://github.com/solvefixed/solvetls".

Definition json_opt_int (o : option Z) : json :=
  match o with Some n => JInt n | None => JNull end.

(** ** Addresses *)

Definition format_address (name : option address) : option text :=
  match name with
  | None => None
  | Some (host, port) =>
      Some (if mem 58 host then u "[" ++ host ++ u "]:" ++ str_int port
            else host ++ u ":" ++ str_int port)
  end.

(** The dictionary that [parse_syn] returns. *)
Definition syn_json (s : SynReport) : json :=
  JDict [(u "cap_length", JInt (cap_length s));
         (u "dst_port", JInt (tcp_dst_port (syn_tcp s)));
         (u "src_port", JInt (tcp_src_port (syn_tcp s)));
         (u "ip", JDict [(u "id", json_opt_int (ip_id (syn_ip s)));
                         (u "ttl", JInt (ip_ttl (syn_ip s)));
                         (u "ip_version", JInt (ip_version (syn_ip s)));
                         (u "dst_ip", JStr (ip_dst (syn_ip s)));
                         (u "src_ip", JStr (ip_src (syn_ip s)))]);
         (u "tcp", JDict [(u "ack", JInt (tcp_ack (syn_tcp s)));
                          (u "checksum", JInt (tcp_checksum (syn_tcp s)));
                          (u "seq", JInt (tcp_seq (syn_tcp s)));
                          (u "window", JInt (tcp_window (syn_tcp s)))])].

Definition _tcpip_report (c : Observed) : result json :=
  parsed ← parse_syn (syn_packet c);
  match parsed with
  | Some s => mret (syn_json s)
  | None =>
      let peer := peername c in
      let sock := sockname c in
      mret (JDict
        [(u "cap_length", JNull);
         (u "dst_port", json_opt_int (snd <$> sock));
         (u "src_port", json_opt_int (snd <$> peer));
         (u "ip", JDict [(u "id", JNull); (u "ttl", JNull);
            (u "ip_version",
             JInt (match peer with Some (host, _) => if mem 58 host then 6 else 4 | None => 4 end));
            (u "dst_ip", json_opt_str (fst <$> sock));
            (u "src_ip", json_opt_str (fst <$> peer))]);
         (u "tcp", JDict [(u "ack", JNull); (u "checksum", JNull); (u "seq", JNull);
                          (u "window", JNull)])])
  end.

(** ** The request *)

(** [for key, value in headers or []: ...] *)
Definition _header (hs : option (list (field_value * field_value))) (name : text) : option text :=
  match List.find (λ h, bool_decide (lower (as_text h.1) = name)) (default [] hs) with
  | Some h => Some (as_text h.2)
  | None => None
  end.

(** The fields of either version as [_header] and the reports see them. *)
Definition bytes_fields (hs : list (bytes * bytes)) : list (field_value * field_value) :=
  (λ h, (FBytes h.1, FBytes h.2)) <$> hs.

Definition text_fields (hs : list (text * text)) : list (field_value * field_value) :=
  (λ h, (FStr h.1, FStr h.2)) <$> hs.

Definition request_method (c : Observed) : option text :=
  match http2 c with
  | Some h2 => _header (bytes_fields <$> Capture.headers h2) (u ":method")
  | None => method <$> http1 c
  end.

Definition request_path (c : Observed) : option text :=
  match http2 c with
  | Some h2 => _header (bytes_fields <$> Capture.headers h2) (u ":path")
  | None => Http1.path <$> http1 c
  end.

Definition routing_path (c : Observed) : result (option text) :=
  match request_path c with
  | None | Some [] => Ok None
  | Some target =>
      if bool_decide (request_method c = Some (u "CONNECT")) then Ok None
      else if bool_decide (http_version c = Some HTTP_2_0) || startswith (u "/") target ||
              bool_decide (target = u "*") then
        Ok (Some (partition_ 63 target).1.1)
      else
        parsed ← split_absolute_uri target;
        mret (Some (match Uri.path parsed with [] => u "/" | p => p end))
  end.

Definition _user_agent (c : Observed) : option text :=
  match http2 c with
  | Some h2 => _header (bytes_fields <$> Capture.headers h2) (u "user-agent")
  | None =>
      match http1 c with
      | Some r => _header (Some (text_fields (Http1.headers r))) (u "user-agent")
      | None => None
      end
  end.

(** [[as_text(key), as_text(value)]] for every field *)
Definition fields_json (hs : list (field_value * field_value)) : json :=
  JList ((λ h, JList [JStr (as_text h.1); JStr (as_text h.2)]) <$> hs).

(** ** TLS *)

Definition extension_json (e : Extension) : result json :=
  decoded ← decode_extension (ext_type e) (ext_data e);
  mret (JDict (merge (describe (ext_type e) (Some ExtensionType))
    [(u "length", JInt (zlen (ext_data e)));
     (u "decoded", default JNull decoded);
     (u "data", JStr (hex (ext_data e)))])).

Definition _tls_report (hello : option ClientHello) : result json :=
  match hello with
  | None => Ok JNull
  | Some ch =>
      ja3 ← build_ja3 (Some ch);
      ja4 ← build_ja4 (Some ch);
      extensions_json ← mapM extension_json (extensions ch);
      mret (JDict (merge ja3
        [(u "ja4", json_opt_str ja4);
         (u "version", JDict (describe (version ch) (Some TLSVersion)));
         (u "random", JStr (hex (random ch)));
         (u "session_id", JStr (hex (session_id ch)));
         (u "cipher_suites", JList ((λ c, JDict (describe c (Some CipherSuite))) <$> cipher_suites ch));
         (u "compression_methods", JList (JInt <$> compression_methods ch));
         (u "extensions", JList extensions_json)]))
  end.

(** ** HTTP/1.1 *)

Definition _http1_report (c : Observed) : json :=
  let request := http1 c in
  JDict (merge
    [(u "method", json_opt_str (method <$> request));
     (u "path", json_opt_str (Http1.path <$> request));
     (u "headers",
      fields_json (match request with Some r => text_fields (Http1.headers r) | None => [] end))]
    (match http1_raw_head c with
     | Some raw_head => [(u "raw_head", JStr (hex raw_head))]
     | None => []
     end)).

(** ** HTTP/2 *)

Definition _setting_report (identifier value : Z) : json :=
  let entry := describe identifier (Some SettingsIdentifier) in
  let entry :=
    if (0 <=? identifier) && (identifier <=? 0xFFFF) && (Z.land identifier 0x0F0F =? 0x0A0A)
    then dict_set (u "grease") (JBool true) entry else entry in
  JDict (merge entry [(u "setting", JInt value)]).

(** The Python values that payloads hold. *)
Inductive pyvalue :=
  | PNone
  | PBool (b : bool)
  | PInt (n : Z)
  | PStr (s : text)
  | PBytes (b : bytes)
  | PList (l : list pyvalue)
  | PDict (d : list (Z * pyvalue))
  | PData (fields : list (text * pyvalue)).

(** [str(key)] of an integer key; a dictionary keeps the order of its keys. *)
Fixpoint _plain (v : pyvalue) : json :=
  match v with
  | PNone => JNull
  | PBool b => JBool b
  | PInt n => JInt n
  | PStr s => JStr s
  | PBytes b => JStr (hex b)
  | PList l => JList (_plain <$> l)
  | PDict d => JDict ((λ p, (str_int p.1, _plain p.2)) <$> d)
  | PData fs => JDict ((λ p, (p.1, _plain p.2)) <$> fs)
  end.

Definition p_option {A} (f : A → pyvalue) (o : option A) : pyvalue :=
  match o with Some a => f a | None => PNone end.

Definition priority_value (i : PriorityInfo) : pyvalue :=
  PData [(u "exclusive", PBool (exclusive i)); (u "dependency", PInt (dependency i));
         (u "weight", PInt (weight i))].

Definition asdict (p : PayloadType) : list (text * pyvalue) :=
  match p with
  | DataPayload data end_stream padded =>
      [(u "data", PBytes data); (u "end_stream", PBool end_stream); (u "padded", PBool padded)]
  | HeadersPayload header_block priority end_stream end_headers padded =>
      [(u "header_block", PBytes header_block);
       (u "priority", p_option priority_value priority);
       (u "end_stream", PBool end_stream); (u "end_headers", PBool end_headers);
       (u "padded", PBool padded)]
  | PriorityPayload i =>
      [(u "exclusive", PBool (exclusive i)); (u "dependency", PInt (dependency i));
       (u "weight", PInt (weight i))]
  | RstStreamPayload error_code => [(u "error_code", PInt error_code)]
  | SettingsPayload ack settings entries =>
      [(u "ack", PBool ack);
       (u "settings", p_option (λ d, PDict ((λ e, (e.1, PInt e.2)) <$> d)) settings);
       (u "entries", PList ((λ e, PList [PInt e.1; PInt e.2]) <$> entries))]
  | PushPromisePayload promised_stream_id header_block end_headers padded =>
      [(u "promised_stream_id", PInt promised_stream_id);
       (u "header_block", PBytes header_block); (u "end_headers", PBool end_headers);
       (u "padded", PBool padded)]
  | PingPayload data ack => [(u "data", PBytes data); (u "ack", PBool ack)]
  | GoawayPayload last_stream_id error_code debug_data =>
      [(u "last_stream_id", PInt last_stream_id); (u "error_code", PInt error_code);
       (u "debug_data", PBytes debug_data)]
  | WindowUpdatePayload increment => [(u "increment", PInt increment)]
  | ContinuationPayload header_block end_headers =>
      [(u "header_block", PBytes header_block); (u "end_headers", PBool end_headers)]
  | AltSvcPayload origin field_value =>
      [(u "origin", PBytes origin); (u "field_value", PBytes field_value)]
  | OriginPayload origins => [(u "origins", PList (PBytes <$> origins))]
  | PriorityUpdatePayload prioritized_stream_id priority_field_value =>
      [(u "prioritized_stream_id", PInt prioritized_stream_id);
       (u "priority_field_value", PBytes priority_field_value)]
  | UnknownPayload unknown_type raw_payload parse_error error_code =>
      [(u "unknown_type", PInt unknown_type); (u "raw_payload", PBytes raw_payload);
       (u "parse_error", p_option PStr parse_error); (u "error_code", p_option PInt error_code)]
  end.

Definition _FRAME_FLAG_NAMES : list (Z * list string) :=
  [(FT_DATA, ["END_STREAM"%string; "PADDED"%string]);
   (FT_HEADERS, ["END_STREAM"%string; "END_HEADERS"%string; "PADDED"%string; "PRIORITY"%string]);
   (FT_SETTINGS, ["ACK"%string]);
   (FT_PUSH_PROMISE, ["END_HEADERS"%string; "PADDED"%string]);
   (FT_PING, ["ACK"%string]);
   (FT_CONTINUATION, ["END_HEADERS"%string])].

(** The flag names of a frame that are set. *)
Definition flag_names (h : FrameHeader) : list string :=
  List.filter (λ name, has_flag h (member FrameFlags name))
    (default [] (dict_get (fh_type h) _FRAME_FLAG_NAMES)).

(** [for name in (...): payload.pop(name, None)] *)
Definition payload_json (p : PayloadType) : json :=
  JDict (foldl (λ d name, dict_pop name d) ((λ f, (f.1, _plain f.2)) <$> asdict p)
    [u "end_stream"; u "end_headers"; u "padded"; u "ack"]).

Definition _frame_report (frame : ParsedFrame) : json :=
  let h := pf_header frame in
  JDict (merge (describe (fh_type h) (Some FrameType))
    [(u "flags", JInt (fh_flags h));
     (u "flag_names", JList ((λ n, JStr (u n)) <$> flag_names h));
     (u "stream_id", JInt (fh_stream_id h));
     (u "length", JInt (fh_length h));
     (u "payload", payload_json (pf_payload frame));
     (u "raw", JStr (hex (pf_raw frame)))]).

Definition _http2_report (capture : option HTTP2Capture) : result json :=
  report ← build_akamai_fingerprint capture;
  match capture with
  | None => mret (JDict report)
  | Some c =>
      mret (JDict (merge report
        ((match initial_settings c with
          | Some l => [(u "settings", JList ((λ e, _setting_report e.1 e.2) <$> l))]
          | None => []
          end) ++
         (match Capture.headers c with
          | Some l => [(u "headers", fields_json (bytes_fields l))]
          | None => []
          end) ++
         (match trailers c with
          | [] => []
          | l => [(u "trailers", fields_json (bytes_fields l))]
          end) ++
         [(u "frames", JList (_frame_report <$> frames c))])))
  end.

(** ** The whole *)

Definition build_report (c : Observed) : result (list (text * json)) :=
  tls ← _tls_report (client_hello c);
  http ←
    (if bool_decide (http_version c = Some HTTP_2_0) then
       r ← _http2_report (http2 c);
       mret [(u "http2", r)]
     else if bool_decide (http_version c = Some HTTP_1_1) then
       mret [(u "http1", _http1_report c)]
     else mret []);
  tcpip ← _tcpip_report c;
  mret (merge
    [(u "source", JStr SOURCE_URL);
     (u "ip", json_opt_str (format_address (peername c)));
     (u "http_version", json_opt_str (http_version c));
     (u "method", json_opt_str (request_method c));
     (u "user_agent", json_opt_str (_user_agent c));
     (u "tls", tls)]
    (http ++ [(u "tcpip", tcpip)])).

(** ** What an observation satisfies *)

(** The ClientHello was parsed, the frames were read, and octets are octets. *)
Record observed_ok (c : Observed) : Prop := mkObservedOk {
  ob_syn : bytes_ok (default [] (syn_packet c));
  ob_hello : ∀ ch, client_hello c = Some ch → client_hello_ok ch;
  ob_head : ∀ h, http1_raw_head c = Some h → bytes_ok h;
  ob_frames : ∀ h2, http2 c = Some h2 →
    Forall (λ f, readable f ∧ bytes_ok (pf_raw f)) (frames h2);
}.

(** ** Totality *)

Lemma extension_json_total e : extension_ok e → ∃ j, extension_json e = Ok j.
Proof.
  intros [_ [Hd _]]. unfold extension_json.
  destruct (decode_extension_total (ext_type e) (ext_data e) Hd) as [d ->]. by eexists.
Qed.

Lemma tls_report_total hello :
  (∀ ch, hello = Some ch → client_hello_ok ch) → ∃ j, _tls_report hello = Ok j.
Proof.
  destruct hello as [ch|]; intros Hok; [|by eexists]. specialize (Hok ch eq_refl).
  cbn [_tls_report build_ja3]. destruct (ja3_total ch Hok) as (gs & fs & _ & _ & -> & _).
  destruct (ja4_total ch Hok) as (a & b & c & -> & _). cbn [mbind result_bind mret result_ret].
  destruct (mapM_total extension_json (extensions ch)) as [js ->]; [|by eexists].
  destruct Hok as (_ & _ & _ & _ & _ & He & _). eapply Forall_impl; [exact He|].
  apply extension_json_total.
Qed.

Lemma http2_report_total capture :
  (∀ c, capture = Some c → Forall readable (frames c)) → ∃ j, _http2_report capture = Ok j.
Proof.
  destruct capture as [c|]; intros Hok; [|by eexists]. specialize (Hok c eq_refl).
  unfold _http2_report, build_akamai_fingerprint, akamai_string.
  rewrite (akamai_loop_spec _ _ Hok). destruct (frames c); by eexists.
Qed.

(** What keeps [build_report] from raising. *)
Record reportable (c : Observed) : Prop := mkReportable {
  rp_syn : bytes_ok (default [] (syn_packet c));
  rp_hello : ∀ ch, client_hello c = Some ch → client_hello_ok ch;
  rp_frames : ∀ h2, http2 c = Some h2 → Forall readable (frames h2);
}.

Lemma observed_reportable c : observed_ok c → reportable c.
Proof.
  intros [Hs Hh _ Hf]. split; [done..|]. intros h2 E. eapply Forall_impl; [exact (Hf h2 E)|]. by intros f [? _].
Qed.

Lemma report_returns c : reportable c → ∃ r, build_report c = Ok r.
Proof.
  intros [Hs Hh Hf]. unfold build_report.
  destruct (tls_report_total (client_hello c) Hh) as [tls ->].
  assert (∃ j, _tcpip_report c = Ok j) as [tcpip ->].
  { unfold _tcpip_report. destruct (parse_syn_ok _ Hs) as ([s|] & -> & _); by eexists. }
  destruct (http2_report_total (http2 c) Hf) as [h2 ->].
  cbn [mbind result_bind mret result_ret]. repeat case_match; by eexists.
Qed.

Lemma report_total c : observed_ok c → ∃ r, build_report c = Ok r.
Proof. intros. by apply report_returns, observed_reportable. Qed.

(** ** Faithfulness *)

Lemma merge_field (k : text) (d e d' e' : list (text * json)) v v' :
  merge d e = merge d' e' →
  (match dict_get k (reverse e) with Some v => Some v | None => dict_get k d end) = Some v →
  (match dict_get k (reverse e') with Some v => Some v | None => dict_get k d' end) = Some v' →
  v = v'.
Proof.
  intros E Hv Hv'. pose proof (f_equal (dict_get k) E) as Ek. unfold merge in Ek.
  rewrite !dict_get_merge in Ek. congruence.
Qed.

Lemma object_inj (d e d' e' : list (text * json)) j :
  Ok (JDict (merge d e)) = Ok j → Ok (JDict (merge d' e')) = Ok j → merge d e = merge d' e'.
Proof. congruence. Qed.

(** The value under a key of two equal objects. *)
Ltac same_field E k :=
  eapply (merge_field (u k)); [exact E|reflexivity|reflexivity].

Lemma extension_json_inj e e' j :
  extension_ok e → extension_ok e' → extension_json e = Ok j → extension_json e' = Ok j → e = e'.
Proof.
  intros [_ [Hd _]] [_ [Hd' _]]. unfold extension_json.
  destruct (decode_extension (ext_type e) _) as [d|]; [|done].
  destruct (decode_extension (ext_type e') _) as [d'|]; [|done]. intros H1 H2. pose proof (object_inj _ _ _ _ _ H2 H1) as E. clear H1 H2.
  assert (JInt (ext_type e') = JInt (ext_type e)) as [= Ht] by same_field E "value".
  assert (JStr (hex (ext_data e')) = JStr (hex (ext_data e))) as [= Hx] by same_field E "data".
  apply hex_inj in Hx; [|done..]. destruct e, e'. by f_equal.
Qed.

Lemma describe_inj v v' e : JDict (describe v e) = JDict (describe v' e) → v = v'.
Proof. by intros [= ->]. Qed.

Lemma tls_report_inj ch ch' j :
  client_hello_ok ch → client_hello_ok ch' →
  _tls_report (Some ch) = Ok j → _tls_report (Some ch') = Ok j → ch = ch'.
Proof.
  intros (_ & [_ Hr] & [Hi _] & _ & _ & [He _]) (_ & [_ Hr'] & [Hi' _] & _ & _ & [He' _]).
  unfold _tls_report. destruct (build_ja3 (Some ch)) as [a|]; [|done].
  destruct (build_ja3 (Some ch')) as [a'|]; [|done].
  destruct (build_ja4 (Some ch)) as [b|]; [|done]. destruct (build_ja4 (Some ch')) as [b'|]; [|done].
  cbn [mbind result_bind]. destruct (mapM extension_json (extensions ch)) as [x|] eqn:Ex; [|done].
  destruct (mapM extension_json (extensions ch')) as [x'|] eqn:Ex'; [|done].
  intros H1 H2. pose proof (object_inj _ _ _ _ _ H2 H1) as E. clear H1 H2.
  assert (JDict (describe (version ch') (Some TLSVersion)) =
          JDict (describe (version ch) (Some TLSVersion))) as Hv%describe_inj by same_field E "version".
  assert (JStr (hex (random ch')) = JStr (hex (random ch))) as [= Hx1] by same_field E "random".
  assert (JStr (hex (session_id ch')) = JStr (hex (session_id ch))) as [= Hx2]
    by same_field E "session_id".
  assert (JList ((λ c, JDict (describe c (Some CipherSuite))) <$> cipher_suites ch') =
          JList ((λ c, JDict (describe c (Some CipherSuite))) <$> cipher_suites ch)) as [= Hc]
    by same_field E "cipher_suites".
  assert (JList (JInt <$> compression_methods ch') = JList (JInt <$> compression_methods ch))
    as [= Hm] by same_field E "compression_methods".
  assert (JList x' = JList x) as [= ->] by same_field E "extensions".
  apply hex_inj in Hx1, Hx2; [|done..].
  apply (fmap_same _ (λ _, True)) in Hc;
    [|by intros ? ? _ _ ?%describe_inj|by apply Forall_true..].
  apply (fmap_same _ (λ _, True)) in Hm; [|by intros ? ? _ _ [= ?]|by apply Forall_true..].
  apply mapM_Ok in Ex, Ex'.
  assert (extensions ch' = extensions ch) as Hx.
  { eapply (Forall2_same _ extension_ok); [|exact He'|exact He|exact Ex'|exact Ex].
    intros e1 e2 y ? ? H1 H2. by apply (extension_json_inj e1 e2 y). }
  destruct ch, ch'. cbn in *. congruence.
Qed.

Lemma setting_report_inj e e' :
  _setting_report e.1 e.2 = _setting_report e'.1 e'.2 → e = e'.
Proof.
  destruct e as [i v], e' as [i' v']. unfold _setting_report. intros H.
  assert (∀ d d' : list (text * json), JDict d = JDict d' → d = d') as Hinj by congruence.
  apply Hinj in H.
  assert (JInt v = JInt v') as [= ->] by same_field H "setting".
  assert (JInt i = JInt i') as [= ->]; [|done].
  destruct (_ && _) in H; destruct (_ && _) in H; same_field H "value".
Qed.

Lemma frame_report_inj f f' :
  bytes_ok (pf_raw f) → bytes_ok (pf_raw f') → _frame_report f = _frame_report f' →
  pf_header f = pf_header f' ∧ pf_raw f = pf_raw f'.
Proof.
  intros Hr Hr' H. unfold _frame_report in H.
  assert (∀ d d' : list (text * json), JDict d = JDict d' → d = d') as Hinj by congruence.
  apply Hinj in H.
  assert (JInt (fh_type (pf_header f)) = JInt (fh_type (pf_header f'))) as [= E1]
    by same_field H "value".
  assert (JInt (fh_flags (pf_header f)) = JInt (fh_flags (pf_header f'))) as [= E2]
    by same_field H "flags".
  assert (JInt (fh_stream_id (pf_header f)) = JInt (fh_stream_id (pf_header f'))) as [= E3]
    by same_field H "stream_id".
  assert (JInt (fh_length (pf_header f)) = JInt (fh_length (pf_header f'))) as [= E4]
    by same_field H "length".
  assert (JStr (hex (pf_raw f)) = JStr (hex (pf_raw f'))) as [= E5] by same_field H "raw".
  apply hex_inj in E5; [|done..]. split; [|done].
  destruct (pf_header f), (pf_header f'). cbn in *. congruence.
Qed.

Lemma bytes_fields_inj l l' : fields_json (bytes_fields l) = fields_json (bytes_fields l') → l = l'.
Proof.
  unfold fields_json, bytes_fields. rewrite <-!list_fmap_compose. intros [= E].
  apply (fmap_same _ (λ _, True)) in E; [done| |by apply Forall_true..].
  intros [a b] [a' b'] _ _ E1. cbn in E1. unfold decode_latin1 in E1. congruence.
Qed.

Lemma text_fields_inj l l' : fields_json (text_fields l) = fields_json (text_fields l') → l = l'.
Proof.
  unfold fields_json, text_fields. rewrite <-!list_fmap_compose. intros [= E].
  apply (fmap_same _ (λ _, True)) in E; [done| |by apply Forall_true..].
  intros [a b] [a' b'] _ _ E1. cbn in E1. unfold decode_latin1 in E1. congruence.
Qed.

(** Where the parts of a capture are in its report. *)
Lemma http2_report_fields c j :
  _http2_report (Some c) = Ok j → ∃ d, j = JDict d ∧
  dict_get (u "settings") d = (λ l, JList ((λ e, _setting_report e.1 e.2) <$> l)) <$> initial_settings c ∧
  dict_get (u "headers") d = (λ l, fields_json (bytes_fields l)) <$> Capture.headers c ∧
  default (fields_json (bytes_fields [])) (dict_get (u "trailers") d) =
    fields_json (bytes_fields (trailers c)) ∧
  dict_get (u "frames") d = Some (JList (_frame_report <$> frames c)).
Proof.
  unfold _http2_report. intros H.
  assert (∃ a b, build_akamai_fingerprint (Some c) =
            Ok [(u "akamai_fingerprint", a); (u "akamai_fingerprint_hash", b)]) as (a & b & Ha).
  { unfold build_akamai_fingerprint in *. destruct (frames c); [by eexists _, _|].
    destruct (akamai_string c); [by eexists _, _|done]. }
  rewrite Ha in H. cbn [mbind result_bind mret result_ret] in H. apply (inj Ok) in H. subst j. eexists. split; [done|].
  unfold merge. rewrite !dict_get_merge.
  destruct (initial_settings c), (Capture.headers c), (trailers c) as [|? ?]; by split_and!.
Qed.

(** What of a capture the report shows. *)
Definition shown_capture (c : HTTP2Capture) :=
  (initial_settings c, Capture.headers c, trailers c,
   (λ f, (pf_header f, pf_raw f)) <$> frames c).

Lemma http2_report_inj c c' j :
  Forall (λ f, bytes_ok (pf_raw f)) (frames c) → Forall (λ f, bytes_ok (pf_raw f)) (frames c') →
  _http2_report (Some c) = Ok j → _http2_report (Some c') = Ok j →
  shown_capture c = shown_capture c'.
Proof.
  intros Hf Hf' (d & -> & H1 & H2 & H3 & H4)%http2_report_fields
    (d' & [= <-] & H1' & H2' & H3' & H4')%http2_report_fields.
  unfold shown_capture. rewrite H1 in H1'. rewrite H2 in H2'. rewrite H3 in H3'. rewrite H4 in H4'.
  apply bytes_fields_inj in H3' as ->. apply pair_equal_spec. split; [apply pair_equal_spec; split; [apply pair_equal_spec; split|done]|].
  - destruct (initial_settings c) as [l|], (initial_settings c') as [l'|]; try done.
    f_equal.
    assert ((λ e, _setting_report e.1 e.2) <$> l = (λ e, _setting_report e.1 e.2) <$> l') as E.
    { cbn in H1'. congruence. }
    apply (fmap_same _ (λ _, True)) in E; [done|..|by apply Forall_true|by apply Forall_true].
    by intros ? ? _ _ ?%setting_report_inj.
  - destruct (Capture.headers c) as [l|], (Capture.headers c') as [l'|]; try done.
    apply (inj Some) in H2'. f_equal. by apply bytes_fields_inj.
  - assert (_frame_report <$> frames c' = _frame_report <$> frames c) as E by congruence.
    clear -E Hf Hf'. revert E Hf'. generalize (frames c'). induction Hf as [|f fs Hr _ IH];
      intros [|f' fs'] E Hf'; try done. inversion Hf'. cbn [fmap list_fmap] in E |- *.
    apply (inj2 cons) in E as [E1 E2]. symmetry in E1.
    apply frame_report_inj in E1 as [-> ->]; [|done..]. f_equal. by apply IH.
Qed.

(** What of an HTTP/1.1 request the report shows. *)
Definition shown_http1 (c : Observed) :=
  ((λ r, (method r, Http1.path r, Http1.headers r)) <$> http1 c, http1_raw_head c).

Lemma json_opt_str_inj o o' : json_opt_str o = json_opt_str o' → o = o'.
Proof. destruct o, o'; cbn; congruence. Qed.

Lemma http1_report_inj c c' :
  bytes_ok (default [] (http1_raw_head c)) → bytes_ok (default [] (http1_raw_head c')) →
  _http1_report c = _http1_report c' → shown_http1 c = shown_http1 c'.
Proof.
  intros Hb Hb' H. assert (∀ d d' : list (text * json), JDict d = JDict d' → d = d') as Hinj
    by congruence. unfold _http1_report in H. apply Hinj in H. clear Hinj. unfold shown_http1.
  assert (json_opt_str (method <$> http1 c) = json_opt_str (method <$> http1 c'))
    as H1%json_opt_str_inj by (destruct (http1_raw_head c), (http1_raw_head c'); same_field H "method").
  assert (json_opt_str (Http1.path <$> http1 c) = json_opt_str (Http1.path <$> http1 c'))
    as H2%json_opt_str_inj by (destruct (http1_raw_head c), (http1_raw_head c'); same_field H "path").
  assert (fields_json (match http1 c with Some r => text_fields (Http1.headers r) | None => [] end) =
          fields_json (match http1 c' with Some r => text_fields (Http1.headers r) | None => [] end))
    as H3 by (destruct (http1_raw_head c), (http1_raw_head c'); same_field H "headers").
  apply pair_equal_spec. split.
  - destruct (http1 c) as [q|], (http1 c') as [q'|]; try done. cbn in H1, H2 |- *.
    apply text_fields_inj in H3. congruence.
  - pose proof (f_equal (dict_get (u "raw_head")) H) as Hr. unfold merge in Hr.
    rewrite !dict_get_merge in Hr.
    destruct (http1_raw_head c) as [h|], (http1_raw_head c') as [h'|]; try done.
    assert (JStr (hex h) = JStr (hex h')) as [= E%hex_inj] by same_field H "raw_head"; [|done..].
    by rewrite E.
Qed.

(** The part of the report that depends on the protocol. *)
Inductive http_part (c : Observed) : list (text * json) → Prop :=
  | part_http2 j :
      http_version c = Some HTTP_2_0 → _http2_report (http2 c) = Ok j →
      http_part c [(u "http2", j)]
  | part_http1 :
      http_version c = Some HTTP_1_1 → http_part c [(u "http1", _http1_report c)]
  | part_none :
      http_version c ≠ Some HTTP_2_0 → http_version c ≠ Some HTTP_1_1 → http_part c [].

Lemma report_fields c r :
  build_report c = Ok r → ∃ tls http tcpip,
    _tls_report (client_hello c) = Ok tls ∧ http_part c http ∧
    r = merge [(u "source", JStr SOURCE_URL);
               (u "ip", json_opt_str (format_address (peername c)));
               (u "http_version", json_opt_str (http_version c));
               (u "method", json_opt_str (request_method c));
               (u "user_agent", json_opt_str (_user_agent c));
               (u "tls", tls)] (http ++ [(u "tcpip", tcpip)]).
Proof.
  unfold build_report. destruct (_tls_report (client_hello c)) as [tls|]; [|done].
  cbn [mbind result_bind]. destruct (bool_decide_reflect (http_version c = Some HTTP_2_0)).
  - destruct (_http2_report (http2 c)) as [j|] eqn:E; [|done]. cbn [mbind result_bind mret result_ret].
    destruct (_tcpip_report c) as [tcpip|]; [|done]. intros [= <-].
    exists tls, [(u "http2", j)], tcpip. split; [done|]. split; [by constructor|done].
  - destruct (bool_decide_reflect (http_version c = Some HTTP_1_1));
      cbn [mbind result_bind mret result_ret]; (destruct (_tcpip_report c) as [tcpip|]; [|done]);
      intros [= <-]; eexists tls, _, tcpip; (split; [done|]); (split; [by constructor|done]).
Qed.

Lemma tls_part_inj o o' j :
  (∀ ch, o = Some ch → client_hello_ok ch) → (∀ ch, o' = Some ch → client_hello_ok ch) →
  _tls_report o = Ok j → _tls_report o' = Ok j → o = o'.
Proof.
  assert (∀ ch, _tls_report (Some ch) ≠ Ok JNull) as Hno.
  { intros ch. unfold _tls_report. destruct (build_ja3 _); [|done]. destruct (build_ja4 _); [|done].
    cbn [mbind result_bind]. by destruct (mapM _ _). }
  destruct o as [ch|], o' as [ch'|]; intros Ho Ho' H H'; [|exfalso..|done].
  - f_equal. by eapply tls_report_inj; [apply Ho|apply Ho'|..].
  - injection H' as <-. by apply Hno in H.
  - injection H as <-. by apply Hno in H'.
Qed.

Lemma http2_part_inj o o' j :
  (∀ c, o = Some c → Forall (λ f, readable f ∧ bytes_ok (pf_raw f)) (frames c)) →
  (∀ c, o' = Some c → Forall (λ f, readable f ∧ bytes_ok (pf_raw f)) (frames c)) →
  _http2_report o = Ok j → _http2_report o' = Ok j → shown_capture <$> o = shown_capture <$> o'.
Proof.
  assert (∀ c, _http2_report None = Ok j → _http2_report (Some c) = Ok j → False) as Hno.
  { intros c [= <-] (d & [= <-] & _ & _ & _ & [=])%http2_report_fields. }
  destruct o as [c|], o' as [c'|]; intros Ho Ho' H H'; [|exfalso; eauto..|done].
  cbn. f_equal.
  assert (∀ fs, Forall (λ f, readable f ∧ bytes_ok (pf_raw f)) fs →
    Forall (λ f, bytes_ok (pf_raw f)) fs) as Hraw.
  { intros fs Hfs. eapply Forall_impl; [exact Hfs|]. by intros f [_ ?]. }
  by apply (http2_report_inj c c' j); [apply Hraw, Ho|apply Hraw, Ho'|..].
Qed.

Lemma octets_head c : observed_ok c → bytes_ok (default [] (http1_raw_head c)).
Proof. intros [_ _ Hh _]. destruct (http1_raw_head c); [by apply Hh|constructor]. Qed.

(** [build_report] always returns, whatever was observed: a connection that failed
    early, a hello with malformed extensions, frames that could not be decoded. *)
Theorem build_report_total c : observed_ok c → ∃ r, build_report c = Ok r.
Proof. apply report_total. Qed.

(** The report is faithful. Two connections with the same report had the same
    protocol, ClientHello (every suite, extension and octet of it, in order) and
    request: over HTTP/2 the same settings, header fields, trailers and frames, octet
    for octet; over HTTP/1.1 the same method, target, fields and raw head. *)
Theorem build_report_faithful c c' r :
  observed_ok c → observed_ok c' → build_report c = Ok r → build_report c' = Ok r →
  http_version c = http_version c' ∧ client_hello c = client_hello c' ∧
  format_address (peername c) = format_address (peername c') ∧
  (http_version c = Some HTTP_2_0 → shown_capture <$> http2 c = shown_capture <$> http2 c') ∧
  (http_version c = Some HTTP_1_1 → shown_http1 c = shown_http1 c').
Proof.
  intros Hok Hok' H H'. destruct (report_fields c r H) as (tls & http & tcpip & Et & Eh & ->).
  destruct (report_fields c' _ H') as (tls' & http' & tcpip' & Et' & Eh' & E). clear H H'.
  assert (http_version c = http_version c') as Hv.
  { apply json_opt_str_inj. by destruct Eh, Eh'; same_field E "http_version". }
  split; [done|]. split; [|split; [|split]].
  - assert (tls = tls') as <- by (by destruct Eh, Eh'; same_field E "tls").
    by apply (tls_part_inj _ _ tls (ob_hello c Hok) (ob_hello c' Hok')).
  - apply json_opt_str_inj. by destruct Eh, Eh'; same_field E "ip".
  - intros Hc. assert (http_version c' = Some HTTP_2_0) as Hc' by congruence.
    destruct Eh as [j _ Ej|Ev|]; [|by rewrite Hc in Ev|done].
    destruct Eh' as [j' _ Ej'|Ev'|]; [|by rewrite Hc' in Ev'|done].
    assert (j = j') as <- by same_field E "http2".
    by apply (http2_part_inj _ _ j (ob_frames c Hok) (ob_frames c' Hok')).
  - intros Hc. assert (http_version c' = Some HTTP_1_1) as Hc' by congruence.
    destruct Eh as [? Ev|Ev|]; [by rewrite Hc in Ev| |done].
    destruct Eh' as [? Ev'|Ev'|]; [by rewrite Hc' in Ev'| |done].
    apply http1_report_inj; [apply octets_head, Hok|apply octets_head, Hok'|same_field E "http1"].
Qed.

(** ** Witnesses *)

Definition sample_capture (failed : bool) : HTTP2Capture :=
  mkCapture [sample_window_frame] (Some [(1, 65536); (2570, 7)])
    (Some [(u ":method", u "GET"); (u "user-agent", u "x")]) [] (Some 1) failed.

(** The flag of a failed expectation is no part of the report. *)
Definition sample_observed (failed : bool) : Observed :=
  mkObserved (Some (u "::1", 5000)) (Some (u "::1", 443)) None (Some HTTP_2_0)
    (Some sample_hello) None None (Some (sample_capture failed)).

Lemma sample_observed_ok b : observed_ok (sample_observed b).
Proof.
  assert (readable sample_window_frame) as Hf.
  { exists sample_config, [0; 0; 4; 8; 0; 0; 0; 0; 0], [0; 0; 0; 5], 0%nat. split; [reflexivity|].
    apply (FO_decoded _ _ _ (WindowUpdatePayload 5)).
    apply PW_window_update; [done|split; [by_eval|by exists false]|done]. }
  split; cbn; [constructor| |done|].
  - intros ch [= <-]. by_eval.
  - intros h2 [= <-]. destruct b; (constructor; [|constructor]); (split; [exact Hf|by_eval]).
Qed.

(** A concrete input for [build_report_total] *)
Lemma build_report_total_witness : ∃ r, build_report (sample_observed true) = Ok r.
Proof. apply build_report_total, sample_observed_ok. Defined.

(** A concrete input for [build_report_faithful] *)
Lemma build_report_faithful_witness :
  shown_capture <$> http2 (sample_observed false) = shown_capture <$> http2 (sample_observed true).
Proof.
  destruct (report_total _ (sample_observed_ok false)) as [r Hr].
  apply (build_report_faithful (sample_observed false) (sample_observed true) r
    (sample_observed_ok false) (sample_observed_ok true) Hr Hr). reflexivity.
Defined.
