(* ===== verification/Json.v ===== *)
(** * JSON text (json)

    [json.dumps(value, indent=2)] of the standard library, on the values of PyText.v:
    the text in which a report is sent. *)

From S2P Require Import Prelude PyText.

Definition QUOTE : Z := 34.

(** [\u] and four hexadecimal digits. *)
Definition unicode_escape (c : Z) : text := [92; 117] ++ hex (be_bytes 2 c).

(** One character of a string literal, as [ensure_ascii] demands. *)
Definition json_char (c : Z) : text :=
  if c =? 34 then [92; 34]
  else if c =? 92 then [92; 92]
  else if c =? 10 then [92; 110]
  else if c =? 13 then [92; 114]
  else if c =? 9 then [92; 116]
  else if c =? 12 then [92; 102]
  else if c =? 8 then [92; 98]
  else if in_range 32 126 c then [c]
  else if c <? 0x10000 then unicode_escape c
  else
    let v := c - 0x10000 in
    unicode_escape (0xD800 + v / 1024) ++ unicode_escape (0xDC00 + v mod 1024).

Definition json_string (s : text) : text := [QUOTE] ++ concat (json_char <$> s) ++ [QUOTE].

(** A new line at a level of nesting. *)
Definition new_line (level : nat) : text := 10 :: replicate (2 * level) 32.

(** The items of a container, one to a line. *)
Definition json_items (level : nat) (items : list text) : text :=
  match items with
  | [] => []
  | _ => new_line (S level) ++ join (u "," ++ new_line (S level)) items ++ new_line level
  end.

Fixpoint dumps (level : nat) (j : json) : text :=
  match j with
  | JNull => u "null"
  | JBool true => u "true"
  | JBool false => u "false"
  | JInt n => str_int n
  | JStr s => json_string s
  | JList l => u "[" ++ json_items level (List.map (dumps (S level)) l) ++ u "]"
  | JDict d =>
      u "{" ++
      json_items level
        (List.map (λ kv, json_string (fst kv) ++ u ": " ++ dumps (S level) (snd kv)) d) ++
      u "}"
  end.

Example dumps_sample :
  dumps 0 (JDict [(u "a", JList [JInt 1; JNull]); (u "b", JDict []); (u "c", JStr [233; 128512])]) =
  u "{" ++ [10] ++ u "  " ++ [34] ++ u "a" ++ [34] ++ u ": [" ++ [10] ++ u "    1," ++ [10] ++
  u "    null" ++ [10] ++ u "  ]," ++ [10] ++ u "  " ++ [34] ++ u "b" ++ [34] ++ u ": {}," ++ [10] ++
  u "  " ++ [34] ++ u "c" ++ [34] ++ u ": " ++ [34] ++ u "\u00e9\ud83d\ude00" ++ [34; 10] ++ u "}".
Proof. vm_compute. reflexivity. Qed.
