(* ===== verification/JsonSpec.v ===== *)
(** * Reading JSON back (json)

    A reader of JSON after RFC 8259, as a reference, and that it reads what [dumps]
    writes: the text of a report determines the report. *)

From S2P Require Import Prelude PyText Uri Json.

(** ** The reader *)

Definition is_space (c : Z) : bool := (c =? 32) || (c =? 10) || (c =? 13) || (c =? 9).

Definition skip (t : text) : text := (span is_space t).2.

(** The value of a hexadecimal digit. *)
Definition hex_digit (c : Z) : option Z :=
  if is_digit c then Some (c - 48)
  else if in_range 97 102 c then Some (c - 87)
  else if in_range 65 70 c then Some (c - 55)
  else None.

Definition code_unit (a b c d : Z) : option Z :=
  a ← hex_digit a; b ← hex_digit b; c ← hex_digit c; d ← hex_digit d;
  Some (((a * 16 + b) * 16 + c) * 16 + d).

(** The character behind a backslash, other than [u]. *)
Definition escaped_char (c : Z) : option Z :=
  dict_get c [(34, 34); (92, 92); (47, 47); (98, 8); (102, 12); (110, 10); (114, 13); (116, 9)].

Definition cons_unit (c : Z) (r : option (list Z * text)) : option (list Z * text) :=
  '(s, rest) ← r; Some (c :: s, rest).

(** The characters up to the closing quote; an escape [\uXXXX] is one UTF-16 unit. *)
Fixpoint read_units (t : text) : option (list Z * text) :=
  match t with
  | [] => None
  | c :: t =>
      if c =? 34 then Some ([], t)
      else if c =? 92 then
        match t with
        | e :: t =>
            if e =? 117 then
              match t with
              | x1 :: x2 :: x3 :: x4 :: t =>
                  unit ← code_unit x1 x2 x3 x4; cons_unit unit (read_units t)
              | _ => None
              end
            else c ← escaped_char e; cons_unit c (read_units t)
        | [] => None
        end
      else if c <? 32 then None
      else cons_unit c (read_units t)
  end.

Definition is_high (c : Z) : bool := in_range 0xD800 0xDBFF c.
Definition is_low (c : Z) : bool := in_range 0xDC00 0xDFFF c.

(** Surrogate pairs are one character. *)
Fixpoint pair_units (l : list Z) : text :=
  match l with
  | [] => []
  | h :: l1 =>
      match l1 with
      | [] => [h]
      | l0 :: l2 =>
          if is_high h && is_low l0
          then (0x10000 + (h - 0xD800) * 1024 + (l0 - 0xDC00)) :: pair_units l2
          else h :: pair_units l1
      end
  end.

(** Behind the opening quote. *)
Definition read_string (t : text) : option (text * text) :=
  '(units, rest) ← read_units t; Some (pair_units units, rest).

Definition read_number (t : text) : option (Z * text) :=
  let '(minus, t) := match t with 45 :: t => (true, t) | _ => (false, t) end in
  match span is_digit t with
  | ([], _) => None
  | (digits, rest) => Some (if minus then - int_of_digits digits else int_of_digits digits, rest)
  end.

(** [t] behind [word]. *)
Definition read_word (word t : text) : option text :=
  if bool_decide (take (length word) t = word) then Some (drop (length word) t) else None.

(** One item or more, up to the closing bracket. *)
Fixpoint read_list {A} (item : text → option (A * text)) (closing : Z) (n : nat) (t : text)
    : option (list A * text) :=
  match n with
  | O => None
  | S n =>
      '(a, t) ← item t;
      match skip t with
      | c :: t =>
          if c =? closing then Some ([a], t)
          else if c =? 44 then '(l, t) ← read_list item closing n t; Some (a :: l, t)
          else None
      | [] => None
      end
  end.

Definition read_items {A} (item : text → option (A * text)) (closing : Z) (n : nat) (t : text)
    : option (list A * text) :=
  match skip t with
  | c :: t' => if c =? closing then Some ([], t') else read_list item closing n t
  | [] => None
  end.

Definition read_member (value : text → option (json * text)) (t : text)
    : option ((text * json) * text) :=
  match skip t with
  | c :: t =>
      if c =? 34 then
        '(key, t) ← read_string t;
        match skip t with
        | c :: t => if c =? 58 then '(v, t) ← value t; Some ((key, v), t) else None
        | [] => None
        end
      else None
  | [] => None
  end.

Definition read_literal (t : text) : option (json * text) :=
  match read_word (u "null") t with
  | Some t => Some (JNull, t)
  | None =>
      match read_word (u "true") t with
      | Some t => Some (JBool true, t)
      | None =>
          match read_word (u "false") t with
          | Some t => Some (JBool false, t)
          | None => '(n, t) ← read_number t; Some (JInt n, t)
          end
      end
  end.

(** [n] bounds the nesting and the number of items of each container. *)
Fixpoint read_value (n : nat) (t : text) : option (json * text) :=
  match n with
  | O => None
  | S n =>
      match skip t with
      | [] => None
      | c :: t' =>
          if c =? 34 then '(s, t) ← read_string t'; Some (JStr s, t)
          else if c =? 91 then '(l, t) ← read_items (read_value n) 93 n t'; Some (JList l, t)
          else if c =? 123 then '(d, t) ← read_items (read_member (read_value n)) 125 n t'; Some (JDict d, t)
          else read_literal (c :: t')
      end
  end.

(** A whole text; its length is fuel enough. *)
Definition loads (t : text) : option json :=
  '(j, rest) ← read_value (S (length t)) t;
  match skip rest with [] => Some j | _ :: _ => None end.

Example loads_sample :
  loads (u "{ " ++ [34] ++ u "a\ud83d\ude00" ++ [34] ++ u " : [ 1, -20 ,null]}") =
  Some (JDict [([97; 128512], JList [JInt 1; JInt (-20); JNull])]).
Proof. vm_compute. reflexivity. Qed.

(** ** Strings *)

(** A Unicode scalar value: no surrogate. *)
Definition scalar (c : Z) : Prop := 0 ≤ c < 0xD800 ∨ 0xE000 ≤ c < 0x110000.

(** The UTF-16 units of a character. *)
Definition char_units (c : Z) : list Z :=
  if c <? 0x10000 then [c]
  else [0xD800 + (c - 0x10000) / 1024; 0xDC00 + (c - 0x10000) mod 1024].

Lemma hex_digit_digit d : 0 ≤ d < 16 → hex_digit (digit_char d) = Some d.
Proof.
  intros Hd. unfold hex_digit, digit_char, is_digit, in_range. destruct (Z.ltb_spec d 10).
  - replace ((48 <=? 48 + d) && (48 + d <=? 57)) with true by lia. f_equal. lia.
  - replace ((48 <=? 87 + d) && (87 + d <=? 57)) with false by lia.
    replace ((97 <=? 87 + d) && (87 + d <=? 102)) with true by lia. f_equal. lia.
Qed.

Lemma hex_unit c :
  0 ≤ c < 0x10000 → ∃ x1 x2 x3 x4, hex (be_bytes 2 c) = [x1; x2; x3; x4] ∧ code_unit x1 x2 x3 x4 = Some c.
Proof.
  intros Hc. exists (digit_char (c / 4096)), (digit_char (c / 256 mod 16)), (digit_char (c / 16 mod 16)), (digit_char (c mod 16)).
  split.
  - change (be_bytes 2 c) with [(c / 256) mod 256; c mod 256]. unfold hex. cbn [fmap list_fmap concat app].
    assert (∀ x1 y1 x2 y2 x3 y3 x4 y4 : Z, x1 = y1 → x2 = y2 → x3 = y3 → x4 = y4 →
      [x1; x2; x3; x4] = [y1; y2; y3; y4]) as Heq by congruence.
    apply Heq; f_equal; Z.div_mod_to_equations; lia.
  - unfold code_unit. rewrite !hex_digit_digit by (Z.div_mod_to_equations; lia). cbn. f_equal.
    Z.div_mod_to_equations; lia.
Qed.

Lemma cons_units c r : cons_unit c r = (λ p, (c :: p.1, p.2)) <$> r.
Proof. by destruct r as [[]|]. Qed.

Lemma read_escape c t :
  0 ≤ c < 0x10000 → read_units (unicode_escape c ++ t) = cons_unit c (read_units t).
Proof.
  intros Hc. unfold unicode_escape. destruct (hex_unit c Hc) as (x1 & x2 & x3 & x4 & -> & E).
  cbn -[code_unit cons_unit]. by rewrite E.
Qed.

Lemma read_short e c t :
  escaped_char e = Some c → (e =? 117) = false →
  read_units ([92; e] ++ t) = (λ p, ([c] ++ p.1, p.2)) <$> read_units t.
Proof. intros He Hu. cbn [app read_units]. cbn -[Z.eqb cons_unit escaped_char]. by rewrite Hu, He, <-cons_units. Qed.

Lemma read_plain c t :
  (c =? 34) = false → (c =? 92) = false → 32 ≤ c →
  read_units ([c] ++ t) = (λ p, ([c] ++ p.1, p.2)) <$> read_units t.
Proof.
  intros Hq Hb Hc. cbn [app read_units]. rewrite Hq, Hb. replace (c <? 32) with false by lia.
  by rewrite <-cons_units.
Qed.

Lemma read_char c t :
  scalar c → read_units (json_char c ++ t) = (λ p, (char_units c ++ p.1, p.2)) <$> read_units t.
Proof.
  intros Hc. unfold json_char, char_units, scalar in *.
  repeat lazymatch goal with |- read_units ((if ?b then _ else _) ++ _) = _ => destruct b eqn:? end;
    try (match goal with E : (c =? ?n) = true |- _ => apply Z.eqb_eq in E; subst c end; by apply read_short).
  - unfold in_range in *. replace (c <? 65536) with true by lia. apply read_plain; [done|done|lia].
  - rewrite read_escape by lia. replace (c <? 65536) with true by lia. by rewrite cons_units.
  - replace (c <? 65536) with false by lia. rewrite <-app_assoc.
    rewrite !read_escape by (Z.div_mod_to_equations; lia). rewrite !cons_units. by destruct (read_units t).
Qed.

Lemma read_chars s t :
  Forall scalar s → read_units (concat (json_char <$> s) ++ 34 :: t) = Some (concat (char_units <$> s), t).
Proof.
  induction 1 as [|c s Hc _ IH]; [done|]. rewrite !fmap_cons. cbn [concat]. rewrite <-app_assoc, read_char by done.
  by rewrite IH.
Qed.

Lemma pair_plain c l : scalar c → (c <? 0x10000) = true → pair_units (c :: l) = c :: pair_units l.
Proof.
  intros Hc Hl. destruct l as [|d l]; [done|]. cbn [pair_units]. unfold scalar in Hc.
  replace (is_high c) with false by (unfold is_high, in_range; lia). done.
Qed.

Lemma pair_chars s : Forall scalar s → pair_units (concat (char_units <$> s)) = s.
Proof.
  induction 1 as [|c s Hc _ IH]; [done|]. rewrite fmap_cons. cbn [concat]. unfold char_units at 1.
  destruct (c <? 65536) eqn:El.
  - cbn [app]. rewrite pair_plain by done. by rewrite IH.
  - unfold scalar in Hc. cbn [app pair_units]. unfold is_high, is_low, in_range.
    replace (_ && _) with true by (symmetry; rewrite !andb_true_iff; Z.div_mod_to_equations; lia).
    rewrite IH. f_equal. Z.div_mod_to_equations; lia.
Qed.

Lemma read_string_back s t :
  Forall scalar s → read_string (concat (json_char <$> s) ++ 34 :: t) = Some (s, t).
Proof. intros Hs. unfold read_string. rewrite read_chars by done. cbn. by rewrite pair_chars. Qed.

(** ** Numbers *)

(** What stands behind a value: not a digit. *)
Definition ends (t : text) : Prop := match t with [] => True | c :: _ => is_digit c = false end.

Lemma read_digits n t : 0 ≤ n → ends t → span is_digit (str_int n ++ t) = (str_int n, t).
Proof.
  intros Hn Ht. apply span_app; [|exact Ht]. apply Forall_forall. intros c. by apply str_int_digits.
Qed.

Lemma str_int_head n : 0 ≤ n → ∃ c s, str_int n = c :: s ∧ is_digit c = true.
Proof.
  intros Hn. pose proof (str_int_nonempty n) as Hne. pose proof (str_int_digits n) as Hd.
  destruct (str_int n) as [|c s]; [done|]. exists c, s. split; [done|]. apply Hd; [done|left].
Qed.

Lemma read_int n t : ends t → read_number (str_int n ++ t) = Some (n, t).
Proof.
  intros Ht. unfold read_number. destruct (Z.ltb_spec n 0) as [Hn|Hn].
  - replace (str_int n) with (45 :: str_int (- n)).
    2:{ unfold str_int. replace (- n <? 0) with false by lia. replace (- n =? 0) with false by lia.
        by replace (n <? 0) with true by lia. }
    cbn [app]. rewrite read_digits by (done || lia). destruct (str_int_head (- n)) as (c & s & E & _); [lia|].
    pose proof (int_of_str_int (- n) ltac:(lia)) as Hi. rewrite E in *. cbn beta iota. rewrite Hi. do 2 f_equal. lia.
  - destruct (str_int_head n Hn) as (c & s & E & Hc).
    assert (∀ b r, (match str_int n ++ t with 45 :: t => (true, t) | _ => (false, str_int n ++ t) end) = (b, r) →
      b = false ∧ r = str_int n ++ t) as Hm.
    { rewrite E. cbn. unfold is_digit in Hc. intros b r. destruct c as [|p|p]; try (by intros [= <- <-]).
      do 6 (destruct p as [p|p|]; try (by intros [= <- <-])). }
    destruct (match str_int n ++ t with 45 :: t => (true, t) | _ => _ end) as [b r] eqn:Em.
    destruct (Hm b r eq_refl) as [-> ->]. rewrite read_digits by done.
    pose proof (int_of_str_int n Hn) as Hi. rewrite E in *. cbn beta iota. by rewrite Hi.
Qed.

Lemma read_word_other word c t : word ≠ [] → head word ≠ Some c → read_word word (c :: t) = None.
Proof. intros Hne Hc. unfold read_word. destruct word; [done|]. rewrite bool_decide_false; [done|]. cbn in *. congruence. Qed.

Lemma str_int_first n : ∃ c s, str_int n = c :: s ∧ (c = 45 ∨ is_digit c = true).
Proof.
  destruct (Z.ltb_spec n 0) as [Hn|Hn].
  - unfold str_int. replace (n <? 0) with true by lia. eauto.
  - destruct (str_int_head n Hn) as (c & s & E & Hc). eauto.
Qed.

Lemma read_literal_int n t : ends t → read_literal (str_int n ++ t) = Some (JInt n, t).
Proof.
  intros Ht. pose proof (read_int n t Ht) as Hr. destruct (str_int_first n) as (c & s & E & Hc).
  unfold read_literal. rewrite E in *. cbn [app] in *.
  assert (48 ≤ c ≤ 57 ∨ c = 45) as Hr'. { unfold is_digit in Hc. lia. }
  rewrite !read_word_other by (try done; intros Ew; vm_compute in Ew; injection Ew; lia). by rewrite Hr.
Qed.

(** ** Spaces *)

Lemma skip_cons c t : skip (c :: t) = if is_space c then skip t else c :: t.
Proof. unfold skip. cbn [span]. destruct (is_space c); [|done]. by destruct (span is_space t). Qed.

Lemma skip_line k t : skip (new_line k ++ t) = skip t.
Proof.
  unfold new_line. cbn [app]. rewrite skip_cons. change (is_space 10) with true. cbn iota.
  induction (2 * k)%nat as [|n IH]; [done|]. cbn [replicate app]. by rewrite skip_cons.
Qed.

Lemma skip_skip t : skip (skip t) = skip t.
Proof. induction t as [|c t IH]; [done|]. rewrite !skip_cons. destruct (is_space c) eqn:E; [done|]. by rewrite skip_cons, E. Qed.

(** Readers that skip spaces. *)
Definition skips {A} (item : text → option (A * text)) : Prop := ∀ t, item (skip t) = item t.

Lemma value_skips n : skips (read_value n).
Proof. intros t. destruct n as [|n]; [done|]. cbn [read_value]. by rewrite skip_skip. Qed.

Lemma member_skips value : skips (read_member value).
Proof. intros t. unfold read_member. by rewrite skip_skip. Qed.

Lemma skips_line {A} (item : text → option (A * text)) k t : skips item → item (new_line k ++ t) = item t.
Proof. intros Hs. by rewrite <-Hs, skip_line, Hs. Qed.

(** ** Containers *)

Definition begins (closing : Z) (t : text) : Prop :=
  ∃ c s, t = c :: s ∧ is_space c = false ∧ c ≠ closing.

Lemma join_two sep (a b : text) l : join sep (a :: b :: l) = a ++ sep ++ join sep (b :: l).
Proof. done. Qed.

Section items.
Context {A : Type} (item : text → option (A * text)) (f : A → text) (closing : Z) (level : nat).
Context (Hskips : skips item) (Hclosing : is_space closing = false ∧ closing ≠ 44 ∧ is_digit closing = false).

Definition reads (a : A) : Prop := ∀ t, ends t → item (f a ++ t) = Some (a, t).

Lemma line_ends k t : ends (new_line k ++ t).
Proof. done. Qed.

Lemma read_list_back l t n :
  l ≠ [] → (length l ≤ n)%nat → Forall reads l →
  read_list item closing n
    (join (u "," ++ new_line (S level)) (f <$> l) ++ new_line level ++ closing :: t) = Some (l, t).
Proof.
  intros Hne Hn Hl. revert n Hn. induction Hl as [|a l Ha Hl IH]; intros n Hn; [done|].
  destruct n as [|n]; [cbn in Hn; lia|]. cbn [read_list]. destruct Hclosing as (Hs & Hc & _).
  destruct l as [|b l].
  - cbn [fmap list_fmap join]. rewrite Ha by apply line_ends. cbn [mbind option_bind].
    rewrite skip_line, skip_cons, Hs. by rewrite Z.eqb_refl.
  - cbn [fmap list_fmap]. rewrite join_two.
    rewrite <-!app_assoc. rewrite Ha by done. cbn [mbind option_bind].
    change (u "," ++ ?x) with (44 :: x). rewrite skip_cons. change (is_space 44) with false. cbn iota.
    replace (44 =? closing) with false by lia. change (44 =? 44) with true. cbn iota.
    destruct n as [|n]; [cbn in Hn; lia|].
    assert (∀ x, read_list item closing (S n) (new_line (S level) ++ x) = read_list item closing (S n) x) as Hrl.
    { intros x. cbn [read_list]. by rewrite skips_line. }
    rewrite Hrl. specialize (IH ltac:(done) (S n) ltac:(cbn in *; lia)).
    cbn [fmap list_fmap] in IH. rewrite IH. done.
Qed.

Lemma read_items_back l t n :
  (length l ≤ n)%nat → Forall reads l → Forall (λ a, begins closing (f a)) l →
  read_items item closing n (json_items level (f <$> l) ++ closing :: t) = Some (l, t).
Proof.
  intros Hn Hl Hb. unfold read_items. destruct Hclosing as (Hs & Hc & _). destruct l as [|a l].
  - cbn [fmap list_fmap json_items app]. rewrite skip_cons, Hs. by rewrite Z.eqb_refl.
  - cbn [fmap list_fmap json_items]. rewrite <-!app_assoc. rewrite skip_line.
    pose proof (read_list_back (a :: l) t n ltac:(done) Hn Hl) as Hr. cbn [fmap list_fmap] in Hr.
    inversion_clear Hb as [|? ? (c & s & Ef & Hsp & Hne) _].
    assert (∃ s', join (u "," ++ new_line (S level)) (f a :: (f <$> l)) ++ new_line level ++ closing :: t = c :: s')
      as [s' Es].
    { rewrite Ef. destruct l; cbn; eexists; reflexivity. }
    rewrite Es in *. rewrite skip_cons, Hsp. replace (c =? closing) with false by lia.
    destruct n as [|n]; [cbn in Hn; lia|]. rewrite <-Hr. cbn [read_list]. by rewrite skips_line.
Qed.

End items.

(** ** Values *)

(** Every string is made of Unicode scalar values. *)
Inductive json_text : json → Prop :=
  | text_null : json_text JNull
  | text_bool b : json_text (JBool b)
  | text_int n : json_text (JInt n)
  | text_str s : Forall scalar s → json_text (JStr s)
  | text_list l : Forall json_text l → json_text (JList l)
  | text_dict d : Forall (λ kv, Forall scalar kv.1 ∧ json_text kv.2) d → json_text (JDict d).

(** Fuel for a value: more than for each of its items, and than their number. *)
Fixpoint json_size (j : json) : nat :=
  match j with
  | JList l => S (list_sum (List.map (λ j, S (json_size j)) l))
  | JDict d => S (list_sum (List.map (λ kv, S (json_size (snd kv))) d))
  | _ => 1
  end.

Lemma sum_bound {A} (g : A → nat) l n :
  (list_sum (List.map (λ a, S (g a)) l) ≤ n)%nat →
  (length l ≤ n)%nat ∧ ∀ a, a ∈ l → (g a < n)%nat.
Proof.
  revert n. induction l as [|a l IH]; intros n; cbn [List.map list_sum foldr length].
  - intros _. split; [lia|]. intros a Ha. by apply not_elem_of_nil in Ha.
  - intros Hn. destruct (IH (n - S (g a))%nat) as [IH1 IH2]; [unfold list_sum in *; cbn in *; lia|].
    split; [cbn in *; lia|]. intros b [->|Hb]%elem_of_cons; [cbn in *; lia|]. specialize (IH2 b Hb). lia.
Qed.

Lemma size_list l n :
  (json_size (JList l) ≤ S n)%nat → (length l ≤ n)%nat ∧ ∀ a, a ∈ l → (json_size a < n)%nat.
Proof. intros Hn%le_S_n. by apply (sum_bound json_size). Qed.

Lemma size_dict d n :
  (json_size (JDict d) ≤ S n)%nat → (length d ≤ n)%nat ∧ ∀ kv, kv ∈ d → (json_size (snd kv) < n)%nat.
Proof. intros Hn%le_S_n. by apply (sum_bound (λ kv : text * json, json_size (snd kv))). Qed.

(** A value does not begin like a space or a closing bracket. *)
Lemma dumps_begins closing level j :
  closing = 93 ∨ closing = 125 → begins closing (dumps level j).
Proof.
  intros Hc. unfold begins.
  assert (∀ c s t, t = c :: s → is_space c = false → c ≠ 93 → c ≠ 125 →
    ∃ c s, t = c :: s ∧ is_space c = false ∧ c ≠ closing) as Hb.
  { intros c s t -> Hs H1 H2. exists c, s. split_and!; [done|done|]. by destruct Hc as [-> | ->]. }
  destruct j as [|[]|n|s|l|d]; try (by eapply Hb; [reflexivity|..]).
  destruct (str_int_first n) as (c & s & E & Hd). cbn [dumps]. rewrite E.
  apply (Hb c s); [done|unfold is_space|..]; unfold is_digit in Hd; lia.
Qed.

Definition dump_member (level : nat) (kv : text * json) : text :=
  json_string kv.1 ++ u ": " ++ dumps (S level) kv.2.

Lemma read_member_back value level kv :
  Forall scalar kv.1 → skips value → reads value (dumps (S level)) kv.2 →
  reads (read_member value) (dump_member level) kv.
Proof.
  intros Hk Hs Hv t Ht. destruct kv as [k v]. cbn [fst snd] in *. unfold dump_member, json_string, QUOTE.
  cbn [fst snd]. rewrite <-!app_assoc. unfold read_member. cbn [app]. rewrite skip_cons.
  change (is_space 34) with false. cbn iota. change (34 =? 34) with true. cbn iota.
  rewrite read_string_back by done. cbn [mbind option_bind].
  change (u ": " ++ ?x) with (58 :: 32 :: x). rewrite skip_cons. change (is_space 58) with false. cbn iota.
  change (58 =? 58) with true. cbn iota.
  assert (∀ x, value (32 :: x) = value x) as Hsp by (intros x; by rewrite <-Hs, <-(Hs x), skip_cons).
  rewrite Hsp, Hv by done. done.
Qed.

Lemma read_value_S n c t :
  is_space c = false → read_value (S n) (c :: t) =
    if c =? 34 then '(s, t) ← read_string t; Some (JStr s, t)
    else if c =? 91 then '(l, t) ← read_items (read_value n) 93 n t; Some (JList l, t)
    else if c =? 123 then '(d, t) ← read_items (read_member (read_value n)) 125 n t; Some (JDict d, t)
    else read_literal (c :: t).
Proof. intros Hc. cbn [read_value]. by rewrite skip_cons, Hc. Qed.

(** Reading what [dumps] wrote. *)
Lemma read_dumps n level j :
  (json_size j ≤ n)%nat → json_text j → reads (read_value n) (dumps level) j.
Proof.
  revert level j. induction n as [|n IH]; intros level j Hn Hj t Ht; [destruct j; cbn in Hn; lia|].
  destruct Hj as [|b|m|s Hs|l Hl|d Hd]; cbn [dumps].
  - done.
  - by destruct b.
  - destruct (str_int_first m) as (c & s & E & Hc). pose proof (read_literal_int m t Ht) as Hr.
    rewrite E in *. cbn [app] in *.
    rewrite read_value_S by (unfold is_space; unfold is_digit in Hc; lia).
    unfold is_digit in Hc. replace (c =? 34) with false by lia. replace (c =? 91) with false by lia.
    by replace (c =? 123) with false by lia.
  - unfold json_string, QUOTE. rewrite <-!app_assoc. cbn [app]. rewrite read_value_S by done.
    change (34 =? 34) with true. cbn iota. by rewrite read_string_back.
  - apply size_list in Hn as [Hlen Hsize].
    rewrite <-!app_assoc. change (u "[" ++ ?x) with (91 :: x). rewrite read_value_S by done.
    change (91 =? 34) with false. change (91 =? 91) with true. cbn iota. change (u "]" ++ t) with (93 :: t).
    change (List.map (dumps (S level)) l) with (dumps (S level) <$> l).
    rewrite (read_items_back _ (dumps (S level))); [done|apply value_skips|done|done|..].
    + apply Forall_forall. intros a Ha. apply IH; [specialize (Hsize a Ha); lia|].
      by apply (proj1 (Forall_forall _ _) Hl).
    + apply Forall_true. intros a. apply dumps_begins. by left.
  - apply size_dict in Hn as [Hlen Hsize].
    rewrite <-!app_assoc. change (u "{" ++ ?x) with (123 :: x). rewrite read_value_S by done.
    change (123 =? 34) with false. change (123 =? 91) with false. change (123 =? 123) with true. cbn iota.
    change (u "}" ++ t) with (125 :: t).
    change (List.map _ d) with (dump_member level <$> d).
    rewrite (read_items_back _ (dump_member level)); [done|apply member_skips|done|done|..].
    + apply Forall_forall. intros kv Hkv. destruct (proj1 (Forall_forall _ _) Hd kv Hkv) as [Hk Hv].
      apply read_member_back; [done|apply value_skips|]. apply IH; [|done]. specialize (Hsize kv Hkv). lia.
    + apply Forall_true. intros kv. eexists _, _. split; [reflexivity|]. by split.
Qed.

(** *** The text is long enough to be its own fuel *)

Lemma join_length sep items :
  sep ≠ [] → (list_sum (List.map (λ t, S (length t)) items) ≤ S (length (join sep items)))%nat.
Proof.
  intros Hs. induction items as [|a items IH]; [cbn; lia|]. destruct items as [|b items]; [cbn; lia|].
  rewrite join_two, !length_app. destruct sep as [|c sep]; [done|].
  cbn [List.map list_sum foldr length] in *. lia.
Qed.

Lemma items_length level items :
  (list_sum (List.map (λ t, S (length t)) items) ≤ length (json_items level items))%nat.
Proof.
  destruct items as [|a items]; [cbn; lia|]. unfold json_items.
  pose proof (join_length (u "," ++ new_line (S level)) (a :: items) ltac:(done)) as Hj.
  rewrite !length_app. unfold new_line at 1 3. cbn [length]. lia.
Qed.

Lemma sum_le {A} (g h : A → nat) l :
  (∀ a, a ∈ l → (g a ≤ h a)%nat) → (list_sum (List.map g l) ≤ list_sum (List.map h l))%nat.
Proof.
  induction l as [|a l IH]; intros Hl; [done|]. cbn [List.map list_sum foldr].
  pose proof (Hl a ltac:(left)). specialize (IH ltac:(intros; apply Hl; by right)). unfold list_sum in *. lia.
Qed.

Lemma dumps_length level j : (json_size j ≤ length (dumps level j))%nat.
Proof.
  remember (json_size j) as n eqn:En. assert (json_size j ≤ n)%nat as Hn by lia. rewrite En. clear En.
  revert level j Hn. induction n as [|n IH]; intros level j Hn; [destruct j; cbn in Hn; lia|].
  destruct j as [|[]|m|s|l|d]; cbn [dumps json_size]; try (apply Nat.leb_le; reflexivity).
  - destruct (str_int_first m) as (c & s & -> & _). cbn. lia.
  - apply size_list in Hn as [_ Hsize]. rewrite !length_app.
    pose proof (items_length level (List.map (dumps (S level)) l)) as Hi. rewrite List.map_map in Hi.
    assert (list_sum (List.map (λ j, S (json_size j)) l) ≤ list_sum (List.map (λ j, S (length (dumps (S level) j))) l))%nat.
    { apply sum_le. intros a Ha. specialize (IH (S level) a). specialize (Hsize a Ha). lia. }
    change (length (u "[")) with 1%nat. lia.
  - apply size_dict in Hn as [_ Hsize]. rewrite !length_app.
    pose proof (items_length level (List.map (dump_member level) d)) as Hi. rewrite List.map_map in Hi.
    change (List.map (λ kv, json_string (fst kv) ++ u ": " ++ dumps (S level) (snd kv)) d) with
      (List.map (dump_member level) d).
    assert (list_sum (List.map (λ kv, S (json_size (snd kv))) d) ≤ list_sum (List.map (λ kv, S (length (dump_member level kv))) d))%nat.
    { apply sum_le. intros a Ha. specialize (IH (S level) (snd a)). specialize (Hsize a Ha).
      unfold dump_member. rewrite !length_app. lia. }
    change (length (u "{")) with 1%nat. lia.
Qed.

Lemma dumps_loads j : json_text j → loads (dumps 0 j) = Some j.
Proof.
  intros Hj. unfold loads. pose proof (read_dumps (S (length (dumps 0 j))) 0 j) as Hr.
  specialize (Hr ltac:(pose proof (dumps_length 0 j); lia) Hj [] I). rewrite app_nil_r in Hr. rewrite Hr. done.
Qed.

Lemma dumps_inj j j' : json_text j → json_text j' → dumps 0 j = dumps 0 j' → j = j'.
Proof. intros Hj Hj' E. apply (f_equal loads) in E. rewrite !dumps_loads in E by done. congruence. Qed.

(** *** The text is ASCII *)

Lemma escape_ascii c : ascii (unicode_escape c).
Proof.
  unfold unicode_escape. apply ascii_app. split; [by apply ascii_closed|]. apply hex_ascii, be_bytes_ok.
Qed.

Lemma json_char_ascii c : ascii (json_char c).
Proof.
  unfold json_char. repeat case_match; try (by apply ascii_closed).
  - unfold in_range in *. constructor; [lia|constructor].
  - apply escape_ascii.
  - apply ascii_app. split; apply escape_ascii.
Qed.

Lemma json_string_ascii s : ascii (json_string s).
Proof.
  unfold json_string, QUOTE. rewrite !ascii_app. split_and!; [by apply ascii_closed| |by apply ascii_closed].
  induction s as [|c s IH]; [constructor|]. rewrite fmap_cons. cbn [concat]. apply ascii_app. split; [apply json_char_ascii|done].
Qed.

Lemma new_line_ascii k : ascii (new_line k).
Proof. unfold new_line. constructor; [lia|]. apply Forall_replicate. lia. Qed.

Lemma items_ascii level items : Forall ascii items → ascii (json_items level items).
Proof.
  intros Hi. unfold json_items. destruct items as [|a items]; [constructor|].
  rewrite !ascii_app. split_and!; try apply new_line_ascii.
  induction Hi as [|t ts Ht Hts IH]; [constructor|]. destruct ts as [|t' ts]; [done|].
  rewrite join_two, !ascii_app. split_and!; [done|by apply ascii_closed|apply new_line_ascii|done].
Qed.

Lemma dumps_ascii level j : ascii (dumps level j).
Proof.
  remember (json_size j) as n eqn:En. assert (json_size j ≤ n)%nat as Hn by lia. clear En.
  revert level j Hn. induction n as [|n IH]; intros level j Hn; [destruct j; cbn in Hn; lia|].
  destruct j as [|[]|m|s|l|d]; cbn [dumps]; try (by apply ascii_closed).
  - apply str_int_ascii.
  - apply json_string_ascii.
  - apply size_list in Hn as [_ Hsize]. rewrite !ascii_app. split_and!; [by apply ascii_closed| |by apply ascii_closed].
    apply items_ascii, Forall_forall. intros t (j & -> & Hj)%list_elem_of_fmap. apply IH.
    specialize (Hsize j Hj). lia.
  - apply size_dict in Hn as [_ Hsize]. rewrite !ascii_app. split_and!; [by apply ascii_closed| |by apply ascii_closed].
    apply items_ascii, Forall_forall. intros t (kv & -> & Hkv)%list_elem_of_fmap. rewrite !ascii_app.
    split_and!; [apply json_string_ascii|by apply ascii_closed|]. apply IH. specialize (Hsize kv Hkv). lia.
Qed.
