(* ===== verification/ReportSpec.v ===== *)
(** * The report as text (src/solvetls/report.py, src/solvetls/server.py)

    What [build_report] makes of any observation is JSON whose text can be read back: its
    strings are Unicode scalar values, whatever the client sent.  So the body of a
    response determines what was observed. *)

From S2P Require Import Prelude PyText Wire TlsEnums Naming ClientHello Extensions IpAddress Syn Frames FrameSpec.
From S2P Require Import HttpFields Hashes Capture Fingerprints Uri Http1 Client Report Json JsonSpec.

(** ** Texts *)

Abbreviation chars := (Forall scalar).

Create HintDb chars.

Lemma ascii_chars t : ascii t → chars t.
Proof. intros Ht. eapply Forall_impl; [exact Ht|]. cbn. unfold scalar. intros c Hc. lia. Qed.

Lemma bytes_chars l : bytes_ok l → chars l.
Proof. intros Hl. eapply Forall_impl; [exact Hl|]. unfold is_byte, scalar. cbn. intros c Hc. lia. Qed.

Lemma latin1_chars l : bytes_ok l → chars (decode_latin1 l).
Proof. apply bytes_chars. Qed.

Lemma u_chars s : chars (u s).
Proof.
  apply bytes_chars, Forall_forall. intros c Hc. unfold u in Hc.
  apply list_elem_of_fmap in Hc as (a & -> & _). unfold is_byte.
  pose proof (Ascii.nat_ascii_bounded a). lia.
Qed.

Lemma chars_app a b : chars a → chars b → chars (a ++ b).
Proof. intros. by apply Forall_app. Qed.

Lemma chars_join sep ps : chars sep → Forall chars ps → chars (join sep ps).
Proof.
  intros Hs. induction 1 as [|p ps Hp Hps IH]; [constructor|]. destruct ps as [|q ps]; [done|].
  rewrite join_two. auto using chars_app.
Qed.

Lemma chars_take n t : chars t → chars (take n t).
Proof. apply Forall_take. Qed.

Lemma str_int_chars n : chars (str_int n).
Proof. apply ascii_chars, str_int_ascii. Qed.

Lemma digits_ascii b n : 1 < b ≤ 16 → ascii (digit_char <$> digits b n).
Proof.
  intros Hb. apply Forall_fmap, Forall_forall. intros d Hd. unfold digits in Hd.
  apply digits_fuel_range in Hd; [|lia]. cbn. unfold digit_char. destruct (d <? 10) eqn:?; lia.
Qed.

Lemma zfill_chars w t : chars t → chars (zfill w t).
Proof.
  intros Ht. unfold zfill. apply chars_app; [|done]. apply Forall_replicate. unfold scalar. lia.
Qed.

Lemma fmt_hex_chars w n : chars (fmt_hex w n).
Proof.
  unfold fmt_hex. apply zfill_chars, ascii_chars. destruct (n =? 0); [by apply ascii_closed|].
  apply digits_ascii. lia.
Qed.

Lemma fmt_dec_chars w n : chars (fmt_dec w n).
Proof. apply zfill_chars, str_int_chars. Qed.

Lemma hex_chars l : bytes_ok l → chars (hex l).
Proof. intros. by apply ascii_chars, hex_ascii. Qed.

(** Decoding any octets gives scalar values. *)
Lemma utf8_chars l : bytes_ok l → chars (decode_utf8_replace l).
Proof.
  remember (length l) as n eqn:En. assert (length l ≤ n)%nat as Hn by lia. clear En. revert l Hn.
  assert (scalar 0xFFFD) as Hrep by (unfold scalar; lia).
  induction n as [|n IH]; intros l Hn Hl; (destruct l as [|b0 l1]; [constructor|]); [cbn in Hn; lia|].
  cbn in Hn. apply Forall_cons in Hl as [H0 Hl1]. cbn [decode_utf8_replace].
  assert (∀ c t, scalar c → (length t ≤ n)%nat → bytes_ok t → chars (c :: decode_utf8_replace t)) as Hc
    by (intros; constructor; auto).
  change (Forall is_byte l1) in Hl1. unfold utf8_second, utf8_cont, in_range, is_byte in *.
  repeat (first [ progress cbn [length] in *
    | lazymatch goal with
      | |- chars (if ?b then _ else _) => destruct b eqn:?
      | |- chars (match ?l with [] => _ | _ :: _ => _ end) =>
          let b := fresh "b" in let l' := fresh "l" in let H := fresh "Hb" in let Hl := fresh "Hl" in
          destruct l as [|b l']; [constructor; [exact Hrep|constructor]|];
          match goal with Hx : Forall _ (b :: l') |- _ => pose proof Hx as [H Hl]%Forall_cons end
      end ]).
  all: apply Hc; [|cbn in *; lia|by auto]; try exact Hrep; unfold scalar, is_byte in *.
  all: repeat match goal with
    | E : (if ?b then _ else _) _ = true |- _ => destruct b eqn:?
    end; lia.
Qed.

#[export] Hint Resolve u_chars latin1_chars str_int_chars fmt_hex_chars fmt_dec_chars hex_chars utf8_chars chars_app
  chars_join chars_take : chars.
#[export] Hint Extern 1 (Forall _ []) => constructor : chars.
#[export] Hint Extern 1 (Forall _ (_ :: _)) => constructor : chars.

(** The parts of a text. *)
Ltac split_chars := repeat lazymatch goal with |- chars (_ ++ _) => apply chars_app end; auto with chars.

(** ** Digests *)

Lemma le_bytes_ok n v : bytes_ok (le_bytes n v).
Proof. unfold le_bytes. apply Forall_rev, be_bytes_ok. Qed.

Lemma md5_ok msg : bytes_ok (md5 msg).
Proof.
  unfold md5. destruct (foldl _ _ _) as [[[a b] c] d]. rewrite !bytes_ok_app. auto using le_bytes_ok.
Qed.

Lemma sha256_ok msg : bytes_ok (sha256 msg).
Proof.
  unfold sha256. generalize (foldl sha256_block sha256_init
    (groups (length (msg ++ md_pad (zlen msg) (be_bytes 8 (8 * zlen msg)))) 64
       (msg ++ md_pad (zlen msg) (be_bytes 8 (8 * zlen msg))))).
  intros l. induction l as [|a l IH]; [constructor|]. rewrite fmap_cons. cbn [concat].
  apply bytes_ok_app. split; [apply be_bytes_ok|done].
Qed.

Lemma md5_chars t : chars (_md5 t).
Proof. apply hex_chars, md5_ok. Qed.

Lemma sha_chars t : chars (_truncated_sha256 t).
Proof. apply chars_take, hex_chars, sha256_ok. Qed.

#[export] Hint Resolve md5_chars sha_chars : chars.

(** ** Objects *)

Definition members_text (d : list (text * json)) : Prop := Forall (λ kv, chars kv.1 ∧ json_text kv.2) d.

Lemma member_text k v d :
  chars k → json_text v → members_text d → members_text ((k, v) :: d).
Proof. intros. by constructor. Qed.

Lemma members_nil : members_text [].
Proof. constructor. Qed.

Lemma members_app d e : members_text d → members_text e → members_text (d ++ e).
Proof. intros. by apply Forall_app. Qed.

Lemma members_set k v d : chars k → json_text v → members_text d → members_text (dict_set k v d).
Proof.
  intros Hk Hv. induction 1 as [|[k' v'] d Hkv Hd IH]; cbn [dict_set]; [by apply member_text, members_nil|].
  case_decide; by constructor.
Qed.

Lemma members_merge d e : members_text d → members_text e → members_text (merge d e).
Proof.
  intros Hd He. unfold merge. revert d Hd. induction He as [|[k v] e [Hk Hv] He IH]; intros d Hd; [done|].
  cbn [foldl]. apply IH. by apply members_set.
Qed.

Lemma members_pop k d : members_text d → members_text (dict_pop k d).
Proof. intros Hd. apply Forall_forall. intros kv [_ Hkv]%list_elem_of_filter. by apply (proj1 (Forall_forall _ _) Hd). Qed.

Lemma opt_str_text o : (∀ s, o = Some s → chars s) → json_text (json_opt_str o).
Proof. intros Ho. destruct o as [s|]; constructor. by apply Ho. Qed.

Lemma opt_int_text o : json_text (json_opt_int o).
Proof. destruct o; constructor. Qed.

Lemma map_text {A} (f : A → json) l : Forall (λ a, json_text (f a)) l → json_text (JList (f <$> l)).
Proof. intros Hl. constructor. by apply Forall_fmap. Qed.

Lemma maps_text {A} (f : A → json) l : (∀ a, json_text (f a)) → json_text (JList (f <$> l)).
Proof. intros Hf. apply map_text. by apply Forall_true. Qed.

#[export] Hint Resolve member_text members_nil members_app members_set members_merge members_pop opt_int_text
  maps_text : chars.
Lemma dict_text d : members_text d → json_text (JDict d).
Proof. apply text_dict. Qed.

#[export] Hint Resolve text_null text_bool text_int text_str dict_text : chars.

Lemma describe_text v e : members_text (describe v e).
Proof.
  unfold describe. apply members_app; [|destruct (is_grease v); auto with chars].
  repeat apply member_text; auto with chars. destruct e as [e|]; [|constructor]. apply opt_str_text.
  unfold enum_name. destruct (List.find _ e); [|done]. intros s [= <-]. auto with chars.
Qed.

Lemma described_text e v : json_text (described e v).
Proof. apply dict_text, describe_text. Qed.

#[export] Hint Resolve describe_text described_text : chars.

(** ** Extensions *)

Lemma render_text x : ext_value_ok x → json_text (render_ext_value x).
Proof.
  destruct x; cbn [render_ext_value ext_value_ok]; intros Hok; try (by auto 10 with chars).
  - apply dict_text, member_text; auto with chars. apply map_text. destruct Hok as [Hl _].
    eapply Forall_impl; [exact Hl|]. intros [t h] [_ [Hh _]]. cbn in *. unfold render_name.
    auto 10 with chars.
  - apply dict_text, member_text; auto with chars. apply map_text. destruct Hok as [Hl _].
    eapply Forall_impl; [exact Hl|]. intros h [Hh _]. constructor. by apply bytes_chars.
  - apply dict_text, member_text; auto with chars. apply map_text. destruct Hok as [Hl _].
    eapply Forall_impl; [exact Hl|]. intros [t h] [_ [Hh _]]. cbn in *. unfold render_share.
    auto 10 with chars.
Qed.

(** *** The messages of the decoders' exceptions *)

Definition says {A} (r : result A) : Prop := match r with Ok _ => True | Err e => ascii (exn_str e) end.

(** Whatever [m] raises has an ASCII message. *)
Definition ascii_errors {S A} (m : M S A) : Prop := ∀ s, says (m s).1.

Lemma errors_ret {S A} (a : A) : ascii_errors (mret a : M S A).
Proof. done. Qed.

Lemma errors_bind {S A B} (m : M S A) (f : A → M S B) :
  ascii_errors m → (∀ a, ascii_errors (f a)) → ascii_errors (m ≫= f).
Proof.
  intros Hm Hf s. specialize (Hm s). unfold mbind, M_bind. destruct (m s) as [[a|e] s']; [apply Hf|done].
Qed.

Lemma errors_lift {S A} (r : result A) : says r → ascii_errors (lift r : M S A).
Proof. by intros Hr s. Qed.

Lemma errors_raise {S A} e : ascii (exn_str e) → ascii_errors (raise e : M S A).
Proof. by intros He s. Qed.

Lemma errors_if {S A} (b : bool) (m1 m2 : M S A) :
  ascii_errors m1 → ascii_errors m2 → ascii_errors (if b then m1 else m2).
Proof. by destruct b. Qed.

Lemma errors_more : ascii_errors has_more.
Proof. done. Qed.

Lemma errors_read n : ascii_errors (read n).
Proof. intros r. unfold read. repeat case_match; cbn; try done; by apply ascii_closed. Qed.

Lemma errors_remaining : ascii_errors read_remaining.
Proof. intros r. apply errors_read. Qed.

Lemma errors_loop {A} n (body : M ByteReader A) : ascii_errors body → ascii_errors (while_more_fuel_ n body).
Proof.
  intros Hb. induction n as [|n IH]; cbn [while_more_fuel_]; [apply errors_raise; constructor|].
  apply errors_bind; [apply errors_more|]. intros more. apply errors_if; [|apply errors_ret].
  apply errors_bind; [done|]. intros x. apply errors_bind; [done|]. intros xs. apply errors_ret.
Qed.

Lemma errors_while {A} (body : M ByteReader A) : ascii_errors body → ascii_errors (while_more body).
Proof. intros Hb r. unfold while_more. by apply errors_loop. Qed.

Lemma errors_with {S A} d (m : M ByteReader A) : ascii_errors m → ascii_errors (with_reader d m : M S A).
Proof. intros Hm. unfold with_reader. apply errors_lift, Hm. Qed.

Ltac ascii_errors_with more :=
  repeat lazymatch goal with
    | |- ascii_errors (mret _) => apply errors_ret
    | |- ascii_errors has_more => apply errors_more
    | |- ascii_errors (read _) => apply errors_read
    | |- ascii_errors read_remaining => apply errors_remaining
    | |- ascii_errors (_ ≫= _) => apply errors_bind; [|intros ?]
    | |- ascii_errors (if _ then _ else _) => apply errors_if
    | |- ascii_errors (with_reader _ _) => apply errors_with
    | |- ascii_errors (while_more _) => apply errors_while
    | |- ascii_errors (raise _) => apply errors_raise; by apply ascii_closed
    | |- _ => more
    end.
Ltac ascii_errors := ascii_errors_with ltac:(fail).

Lemma errors_vector n : ascii_errors (read_vector n).
Proof. unfold read_vector, read_uint8, read_uint16, read_uint24. ascii_errors. Qed.

Lemma errors_uint16_list d e : says (_uint16_list d e).
Proof. unfold _uint16_list, read_uint16. apply errors_while. ascii_errors. Qed.

Lemma errors_alpn d : says (parse_alpn_protocols d).
Proof.
  unfold parse_alpn_protocols.
  assert (∀ (m : M ByteReader (list bytes)), ascii_errors m → says (m (new_reader d)).1) as Hm by (intros m Hm; apply Hm).
  apply Hm. ascii_errors_with ltac:(apply errors_vector).
Qed.

Lemma errors_decoder t dec : get_decoder t = Some dec → ascii_errors dec.
Proof.
  unfold get_decoder. destruct (List.find _ _DECODERS) as [d|] eqn:F; [|done]. intros [= <-].
  apply find_some in F as [F _].
  assert (Forall (λ d, ascii_errors d.2) _DECODERS) as Hall.
  { unfold _DECODERS, _decode_server_name, _decode_supported_groups, _decode_ec_point_formats,
      _decode_signature_algorithms, _decode_alpn, _decode_padding, _decode_empty, _decode_compress_certificate,
      _decode_record_size_limit, _decode_supported_versions, _decode_psk_key_exchange_modes, _decode_key_share,
      read_uint8, read_uint16.
    repeat (apply Forall_cons; split); [cbn [snd]..|constructor];
      ascii_errors_with ltac:(first [apply errors_vector|apply errors_lift, errors_uint16_list|apply errors_lift, errors_alpn]). }
  rewrite Forall_forall in Hall. apply Hall. by apply list_elem_of_In.
Qed.

Lemma errors_run dec data : ascii_errors dec → says (run_decoder dec data).
Proof.
  intros Hd. unfold run_decoder.
  assert (∀ (m : M ByteReader json), ascii_errors m → says (m (new_reader data)).1) as Hm by (intros m Hm; apply Hm).
  apply Hm. ascii_errors_with ltac:(exact Hd).
Qed.

Lemma decode_text t data j :
  bytes_ok data → decode_extension t data = Ok (Some j) → json_text j.
Proof.
  intros Hb. unfold decode_extension. destruct (decide (t ∈ supported_extensions)) as [Ht|Ht].
  2:{ by rewrite get_decoder_None. }
  destruct (decoder_refines t Ht) as (dec & E & Hr). rewrite E. specialize (Hr data Hb).
  pose proof (errors_run dec data (errors_decoder _ _ E)) as He.
  destruct (run_decoder dec data) as [d|e].
  - intros [= <-]. destruct Hr as (x & _ & Hx & _ & ->). by apply render_text.
  - destruct (_ || _); [|done]. intros [= <-]. apply dict_text, member_text; auto with chars.
    constructor. by apply ascii_chars.
Qed.

(** ** TLS *)

Lemma dashed_text_chars l : chars (_dashed l).
Proof. unfold _dashed. apply chars_join; auto with chars. apply Forall_fmap, Forall_true. auto with chars. Qed.

Lemma ja3_text ch d : client_hello_ok ch → build_ja3 (Some ch) = Ok d → members_text d.
Proof.
  intros Hok. cbn [build_ja3]. destruct (ja3_total ch Hok) as (gs & fs & _ & _ & -> & _).
  intros [= <-]. assert (chars (join [44] (_dashed <$> ja3_fields ch gs fs))).
  { apply chars_join; [by apply ascii_chars, ascii_closed|]. apply Forall_fmap, Forall_true. apply dashed_text_chars. }
  apply member_text; auto with chars.
Qed.

Lemma ja4_alpn_chars ps : Forall bytes_ok ps → chars (_ja4_alpn ps).
Proof.
  intros Hps. unfold _ja4_alpn. destruct (List.filter _ ps) as [|[|b first] rest] eqn:E; auto with chars.
  assert (bytes_ok (b :: first)) as Hf.
  { rewrite Forall_forall in Hps. apply Hps, list_elem_of_In.
    eapply proj1, (List.filter_In (λ p, negb (zlen p =? 2) || negb (is_grease (be_val p)))). rewrite E. by left. }
  assert (∀ l d, chars l → scalar d → scalar (List.last l d)) as Hlast.
  { intros l d Hl Hd. induction Hl as [|x l Hx Hl IH]; [done|]. cbn. by destruct l. }
  assert (∀ l, chars l → scalar (List.hd 0 l)) as Hhd by (intros l [|x k Hx _]; [unfold scalar; cbn; lia|done]).
  assert (scalar 0) as H0 by (unfold scalar; lia).
  pose proof (bytes_chars _ Hf) as Hc. pose proof (hex_chars _ Hf) as Hx. cbv zeta.
  destruct (negb _); (apply Forall_cons; split; [|apply Forall_cons; split; [|constructor]]); auto. by inversion Hc.
Qed.

Lemma sorted_chars l : Forall chars l → Forall chars (sorted l).
Proof. intros Hl. unfold sorted. by rewrite merge_sort_Permutation. Qed.

Lemma hex4_chars l : Forall chars (fmt_hex 4 <$> l).
Proof. apply Forall_fmap, Forall_true. intros v. apply fmt_hex_chars. Qed.

Lemma ja4_text ch a : client_hello_ok ch → build_ja4 (Some ch) = Ok a → ∀ s, a = Some s → chars s.
Proof.
  intros Hok. unfold build_ja4. destruct (_supported_versions ch) as [vs|]; [|done].
  destruct (_signature_algorithms ch) as [ss|]; [|done]. destruct (alpn_total ch Hok) as (ps & -> & Hps).
  cbn [mbind result_bind]. intros E%(inj Ok) s Es. rewrite <-E in Es. apply (inj Some) in Es. rewrite <-Es.
  assert (chars JA4_EMPTY_HASH) as He by apply u_chars.
  assert (∀ l, Forall chars l → chars (ja4_b l)) as Hb by (intros l Hl; unfold ja4_b; destruct l; auto with chars).
  assert (∀ h l, Forall chars h → Forall chars l → chars (ja4_c h l)) as Hc.
  { intros h l Hh Hl. unfold ja4_c. destruct h; auto with chars. }
  assert (∀ v, chars (default (u "00") (dict_get v JA4_VERSIONS))) as Hv.
  { intros v. destruct (dict_get v JA4_VERSIONS) as [t|] eqn:Et; cbn [default]; [|apply u_chars].
    assert (Forall (λ kv, chars kv.2) JA4_VERSIONS) as Hall 
      by (unfold JA4_VERSIONS; repeat (apply Forall_cons; split; [apply u_chars|]); constructor).
    rewrite Forall_forall in Hall. by apply (Hall (v, t)), dict_get_elem. }
  unfold ja4_a. split_chars.
  - destruct (_extension_data ch ET_SERVER_NAME); apply u_chars.
  - by apply ja4_alpn_chars.
  - apply Hb, sorted_chars, hex4_chars.
  - apply Hc; [apply sorted_chars, hex4_chars|apply hex4_chars].
Qed.

Lemma extension_text e j : extension_ok e → extension_json e = Ok j → json_text j.
Proof.
  intros [_ [Hd _]]. unfold extension_json. destruct (decode_extension _ _) as [[d|]|] eqn:E; [..|done];
    intros <-%(inj Ok); apply dict_text, members_merge; auto with chars; apply member_text; auto with chars.
  apply member_text; auto with chars. by eapply decode_text.
Qed.

Lemma tls_text hello j :
  (∀ ch, hello = Some ch → client_hello_ok ch) → _tls_report hello = Ok j → json_text j.
Proof.
  destruct hello as [ch|]; intros Hok; [|by intros [= <-]; constructor]. specialize (Hok ch eq_refl).
  unfold _tls_report. destruct (build_ja3 (Some ch)) as [a|] eqn:Ea; [|done].
  destruct (build_ja4 (Some ch)) as [b|] eqn:Eb; [|done]. cbn [mbind result_bind].
  destruct (mapM extension_json (extensions ch)) as [x|] eqn:Ex; [|done]. intros <-%(inj Ok).
  pose proof (ja3_text ch a Hok Ea). pose proof (ja4_text ch b Hok Eb) as Hb.
  destruct Hok as (_ & [_ Hr] & [Hi _] & _ & _ & [He _]).
  apply dict_text, members_merge; [done|].
  apply member_text; [auto with chars|by apply opt_str_text|].
  repeat (apply member_text; [auto with chars|auto with chars|]); [|apply members_nil].
  constructor. apply mapM_Ok in Ex. clear -Ex He. induction Ex as [|e j es js Hej Hes IH]; [constructor|].
  apply Forall_cons in He as [He Hes']. constructor; [by eapply extension_text|auto].
Qed.

(** ** The saved SYN *)

Lemma inet_ntop4_chars l : chars (inet_ntop4 l).
Proof. unfold inet_ntop4. apply chars_join; auto with chars. apply Forall_fmap, Forall_true. auto with chars. Qed.

Lemma hex_group_chars g : chars (hex_group g).
Proof.
  unfold hex_group. apply ascii_chars. destruct (g =? 0); [by apply ascii_closed|]. apply digits_ascii. lia.
Qed.

Lemma inet_ntop6_chars l : chars (inet_ntop6 l).
Proof.
  assert (∀ gs, chars (join (u ":") (hex_group <$> gs))) as Hg.
  { intros gs. apply chars_join; auto with chars. apply Forall_fmap, Forall_true. apply hex_group_chars. }
  unfold inet_ntop6. destruct (best_run _ _ _) as [base len]. repeat case_match; auto using inet_ntop4_chars with chars.
Qed.

(** The result of a reader, whatever it reads. *)
Definition returns {A} (m : M ByteReader A) (P : A → Prop) : Prop := ∀ r a, (m r).1 = Ok a → P a.

Lemma returns_bind {A B} (m : M ByteReader A) (f : A → M ByteReader B) R P :
  returns m R → (∀ a, R a → returns (f a) P) → returns (m ≫= f) P.
Proof.
  intros Hm Hf r b. unfold mbind, M_bind. specialize (Hm r). destruct (m r) as [[a|e] r']; [|done].
  apply Hf. by apply Hm.
Qed.

Lemma returns_ret {A} (a : A) (P : A → Prop) : P a → returns (mret a) P.
Proof. by intros Ha r b [= <-]. Qed.

Lemma returns_any {A} (m : M ByteReader A) : returns m (λ _, True).
Proof. done. Qed.

Definition ip_text (i : IpInfo) : Prop := chars (ip_dst i) ∧ chars (ip_src i).

Ltac returns_skip := repeat (eapply returns_bind; [apply returns_any|intros ? _]).

Lemma ipv4_text : returns _parse_ipv4 ip_text.
Proof. unfold _parse_ipv4. cbv zeta. returns_skip. apply returns_ret. split; apply inet_ntop4_chars. Qed.

Lemma ipv6_text : returns _parse_ipv6 (λ o, ∀ i, o = Some i → ip_text i).
Proof.
  unfold _parse_ipv6. returns_skip. destruct (negb _); apply returns_ret; [done|].
  intros i [= <-]. split; apply inet_ntop6_chars.
Qed.

Lemma syn_text data s : parse_syn data = Ok (Some s) → ip_text (syn_ip s).
Proof.
  assert (∀ n ip, (∀ i, ip = Some i → ip_text i) →
    returns (finish_parse n ip) (λ o, ∀ s, o = Some s → ip_text (syn_ip s))) as Hfinish.
  { intros n [ip|] Hip; cbn [finish_parse]; [|by apply returns_ret]. returns_skip. apply returns_ret.
    intros x [= <-]. by apply Hip. }
  assert (∀ d o, _parse d = Ok o → ∀ s, o = Some s → ip_text (syn_ip s)) as Hp.
  { intros d o. unfold _parse. destruct d as [|b0 d]; [done|]. cbv zeta.
    assert (∀ (m : M ByteReader (option SynReport)) P, returns m P → (m (new_reader (b0 :: d))).1 = Ok o → P o) as Hm
      by (intros m P Hm; apply Hm).
    intros E. eapply (Hm _ (λ o, ∀ s, o = Some s → ip_text (syn_ip s))); [|exact E].
    apply (returns_bind _ _ (λ ip, ∀ i, ip = Some i → ip_text i)); [|intros ip Hip; by apply Hfinish].
    destruct (_ =? 4); [eapply returns_bind; [apply ipv4_text|]; intros i Hi; apply returns_ret; by intros ? [= <-]|].
    destruct (_ =? 6); [apply ipv6_text|by apply returns_ret]. }
  unfold parse_syn. destruct data as [[|b d]|]; [done| |done].
  destruct (_parse (b :: d)) as [o|e] eqn:E; [|by destruct (_ || _)]. intros [= ->]. by eapply Hp.
Qed.

Lemma tcpip_text c j :
  (∀ a, peername c = Some a → chars a.1) → (∀ a, sockname c = Some a → chars a.1) →
  _tcpip_report c = Ok j → json_text j.
Proof.
  intros Hp Hs. unfold _tcpip_report. destruct (parse_syn (syn_packet c)) as [[s|]|] eqn:E; [..|done]; intros <-%(inj Ok).
  - apply syn_text in E as [Hd Hsrc]. unfold syn_json.
    repeat first [apply dict_text|apply member_text|apply members_nil|apply opt_int_text|constructor; done|auto with chars; fail].
  - assert (json_text (json_opt_str (fst <$> sockname c)) ∧ json_text (json_opt_str (fst <$> peername c))) as [??].
    { split; apply opt_str_text; intros t Ht; [destruct (sockname c) as [a|]|destruct (peername c) as [a|]];
        try done; injection Ht as <-; auto. }
    repeat first [apply dict_text|apply member_text|apply members_nil|apply opt_int_text|done|auto with chars; fail].
Qed.

(** ** The request *)

(** Header fields as octets, as h2 hands them over and as an HTTP/1.1 head has them. *)
Definition octet_fields (hs : list (bytes * bytes)) : Prop :=
  Forall (λ h, bytes_ok h.1 ∧ bytes_ok h.2) hs.

Lemma join_octets sep ps : bytes_ok (join sep ps) → Forall bytes_ok ps.
Proof.
  induction ps as [|p ps IH]; [constructor|]. destruct ps as [|q ps]; [by constructor|].
  rewrite join_two, !bytes_ok_app. intros (Hp & _ & Hr). constructor; auto.
Qed.

Lemma request_octets head r :
  bytes_ok head → parse_request head = Ok r →
  bytes_ok (method r) ∧ bytes_ok (Http1.path r) ∧ octet_fields (Http1.headers r).
Proof.
  intros Hb Hp. apply parse_request_iff in Hp as ([body ->] & _ & (_ & _ & lead & lines & _ & Hf & Hraw) & _).
  apply bytes_ok_app in Hb as [Hb _]. rewrite Hraw in Hb. apply bytes_ok_app in Hb as [Hb _].
  apply join_octets, Forall_app in Hb as [_ Hb]. apply Forall_cons in Hb as [Hb Hl].
  rewrite !bytes_ok_app in Hb. destruct Hb as (Hm & _ & Hpa & _). split_and!; [done|done|].
  clear -Hf Hl. unfold octet_fields. induction Hf as [|nv line hs ls (_ & _ & _ & a & b & _ & _ & ->) Hf IH]; [constructor|].
  apply Forall_cons in Hl as [Hl Hls]. rewrite !bytes_ok_app in Hl. constructor; [|auto].
  tauto.
Qed.

Definition fields_chars (hs : list (field_value * field_value)) : Prop :=
  Forall (λ h, chars (as_text h.1) ∧ chars (as_text h.2)) hs.

Lemma bytes_fields_chars hs : octet_fields hs → fields_chars (bytes_fields hs).
Proof.
  intros Hh. unfold bytes_fields. apply Forall_fmap. eapply Forall_impl; [exact Hh|].
  intros h [Ha Hb]. by split; apply bytes_chars.
Qed.

Lemma text_fields_chars hs : octet_fields hs → fields_chars (text_fields hs).
Proof.
  intros Hh. unfold text_fields. apply Forall_fmap. eapply Forall_impl; [exact Hh|].
  intros h [Ha Hb]. by split; apply bytes_chars.
Qed.

Lemma fields_text hs : fields_chars hs → json_text (fields_json hs).
Proof.
  intros Hh. unfold fields_json. apply map_text. eapply Forall_impl; [exact Hh|]. intros h [Ha Hb].
  constructor. constructor; [by constructor|]. constructor; [by constructor|constructor].
Qed.

Lemma header_chars hs name t : fields_chars (default [] hs) → _header hs name = Some t → chars t.
Proof.
  intros Hh. unfold _header. destruct (List.find _ _) as [h|] eqn:F; [|done]. intros [= <-].
  apply find_some in F as [F%list_elem_of_In _]. unfold fields_chars in Hh. rewrite Forall_forall in Hh. by apply Hh.
Qed.

(** What is known of the texts of an observation. *)
Record observed_text (c : Observed) : Prop := mkObservedText {
  ot_peer a : peername c = Some a → chars a.1;
  ot_sock a : sockname c = Some a → chars a.1;
  ot_version v : http_version c = Some v → chars v;
  ot_http1 r : http1 c = Some r → ∃ head, bytes_ok head ∧ parse_request head = Ok r;
  ot_http2 h2 : http2 c = Some h2 → octet_fields (default [] (Capture.headers h2)) ∧ octet_fields (trailers h2);
}.

Section request.
Context (c : Observed) (Hok : observed_ok c) (Htext : observed_text c).

Lemma http1_octets r :
  http1 c = Some r → bytes_ok (method r) ∧ bytes_ok (Http1.path r) ∧ octet_fields (Http1.headers r).
Proof using Htext. intros Hr. destruct (ot_http1 c Htext r Hr) as (head & Hb & Hp). by eapply request_octets. Qed.

Lemma http2_chars h2 :
  http2 c = Some h2 → fields_chars (default [] (bytes_fields <$> Capture.headers h2)).
Proof using Htext.
  intros E. destruct (ot_http2 c Htext h2 E) as [Hh _]. destruct (Capture.headers h2); [|constructor].
  by apply bytes_fields_chars.
Qed.

Lemma method_text : json_text (json_opt_str (request_method c)).
Proof using Htext.
  apply opt_str_text. intros s. unfold request_method. destruct (http2 c) as [h2|] eqn:E2.
  - by apply header_chars, http2_chars.
  - destruct (http1 c) as [r|] eqn:E1; [|done]. intros [= <-]. by apply bytes_chars, http1_octets.
Qed.

Lemma agent_text : json_text (json_opt_str (_user_agent c)).
Proof using Htext.
  apply opt_str_text. intros s. unfold _user_agent. destruct (http2 c) as [h2|] eqn:E2.
  - by apply header_chars, http2_chars.
  - destruct (http1 c) as [r|] eqn:E1; [|done]. apply header_chars, text_fields_chars. by apply http1_octets.
Qed.

Lemma http1_text : json_text (_http1_report c).
Proof using Hok Htext.
  unfold _http1_report. cbv zeta. apply dict_text, members_merge.
  - assert (∀ f : HTTP1Request → text, (∀ r, http1 c = Some r → bytes_ok (f r)) →
      json_text (json_opt_str (f <$> http1 c))) as Hf.
    { intros f Hf. apply opt_str_text. intros s Hs. destruct (http1 c) as [r|]; [|done]. injection Hs as <-.
      by apply bytes_chars, Hf. }
    apply member_text; [auto with chars|apply Hf; intros; by apply http1_octets|].
    apply member_text; [auto with chars|apply Hf; intros; by apply http1_octets|].
    apply member_text; [auto with chars| |apply members_nil]. apply fields_text.
    destruct (http1 c) as [r|] eqn:E; [|constructor]. by apply text_fields_chars, http1_octets.
  - destruct (http1_raw_head c) as [h|] eqn:E; [|apply members_nil].
    apply member_text; [auto with chars| |apply members_nil]. constructor. by apply hex_chars, (ob_head c Hok).
Qed.

End request.

(** ** HTTP/2 *)

Lemma akamai_letters hs : octet_fields hs → Forall chars (pseudo_letters hs).
Proof.
  induction 1 as [|h hs [Hh _] Hhs IH]; [constructor|]. unfold pseudo_letters. cbn [omap list_omap].
  destruct (decode_latin1 h.1) as [|x [|y t]] eqn:E; try done. destruct (x =? 58); [|done].
  constructor; [|done]. unfold decode_latin1 in E. rewrite E in Hh.
  apply Forall_cons in Hh as [_ Hh]. apply Forall_cons in Hh as [Hy _]. constructor; [|constructor].
  unfold is_byte, scalar in *. lia.
Qed.

Lemma akamai_chars c t :
  Forall readable (frames c) → octet_fields (default [] (Capture.headers c)) →
  akamai_string c = Ok t → chars t.
Proof.
  intros Hf Hh. unfold akamai_string. rewrite (akamai_loop_spec _ _ Hf). cbn [mbind result_bind window_update priorities window_update_seen].
  intros <-%(inj Ok). apply chars_join; [auto with chars|].
  apply Forall_cons; split; [|apply Forall_cons; split; [|apply Forall_cons; split; [|apply Forall_cons; split; [|constructor]]]].
  - apply chars_join; [auto with chars|]. apply Forall_fmap, Forall_true. intros e. auto with chars.
  - destruct (omap connection_window _) as [|n ns]; cbn; auto with chars.
  - cbn [app]. set (ps := omap priority_text _). assert (Forall chars ps) as Hps.
    { apply Forall_forall. intros p (f & _ & Hp)%list_elem_of_omap. unfold priority_text in Hp.
      destruct (pf_payload f); try done. apply (inj Some) in Hp. rewrite <-Hp.
      assert (∀ b, chars (bit_text b)) as Hbit by (intros []; apply u_chars). split_chars. }
    destruct ps; [apply u_chars|]. by apply chars_join; [apply u_chars|].
  - apply chars_join; [auto with chars|]. by apply akamai_letters.
Qed.

Lemma setting_text i v : json_text (_setting_report i v).
Proof.
  unfold _setting_report. cbv zeta. apply dict_text, members_merge; [|auto with chars].
  destruct (_ && _); auto with chars.
Qed.

(** The Python values whose JSON is text. *)
Inductive plain_value : pyvalue → Prop :=
  | plain_none : plain_value PNone
  | plain_bool b : plain_value (PBool b)
  | plain_int n : plain_value (PInt n)
  | plain_str s : chars s → plain_value (PStr s)
  | plain_bytes b : bytes_ok b → plain_value (PBytes b)
  | plain_list l : Forall plain_value l → plain_value (PList l)
  | plain_dict d : Forall (λ p, plain_value p.2) d → plain_value (PDict d)
  | plain_data fs : Forall (λ f, chars f.1 ∧ plain_value f.2) fs → plain_value (PData fs).

Lemma plain_text v : plain_value v → json_text (_plain v).
Proof.
  revert v. fix IH 2. intros v [|b|n|s Hs|b Hb|l Hl|d Hd|fs Hfs]; cbn [_plain]; try (by constructor).
  - constructor. by apply hex_chars.
  - constructor. apply Forall_fmap. induction Hl as [|w l Hw Hl IHl]; constructor; [by apply IH|done].
  - constructor. apply Forall_fmap. induction Hd as [|p d Hp Hd IHd]; constructor; [|done].
    split; [apply str_int_chars|by apply IH].
  - constructor. apply Forall_fmap. induction Hfs as [|f fs [Hk Hf] Hfs IHf]; constructor; [|done].
    split; [done|by apply IH].
Qed.

Definition fields_plain (fs : list (text * pyvalue)) : Prop := Forall (λ f, chars f.1 ∧ plain_value f.2) fs.

(** The octets of a payload. *)
Definition payload_octets (p : PayloadType) : Prop :=
  match p with
  | DataPayload b _ _ | HeadersPayload b _ _ _ _ | PushPromisePayload _ b _ _ | PingPayload b _
  | GoawayPayload _ _ b | ContinuationPayload b _ | PriorityUpdatePayload _ b => bytes_ok b
  | AltSvcPayload a b => bytes_ok a ∧ bytes_ok b
  | OriginPayload l => Forall bytes_ok l
  | UnknownPayload _ b msg _ => bytes_ok b ∧ ∀ m, msg = Some m → ascii m
  | _ => True
  end.

Lemma padded_octets strict h content bs : padded_wire strict h content bs → bytes_ok bs → bytes_ok content.
Proof.
  intros (pad & _ & ->) Hb. rewrite !bytes_ok_app in Hb. tauto.
Qed.

Lemma vectors_octets l : bytes_ok (concat (enc_vector 2 <$> l)) → Forall bytes_ok l.
Proof.
  induction l as [|a l IH]; [constructor|]. rewrite fmap_cons. cbn [concat]. unfold enc_vector.
  rewrite !bytes_ok_app. intros ((_ & Ha) & Hl). constructor; auto.
Qed.

Lemma outcome_octets cfg h pl p k : frame_outcome cfg h pl p k → bytes_ok pl → payload_octets p.
Proof.
  intros Ho Hb. destruct Ho as [p Hp|msg code k [_ Hm] _ _ _ _]; [|by split; [|intros m [= <-]]].
  destruct Hp; cbn; unfold enc_vector in *; rewrite ?bytes_ok_app in Hb; try done; try tauto;
    try (match goal with Hw : padded_wire _ _ _ _ |- _ => apply padded_octets in Hw; [|done];
           rewrite ?bytes_ok_app in Hw; tauto end).
  by apply vectors_octets.
Qed.

Lemma asdict_plain p : payload_octets p → fields_plain (asdict p).
Proof.
  intros Hp. unfold fields_plain.
  assert (∀ k v fs, plain_value v → Forall (λ f : text * pyvalue, chars f.1 ∧ plain_value f.2) fs →
    Forall (λ f : text * pyvalue, chars f.1 ∧ plain_value f.2) ((u k, v) :: fs)) as Hf
    by (intros k v fs Hv Hfs; constructor; [split; [apply u_chars|done]|done]).
  destruct p; cbn [asdict payload_octets] in *; try done; repeat apply Hf; try (by constructor).
  - destruct priority; constructor. repeat apply Hf; constructor.
  - destruct settings; constructor. apply Forall_fmap, Forall_true. intros e. constructor.
  - constructor. apply Forall_fmap, Forall_true. intros e. constructor. repeat constructor.
  - destruct Hp. by constructor.
  - destruct Hp. by constructor.
  - constructor. apply Forall_fmap. eapply Forall_impl; [exact Hp|]. intros o Ho. by constructor.
  - destruct Hp. by constructor.
  - destruct Hp as [_ Hm]. destruct parse_error as [m|]; constructor. by apply ascii_chars, Hm.
  - destruct error_code; constructor.
Qed.

Lemma payload_text p : payload_octets p → json_text (payload_json p).
Proof.
  intros Hp. unfold payload_json. cbn [foldl]. apply dict_text. do 4 apply members_pop.
  apply Forall_fmap. eapply Forall_impl; [by apply asdict_plain|]. intros f [Hk Hv].
  split; [done|by apply plain_text].
Qed.

Lemma frame_text f : readable f ∧ bytes_ok (pf_raw f) → json_text (_frame_report f).
Proof.
  intros [(cfg & hb & pl & k & Hraw & Hout) Hb]. unfold _frame_report. cbv zeta.
  apply dict_text, members_merge; [auto with chars|].
  assert (payload_octets (pf_payload f)).
  { eapply outcome_octets; [exact Hout|]. rewrite Hraw in Hb. apply bytes_ok_app in Hb. tauto. }
  repeat (apply member_text; [auto with chars|auto using payload_text with chars|]). apply members_nil.
Qed.

Lemma http2_text o j :
  (∀ h, o = Some h → Forall (λ f, readable f ∧ bytes_ok (pf_raw f)) (frames h)) →
  (∀ h, o = Some h → octet_fields (default [] (Capture.headers h)) ∧ octet_fields (trailers h)) →
  _http2_report o = Ok j → json_text j.
Proof.
  intros Hf Hh. unfold _http2_report. destruct (build_akamai_fingerprint o) as [a|] eqn:Ea; [|done].
  assert (members_text a) as Ha.
  { unfold build_akamai_fingerprint in Ea. destruct o as [h|]; [|injection Ea as <-; auto with chars].
    destruct (frames h) as [|f fs] eqn:Efs; [injection Ea as <-; auto with chars|].
    destruct (akamai_string h) as [t|] eqn:Et; [|done]. cbn [mbind result_bind] in Ea.
    apply (inj Ok) in Ea. rewrite <-Ea. assert (chars t); [|auto with chars].
    eapply akamai_chars; [|by apply Hh|exact Et]. eapply Forall_impl; [by apply Hf|]. by intros x [? _]. }
  destruct o as [h|]; cbn [mbind result_bind]; intros <-%(inj Ok); [|by apply dict_text].
  destruct (Hh h eq_refl) as [Hhs Hts]. specialize (Hf h eq_refl).
  apply dict_text, members_merge; [done|]. repeat apply members_app.
  - destruct (initial_settings h); [|apply members_nil]. apply member_text; auto with chars.
    apply maps_text. intros e. apply setting_text.
  - destruct (Capture.headers h); [|apply members_nil]. apply member_text; auto with chars.
    by apply fields_text, bytes_fields_chars.
  - destruct (trailers h) as [|t ts]; [apply members_nil|]. apply member_text; auto with chars.
    by apply fields_text, bytes_fields_chars.
  - apply member_text; auto with chars. apply map_text. eapply Forall_impl; [exact Hf|]. apply frame_text.
Qed.

(** ** The whole *)

Lemma report_text c r :
  observed_ok c → observed_text c → build_report c = Ok r → members_text r.
Proof.
  intros Hok Ht. unfold build_report. destruct (_tls_report (client_hello c)) as [tls|] eqn:Etls; [|done].
  cbn [mbind result_bind].
  assert (json_text tls) as Htls by (eapply tls_text; [apply (ob_hello c Hok)|done]).
  destruct (if bool_decide _ then _ else _) as [http|] eqn:Eh; [|done]. cbn [mbind result_bind].
  assert (members_text http) as Hhttp.
  { case_bool_decide.
    - destruct (_http2_report (http2 c)) as [j|] eqn:Ej; [|done]. cbn in Eh. apply (inj Ok) in Eh. rewrite <-Eh.
      apply member_text; [apply u_chars| |apply members_nil].
      eapply http2_text; [apply (ob_frames c Hok)|apply (ot_http2 c Ht)|done].
    - case_bool_decide; apply (inj Ok) in Eh; rewrite <-Eh; [|apply members_nil].
      apply member_text; [apply u_chars|by apply http1_text|apply members_nil]. }
  destruct (_tcpip_report c) as [tcpip|] eqn:Etcp; [|done]. intros <-%(inj Ok).
  assert (json_text tcpip) by (eapply tcpip_text; [apply (ot_peer c Ht)|apply (ot_sock c Ht)|done]).
  assert (json_text (json_opt_str (format_address (peername c)))) as Hip.
  { apply opt_str_text. intros s. unfold format_address. destruct (peername c) as [[host port]|] eqn:Ep; [|done].
    intros E. apply (inj Some) in E. rewrite <-E. pose proof (ot_peer c Ht _ Ep) as Hh. cbn in Hh.
    destruct (mem 58 host); split_chars. }
  apply members_merge; [|apply members_app; auto with chars].
  repeat (apply member_text; [apply u_chars|first [apply text_str, u_chars|done|by apply method_text|by apply agent_text
    |apply opt_str_text, (ot_version c Ht)]|]). apply members_nil.
Qed.
