(* ===== verification/Streams.v ===== *)
(** * Streams, deadlines and status names (asyncio, http)

    The parts of the standard library that the network code stands on: a connected
    pair of [StreamReader] and [StreamWriter], the deadlines of [asyncio.timeout]
    and [asyncio.wait_for], and [HTTPStatus].  A pair of streams is a type with the
    operations of [Streams]; any call may raise, a cancellation included, so what is
    proved of a program holds at every interleaving of its peer, clock and tasks. *)

From S2P Require Import Prelude PyText Http1.

(** The deadlines of the program, by what they bound.  They nest, and any of them may
    be the one that expired. *)
Inductive deadline :=
  | RequestTime | ResponseTime | HelloTime | RecordTime | ReadTime | WriteTime | AlertTime
  | DrainTime | CloseTime.

Class Streams (W : Type) := {
  reader_read : Z → M W bytes;
  reader_readexactly : Z → M W bytes;
  writer_write : bytes → M W unit;
  writer_drain : M W unit;
  writer_can_write_eof : W → bool;
  writer_write_eof : M W unit;
  writer_is_closing : W → bool;
  writer_close : M W unit;
  writer_wait_closed : M W unit;
  transport_abort : M W unit;
  (** Whether the cancellation just raised is that of this deadline. *)
  deadline_passed : deadline → W → bool;
  (** [formatdate(usegmt=True)] *)
  http_date : W → text;
}.

(** [async with timeout(...): m] and [await wait_for(m, timeout=...)] *)
Definition with_timeout {S A} (expired : S → bool) (m : M S A) : M S A :=
  try_except m (λ e,
    if bool_decide (e = CancelledError) then
      passed ← gets expired;
      if passed : bool then raise TimeoutError else raise e
    else raise e).

(** [try: m  finally: f] where [f] may wait and raise. *)
Definition try_finally {S A} (m : M S A) (f : M S unit) : M S A := λ s,
  let '(r, s) := m s in
  match f s with
  | (Ok _, s) => (r, s)
  | (Err e, s) => (Err e, s)
  end.

(** [HTTPStatus] of Python 3.12, which the Dockerfile names. *)
Definition HTTPStatus : list (Z * string) :=
  [(100, "Continue"%string); (101, "Switching Protocols"%string); (102, "Processing"%string);
   (103, "Early Hints"%string); (200, "OK"%string); (201, "Created"%string);
   (202, "Accepted"%string); (203, "Non-Authoritative Information"%string);
   (204, "No Content"%string); (205, "Reset Content"%string); (206, "Partial Content"%string);
   (207, "Multi-Status"%string); (208, "Already Reported"%string); (226, "IM Used"%string);
   (300, "Multiple Choices"%string); (301, "Moved Permanently"%string); (302, "Found"%string);
   (303, "See Other"%string); (304, "Not Modified"%string); (305, "Use Proxy"%string);
   (307, "Temporary Redirect"%string); (308, "Permanent Redirect"%string);
   (400, "Bad Request"%string); (401, "Unauthorized"%string); (402, "Payment Required"%string);
   (403, "Forbidden"%string); (404, "Not Found"%string); (405, "Method Not Allowed"%string);
   (406, "Not Acceptable"%string); (407, "Proxy Authentication Required"%string);
   (408, "Request Timeout"%string); (409, "Conflict"%string); (410, "Gone"%string);
   (411, "Length Required"%string); (412, "Precondition Failed"%string);
   (413, "Request Entity Too Large"%string); (414, "Request-URI Too Long"%string);
   (415, "Unsupported Media Type"%string); (416, "Requested Range Not Satisfiable"%string);
   (417, "Expectation Failed"%string); (418, "I'm a Teapot"%string);
   (421, "Misdirected Request"%string); (422, "Unprocessable Entity"%string);
   (423, "Locked"%string); (424, "Failed Dependency"%string); (425, "Too Early"%string);
   (426, "Upgrade Required"%string); (428, "Precondition Required"%string);
   (429, "Too Many Requests"%string); (431, "Request Header Fields Too Large"%string);
   (451, "Unavailable For Legal Reasons"%string); (500, "Internal Server Error"%string);
   (501, "Not Implemented"%string); (502, "Bad Gateway"%string);
   (503, "Service Unavailable"%string); (504, "Gateway Timeout"%string);
   (505, "HTTP Version Not Supported"%string); (506, "Variant Also Negotiates"%string);
   (507, "Insufficient Storage"%string); (508, "Loop Detected"%string);
   (510, "Not Extended"%string); (511, "Network Authentication Required"%string)].

(** [HTTPStatus(code).phrase]; [ValueError] for a code that is not listed. *)
Definition status_phrase (code : Z) : result text :=
  match List.find (λ s, s.1 =? code) HTTPStatus with
  | Some s => Ok (u s.2)
  | None => Err (ValueError (str_int code ++ u " is not a valid HTTPStatus"))
  end.

(** ** Laws of reading *)

(** The octets that a reader has yet to deliver: [read(n)] gives some of them, and
    none only at their end; [readexactly(n)] gives [n] or raises. *)
Class Reading (W : Type) `{Streams W} := {
  incoming : W → bytes;
  read_incoming n w b w' :
    0 < n → reader_read n w = (Ok b, w') →
    incoming w = b ++ incoming w' ∧ zlen b ≤ n ∧ (b = [] → incoming w = []);
  readexactly_incoming n w b w' :
    0 ≤ n → reader_readexactly n w = (Ok b, w') → incoming w = b ++ incoming w' ∧ zlen b = n;
  read_failed n w e w' :
    reader_read n w = (Err e, w') →
    e ≠ OutOfFuel ∧ is_ValueError e = false ∧ incoming w' `suffix_of` incoming w;
  readexactly_failed n w e w' :
    reader_readexactly n w = (Err e, w') → incoming w' `suffix_of` incoming w;
  readexactly_finite n : finite (reader_readexactly n);
  write_finite d : finite (writer_write d);
  drain_finite : finite writer_drain;
  write_eof_finite : finite writer_write_eof;
  close_finite : finite writer_close;
  wait_closed_finite : finite writer_wait_closed;
  abort_finite : finite transport_abort;
  write_incoming d w : incoming (writer_write d w).2 = incoming w;
  drain_incoming w : incoming (writer_drain w).2 = incoming w;
  write_eof_incoming w : incoming (writer_write_eof w).2 = incoming w;
}.

#[export] Hint Resolve readexactly_finite write_finite drain_finite write_eof_finite close_finite
  wait_closed_finite abort_finite : finite.

(** ** Streams that keep a log

    What a program does to the outgoing side, in order, beside any streams. *)
Inductive stream_call :=
  | SWrite (data : bytes)
  | SDrain
  | SWriteEof
  | SClose
  | SWaitClosed
  | SAbort.

Record traced (W : Type) := mkTraced {
  tr_world : W;
  tr_calls : list stream_call;
}.
Arguments mkTraced {_} _ _.
Arguments tr_world {_} _.
Arguments tr_calls {_} _.

(** A call is recorded when it is made, also if it raises. *)
Definition trace_call {W A} (m : M W A) (cs : list stream_call) : M (traced W) A := λ t,
  let '(r, w) := m (tr_world t) in (r, mkTraced w (tr_calls t ++ cs)).

#[export] Instance traced_streams {W} `{Streams W} : Streams (traced W) := {|
  reader_read n := trace_call (reader_read n) [];
  reader_readexactly n := trace_call (reader_readexactly n) [];
  writer_write d := trace_call (writer_write d) [SWrite d];
  writer_drain := trace_call writer_drain [SDrain];
  writer_can_write_eof t := writer_can_write_eof (tr_world t);
  writer_write_eof := trace_call writer_write_eof [SWriteEof];
  writer_is_closing t := writer_is_closing (tr_world t);
  writer_close := trace_call writer_close [SClose];
  writer_wait_closed := trace_call writer_wait_closed [SWaitClosed];
  transport_abort := trace_call transport_abort [SAbort];
  deadline_passed d t := deadline_passed d (tr_world t);
  http_date t := http_date (tr_world t);
|}.

Lemma trace_call_run {W A} (m : M W A) cs (t : traced W) r t' :
  trace_call m cs t = (r, t') →
  m (tr_world t) = (r, tr_world t') ∧ tr_calls t' = tr_calls t ++ cs.
Proof. unfold trace_call. destruct (m (tr_world t)) as [r' w]. by intros [= <- <-]. Qed.

Lemma trace_call_finite {W A} (m : M W A) cs : finite m → finite (trace_call m cs).
Proof.
  intros Hm t. specialize (Hm (tr_world t)). unfold wp, trace_call in *.
  by destruct (m (tr_world t)) as [[]].
Qed.

Lemma trace_call_world {W A} (m : M W A) cs t : tr_world (trace_call m cs t).2 = (m (tr_world t)).2.
Proof. unfold trace_call. by destruct (m (tr_world t)). Qed.

#[export] Instance traced_reading {W} `{Reading W} : Reading (traced W).
Proof.
  refine {| incoming t := incoming (tr_world t) |}; try (intros; apply trace_call_finite; auto with finite);
    try (intros; cbn; rewrite trace_call_world; auto using write_incoming, drain_incoming, write_eof_incoming).
  - intros n w b w' Hn [Hr _]%trace_call_run. by apply (read_incoming n).
  - intros n w b w' Hn [Hr _]%trace_call_run. by apply (readexactly_incoming n).
  - intros n w e w' [Hr _]%trace_call_run. by eapply (read_failed n).
  - intros n w e w' [Hr _]%trace_call_run. by eapply (readexactly_failed n).
Defined.

(** [trace_call] adds its calls whatever comes of it. *)
Lemma wp_trace {W A} (m : M W A) cs (t : traced W) (Q : A → traced W → Prop) E :
  (∀ a t', tr_calls t' = tr_calls t ++ cs → Q a t') →
  (∀ e t', tr_calls t' = tr_calls t ++ cs → E e t') → wp (trace_call m cs) Q E t.
Proof.
  intros HQ HE. unfold wp. destruct (trace_call m cs t) as [[a|e] t'] eqn:Et;
    apply trace_call_run in Et as [_ Et]; auto.
Qed.

(** What was written, in order. *)
Definition writes (cs : list stream_call) : list bytes :=
  omap (λ c, match c with SWrite d => Some d | _ => None end) cs.

Section traces.
Context {W : Type} `{Streams W}.
Implicit Types (t : traced W).

Lemma traced_read n t r t' : reader_read n t = (r, t') → tr_calls t' = tr_calls t.
Proof. cbn. intros [_ ->]%trace_call_run. apply app_nil_r. Qed.

Definition quiet_calls t t' : Prop := tr_calls t' = tr_calls t.

#[export] Instance quiet_calls_preorder : PreOrder quiet_calls.
Proof. unfold quiet_calls. split; [done|]. intros x y z H1 H2. congruence. Qed.

Lemma read_quiet n : stable quiet_calls (reader_read (W := traced W) n).
Proof. intros t. unfold quiet_calls. destruct (reader_read n t) eqn:E. by eapply traced_read. Qed.

(** What the calls from [t] to [t'] sent, and that none of them closed. *)
Definition sends t t' (ds : list bytes) : Prop :=
  ∃ cs, tr_calls t' = tr_calls t ++ cs ∧ writes cs = ds ∧ (SClose ∉ cs).

Lemma sends_nil t t' : tr_calls t' = tr_calls t → sends t t' [].
Proof. intros E. exists []. rewrite app_nil_r. split_and!; [done|done|apply not_elem_of_nil]. Qed.

Lemma sends_trans t1 t2 t3 ds ds' : sends t1 t2 ds → sends t2 t3 ds' → sends t1 t3 (ds ++ ds').
Proof.
  intros (cs & E & H1 & H2) (cs' & E' & H1' & H2'). exists (cs ++ cs'). split_and!.
  - by rewrite E', E, app_assoc.
  - unfold writes in *. by rewrite omap_app, H1, H1'.
  - rewrite elem_of_app. tauto.
Qed.

(** One call that neither writes nor closes. *)
Lemma wp_other {A} (m : M W A) c t (Q : A → traced W → Prop) E :
  writes [c] = [] → c ≠ SClose →
  (∀ a t', sends t t' [] → Q a t') → (∀ e t', sends t t' [] → E e t') → wp (trace_call m [c]) Q E t.
Proof.
  intros Hw Hc HQ HE. assert (∀ t', tr_calls t' = tr_calls t ++ [c] → sends t t' []) as Hs.
  { intros t' Et. exists [c]. split_and!; [done|done|]. intros E'%list_elem_of_singleton. congruence. }
  apply wp_trace; auto.
Qed.

End traces.

(** ** A pipe: concrete streams

    The pieces that arrive, and what was written.  A piece is delivered as it is or
    cut to the size asked for. *)
Record pipe := mkPipe {
  pieces : list bytes;
  sent : bytes;
  shut : bool;
}.

(** The first piece that holds an octet. *)
Fixpoint pipe_take (n : nat) (ps : list bytes) : bytes * list bytes :=
  match ps with
  | [] => ([], [])
  | [] :: ps => pipe_take n ps
  | d :: ps => (take n d, drop n d :: ps)
  end.

#[export] Instance pipe_streams : Streams pipe := {|
  reader_read n p :=
    let '(d, ps) := pipe_take (Z.to_nat n) (pieces p) in (Ok d, mkPipe ps (sent p) (shut p));
  reader_readexactly n p :=
    let d := concat (pieces p) in
    if zlen d <? n then (Err IncompleteReadError, mkPipe [] (sent p) (shut p))
    else (Ok (take (Z.to_nat n) d), mkPipe [drop (Z.to_nat n) d] (sent p) (shut p));
  writer_write d p := (Ok tt, mkPipe (pieces p) (sent p ++ d) (shut p));
  writer_drain := mret tt;
  writer_can_write_eof _ := true;
  writer_write_eof := mret tt;
  writer_is_closing := shut;
  writer_close p := (Ok tt, mkPipe (pieces p) (sent p) true);
  writer_wait_closed := mret tt;
  transport_abort p := (Ok tt, mkPipe (pieces p) (sent p) true);
  deadline_passed _ _ := false;
  http_date _ := u "Thu, 01 Jan 1970 00:00:00 GMT";
|}.

Lemma pipe_take_spec n ps :
  (0 < n)%nat →
  concat ps = (pipe_take n ps).1 ++ concat (pipe_take n ps).2 ∧
  (length (pipe_take n ps).1 ≤ n)%nat ∧ ((pipe_take n ps).1 = [] → concat ps = []).
Proof.
  intros Hn. induction ps as [|[|b d] ps IH]; cbn [pipe_take]; [cbn; split_and!; [done|lia|done]|done|].
  cbn [fst snd]. split_and!.
  - change (concat (?x :: ps)) with (x ++ concat ps). by rewrite app_assoc, take_drop.
  - rewrite length_take. lia.
  - destruct n; [lia|done].
Qed.

#[export] Instance pipe_reading : Reading pipe.
Proof.
  refine {| incoming p := concat (pieces p) |}; try done.
  - intros n w b w' Hn. cbn. pose proof (pipe_take_spec (Z.to_nat n) (pieces w) ltac:(lia)) as Hp.
    destruct (pipe_take _ _) as [d ps]. intros [= <- <-]. cbn in *. unfold zlen.
    destruct Hp as (H1 & H2 & H3). split_and!; [done|lia|done].
  - intros n w b w' Hn. cbn. destruct (Z.ltb_spec (zlen (concat (pieces w))) n); [done|].
    intros [= <- <-]. cbn. rewrite app_nil_r, take_drop. split; [done|].
    unfold zlen in *. rewrite length_take. lia.
  - intros n w e w'. cbn. by destruct (pipe_take _ _).
  - intros n w e w'. cbn. destruct (_ <? n); [|done]. intros [= <- <-]. apply suffix_nil.
  - intros n w. unfold wp. cbn. by destruct (_ <? n).
Defined.

(** ** Deadlines *)

Lemma finite_timeout {S A} (expired : S → bool) (m : M S A) :
  finite m → finite (with_timeout expired m).
Proof. intros Hm. unfold with_timeout. repeat finite_step. Qed.

Lemma finite_finally {S A} (m : M S A) f : finite m → finite f → finite (try_finally m f).
Proof.
  intros Hm Hf s. specialize (Hm s). unfold wp, try_finally in *. destruct (m s) as [[a|e] s'];
    specialize (Hf s'); unfold wp in Hf; by destruct (f s') as [[]].
Qed.
#[export] Hint Resolve finite_timeout finite_finally : finite.

(** A deadline may turn any failure into [TimeoutError]. *)
Lemma wp_timeout {S A} (expired : S → bool) (m : M S A) (Q : A → S → Prop) (E : exn → S → Prop) s :
  wp m Q (λ e s, E e s ∧ E TimeoutError s) s → wp (with_timeout expired m) Q E s.
Proof.
  intros Hm. unfold with_timeout. apply wp_try. eapply wp_wand; [exact Hm|done|].
  intros e s' [He Ht]. apply wp_if; intros _; [|by apply wp_raise].
  apply wp_bind, wp_gets, wp_if; intros _; by apply wp_raise.
Qed.

Lemma wp_finally {S A} (m : M S A) f (Q : A → S → Prop) (E : exn → S → Prop) s :
  wp m (λ a, wp f (λ _, Q a) E) (λ e, wp f (λ _, E e) E) s → wp (try_finally m f) Q E s.
Proof.
  unfold wp, try_finally. destruct (m s) as [[a|e] s']; intros Hf; by destruct (f s') as [[]].
Qed.

Lemma stable_timeout {S A} (R : relation S) `{!PreOrder R} f (m : M S A) :
  stable R m → stable R (with_timeout f m).
Proof.
  intros Hm. apply stable_try; [apply _|done|]. intros e.
  destruct (bool_decide _); [|apply stable_raise, _].
  apply stable_bind; [apply _|apply stable_gets, _|]. intros [|]; apply stable_raise, _.
Qed.
