(* ===== verification/Redirect.v ===== *)
(** * The redirect service (src/solvetls/redirect.py)

    A plain HTTP port that answers every request with its HTTPS location.  The
    handler works on the streams of one client; the deadlines are calls of
    [with_timeout]. *)

From S2P Require Import Prelude PyText IpAddress Uri Http1 Streams.

Definition redirect_location (request : HTTP1Request) (https_port : Z) : result text :=
  if bool_decide (method request = u "CONNECT") then
    Err (HTTP1Error (u "CONNECT tunnels are not supported") 501)
  else
    let target := Http1.path request in
    if bool_decide (target = u "*") then bad_request (u "A redirect requires a request path")
    else
      ap ←
        (if startswith (u "/") target then
           match List.find (λ h, bool_decide (lower h.1 = u "host")) (headers request) with
           | Some h => mret (h.2, target)
           | None => Err StopIteration
           end
         else
           parsed ← split_absolute_uri target;
           if negb (bool_decide (scheme parsed = u "http")) &&
              negb (bool_decide (scheme parsed = u "https")) then
             bad_request (u "Only HTTP request targets can be redirected")
           else
             let authority := netloc parsed in
             let path := drop (length (scheme parsed) + 3 + length authority) target in
             mret (authority, if startswith (u "/") path then path else u "/" ++ path));
      let '(authority, path) := ap in
      host ← validate_authority authority false;
      match host with
      | [] => bad_request (u "A redirect requires a host")
      | _ =>
          let host := if startswith (u "[") authority then u "[" ++ host ++ u "]" else host in
          let port := if https_port =? 443 then [] else u ":" ++ str_int https_port in
          mret (u "https://" ++ host ++ port ++ path)
      end.

(** The lines of a response, and its octets. *)
Definition response_lines (status : Z) (phrase date : text) (location : option text) : list text :=
  [u "HTTP/1.1 " ++ str_int status ++ u " " ++ phrase;
   u "date: " ++ date;
   u "content-length: 0";
   u "connection: close"] ++
  match location with Some l => [u "location: " ++ l] | None => [] end.

Definition encode_ascii (t : text) : result bytes :=
  if isascii t then Ok t else Err (ValueError (u "ordinal not in range(128)")).

Section redirect.
Context {W : Type} `{Streams W}.

Abbreviation timeout d := (with_timeout (deadline_passed d)).

(** The loop of [_read_head]; every turn adds an octet, and a head has a limit. *)
Fixpoint read_head (fuel : nat) (data : bytes) : M W bytes :=
  match fuel with
  | O => raise OutOfFuel
  | S fuel =>
      chunk ← reader_read 4096;
      match chunk with
      | [] =>
          match data with
          | [] => mret []
          | _ => lift (bad_request (u "Request head was not terminated"))
          end
      | _ =>
          let data := data ++ chunk in
          _ ← lift (check_head_size data true);
          match find HEAD_END data with
          | Some end_ => mret (slice data 0 (end_ + zlen HEAD_END))
          | None => read_head fuel data
          end
      end
  end.

Definition HEAD_FUEL : nat := S (Z.to_nat MAX_HEAD_SIZE).

Definition _read_head : M W bytes := read_head HEAD_FUEL [].

(** The inner [try]: the status and the location, or nothing to answer. *)
Definition redirect_answer (https_port : Z) : M W (option (Z * option text)) :=
  try_except
    (head ← timeout RequestTime _read_head;
     match head with
     | [] => mret None
     | _ =>
         location ← lift (request ← parse_request head; redirect_location request https_port);
         mret (Some (308, Some location))
     end)
    (λ e, match e with
          | HTTP1Error _ status_code => mret (Some (status_code, None))
          | TimeoutError => mret (Some (408, None))
          | e => raise e
          end).

(** [while await reader.read(65536): pass] *)
Fixpoint drain_reader (fuel : nat) : M W unit :=
  match fuel with
  | O => raise OutOfFuel
  | S fuel =>
      chunk ← reader_read 65536;
      match chunk with [] => mret tt | _ => drain_reader fuel end
  end.

Definition send_redirect (fuel : nat) (status : Z) (location : option text) : M W unit :=
  phrase ← lift (status_phrase status);
  date ← gets http_date;
  content ← lift (encode_ascii
    (join CRLF (response_lines status phrase date location) ++ HEAD_END));
  _ ← timeout ResponseTime (_ ← writer_write content; writer_drain);
  can ← gets writer_can_write_eof;
  _ ← (if can : bool then writer_write_eof else mret tt);
  timeout DrainTime (drain_reader fuel).

(** The last [finally]. *)
Definition close_redirect : M W unit :=
  try_except (_ ← writer_close; timeout CloseTime writer_wait_closed)
    (λ e,
      if bool_decide (e = CancelledError) then _ ← transport_abort; raise e
      else if is_Exception e then transport_abort
      else raise e).

Definition handle_redirect (fuel : nat) (https_port : Z) : M W unit :=
  try_finally
    (try_except
       (answer ← redirect_answer https_port;
        match answer with
        | None => mret tt
        | Some (status, location) => send_redirect fuel status location
        end)
       (λ e, if is_OSError e then mret tt else raise e))
    close_redirect.

End redirect.

(** ** The location *)

Lemma reg_char_printable c : reg_char c = true → printable c.
Proof.
  unfold reg_char, printable, is_alnum, is_alpha, is_upper, is_lower, is_digit.
  change (mem c (u "-._~!$&'()*+,;=")) with
    (existsb (Z.eqb c) [45; 46; 95; 126; 33; 36; 38; 39; 40; 41; 42; 43; 44; 59; 61]).
  cbn [existsb]. lia.
Qed.

Lemma pct_text_printable ok l :
  (∀ c, ok c = true → printable c) → pct_text ok l → Forall printable l.
Proof.
  intros Hok. induction 1 as [|c l Hc _ IH|a b l Ha Hb _ IH]; [constructor|by constructor; auto|].
  assert (∀ x, is_hexdigit x = true → printable x) as Hhex.
  { intros x. unfold is_hexdigit, is_digit, in_range, printable. lia. }
  constructor; [by split|]. auto.
Qed.

Lemma path_query_printable p q :
  validate_path_query p q = Ok tt → Forall printable p ∧ Forall printable q.
Proof.
  intros [Hp Hq]%validate_path_query_exact.
  split; (eapply pct_text_printable; [|done]); intros c [Hc|Hc%mem_In]%orb_true_iff;
    try (by apply reg_char_printable); unfold printable;
    repeat (apply elem_of_cons in Hc as [->|Hc]; [by split|]); by apply elem_of_nil in Hc.
Qed.

Lemma validate_absolute_ok t :
  validate_absolute t = Ok tt → Forall printable t ∧ ∃ p, split_absolute_uri t = Ok p.
Proof.
  unfold validate_absolute. destruct (_ || _); [done|].
  destruct (existsb _ t) eqn:Ex; [done|]. intros H. split.
  - apply Forall_forall. intros c Hc%list_elem_of_In. unfold printable.
    assert ((c <=? 32) || (127 <=? c) = false) as Hn; [|lia].
    apply not_true_iff_false. intros E. rewrite <-not_true_iff_false in Ex.
    apply Ex, existsb_exists. eauto.
  - destruct (split_absolute_uri t); [by eexists|]. by destruct (is_ValueError e).
Qed.

(** The targets that are redirected consist of printable characters. *)
Lemma target_printable m t :
  _validate_target m t = Ok tt → m ≠ u "CONNECT" → t ≠ u "*" →
  Forall printable t ∧
  (startswith (u "/") t = true ∨ (startswith (u "/") t = false ∧ ∃ p, split_absolute_uri t = Ok p)).
Proof.
  intros Ht Hm Hs. unfold _validate_target in Ht. rewrite !bool_decide_false in Ht by done.
  destruct (startswith (u "/") t).
  - destruct (partition_ 63 t) as [[p s] q] eqn:E.
    destruct (partition_spec _ _ _ _ _ E) as (_ & -> & Hq).
    apply path_query_printable in Ht as [Hp Hq']. split; [|by left].
    destruct s; [|done]. apply Forall_app. split; [done|]. constructor; [by split|done].
  - apply validate_absolute_ok in Ht as [? ?]. split; [done|]. by right.
Qed.

Lemma address_char_printable c : address_char c → printable c.
Proof.
  unfold address_char, printable, is_hexdigit, is_digit, in_range. intros [H|[->| ->]]; lia.
Qed.

Lemma future_printable l : _IPV_FUTURE_RE l = true → Forall printable l.
Proof.
  assert (∀ x, is_hexdigit x = true → printable x) as Hhex.
  { intros x Hx. apply address_char_printable. by left. }
  unfold _IPV_FUTURE_RE. destruct l as [|v l]; [done|].
  destruct (span is_hexdigit l) as [a b] eqn:E. destruct (span_spec _ _ _ _ E) as (-> & Ha & _).
  intros [Hv Hab]%andb_true_iff. destruct a as [|x a]; [done|].
  destruct b as [|d [|y b]]; [done|done|]. apply andb_true_iff in Hab as [Hd Hb].
  constructor; [unfold printable; lia|]. apply Forall_app. split.
  - eapply Forall_impl; [exact Ha|]. apply Hhex.
  - constructor; [unfold printable; lia|]. apply Forall_forall. intros z Hz%list_elem_of_In.
    eapply forallb_forall in Hb; [|exact Hz]. apply orb_true_iff in Hb as [Hb|Hb].
    + by apply reg_char_printable.
    + unfold printable; lia.
Qed.

Lemma authority_host_printable a host port : authority_form a host port → Forall printable host.
Proof.
  intros [h p _ [Hf|[H1 H2]]|h p Hr].
  - by apply future_printable.
  - eapply Forall_impl; [by apply ipv6_chars|]. intros c. apply address_char_printable.
  - eapply pct_text_printable; [apply reg_char_printable|].
    by apply (pct_match_text reg_char).
Qed.

(** The host of the request in the authority of another port. *)
Lemma new_authority a host port (p : option text) :
  authority_form a host port → host ≠ [] →
  authority_form ((if startswith (u "[") a then u "[" ++ host ++ u "]" else host) ++ port_text p)
    host p.
Proof.
  intros [h q H1 H2|h q Hr] Hne.
  - change (startswith (u "[") _) with true. cbn [andb].
    rewrite <-!app_assoc. by apply (AF_literal h p).
  - assert (startswith (u "[") (h ++ port_text q) = false) as ->; [|by apply AF_name].
    apply not_true_iff_false. intros [l Hl]%startswith_bracket.
    destruct h as [|c h]; [done|]. injection Hl as -> _.
    apply (reg_name_no 91 (91 :: h)); [done|reflexivity|done|by left].
Qed.

(** The authority that a request names: in its Host field, or in an absolute target. *)
Definition request_authority (r : HTTP1Request) (a path : text) : Prop :=
  (startswith (u "/") (Http1.path r) = true ∧ path = Http1.path r ∧
   ∃ n, filter (λ nv, lower nv.1 = u "host") (headers r) = [(n, a)]) ∨
  (∃ s rest, Http1.path r = s ++ u "://" ++ a ++ rest ∧
     (lower s = u "http" ∨ lower s = u "https") ∧
     path = if startswith (u "/") rest then rest else u "/" ++ rest).

Lemma find_filter {A} (f : A → bool) (P : A → Prop) `{!∀ x, Decision (P x)} l y :
  (∀ x, f x = true ↔ P x) → filter P l = [y] → List.find f l = Some y.
Proof.
  intros Hf. induction l as [|x l IH]; [done|]. rewrite filter_cons. cbn [List.find].
  destruct (decide (P x)) as [Hx|Hx].
  - rewrite (proj2 (Hf x) Hx). by intros [= -> _].
  - destruct (f x) eqn:E; [by apply Hf in E|]. apply IH.
Qed.

(** The parts of an absolute target. *)
Lemma absolute_authority r p :
  Forall printable (Http1.path r) → split_absolute_uri (Http1.path r) = Ok p →
  negb (bool_decide (scheme p = u "http")) && negb (bool_decide (scheme p = u "https")) = false →
  let rest := drop (length (scheme p) + 3 + length (netloc p)) (Http1.path r) in
  let path := if startswith (u "/") rest then rest else u "/" ++ rest in
  startswith (u "/") path = true ∧ Forall printable path ∧
  ((∃ host, validate_authority (netloc p) false = Ok host ∧ host ≠ []) →
    request_authority r (netloc p) path).
Proof.
  intros Hl Hp Hs rest path. assert (scheme p = u "http" ∨ scheme p = u "https") as Hsch.
  { repeat case_bool_decide; auto; done. }
  split_and!.
  - unfold path. by destruct (startswith (u "/") rest) eqn:E.
  - unfold path. assert (Forall printable rest) by (by apply Forall_drop).
    destruct (startswith (u "/") rest); [done|]. constructor; [by split|done].
  - intros (host & Hv & Hne). assert (netloc p ≠ []) as Hn.
    { intros E. rewrite E in Hv. by injection Hv as <-. }
    assert (scheme p ≠ []) as Hsn by (by destruct Hsch as [-> | ->]).
    destruct (absolute_split _ _ Hl Hp Hsn Hn) as (s & rest' & E & Hlow).
    right. exists s, rest'. split; [done|]. split; [by rewrite Hlow|].
    assert (rest = rest') as <-; [|done]. unfold rest. rewrite E, <-Hlow.
    unfold lower. rewrite length_fmap.
    rewrite <-Nat.add_assoc, drop_app_add. change (3 + length (netloc p))%nat with
      (length (u "://") + length (netloc p))%nat. by rewrite drop_app_add, drop_app_length.
Qed.

(** An absolute target of HTTP that was accepted names a valid authority. *)
Lemma absolute_http t p :
  validate_absolute t = Ok tt → split_absolute_uri t = Ok p →
  scheme p = u "http" ∨ scheme p = u "https" →
  netloc p = [] ∨ ∃ host, validate_authority (netloc p) false = Ok host.
Proof.
  intros Ht Hp Hs. unfold validate_absolute in Ht. destruct (_ || _); [done|].
  destruct (existsb _ t); [done|]. rewrite Hp in Ht. cbn [mbind result_bind] in Ht.
  destruct (validate_path_query _ _); [|done]. cbn [mbind result_bind] in Ht.
  assert (bool_decide (lower (scheme p) = u "http") || bool_decide (lower (scheme p) = u "https") = true)
    as Hsch by (by destruct Hs as [-> | ->]).
  rewrite Hsch in Ht. destruct (startswith (u "//") _); [|by cbn in Ht].
  destruct (mem 64 (netloc p)).
  - destruct (rpartition 64 (netloc p)) as [[? ?] ?]. done.
  - cbn [mbind result_bind] in Ht. right. destruct (validate_authority _ _); [by eexists|done].
Qed.

Lemma redirect_location_errors data request https_port e :
  parse_request data = Ok request → redirect_location request https_port = Err e →
  ∃ m status, e = HTTP1Error m status ∧ (status = 400 ∨ status = 501).
Proof.
  intros (_ & _ & _ & (Ht & (n & h & host0 & Hh & Hv) & _))%parse_request_iff. unfold redirect_location.
  destruct (bool_decide_reflect (method request = u "CONNECT")); [intros [= <-]; eauto|].
  destruct (bool_decide_reflect (Http1.path request = u "*")); [intros [= <-]; eauto|].
  destruct (target_printable _ _ Ht) as [_ [E|[E [p Ep]]]]; [done..| |]; rewrite E.
  - rewrite (find_filter _ (λ nv, lower nv.1 = u "host") _ (n, h))
      by (done || (intros; apply bool_decide_eq_true)).
    cbn [mbind result_bind mret result_ret snd]. rewrite Hv. cbn [mbind result_bind].
    destruct host0; intros [= <-]; eauto.
  - rewrite Ep. cbn [mbind result_bind]. destruct (_ && _) eqn:Esch; [intros [= <-]; eauto|].
    cbn [mbind result_bind mret result_ret].
    assert (validate_absolute (Http1.path request) = Ok tt) as Ha.
    { unfold _validate_target in Ht. rewrite !bool_decide_false in Ht by done. by rewrite E in Ht. }
    destruct (absolute_http _ _ Ha Ep) as [En|[host Ehost]].
    { repeat case_bool_decide; auto; done. }
    + rewrite En. intros [= <-]; eauto.
    + rewrite Ehost. cbn [mbind result_bind]. destruct host; intros [= <-]; eauto.
Qed.

Lemma location_safe data request https_port location :
  parse_request data = Ok request → 0 ≤ https_port →
  redirect_location request https_port = Ok location →
  ∃ a path host authority, request_authority request a path ∧
    validate_authority a false = Ok host ∧ host ≠ [] ∧
    location = u "https://" ++ authority ++ path ∧
    authority_form authority host (if https_port =? 443 then None else Some (str_int https_port)) ∧
    startswith (u "/") path = true ∧ Forall printable location.
Proof.
  intros (_ & _ & (_ & (_ & Hasc & _) & _) & (Ht & (n & h & host0 & Hh & Hv) & _))%parse_request_iff Hport.
  unfold redirect_location. destruct (bool_decide_reflect (method request = u "CONNECT")); [done|].
  destruct (bool_decide_reflect (Http1.path request = u "*")); [done|].
  destruct (target_printable _ _ Ht) as [Hp Hform]; [done..|].
  set (ap := if startswith (u "/") (Http1.path request) then _ else _). intros Hloc.
  assert (∃ a path, ap = Ok (a, path) ∧ startswith (u "/") path = true ∧ Forall printable path ∧
    ((∃ host, validate_authority a false = Ok host ∧ host ≠ []) → request_authority request a path))
    as (a & path & -> & Hs & Hpp & Hreq).
  { unfold ap in *. clear ap. destruct Hform as [E|[E [p Ep]]]; rewrite E in *.
    - rewrite (find_filter _ (λ nv, lower nv.1 = u "host") _ (n, h)) by (done || (intros; apply bool_decide_eq_true)).
      exists h, (Http1.path request). split_and!; [done..|]. intros _. left. eauto.
    - rewrite Ep in *. cbn [mbind result_bind] in *.
      destruct (_ && _) eqn:Esch; [done|]. eexists _, _. split; [reflexivity|].
      by apply absolute_authority. }
  cbn [mbind result_bind] in Hloc.
  pose proof (validate_authority_spec a false) as Hva.
  destruct (validate_authority a false) as [host|] eqn:Ea; [|done].
  destruct Hva as (port & Hform' & _). cbn [mbind result_bind] in Hloc.
  assert (host ≠ []) as Hne by (by destruct host).
  set (p := if https_port =? 443 then None else Some (str_int https_port)).
  pose proof (new_authority a host port p Hform' Hne) as Hnew.
  eexists a, path, host, _. split; [apply Hreq; eauto|]. split; [done|]. split; [done|].
  assert (location = u "https://" ++
    ((if startswith (u "[") a then u "[" ++ host ++ u "]" else host) ++ port_text p) ++ path) as ->.
  { destruct host as [|c host]; [done|]. unfold p. injection Hloc as <-. rewrite <-!app_assoc.
    by destruct (https_port =? 443). }
  split; [done|]. split; [exact Hnew|]. split; [done|].
  pose proof (authority_host_printable _ _ _ Hform') as Hhost.
  apply Forall_app. split; [by_eval|]. apply Forall_app. split; [|done].
  apply Forall_app. split.
  - destruct (startswith (u "[") a); [|done].
    apply Forall_app. split; [by_eval|]. apply Forall_app. split; [done|by_eval].
  - unfold p. destruct (https_port =? 443); [constructor|]. constructor; [by split|].
    apply Forall_forall. intros x Hx%str_int_digits; [|done]. unfold is_digit in Hx.
    unfold printable; lia.
Qed.


(** ** Reading the head *)

Section reading.
Context {W : Type} `{Reading W}.

(** What the octets [whole] that a client sends make of the call. *)
Definition head_outcome (whole : bytes) (r : result bytes) : Prop :=
  match r with
  | Ok [] => whole = []
  | Ok head => complete_head whole head
  | Err (HTTP1Error _ status) =>
      (status = 400 ∧ whole ≠ [] ∧ find HEAD_END whole = None) ∨
      ((status = 414 ∨ status = 431) ∧ head_too_long whole)
  | Err e => e ≠ OutOfFuel
  end.

Lemma read_head_outcome fuel whole data w :
  whole = data ++ incoming w → zlen data < MAX_HEAD_SIZE → find HEAD_END data = None →
  MAX_HEAD_SIZE - zlen data < Z.of_nat fuel →
  wp (read_head fuel data) (λ h _, head_outcome whole (Ok h)) (λ e _, head_outcome whole (Err e)) w.
Proof.
  revert data w. induction fuel as [|fuel IH]; intros data w Hw Hd Hf Hfuel; [lia|].
  cbn [read_head]. apply wp_bind. unfold wp at 1.
  destruct (reader_read 4096 w) as [[chunk|e] w1] eqn:Er.
  2:{ destruct (read_failed _ _ _ _ Er) as (Hne & Hv & _). by destruct e. }
  destruct (read_incoming 4096 w chunk w1 ltac:(lia) Er) as (Hin & _ & Hend).
  destruct chunk as [|c chunk].
  - rewrite (Hend eq_refl), app_nil_r in Hw. subst whole. destruct data as [|b data]; [by apply wp_ret|].
    apply wp_lift; [done|]. intros e [= <-]. left. done.
  - set (k := c :: chunk) in *. rewrite Hin, app_assoc in Hw. subst whole. apply wp_bind, wp_lift.
    + intros [] Hck. destruct (find HEAD_END (data ++ k)) as [e|] eqn:Ef.
      * apply wp_ret. pose proof (head_found _ (incoming w1) _ Hck Ef) as Hh.
        destruct (slice (data ++ k) 0 _) as [|x l]; [|done].
        destruct Hh as (pre & ? & Hh & _). by destruct pre.
      * apply IH; [done|by apply head_continues|done|]. rewrite zlen_app. unfold k.
        rewrite zlen_cons. pose proof (zlen_nonneg chunk). lia.
    + intros e Hck. destruct (check_head_size_err _ _ _ Hck) as (m & s & -> & Hs).
      right. split; [done|]. by eapply head_refused.
Qed.

Lemma read_head_start w :
  wp _read_head (λ h _, head_outcome (incoming w) (Ok h)) (λ e _, head_outcome (incoming w) (Err e)) w.
Proof.
  apply read_head_outcome; [done..|]. unfold HEAD_FUEL. rewrite Nat2Z.inj_succ, Z2Nat.id by done.
  change (zlen []) with 0. lia.
Qed.

(** The head that is read does not depend on how the octets arrive. It is the
    part of the client's octets up to and with the first empty line, if that is within
    the size limit; it is empty only if the client sent nothing; an unterminated head is
    answered with 400, one that exceeds the limit with 414 or 431. The loop ends: it
    never asks the peer more often than the limit has octets. *)
Theorem read_head_exact (w : W) : head_outcome (incoming w) (_read_head w).1.
Proof.
  pose proof (read_head_start w) as Hw. unfold wp in Hw. by destruct (_read_head w) as [[h|e] w'].
Qed.

End reading.

(** ** The exchange *)

(** The answer to what reading the head came to, and what of the client's octets [whole]
    justifies it: nothing for a client that sent nothing; the location of its request, or
    the status with which the request is refused; the status of a head that is too long or
    was not terminated; 408 where the deadline passed before it was complete; and nothing
    where the connection was lost or the task cancelled. *)
Inductive answers (https_port : Z) (whole : bytes) : result bytes → option (Z * option text) → Prop :=
  | answer_none : whole = [] → answers https_port whole (Ok []) None
  | answer_location head request location :
      complete_head whole head → parse_request head = Ok request →
      redirect_location request https_port = Ok location →
      answers https_port whole (Ok head) (Some (308, Some location))
  | answer_refused head m status :
      complete_head whole head →
      (request ← parse_request head; redirect_location request https_port) = Err (HTTP1Error m status) →
      answers https_port whole (Ok head) (Some (status, None))
  | answer_unterminated m :
      whole ≠ [] → find HEAD_END whole = None →
      answers https_port whole (Err (HTTP1Error m 400)) (Some (400, None))
  | answer_too_long m status :
      status = 414 ∨ status = 431 → head_too_long whole →
      answers https_port whole (Err (HTTP1Error m status)) (Some (status, None))
  | answer_late : answers https_port whole (Err TimeoutError) (Some (408, None))
  | answer_lost e :
      (∀ m status, e ≠ HTTP1Error m status) → e ≠ TimeoutError → answers https_port whole (Err e) None.

(** The octets of one response, sent at [date]. *)
Inductive response_octets (status : Z) (location : option text) (date : text) : bytes → Prop :=
  | response_octets_of phrase content :
      status_phrase status = Ok phrase →
      content = join CRLF (response_lines status phrase date location) ++ HEAD_END →
      response_octets status location date content.

(** The statuses of the answers, and their phrases. *)
Definition answer_statuses : list Z := [308; 400; 408; 414; 431; 501; 505].

Lemma answer_phrase status :
  status ∈ answer_statuses → ∃ phrase, status_phrase status = Ok phrase ∧ isascii phrase = true.
Proof.
  intros Hs. unfold answer_statuses in Hs. set_unfold in Hs.
  destruct_or?; subst; eexists; (split; [reflexivity|vm_compute; reflexivity]).
Qed.

(** What an answer consists of can be written. *)
Definition answerable (a : option (Z * option text)) : Prop :=
  ∀ status location, a = Some (status, location) →
    status ∈ answer_statuses ∧ ∀ l, location = Some l → Forall printable l.

Lemma request_refusal head https_port e :
  (request ← parse_request head; redirect_location request https_port) = Err e →
  ∃ m status, e = HTTP1Error m status ∧ status ∈ answer_statuses.
Proof.
  unfold answer_statuses. intros [Hp|(request & Hp & He)]%bind_Err.
  - destruct (parse_request_err _ _ Hp) as (m & s & -> & Hs). exists m, s. split; [done|]. set_solver.
  - destruct (redirect_location_errors _ _ _ _ Hp He) as (m & s & -> & Hs). exists m, s. split; [done|].
    destruct Hs as [->| ->]; set_solver.
Qed.

Lemma answers_answerable https_port whole read a :
  0 ≤ https_port → answers https_port whole read a → answerable a.
Proof.
  intros Hport Ha status location E.
  destruct Ha as [|head request l _ Hp Hl|head m s _ He|m _ _|m s Hs _| |]; simplify_eq.
  - split; [set_solver|]. intros ? [= <-]. by destruct (location_safe _ _ _ _ Hp Hport Hl)
      as (? & ? & ? & ? & _ & _ & _ & _ & _ & _ & ?).
  - destruct (request_refusal _ _ _ He) as (m' & s' & [= <- <-] & Hs). by split.
  - split; [set_solver|done].
  - split; [destruct Hs as [->| ->]; set_solver|done].
  - split; [set_solver|done].
Qed.

Lemma isascii_app a b : isascii (a ++ b) = isascii a && isascii b.
Proof. apply forallb_app. Qed.

Lemma printable_ascii l : Forall printable l → isascii l = true.
Proof.
  intros Hl. apply forallb_forall. intros c Hc%list_elem_of_In.
  eapply Forall_forall in Hl; [|exact Hc]. unfold printable in Hl. lia.
Qed.

Lemma int_ascii n : 0 ≤ n → isascii (str_int n) = true.
Proof.
  intros Hn. apply forallb_forall. intros c Hc%list_elem_of_In. apply str_int_digits in Hc; [|done].
  unfold is_digit in Hc. lia.
Qed.

Lemma response_ascii status phrase date location :
  0 ≤ status → isascii phrase = true → isascii date = true →
  (∀ l, location = Some l → Forall printable l) →
  isascii (join CRLF (response_lines status phrase date location) ++ HEAD_END) = true.
Proof.
  intros Hs Hp Hd Hl. rewrite isascii_app, andb_true_r. unfold response_lines.
  destruct location as [l|]; cbn [app join]; rewrite !isascii_app, Hp, Hd, int_ascii by done.
  - by rewrite (printable_ascii l) by auto.
  - done.
Qed.

Section exchange.
Context {W : Type} `{Reading W}.
Implicit Types (t : traced W).

Abbreviation timeout_head := (with_timeout (deadline_passed RequestTime) (_read_head (W := traced W))).

Lemma read_head_quiet fuel data : stable quiet_calls (read_head (W := traced W) fuel data).
Proof.
  revert data. induction fuel as [|fuel IH]; intros data; cbn [read_head]; [apply stable_raise, _|].
  apply stable_bind; [apply _|apply read_quiet|]. intros chunk. destruct chunk.
  - destruct data; [apply stable_ret, _|apply stable_lift, _].
  - apply stable_bind; [apply _|apply stable_lift, _|]. intros [].
    destruct (find _ _); [apply stable_ret, _|apply IH].
Qed.

(** What the calls of one that reads the head have done. *)
Lemma head_read t :
  let '(read, t1) := timeout_head t in
  tr_calls t1 = tr_calls t ∧ (read = Err TimeoutError ∨ head_outcome (incoming t) read).
Proof.
  assert (wp timeout_head (λ h t1, tr_calls t1 = tr_calls t ∧ head_outcome (incoming t) (Ok h))
    (λ e t1, tr_calls t1 = tr_calls t ∧ (e = TimeoutError ∨ head_outcome (incoming t) (Err e))) t) as Hw.
  { unfold timeout_head. apply wp_timeout.
    eapply wp_wand; [apply wp_and; [by apply (stable_wp quiet_calls), read_head_quiet|
      apply read_head_start]|..]; cbn beta; [done|].
    intros e t1 [Ht He]. split; (split; [done|]); [by right|by left]. }
  unfold wp in Hw. destruct (timeout_head t) as [[h|e] t1]; cbn beta iota in Hw.
  - destruct Hw as [? Hh]. split; [done|right; exact Hh].
  - destruct Hw as [? [->|Hh]]; (split; [done|]); [by left|right; exact Hh].
Qed.

(** The inner [try]. *)
Lemma redirect_answer_spec https_port t :
  let '(read, t1) := timeout_head t in
  ∃ a, answers https_port (incoming t) read a ∧ tr_calls t1 = tr_calls t ∧
    (redirect_answer https_port t = (Ok a, t1) ∨
     a = None ∧ ∃ e, redirect_answer https_port t = (Err e, t1)).
Proof.
  pose proof (head_read t) as Hh. unfold redirect_answer, try_except, mbind, M_bind.
  destruct (timeout_head t) as [[head|e] t1]; destruct Hh as [Et Hh].
  - destruct Hh as [|Hh]; [done|]. destruct head as [|b head].
    { exists None. split; [by apply answer_none|]. split; [done|left; reflexivity]. }
    set (hd := b :: head) in *. unfold lift. change (complete_head (incoming t) hd) in Hh.
    destruct (result_bind _ _ _ (parse_request hd)) as [location|e] eqn:El.
    + exists (Some (308, Some location)). split; [|by split; [|left]].
      apply bind_Ok in El as (request & Ep & El). by eapply answer_location.
    + destruct (request_refusal _ _ _ El) as (m & status & -> & _).
      exists (Some (status, None)). split; [by eapply answer_refused|by split; [|left]].
  - destruct (decide (e = TimeoutError)) as [->|Hne].
    { exists (Some (408, None)). split; [apply answer_late|by split; [|left]]. }
    destruct Hh as [[=]|Hh]; [done|].
    assert ((∃ m status, e = HTTP1Error m status) ∨ ∀ m status, e ≠ HTTP1Error m status) as [(m & status & ->)|Hno].
    { destruct e; eauto; by right. }
    + exists (Some (status, None)). split; [|by split; [|left]].
      destruct Hh as [(-> & Hw & Hf)|[Hs Hl]]; [by apply answer_unterminated|by apply answer_too_long].
    + exists None. split; [by apply answer_lost|]. split; [done|right]. split; [done|]. exists e.
      destruct e; try reflexivity; [by destruct (Hno msg status_code)|done].
Qed.

Lemma drain_quiet fuel : stable quiet_calls (drain_reader (W := traced W) fuel).
Proof.
  induction fuel as [|fuel IH]; cbn [drain_reader]; [apply stable_raise, _|].
  apply stable_bind; [apply _|apply read_quiet|]. intros [|]; [apply stable_ret, _|apply IH].
Qed.

Lemma send_redirect_spec fuel status location t :
  answerable (Some (status, location)) → isascii (http_date t) = true →
  let R t' := ∃ content, response_octets status location (http_date t) content ∧ sends t t' [content] in
  wp (send_redirect fuel status location) (λ _, R) (λ _, R) t.
Proof.
  intros Ha Hd R. destruct (Ha status location eq_refl) as [Hst Hl].
  destruct (answer_phrase status Hst) as (phrase & Ep & Hp).
  unfold send_redirect. apply wp_bind, wp_lift; [|congruence]. intros phrase' Ep'.
  assert (phrase' = phrase) as -> by congruence. clear Ep'.
  apply wp_bind, wp_gets. set (content := join CRLF _ ++ HEAD_END).
  assert (response_octets status location (http_date t) content) as Hcontent by exact (response_octets_of _ _ _ _ _ Ep eq_refl).
  assert (isascii content = true) as Hasc.
  { apply response_ascii; [|done|done|done]. unfold answer_statuses in Hst. set_unfold in Hst. lia. }
  clearbody content. unfold encode_ascii. rewrite Hasc. apply wp_bind, wp_lift; [|done]. intros d [= <-].
  assert (∀ t1 t', R t1 → sends t1 t' [] → R t') as Hgo.
  { intros t1 t' (c & Hc & Hs) Hs'. exists c. split; [done|]. by eapply (sends_trans _ _ _ [c] []). }
  apply wp_bind, wp_timeout. assert (∀ t', tr_calls t' = tr_calls t ++ [SWrite content] → R t') as Hw.
  { intros t' Et. exists content. split; [done|]. exists [SWrite content].
    split_and!; [done|done|]. by intros [=]%list_elem_of_singleton. }
  apply wp_bind, wp_trace; [intros [] t1 Ht1|intros e t1 Ht1; split; by apply Hw].
  apply Hw in Ht1. apply wp_other; [done|done|intros [] t2 Ht2|intros e t2 Ht2; split; by eapply Hgo].
  apply (Hgo _ _ Ht1) in Ht2. apply wp_bind, wp_gets, wp_bind.
  assert (∀ t3, R t3 → wp (with_timeout (deadline_passed DrainTime) (drain_reader fuel)) (λ _, R) (λ _, R) t3) as Hdrain.
  { intros t3 Ht3. apply wp_timeout. eapply wp_wand; [apply (stable_wp quiet_calls), drain_quiet|..];
      cbn beta; [intros ? t4 E4|intros e t4 E4; split];
      (eapply Hgo; [exact Ht3|by apply sends_nil]). }
  apply wp_if; intros _.
  - apply wp_other; [done|done|intros [] t3 Ht3; apply Hdrain; by eapply Hgo|intros e t3 Ht3; by eapply Hgo].
  - by apply wp_ret, Hdrain.
Qed.

Lemma close_redirect_spec t :
  let Q t' := ∃ after, tr_calls t' = tr_calls t ++ SClose :: after ∧ writes after = [] ∧
                (SClose ∉ after) in
  wp (close_redirect (W := traced W)) (λ _, Q) (λ _, Q) t.
Proof.
  intros Q. assert (∀ t1 t', Q t1 → sends t1 t' [] → Q t') as Hgo.
  { intros t1 t' (a & E & H1 & H2) (cs & E' & H1' & H2'). exists (a ++ cs). split_and!.
    - by rewrite E', E, <-app_assoc.
    - unfold writes in *. by rewrite omap_app, H1, H1'.
    - rewrite elem_of_app. tauto. }
  assert (∀ t', tr_calls t' = tr_calls t ++ [SClose] → Q t') as Hc.
  { intros t' E. exists []. split_and!; [done|done|apply not_elem_of_nil]. }
  unfold close_redirect. apply wp_try. eapply (wp_wand _ (λ _, Q) _ (λ _, Q)); [|done|].
  - apply wp_bind, wp_trace; [intros [] t1 Ht1|intros; by apply Hc].
    apply wp_timeout, wp_other; [done|done|..]; intros ? t2 Ht2; [|split]; eapply Hgo; eauto.
  - intros e t1 Ht1. apply wp_if; intros _.
    + apply wp_bind, wp_other; [done|done|..]; intros ? t2 Ht2; [apply wp_raise|]; eapply Hgo; eauto.
    + apply wp_if; intros _; [|by apply wp_raise].
      apply wp_other; [done|done|..]; intros ? t2 Ht2; eapply Hgo; eauto.
Qed.

End exchange.

(** ** The handler ends *)

Section ends.
Context {W : Type} `{Reading W}.

(** Nothing that was read comes back. *)
Definition shrinks (w w' : W) : Prop := incoming w' `suffix_of` incoming w.

#[export] Instance shrinks_preorder : PreOrder shrinks.
Proof. unfold shrinks. split; [intros w; done|]. intros x y z H1 H2. by etrans. Qed.

Lemma read_shrinks n : 0 < n → stable shrinks (reader_read (W := W) n).
Proof.
  intros Hn w. unfold shrinks. destruct (reader_read n w) as [[b|e] w'] eqn:E; cbn.
  - destruct (read_incoming _ _ _ _ Hn E) as (-> & _). by exists b.
  - by destruct (read_failed _ _ _ _ E) as (_ & _ & ?).
Qed.

Lemma same_shrinks (m : M W unit) : (∀ w, incoming (m w).2 = incoming w) → stable shrinks m.
Proof. intros Hm w. unfold shrinks. by rewrite Hm. Qed.

Lemma read_head_shrinks fuel data : stable shrinks (read_head (W := W) fuel data).
Proof.
  revert data. induction fuel as [|fuel IH]; intros data; cbn [read_head]; [apply stable_raise, _|].
  apply stable_bind; [apply _|by apply read_shrinks|]. intros chunk. destruct chunk.
  - destruct data; [apply stable_ret, _|apply stable_lift, _].
  - apply stable_bind; [apply _|apply stable_lift, _|]. intros [].
    destruct (find _ _); [apply stable_ret, _|apply IH].
Qed.

Lemma drain_ends fuel w :
  (length (incoming w) < fuel)%nat → wp (drain_reader fuel) (λ _ _, True) (λ e _, e ≠ OutOfFuel) w.
Proof.
  revert w. induction fuel as [|fuel IH]; intros w Hl; [lia|]. cbn [drain_reader].
  apply wp_bind. unfold wp at 1. destruct (reader_read 65536 w) as [[[|c d]|e] w1] eqn:Er.
  - by apply wp_ret.
  - apply IH. destruct (read_incoming 65536 w _ w1 ltac:(lia) Er) as (Hin & _).
    rewrite Hin in Hl. cbn in Hl. rewrite length_app in Hl. lia.
  - by destruct (read_failed _ _ _ _ Er).
Qed.

Lemma redirect_fuel head https_port :
  (request ← parse_request head; redirect_location request https_port) ≠ Err OutOfFuel.
Proof.
  destruct (parse_request head) as [request|e] eqn:E; cbn [mbind result_bind].
  - intros Hx. by destruct (redirect_location_errors _ _ _ _ E Hx) as (? & ? & ? & _).
  - intros [= ->]. by destruct (parse_request_err _ _ E) as (? & ? & ? & _).
Qed.

Lemma redirect_answer_ends https_port w :
  wp (redirect_answer https_port) (λ _, shrinks w) (λ e _, e ≠ OutOfFuel) w.
Proof.
  unfold redirect_answer. apply wp_try.
  eapply (wp_wand _ (λ _, shrinks w) _ (λ e w', shrinks w w' ∧ e ≠ OutOfFuel)); [|done|].
  2:{ intros e w1 [Hs He]. destruct e; try (by apply wp_raise); by apply wp_ret. }
  apply wp_bind, wp_timeout. eapply wp_wand; [apply wp_and; [by apply (stable_wp shrinks),
    read_head_shrinks|apply read_head_start]|..]; cbn beta.
  - intros head w1 [Hs _]. destruct head as [|b head]; [by apply wp_ret|].
    apply wp_bind, wp_lift; [intros; by apply wp_ret|].
    intros e He. split; [done|]. intros ->. by apply redirect_fuel in He.
  - intros e w1 [Hs He]. split; (split; [done|]); [|done]. by intros ->.
Qed.

Lemma send_redirect_ends fuel status location w :
  (length (incoming w) < fuel)%nat →
  wp (send_redirect fuel status location) (λ _ _, True) (λ e _, e ≠ OutOfFuel) w.
Proof.
  intros Hl. assert (∀ m : M W unit, finite m → stable shrinks m → ∀ (w1 : W) (Q : unit → W → Prop),
    shrinks w w1 → (∀ w2, shrinks w w2 → Q tt w2) →
    wp m Q (λ e _, e ≠ OutOfFuel) w1) as Hcall.
  { intros m Hf Hs w1 Q H1 HQ. eapply wp_wand; [apply wp_and; [apply Hf|by apply (wp_stable_from shrinks m w w1)]|..];
      cbn beta; [intros [] w2 [_ Hw2]; by apply HQ|by intros e w2 [He _]]. }
  unfold send_redirect. apply wp_bind, wp_lift.
  2:{ unfold status_phrase. intros e. destruct (List.find _ _); [done|]. by intros [= <-]. }
  intros phrase _. apply wp_bind, wp_gets, wp_bind, wp_lift.
  2:{ unfold encode_ascii. intros e. destruct (isascii _); [done|]. by intros [= <-]. }
  intros content _. apply wp_bind.
  apply Hcall; [apply finite_timeout; repeat finite_step| |done|intros w1 H1].
  { apply stable_try; [apply _|apply stable_bind; [apply _|..]|].
    - apply same_shrinks, write_incoming.
    - intros _. apply same_shrinks, drain_incoming.
    - intros e. destruct (bool_decide _); [|apply stable_raise, _].
      apply stable_bind; [apply _|apply stable_gets, _|]. intros [|]; apply stable_raise, _. }
  apply wp_bind, wp_gets, wp_bind.
  assert (∀ w2, shrinks w w2 → wp (with_timeout (deadline_passed DrainTime) (drain_reader fuel))
    (λ _ _, True) (λ e _, e ≠ OutOfFuel) w2) as Hd.
  { intros w2 H2. apply wp_timeout. eapply wp_wand; [apply drain_ends|done|done].
    apply suffix_length in H2. lia. }
  apply wp_if; intros _; [|apply wp_ret; by apply Hd].
  apply Hcall; [auto with finite|apply same_shrinks, write_eof_incoming|done|done].
Qed.

Lemma close_redirect_finite : finite (S := W) close_redirect.
Proof. unfold close_redirect. repeat finite_step. Qed.

Lemma redirect_ends fuel https_port (w : W) :
  (length (incoming w) < fuel)%nat → (handle_redirect fuel https_port w).1 ≠ Err OutOfFuel.
Proof.
  intros Hl. assert (wp (handle_redirect fuel https_port) (λ _ _, True) (λ e _, e ≠ OutOfFuel) w) as Hw.
  2:{ unfold wp in Hw. destruct (handle_redirect fuel https_port w) as [[|e] ?]; [done|]. by intros [= ->]. }
  unfold handle_redirect. apply wp_finally. eapply (wp_wand _ (λ _ _, True) _ (λ e _, e ≠ OutOfFuel)).
  - apply wp_try. eapply (wp_wand _ (λ _ _, True) _ (λ e _, e ≠ OutOfFuel)); [|done|].
    2:{ intros e w1 He. apply wp_if; intros _; [by apply wp_ret|by apply wp_raise]. }
    apply wp_bind. eapply wp_wand; [apply redirect_answer_ends|..]; cbn beta; [|done].
    intros [[status location]|] w1 Hs; [|by apply wp_ret].
    apply send_redirect_ends. apply suffix_length in Hs. lia.
  - intros [] w1 _. apply close_redirect_finite.
  - intros e w1 He. eapply wp_wand; [apply close_redirect_finite|done|done].
Qed.

End ends.

(** ** The contract of the service *)

Section contract.
Context {W : Type} `{Reading W}.

(** C24: the exchange with a client of the HTTP port. Whatever the streams do (any call may
    fail, time out or be cancelled), the program answers what its reading of the head came
    to, and as the client's octets justify: with one response, the 308 with the location of
    the request or the status of the refusal, of a head that is too long or not terminated
    or of a deadline that passed; and with nothing exactly where the client sent nothing,
    the connection was lost or the task cancelled before the head was complete. The
    response is written in one piece, with the date of that moment; then the connection is
    closed, exactly once, after which nothing is written; and the handler ends. The dates
    of [formatdate] are ASCII. *)
Theorem redirect_exchange fuel https_port (w : W) :
  0 ≤ https_port → (∀ w', isascii (http_date (W := W) w') = true) →
  let '(read, t1) := with_timeout (deadline_passed RequestTime) _read_head (mkTraced w []) in
  let '(r, t) := handle_redirect fuel https_port (mkTraced w []) in
  ∃ answer before after,
    answers https_port (incoming w) read answer ∧
    tr_calls t = before ++ SClose :: after ∧ (SClose ∉ before) ∧ (SClose ∉ after) ∧
    match answer with
    | None => writes before = []
    | Some (status, location) =>
        ∃ content, response_octets status location (http_date t1) content ∧ writes before = [content]
    end ∧
    writes after = [] ∧ ((length (incoming w) < fuel)%nat → r ≠ Err OutOfFuel).
Proof.
  intros Hport Hdate. pose proof (redirect_ends fuel https_port (mkTraced w [])) as Hends.
  set (t0 := mkTraced w []) in *. pose proof (redirect_answer_spec https_port t0) as Ha.
  destruct (with_timeout (deadline_passed RequestTime) _read_head t0) as [read t1].
  destruct Ha as (answer & Ha & Et & Hrun). change (incoming t0) with (incoming w) in Ha.
  set (A := λ t, ∃ ds, sends t0 t ds ∧
    match answer with
    | None => ds = []
    | Some (status, location) =>
        ∃ content, response_octets status location (http_date t1) content ∧ ds = [content]
    end).
  assert (wp (handle_redirect fuel https_port)
    (λ _ t, ∃ t1 after, A t1 ∧ tr_calls t = tr_calls t1 ++ SClose :: after ∧ writes after = [] ∧
       (SClose ∉ after))
    (λ _ t, ∃ t1 after, A t1 ∧ tr_calls t = tr_calls t1 ++ SClose :: after ∧ writes after = [] ∧
       (SClose ∉ after)) t0) as Hw.
  { unfold handle_redirect. apply wp_finally. eapply (wp_wand _ (λ _, A) _ (λ _, A)).
    2,3: intros ? t2 Ht2; (eapply wp_wand; [apply close_redirect_spec|..]); cbn beta;
      intros ? t3 (after & E & H1 & H2); exists t2, after; split_and!; done.
    apply wp_try. eapply (wp_wand _ (λ _, A) _ (λ _, A)); [|done|].
    2:{ intros e t2 Ht2. apply wp_if; intros _; [by apply wp_ret|by apply wp_raise]. }
    unfold wp, mbind, M_bind. destruct Hrun as [->|(-> & e & ->)].
    2:{ exists []. split; [by apply sends_nil|done]. }
    destruct answer as [[status location]|]; [|exists []; split; [by apply sends_nil|done]].
    pose proof (send_redirect_spec fuel status location t1 (answers_answerable _ _ _ _ Hport Ha) (Hdate (tr_world t1))) as Hs.
    unfold wp in Hs. destruct (send_redirect fuel status location t1) as [[[]|e] t2];
      destruct Hs as (content & Hc & Hs); exists [content]; (split; [|eauto]);
      apply (sends_trans _ t1 _ [] [content]); [by apply sends_nil|done|by apply sends_nil|done]. }
  unfold wp in Hw. destruct (handle_redirect fuel https_port t0) as [[[]|e] t];
    destruct Hw as (t2 & after & (ds & (cs & E & Hds & Hnc) & Hd) & E' & H1 & H2);
    exists answer, cs, after; rewrite E', E; (split; [done|]); (split; [done|]); rewrite Hds; done.
Qed.

End contract.

(** ** Witnesses *)

Definition sample_head : bytes := Eval vm_compute in
  u "GET /a?b HTTP/1.1" ++ CRLF ++ u "Host: example.com:8080" ++ HEAD_END.

(** A request whose head arrives in three pieces, with a body behind it. *)
Definition sample_pipe : pipe :=
  mkPipe [take 5 sample_head; drop 5 (take 40 sample_head); drop 40 sample_head ++ u "body"] [] false.

Definition sample_location : text := Eval vm_compute in u "https://example.com:8443/a?b".

Lemma sample_request_parsed : parse_request sample_head = Ok
  (mkRequest (u "GET") (u "/a?b") [(u "Host", u "example.com:8080")] sample_head).
Proof. vm_compute. reflexivity. Qed.


(** A concrete input for [read_head_exact] *)
Lemma read_head_exact_witness : complete_head (incoming sample_pipe) sample_head.
Proof.
  pose proof (read_head_exact sample_pipe) as Hr.
  assert ((_read_head sample_pipe).1 = Ok sample_head) as E by (vm_compute; reflexivity).
  rewrite E in Hr. exact Hr.
Defined.

(** Witness of C24 *)
Lemma redirect_exchange_witness :
  let '(r, t) := handle_redirect 100 8443 (mkTraced sample_pipe []) in
  r = Ok tt ∧ ∃ before after content, tr_calls t = before ++ SClose :: after ∧
    writes before = [content] ∧ writes after = [] ∧
    content = sent (tr_world t) ∧ (SClose ∉ before).
Proof.
  assert (∀ p : pipe, isascii (http_date p) = true) as Hd by (intros p; vm_compute; reflexivity).
  pose proof (redirect_exchange 100 8443 sample_pipe ltac:(lia) Hd) as Hx.
  destruct (with_timeout (deadline_passed RequestTime) _read_head (mkTraced sample_pipe [])) as [read t1].
  set (run := handle_redirect 100 8443 (mkTraced sample_pipe [])) in *.
  assert (run.1 = Ok tt ∧ writes (tr_calls run.2) = [sent (tr_world run.2)]) as [Hr Hs]
    by (vm_compute; split; reflexivity).
  destruct run as [r t]. cbn [fst snd] in Hr, Hs. split; [exact Hr|].
  destruct Hx as (answer & before & after & _ & E & H1 & _ & _ & H2 & _). exists before, after, (sent (tr_world t)).
  split; [exact E|].
  assert (writes (before ++ SClose :: after) = writes before ++ writes after) as Ha
    by (unfold writes; by rewrite omap_app).
  rewrite E, Ha, H2, app_nil_r in Hs. by split_and!.
Defined.
