(* ===== verification/Tls.v ===== *)
(** * The TLS implementation (ssl)

    [SSLObject] is the interface of [ssl.SSLObject] with its two memory BIOs: any call
    may fail in any way.  [Decrypting] states what reading relies on and [Resting]
    what ending does, [logged_tls] keeps a log of what an implementation is given, and
    [clear] is a concrete one. *)

From S2P Require Import Prelude PyText.

(** [ssl.SSLObject] and its memory BIOs: [bio_write] fills the incoming one,
    [bio_read] empties the outgoing one. *)
Class SSLObject (L : Type) := {
  bio_write : bytes → M L unit;
  bio_read : M L bytes;
  bio_pending : L → Z;
  do_handshake : M L unit;
  ssl_read : Z → M L bytes;
  ssl_write : bytes → M L unit;
  ssl_unwrap : M L unit;
  ssl_version : L → option text;
  selected_alpn_protocol : L → option text;
}.

(** ** OpenSSL with a log

    What it is given: the octets of the peer, the plaintext to send, the order to shut
    down. *)
Inductive tls_call :=
  | TFeed (data : bytes)
  | TWrite (data : bytes)
  | TUnwrap.

Record logged_tls (L : Type) := mkTls {
  tls_world : L;
  tls_calls : list tls_call;
}.
Arguments mkTls {_} _ _.
Arguments tls_world {_} _.
Arguments tls_calls {_} _.

Definition log_tls {L A} (m : M L A) (cs : list tls_call) : M (logged_tls L) A := λ t,
  let '(r, o) := m (tls_world t) in (r, mkTls o (tls_calls t ++ cs)).

#[export] Instance logged_ssl {L} `{SSLObject L} : SSLObject (logged_tls L) := {|
  bio_write d := log_tls (bio_write d) [TFeed d];
  bio_read := log_tls bio_read [];
  bio_pending t := bio_pending (tls_world t);
  do_handshake := log_tls do_handshake [];
  ssl_read n := log_tls (ssl_read n) [];
  ssl_write d := log_tls (ssl_write d) [TWrite d];
  ssl_unwrap := log_tls ssl_unwrap [TUnwrap];
  ssl_version t := ssl_version (tls_world t);
  selected_alpn_protocol t := selected_alpn_protocol (tls_world t);
|}.

Lemma log_tls_calls {L A} (m : M L A) cs (t : logged_tls L) :
  tls_calls (log_tls m cs t).2 = tls_calls t ++ cs.
Proof. unfold log_tls. by destruct (m (tls_world t)). Qed.

Lemma wp_log {L A} (m : M L A) cs (t : logged_tls L) (Q : A → logged_tls L → Prop) E :
  (∀ a t', tls_calls t' = tls_calls t ++ cs → Q a t') →
  (∀ e t', tls_calls t' = tls_calls t ++ cs → E e t') → wp (log_tls m cs) Q E t.
Proof.
  intros HQ HE. pose proof (log_tls_calls m cs t) as Hc. unfold wp.
  destruct (log_tls m cs t) as [[a|e] t']; auto.
Qed.

(** ** Laws of decryption

    [plaintext o wire]: what an object has yet to deliver if the octets [wire] arrive
    after those it holds.  It is taken off in order, and neither waiting nor moving
    octets into the BIO nor what is sent changes it. *)
Class Decrypting (L : Type) `{SSLObject L} := {
  plaintext : L → bytes → bytes;
  ssl_read_plaintext n o b o' wire :
    ssl_read n o = (Ok b, o') → plaintext o wire = b ++ plaintext o' wire;
  ssl_wait_plaintext n o e o' wire :
    ssl_read n o = (Err e, o') → e = SSLWantReadError ∨ e = SSLWantWriteError →
    plaintext o' wire = plaintext o wire;
  bio_write_plaintext d o o' wire :
    bio_write d o = (Ok tt, o') → plaintext o (d ++ wire) = plaintext o' wire;
  bio_read_plaintext o wire : plaintext (bio_read o).2 wire = plaintext o wire;
  ssl_write_plaintext d o wire : plaintext (ssl_write d o).2 wire = plaintext o wire;
}.

#[export] Instance logged_decrypting {L} `{Decrypting L} : Decrypting (logged_tls L).
Proof.
  refine {| plaintext t wire := plaintext (tls_world t) wire |}.
  - intros n t b t' wire. cbn. unfold log_tls. destruct (ssl_read n (tls_world t)) as [r o] eqn:E.
    intros [= -> <-]. by apply (ssl_read_plaintext n).
  - intros n t e t' wire. cbn. unfold log_tls. destruct (ssl_read n (tls_world t)) as [r o] eqn:E.
    intros [= -> <-]. by apply (ssl_wait_plaintext n).
  - intros d t t' wire. cbn. unfold log_tls. destruct (bio_write d (tls_world t)) as [r o] eqn:E.
    intros [= -> <-]. by apply bio_write_plaintext.
  - intros t wire. cbn. unfold log_tls. pose proof (bio_read_plaintext (tls_world t) wire).
    by destruct (bio_read (tls_world t)).
  - intros d t wire. cbn. unfold log_tls. pose proof (ssl_write_plaintext d (tls_world t) wire).
    by destruct (ssl_write d (tls_world t)).
Defined.

(** ** Laws of an implementation that comes to rest

    [work o] bounds what an object can still do with the octets it holds: the octets of
    plaintext that it may deliver and the times that its handshake may ask to write.
    Only octets of the peer add to it, no more than there are of them; and reading
    the outgoing BIO empties it. *)
Class Resting (L : Type) `{SSLObject L} := {
  work : L → nat;
  bio_write_work d o :
    wp (bio_write d) (λ _ o', (work o' ≤ length d + work o)%nat)
      (λ e o', e ≠ OutOfFuel ∧ (work o' ≤ length d + work o)%nat) o;
  bio_read_work o :
    wp bio_read (λ _ o', bio_pending o' = 0 ∧ (work o' ≤ work o)%nat)
      (λ e o', e ≠ OutOfFuel ∧ (work o' ≤ work o)%nat) o;
  do_handshake_work o :
    wp do_handshake (λ _ o', (work o' ≤ work o)%nat)
      (λ e o', e ≠ OutOfFuel ∧ (work o' ≤ work o)%nat ∧
         (e = SSLWantWriteError → (work o' < work o)%nat)) o;
  ssl_read_work n o :
    wp (ssl_read n) (λ b o', bytes_ok b ∧ (length b + work o' ≤ work o)%nat)
      (λ e o', e ≠ OutOfFuel ∧ (work o' ≤ work o)%nat) o;
  ssl_write_work d k : finite_in (λ o, (work o ≤ k)%nat) (ssl_write d);
  ssl_unwrap_work k : finite_in (λ o, (work o ≤ k)%nat) ssl_unwrap;
}.

(** ** A concrete implementation

    The handshake takes what was fed, and from then on octets go through as they are.
    A [bytes] holds nothing else: integers are delivered modulo 256. *)
Record clear := mkClear {
  clear_in : bytes;
  clear_out : bytes;
  clear_alpn : option text;
}.

Definition as_octets (d : bytes) : bytes := (λ b, b mod 256) <$> d.

Lemma as_octets_ok d : bytes_ok (as_octets d).
Proof. apply Forall_fmap, Forall_true. intros b. by apply Z.mod_pos_bound. Qed.

#[export] Instance clear_ssl : SSLObject clear := {|
  bio_write d o := (Ok tt, mkClear (clear_in o ++ d) (clear_out o) (clear_alpn o));
  bio_read o := (Ok (clear_out o), mkClear (clear_in o) [] (clear_alpn o));
  bio_pending o := zlen (clear_out o);
  do_handshake o :=
    match clear_in o with
    | [] => (Err SSLWantReadError, o)
    | _ => (Ok tt, mkClear [] (clear_out o) (clear_alpn o))
    end;
  ssl_read n o :=
    match clear_in o with
    | [] => (Err SSLWantReadError, o)
    | d => (Ok (as_octets (take (Z.to_nat n) d)), mkClear (drop (Z.to_nat n) d) (clear_out o) (clear_alpn o))
    end;
  ssl_write d o := (Ok tt, mkClear (clear_in o) (clear_out o ++ d) (clear_alpn o));
  ssl_unwrap := raise SSLWantReadError;
  ssl_version _ := Some (u "TLSv1.3");
  selected_alpn_protocol := clear_alpn;
|}.

#[export] Instance clear_decrypting : Decrypting clear.
Proof.
  refine {| plaintext o wire := as_octets (clear_in o ++ wire) |}; try done.
  - intros n [i out alpn] b o' wire. cbn. destruct i as [|x i]; [done|].
    intros [= <- <-]. cbn. unfold as_octets. by rewrite <-fmap_app, app_assoc, take_drop.
  - intros n [i out alpn] e o' wire. cbn. by destruct i; intros [= <- <-].
  - intros d [i out alpn] o' wire. cbn. intros [= <-]. cbn. by rewrite app_assoc.
Defined.

#[export] Instance clear_resting : Resting clear.
Proof.
  refine {| work o := length (clear_in o) |}.
  - intros d [i out alpn]. unfold wp. cbn -[length app]. rewrite length_app. lia.
  - by intros [i out alpn].
  - intros [[|x i] out alpn]; unfold wp; cbn; [done|lia].
  - intros n [[|x i] out alpn]; unfold wp; cbn -[take drop]; [done|]. split; [apply as_octets_ok|].
    unfold as_octets. rewrite length_fmap, length_take, length_drop. cbn. lia.
  - by intros d k [i out alpn].
  - by intros k [i out alpn].
Defined.
