(* ===== verification/Connection.v ===== *)
(** * The client connection (src/solvetls/connection.py)

    One TLS connection over the streams of asyncio: the ClientHello is read off the
    wire first and replayed into OpenSSL's memory BIO, then the request is read on
    the negotiated protocol.  OpenSSL is the
    interface [SSLObject] of Tls.v.  [Link] is the part of [ClientConnection]
    that the HTTP/2 session sees as its transport; [Observed] (Client.v) is what it
    keeps for the report. *)

From S2P Require Import Prelude PyText TlsEnums Naming ClientHello Extensions Frames HttpFields Http1.
From S2P Require Import Capture Adapter Session Client Streams Tls.

Definition TLS_RECORD_HEADER_SIZE : Z := 5.
Definition TLS_ALERT_CONTENT_TYPE : Z := 0x15.
Definition TLS_HANDSHAKE_CONTENT_TYPE : Z := 0x16.
Definition TLS_CLIENT_HELLO_TYPE : Z := 0x01.
Definition TLS_MESSAGE_HEADER_SIZE : Z := 4.
Definition MAX_TLS_RECORD_SIZE : Z := 16384.
Definition MAX_CLIENT_HELLO_SIZE : Z := 65536.
Definition PLAINTEXT_CHUNK_SIZE : Z := 65536.
Definition MAX_HANDSHAKE_BYTES : Z := 1048576.
Definition SUPPORTED_ALPN : list bytes := [u "h2"; u "http/1.1"].

Definition ET_ALPN_TYPE : Z :=
  Eval compute in member ExtensionType "APPLICATION_LAYER_PROTOCOL_NEGOTIATION".

(** ** ALPN *)

Definition _has_shared_alpn (hello : ClientHello) : bool :=
  match List.find (λ e, ext_type e =? ET_ALPN_TYPE) (extensions hello) with
  | None => true
  | Some e =>
      match parse_alpn_protocols (ext_data e) with
      | Err _ => true
      | Ok protocols =>
          bool_decide (protocols = []) ||
          existsb (λ p, bool_decide (p ∈ SUPPORTED_ALPN)) protocols
      end
  end.

(** ** The link *)

Section link.
Context {W L : Type} `{Streams W} `{SSLObject L}.

Record Link := mkLink {
  streams : W;
  ssl_obj : L;
  _tls_eof : bool;
  _tls_shutdown_sent : bool;
  _tls_fatal_alert_sent : bool;
}.

Definition set_streams (v : W) (l : Link) : Link :=
  mkLink v (ssl_obj l) (_tls_eof l) (_tls_shutdown_sent l) (_tls_fatal_alert_sent l).

Definition set_ssl_obj (v : L) (l : Link) : Link :=
  mkLink (streams l) v (_tls_eof l) (_tls_shutdown_sent l) (_tls_fatal_alert_sent l).

Definition set_tls_eof (v : bool) (l : Link) : Link :=
  mkLink (streams l) (ssl_obj l) v (_tls_shutdown_sent l) (_tls_fatal_alert_sent l).

Definition set_tls_shutdown_sent (v : bool) (l : Link) : Link :=
  mkLink (streams l) (ssl_obj l) (_tls_eof l) v (_tls_fatal_alert_sent l).

Definition set_tls_fatal_alert_sent (v : bool) (l : Link) : Link :=
  mkLink (streams l) (ssl_obj l) (_tls_eof l) (_tls_shutdown_sent l) v.

Abbreviation LM := (M Link).

Definition on_streams {A} (m : M W A) : LM A := λ l,
  let '(r, w) := m (streams l) in (r, set_streams w l).

Definition on_ssl {A} (m : M L A) : LM A := λ l,
  let '(r, o) := m (ssl_obj l) in (r, set_ssl_obj o l).

Definition link_expired (d : deadline) (l : Link) : bool := deadline_passed d (streams l).

Abbreviation wait_for d := (with_timeout (link_expired d)).

(** The loops that follow the peer or OpenSSL share one bound. *)
Context (fuel : nat).

Fixpoint outgoing_loop (n : nat) : LM unit :=
  match n with
  | O => raise OutOfFuel
  | S n =>
      pending ← gets (λ l, bio_pending (ssl_obj l));
      if pending =? 0 then mret tt
      else
        encrypted_data ← on_ssl bio_read;
        _ ← on_streams (writer_write encrypted_data);
        _ ← try_except (wait_for WriteTime (on_streams writer_drain))
              (λ e, if bool_decide (e = TimeoutError)
                    then raise (ConnectionError (u "Write timeout")) else raise e);
        outgoing_loop n
  end.

Definition _handle_outgoing_data : LM unit := outgoing_loop fuel.

(** The loop of [_drain_plaintext]; [chunks] is what was taken so far. *)
Fixpoint drain_plaintext_loop (n : nat) (chunks : bytes) : LM bytes :=
  match n with
  | O => raise OutOfFuel
  | S n =>
      chunk ← try_except (c ← on_ssl (ssl_read PLAINTEXT_CHUNK_SIZE); mret (Some c))
        (λ e, match e with SSLWantReadError | SSLWantWriteError => mret None | _ => raise e end);
      match chunk with
      | None => mret chunks
      | Some [] => _ ← modify (set_tls_eof true); mret chunks
      | Some c => drain_plaintext_loop n (chunks ++ c)
      end
  end.

Definition _drain_plaintext : LM bytes := drain_plaintext_loop fuel [].

Definition _must_answer_peer_close (l : Link) : bool :=
  _tls_eof l && negb (bool_decide (ssl_version (ssl_obj l) = Some (u "TLSv1.3"))).

Definition _answer_peer_close : LM unit :=
  shut ← gets _tls_shutdown_sent;
  _ ← (if shut : bool then mret tt
       else
         _ ← try_except (on_ssl ssl_unwrap)
               (λ e, if bool_decide (e = SSLWantReadError) then mret tt else raise e);
         modify (set_tls_shutdown_sent true));
  _handle_outgoing_data.

Definition close_notify_error : exn := ConnectionResetError (u "Peer sent TLS close_notify").

Fixpoint read_loop (n : nat) (size : Z) : LM bytes :=
  match n with
  | O => raise OutOfFuel
  | S n =>
      plaintext ← _drain_plaintext;
      _ ← _handle_outgoing_data;
      must ← gets _must_answer_peer_close;
      if must : bool then _ ← _answer_peer_close; raise close_notify_error
      else
        match plaintext with
        | _ :: _ => mret plaintext
        | [] =>
            eof ← gets _tls_eof;
            if eof : bool then raise (ConnectionResetError (u "Connection closed"))
            else
              encrypted_data ← try_except (wait_for ReadTime (on_streams (reader_read size)))
                (λ e, if bool_decide (e = TimeoutError)
                      then raise (ConnectionResetError (u "Read timeout")) else raise e);
              match encrypted_data with
              | [] => raise (ConnectionResetError (u "Connection closed"))
              | _ => _ ← on_ssl (bio_write encrypted_data); read_loop n size
              end
        end
  end.

Definition read (n : Z) : LM bytes := read_loop fuel (Z.min n PLAINTEXT_CHUNK_SIZE).

Definition write (content : bytes) : LM unit :=
  must ← gets _must_answer_peer_close;
  if must : bool then _ ← _answer_peer_close; raise close_notify_error
  else
    _ ← on_ssl (ssl_write content);
    _handle_outgoing_data.

Definition alert_octets (description : Z) : bytes := [0x15; 0x03; 0x03; 0x00; 0x02; 0x02; description].

Definition _send_plaintext_alert (description : Z) : LM unit :=
  sent ← gets _tls_fatal_alert_sent;
  if sent : bool then mret tt
  else
    _ ← modify (set_tls_fatal_alert_sent true);
    _ ← on_streams (writer_write (alert_octets description));
    wait_for AlertTime (on_streams writer_drain).

Definition _read_exactly (n : Z) : LM bytes :=
  try_except (wait_for RecordTime (on_streams (reader_readexactly n)))
    (λ e, if bool_decide (e = IncompleteReadError)
          then raise (ConnectionError (u "Incomplete handshake data")) else raise e).

(** ** The ClientHello *)

(** One record: its header and its payload. *)
Definition read_record : LM (bytes * bytes) :=
  header ← _read_exactly TLS_RECORD_HEADER_SIZE;
  let content_type := default 0 (head header) in
  if negb (content_type =? TLS_HANDSHAKE_CONTENT_TYPE) then
    _ ← (if negb (content_type =? TLS_ALERT_CONTENT_TYPE) then _send_plaintext_alert 10
         else mret tt);
    raise (SSLError (u "Invalid SSL handshake"))
  else
    let record_length := be_val (slice header 3 5) in
    if negb ((0 <? record_length) && (record_length <=? MAX_TLS_RECORD_SIZE)) then
      _ ← (if record_length >? MAX_TLS_RECORD_SIZE then _send_plaintext_alert 22 else mret tt);
      raise (SSLError (u "Invalid handshake record length"))
    else
      payload ← _read_exactly record_length;
      mret (header, payload).

(** The length of the message, once its header is there. *)
Definition message_length_of (message : bytes) (message_length : option Z) : LM (option Z) :=
  match message_length with
  | Some n => mret (Some n)
  | None =>
      if zlen message >=? TLS_MESSAGE_HEADER_SIZE then
        if negb (default 0 (head message) =? TLS_CLIENT_HELLO_TYPE) then
          _ ← _send_plaintext_alert 10;
          raise (SSLError (u "Not Client Hello"))
        else
          let n := be_val (slice message 1 4) in
          if n >? MAX_CLIENT_HELLO_SIZE then raise (SSLError (u "Client Hello too large"))
          else mret (Some n)
      else mret None
  end.

(** The [while] loop: the octets read and the handshake message in them. *)
Fixpoint hello_loop (n : nat) (raw message : bytes) (message_length : option Z)
    : LM (bytes * bytes * Z) :=
  match message_length with
  | Some len =>
      if zlen message >=? len + TLS_MESSAGE_HEADER_SIZE then mret (raw, message, len)
      else
        match n with
        | O => raise OutOfFuel
        | S n =>
            '(header, payload) ← read_record;
            let message := message ++ payload in
            len ← message_length_of message message_length;
            hello_loop n (raw ++ header ++ payload) message len
        end
  | None =>
      match n with
      | O => raise OutOfFuel
      | S n =>
          '(header, payload) ← read_record;
          let message := message ++ payload in
          len ← message_length_of message message_length;
          hello_loop n (raw ++ header ++ payload) message len
      end
  end.

(** Every record has an octet of the message at least. *)
Definition HELLO_FUEL : nat := S (Z.to_nat (MAX_CLIENT_HELLO_SIZE + TLS_MESSAGE_HEADER_SIZE)).

(** Returns the octets to replay and the hello, which the caller assigns. *)
Definition _read_client_hello : LM (bytes * ClientHello) :=
  '(raw, message, len) ← hello_loop HELLO_FUEL [] [] None;
  let body := slice message TLS_MESSAGE_HEADER_SIZE (TLS_MESSAGE_HEADER_SIZE + len) in
  match parse_client_hello body with
  | Ok hello => mret (raw, hello)
  | Err e =>
      if is_ValueError e then
        _ ← _send_plaintext_alert 50;
        raise (SSLError (u "Malformed ClientHello"))
      else raise e
  end.

End link.

(** ** The connection *)

(** Every read that returns gives an octet of the preface. *)
Definition PREFACE_FUEL : nat := S (length HTTP2_PREFACE).

Definition READ_SIZE : Z := 4096.

(** [data.extend(await self.read())] until the head is there; every turn adds an
    octet, and a head has a limit. *)
Definition HTTP1_FUEL : nat := S (Z.to_nat MAX_HEAD_SIZE).

Section client.
Context {C W L : Type} `{H2Connection C} `{Streams W} `{SSLObject L}.
Context (h2_validate : list field → bool → result unit) (new_h2 : C) (fuel : nat).

Abbreviation link_state := (@Link W L).
Abbreviation LM := (M link_state).

(** The session's transport is the connection itself. *)
#[local] Instance link_transport : HTTP2Transport link_state := {|
  t_read := read fuel READ_SIZE;
  t_write := write fuel;
|}.

(** [_http2_session] and [observed]'s [http2] share the capture; the session's
    transport is the link of the connection (see [on_session]). *)
Record ClientConnection := mkConnection {
  link : link_state;
  observed : Observed;
  _http2_session : option (@HTTP2Session C link_state);
}.

Abbreviation CM := (M ClientConnection).

(** [ClientConnection(reader, writer, tls_context)]; [l] is a new [SSLObject], and the
    addresses and the saved SYN come from the socket. *)
Definition new_connection (w : W) (l : L) (peer sock : option address) (syn : option bytes)
    : ClientConnection :=
  mkConnection (mkLink w l false false false) (new_observed peer sock syn) None.

Definition set_link (v : link_state) (c : ClientConnection) : ClientConnection :=
  mkConnection v (observed c) (_http2_session c).

Definition observe (f : Observed → Observed) : CM unit :=
  modify (λ c, mkConnection (link c) (f (observed c)) (_http2_session c)).

Definition on_link {A} (m : LM A) : CM A := λ c,
  let '(r, l) := m (link c) in (r, set_link l c).

Definition on_wire {A} (m : M W A) : CM A := on_link (on_streams m).

(** A method of the session reads and writes through this connection, and what it
    captures is what the report shows. *)
Definition on_session {A} (m : M (@HTTP2Session C link_state) A) : CM A := λ c,
  match _http2_session c with
  | None => (Err AttributeError, c)
  | Some s =>
      let '(r, s) := m (set_transport (link c) s) in
      (r, mkConnection (transport s) (set_http2 (capture s) (observed c)) (Some s))
  end.

(** [HTTP2Session(self)], and its capture; [new_h2] is a new [H2Connection]. *)
Definition open_session : CM unit :=
  modify (λ c, let s := new_session (link c) new_h2 in
    mkConnection (link c) (set_http2 (capture s) (observed c)) (Some s)).

Definition expired (d : deadline) (c : ClientConnection) : bool := link_expired d (link c).

Abbreviation within d := (with_timeout (expired d)).

(** ** The handshake *)

Inductive handshake_step := HandshakeDone | WantRead | WantWrite.

(** [try: do_handshake()  except SSLWantReadError / SSLWantWriteError] *)
Definition try_handshake : LM handshake_step :=
  try_except (_ ← on_ssl do_handshake; mret HandshakeDone)
    (λ e, match e with
          | SSLWantReadError => mret WantRead
          | SSLWantWriteError => mret WantWrite
          | _ => raise e
          end).

Fixpoint handshake_loop (n : nat) (received : Z) : LM unit :=
  match n with
  | O => raise OutOfFuel
  | S n =>
      step ← try_handshake;
      match step with
      | HandshakeDone => mret tt
      | WantRead =>
          _ ← _handle_outgoing_data fuel;
          data ← on_streams (reader_read PLAINTEXT_CHUNK_SIZE);
          match data with
          | [] => raise (ConnectionResetError (u "Closed during handshake"))
          | _ =>
              let received := received + zlen data in
              if received >? MAX_HANDSHAKE_BYTES then
                raise (SSLError (u "Handshake too large"))
              else
                _ ← on_ssl (bio_write data);
                handshake_loop n received
          end
      | WantWrite => _ ← _handle_outgoing_data fuel; handshake_loop n received
      end
  end.

(** [_read_client_hello] assigns [client_hello] when the parser returns. *)
Definition do_tls_handshake : CM unit :=
  within RequestTime (
    '(incoming_data, hello) ← within HelloTime (
      '(raw, hello) ← on_link _read_client_hello;
      _ ← observe (set_client_hello hello);
      mret (raw, hello));
    if negb (_has_shared_alpn hello) then
      _ ← on_link (_send_plaintext_alert 120);
      raise (SSLError (u "No shared ALPN protocol"))
    else
      _ ← on_link (on_ssl (bio_write incoming_data));
      _ ← on_link (handshake_loop fuel (zlen incoming_data));
      on_link (_handle_outgoing_data fuel)).

(** ** The request *)

Fixpoint preface_loop (n : nat) (buffered : bytes) : LM bytes :=
  if zlen buffered <? zlen HTTP2_PREFACE then
    match n with
    | O => raise OutOfFuel
    | S n =>
        data ← read fuel READ_SIZE;
        let buffered := buffered ++ data in
        if negb (startswith (take (length HTTP2_PREFACE) buffered) HTTP2_PREFACE)
        then mret buffered
        else preface_loop n buffered
    end
  else mret buffered.

Definition _read_protocol_preface : LM bytes := preface_loop PREFACE_FUEL [].

Fixpoint http1_head_loop (n : nat) (data : bytes) : LM bytes :=
  _ ← lift (check_head_size data true);
  match find HEAD_END data with
  | Some end_ => mret (slice data 0 (end_ + zlen HEAD_END))
  | None =>
      match n with
      | O => raise OutOfFuel
      | S n => more ← read fuel READ_SIZE; http1_head_loop n (data ++ more)
      end
  end.

Definition _read_http1_head (buffered : bytes) : LM bytes := http1_head_loop HTTP1_FUEL buffered.

Definition handle_http : CM unit :=
  within RequestTime (
    alpn ← gets (λ c, selected_alpn_protocol (ssl_obj (link c)));
    if bool_decide (alpn = Some (u "h2")) then
      _ ← observe (set_http_version HTTP_2_0);
      incoming_data ← on_link _read_protocol_preface;
      _ ← open_session;
      _ ← on_session (initialize h2_validate incoming_data);
      on_session (receive_request h2_validate fuel)
    else
      _ ← observe (set_http_version HTTP_1_1);
      first ← on_link (read fuel READ_SIZE);
      head ← on_link (_read_http1_head first);
      _ ← observe (set_http1_raw_head head);
      request ← lift (parse_request head);
      observe (set_http1 request)).

(** ** The response *)

(** [HTTPStatus(status_code).phrase], or "Unknown". *)
Definition reason_phrase (status_code : Z) : text :=
  match status_phrase status_code with Ok phrase => phrase | Err _ => u "Unknown" end.

(** The octets of [_send_http1_response]. *)
Definition http1_response (content : bytes) (headers : option (list (text * text)))
    (status_code : Z) : bytes :=
  let '(content, headers) := prepare_response content headers status_code in
  let headers := merge [(u "connection", u "close")] headers in
  let status_line := u "HTTP/1.1 " ++ str_int status_code ++ u " " ++
    reason_phrase status_code ++ CRLF in
  let header_lines := concat ((λ kv, kv.1 ++ u ": " ++ kv.2 ++ CRLF) <$> headers) in
  encode_utf8 (status_line ++ header_lines ++ CRLF) ++ content.

Definition _send_http1_response (content : bytes) (headers : option (list (text * text)))
    (status_code : Z) : LM unit :=
  write fuel (http1_response content headers status_code).

(** [{"date": ..., **{name.lower(): value ...}}] *)
Definition dated_headers (date : text) (headers : option (list (text * text)))
    : list (text * text) :=
  merge [(u "date", date)] (dict_of ((λ kv, (lower kv.1, kv.2)) <$> default [] headers)).

Definition send_response (content : bytes) (headers : option (list (text * text)))
    (status_code : Z) : CM unit :=
  date ← gets (λ c, http_date (streams (link c)));
  let response_headers := dated_headers date headers in
  within ResponseTime (
    version ← gets (λ c, http_version (observed c));
    if bool_decide (version = Some HTTP_2_0) then
      session ← gets _http2_session;
      match session with
      | None => raise (RuntimeError (u "HTTP/2 handshake must run first"))
      | Some _ =>
          on_session (Session.send_response h2_validate fuel content (Some response_headers)
                        status_code)
      end
    else if bool_decide (version = Some HTTP_1_1) then
      on_link (_send_http1_response content (Some response_headers) status_code)
    else raise (ValueError (u "Protocol is not supported"))).

(** ** Closing *)

(** [except Exception as e: logger.debug(...)] *)
Definition skip_errors (m : CM unit) : CM unit :=
  try_except m (λ e, if is_Exception e then mret tt else raise e).

Definition close_session (http2_error_code : Z) : CM unit :=
  skip_errors (
    session ← gets _http2_session;
    match session with
    | None => mret tt
    | Some _ => on_session (Session.close http2_error_code)
    end).

(** Send close_notify without waiting for the peer's. *)
Definition close_tls : CM unit :=
  skip_errors (
    skip ← gets (λ c, _tls_shutdown_sent (link c) || _tls_fatal_alert_sent (link c));
    if skip : bool then mret tt
    else
      _ ← on_link (modify (set_tls_shutdown_sent true));
      on_link (on_ssl ssl_unwrap)).

(** [while await self._reader.read(PLAINTEXT_CHUNK_SIZE): pass] *)
Fixpoint drain_peer (n : nat) : M W unit :=
  match n with
  | O => raise OutOfFuel
  | S n =>
      chunk ← reader_read PLAINTEXT_CHUNK_SIZE;
      match chunk with [] => mret tt | _ => drain_peer n end
  end.

Definition _drain_peer : CM unit := on_wire (drain_peer fuel).

Definition finish_sending : CM unit :=
  skip_errors (
    _ ← on_link (_handle_outgoing_data fuel);
    can ← gets (λ c, writer_can_write_eof (streams (link c)));
    _ ← (if can : bool then on_wire writer_write_eof else mret tt);
    within DrainTime _drain_peer).

(** The outer [finally]. *)
Definition close_transport : CM unit :=
  try_except
    (closing ← gets (λ c, writer_is_closing (streams (link c)));
     _ ← (if closing : bool then mret tt else on_wire writer_close);
     within CloseTime (on_wire writer_wait_closed))
    (λ e,
      if bool_decide (e = CancelledError) then _ ← on_wire transport_abort; raise e
      else if is_Exception e then on_wire transport_abort
      else raise e).

Definition close (http2_error_code : Z) : CM unit :=
  try_finally
    (_ ← close_session http2_error_code; _ ← close_tls; finish_sending)
    close_transport.

End client.
