(* ===== verification/HandshakeSpec.v ===== *)
(** * Contracts of the handshake (src/solvetls/connection.py)

    What [ClientConnection] makes of the first octets of a client: the ClientHello it
    reads off the wire and the alerts it answers with, and what it hands to OpenSSL,
    at every behaviour of the streams and of OpenSSL. *)

From S2P Require Import Prelude PyText TlsEnums Naming ClientHello Extensions Frames HttpFields Http1.
From S2P Require Import Capture Adapter Session Client Streams Tls Connection.

(** ** Records *)

(** A handshake record: its header and its payload. *)
Inductive handshake_record : bytes → bytes → Prop :=
  | a_record header payload :
      zlen header = TLS_RECORD_HEADER_SIZE → head header = Some TLS_HANDSHAKE_CONTENT_TYPE →
      be_val (slice header 3 5) = zlen payload → 0 < zlen payload ≤ MAX_TLS_RECORD_SIZE →
      handshake_record header payload.

(** [raw] is a sequence of handshake records with the message octets [message]. *)
Inductive records : bytes → bytes → Prop :=
  | records_nil : records [] []
  | records_snoc raw message header payload :
      records raw message → handshake_record header payload →
      records (raw ++ header ++ payload) (message ++ payload).

(** The body length that the header of a hello message declares. *)
Definition declares (message : bytes) (len : Z) : Prop :=
  TLS_MESSAGE_HEADER_SIZE ≤ zlen message ∧ head message = Some TLS_CLIENT_HELLO_TYPE ∧
  len = be_val (slice message 1 4) ∧ len ≤ MAX_CLIENT_HELLO_SIZE.

(** More records are needed. *)
Definition unfinished (message : bytes) : Prop :=
  zlen message < TLS_MESSAGE_HEADER_SIZE ∨
  ∃ len, declares message len ∧ zlen message < len + TLS_MESSAGE_HEADER_SIZE.

(** [raw] is what a client sends up to the end of the record that completes its hello,
    whose body is [body]. *)
Inductive hello_octets : bytes → bytes → Prop :=
  | hello_octets_of raw message header payload len :
      records raw message → unfinished message → handshake_record header payload →
      declares (message ++ payload) len → len + TLS_MESSAGE_HEADER_SIZE ≤ zlen (message ++ payload) →
      hello_octets (raw ++ header ++ payload)
        (slice (message ++ payload) TLS_MESSAGE_HEADER_SIZE (TLS_MESSAGE_HEADER_SIZE + len)).

(** What justifies an alert, in the octets [whole] of a client. *)
Inductive alert_cause (whole : bytes) : Z → Prop :=
  | not_handshake raw message header rest :
      whole = raw ++ header ++ rest → records raw message → unfinished message →
      zlen header = TLS_RECORD_HEADER_SIZE → head header ≠ Some TLS_HANDSHAKE_CONTENT_TYPE →
      head header ≠ Some TLS_ALERT_CONTENT_TYPE → alert_cause whole 10
  | not_hello raw message rest :
      whole = raw ++ rest → records raw message → TLS_MESSAGE_HEADER_SIZE ≤ zlen message →
      head message ≠ Some TLS_CLIENT_HELLO_TYPE → alert_cause whole 10
  | record_overflow raw message header rest :
      whole = raw ++ header ++ rest → records raw message → unfinished message →
      zlen header = TLS_RECORD_HEADER_SIZE → head header = Some TLS_HANDSHAKE_CONTENT_TYPE →
      MAX_TLS_RECORD_SIZE < be_val (slice header 3 5) → alert_cause whole 22
  | malformed raw body rest e :
      whole = raw ++ rest → hello_octets raw body → parse_client_hello body = Err e →
      is_ValueError e = true → alert_cause whole 50.

Lemma records_ok raw message : records raw message → bytes_ok raw → bytes_ok message.
Proof.
  induction 1 as [|raw message header payload _ IH _]; [done|].
  rewrite !bytes_ok_app. intros (H1 & _ & H2). auto.
Qed.

Lemma hello_octets_ok raw body : hello_octets raw body → bytes_ok raw → bytes_ok body.
Proof.
  intros [raw' message header payload len Hr _ Hh _ _] Hb. apply bytes_ok_slice.
  eapply records_ok; [by apply records_snoc|done].
Qed.

Section link.
Context {W L : Type} `{Streams W} `{SSLObject L}.
Implicit Types (l : @Link W L).

Lemma wp_on_streams {A} (m : M W A) (Q : A → Link → Prop) E l :
  wp m (λ a w, Q a (set_streams w l)) (λ e w, E e (set_streams w l)) (streams l) →
  wp (on_streams m) Q E l.
Proof. unfold wp, on_streams. by destruct (m (streams l)) as [[a|e] w]. Qed.

Lemma wp_on_ssl {A} (m : M L A) (Q : A → Link → Prop) E l :
  wp m (λ a o, Q a (set_ssl_obj o l)) (λ e o, E e (set_ssl_obj o l)) (ssl_obj l) →
  wp (on_ssl m) Q E l.
Proof. unfold wp, on_ssl. by destruct (m (ssl_obj l)) as [[a|e] o]. Qed.

Lemma finite_on_streams {A} (m : M W A) : finite m → finite (on_streams (L := L) m).
Proof.
  intros Hm l. apply wp_on_streams. eapply wp_wand; [apply Hm|done|done].
Qed.
End link.
#[export] Hint Resolve finite_on_streams : finite.

(** ** Reading the hello *)

Section hello.
Context {W L : Type} `{Reading W} `{SSLObject L}.
Implicit Types (l : @Link (traced W) L).
Context (whole : bytes) (Hwhole : bytes_ok whole) (o : L).

(** [raw] was read and nothing was written. *)
Definition has_read (raw : bytes) l : Prop :=
  whole = raw ++ incoming (streams l) ∧ tr_calls (streams l) = [] ∧ ssl_obj l = o ∧
  _tls_fatal_alert_sent l = false.

(** How reading ends without a hello. *)
Definition refused (e : exn) l : Prop :=
  e ≠ OutOfFuel ∧ ssl_obj l = o ∧
  (writes (tr_calls (streams l)) = [] ∨
   ∃ d, alert_cause whole d ∧ writes (tr_calls (streams l)) = [alert_octets d]).

Lemma read_exactly_spec n raw (Q : bytes → Link → Prop) l :
  0 ≤ n → has_read raw l →
  (∀ b l', zlen b = n → has_read (raw ++ b) l' → Q b l') →
  wp (_read_exactly n) Q refused l.
Proof.
  intros Hn (Hw & Hc & Ho & Hs) HQ. unfold _read_exactly. apply wp_try, wp_timeout, wp_on_streams.
  unfold wp. destruct (reader_readexactly n (streams l)) as [[b|e] w] eqn:E.
  - destruct (readexactly_incoming _ _ _ _ Hn E) as [Hi Hl].
    apply trace_call_run in E as [_ E]. apply HQ; [done|]. split_and!; [|cbn; by rewrite E, Hc|done|done].
    change (streams (set_streams w l)) with w. by rewrite Hw, <-app_assoc, Hi.
  - pose proof (readexactly_finite n (streams l)) as He. unfold wp in He. rewrite E in He.
    apply trace_call_run in E as [_ E]. rewrite Hc in E.
    assert (∀ e', e' ≠ OutOfFuel → refused e' (set_streams w l)) as Hr.
    { intros e' He'. split_and!; [done|done|]. left. cbn. by rewrite E. }
    split; case_bool_decide; cbn; by apply Hr.
Qed.

(** An alert that could not be sent is an error of the streams. *)
Lemma send_alert_spec {A} d raw e l (Q : A → Link → Prop) :
  has_read raw l → alert_cause whole d → e ≠ OutOfFuel →
  wp (_ ← _send_plaintext_alert d; raise e) Q refused l.
Proof.
  intros (Hw & Hc & Ho & Hs) Hd He. unfold _send_plaintext_alert.
  apply wp_bind, wp_bind, wp_gets. rewrite Hs. apply wp_bind, wp_modify, wp_bind, wp_on_streams.
  set (R := λ t : traced W, writes (tr_calls t) = [alert_octets d]).
  assert (∀ e' t l', R t → ssl_obj l' = o → e' ≠ OutOfFuel → refused e' (set_streams t l')) as Hr.
  { intros e' t l' Ht Ho' He'. split_and!; [done|done|]. right. by exists d. }
  eapply wp_wand; [apply wp_and; [apply (write_finite (alert_octets d))|
    apply (wp_trace _ _ _ (λ _, R) (λ _, R)); unfold R; intros ? t ->; cbn; by rewrite Hc]|..];
    cbn beta; [intros [] t [_ Ht]|intros e' t [He' Ht]; by apply Hr].
  apply wp_timeout, wp_on_streams.
  eapply wp_wand; [apply wp_and; [apply drain_finite|
    apply (wp_trace _ [SDrain] _ (λ _, R) (λ _, R)); unfold R in *; intros ? t' ->; unfold writes in *; cbn in *;
    by rewrite omap_app, Ht]|..]; cbn beta.
  - intros [] t' [_ Ht']. by apply wp_raise, (Hr e t').
  - intros e' t' [He' Ht']. split; by apply (Hr _ t').
Qed.

Lemma read_record_spec raw message l (Q : bytes * bytes → Link → Prop) :
  has_read raw l → records raw message → unfinished message →
  (∀ header payload l', handshake_record header payload →
     has_read (raw ++ header ++ payload) l' → Q (header, payload) l') →
  wp read_record Q refused l.
Proof.
  intros Hr Hrec Hun HQ. unfold read_record. apply wp_bind.
  apply (read_exactly_spec _ raw); [done|done|]. intros header l1 Hh Hr1.
  assert (∃ rest, whole = raw ++ header ++ rest) as [rest Hw].
  { destruct Hr1 as [E _]. eexists. by rewrite E, <-app_assoc. }
  destruct header as [|ty header]; [done|]. change (default 0 (head (ty :: header))) with ty.
  set (h := ty :: header) in *.
  destruct (Z.eqb_spec ty TLS_HANDSHAKE_CONTENT_TYPE) as [->|Hty]; cbn [negb].
  - destruct (Z.ltb_spec 0 (be_val (slice h 3 5))); cbn [andb negb].
    2:{ rewrite Z.gtb_ltb. destruct (Z.ltb_spec MAX_TLS_RECORD_SIZE (be_val (slice h 3 5)));
        [assert (0 < MAX_TLS_RECORD_SIZE) by done; lia|]. destruct Hr1 as (_ & Hc & Ho & _).
        split_and!; [done|done|]. left. cbn. by rewrite Hc. }
    destruct (Z.leb_spec (be_val (slice h 3 5)) MAX_TLS_RECORD_SIZE); cbn [negb].
    + apply wp_bind. apply (read_exactly_spec _ (raw ++ h)); [lia|done|].
      intros payload l2 Hp Hr2. apply wp_ret, HQ; [by constructor; rewrite ?Hp|].
      by rewrite app_assoc.
    + rewrite Z.gtb_ltb. destruct (Z.ltb_spec MAX_TLS_RECORD_SIZE (be_val (slice h 3 5))); [|lia].
      apply (send_alert_spec _ (raw ++ h)); [done| |done]. by eapply record_overflow.
  - destruct (Z.eqb_spec ty TLS_ALERT_CONTENT_TYPE) as [->|Hal]; cbn [negb].
    + destruct Hr1 as (_ & Hc & Ho & _). split_and!; [done|done|]. left. cbn. by rewrite Hc.
    + apply (send_alert_spec _ (raw ++ h)); [done| |done].
      eapply not_handshake; [done..| |]; cbn; congruence.
Qed.

(** What the loop knows of the message. *)
Definition length_known (message : bytes) (ml : option Z) : Prop :=
  match ml with Some len => declares message len | None => zlen message < TLS_MESSAGE_HEADER_SIZE end.

Lemma declares_app message len payload : declares message len → declares (message ++ payload) len.
Proof.
  intros (Hl & Hh & Hb & Hm). assert (0 < TLS_MESSAGE_HEADER_SIZE) by done.
  split_and!; [rewrite zlen_app; pose proof (zlen_nonneg payload); lia| | |done].
  - by destruct message.
  - rewrite Hb. f_equal. unfold slice. rewrite skipn_app, take_app_le; [done|].
    rewrite length_drop. unfold zlen, TLS_MESSAGE_HEADER_SIZE in *. lia.
Qed.

Lemma message_length_spec raw message payload ml l (Q : option Z → Link → Prop) :
  has_read raw l → records raw (message ++ payload) → length_known message ml →
  (∀ ml', length_known (message ++ payload) ml' → Q ml' l) →
  wp (message_length_of (message ++ payload) ml) Q refused l.
Proof.
  intros Hr Hrec Hk HQ. unfold message_length_of. destruct ml as [len|].
  { by apply wp_ret, HQ, declares_app. }
  set (m := message ++ payload) in *. rewrite Z.geb_leb.
  destruct (Z.leb_spec TLS_MESSAGE_HEADER_SIZE (zlen m)); [|by apply wp_ret, HQ].
  destruct m as [|ty m'] eqn:Em; [done|]. change (default 0 (head (ty :: m'))) with ty.
  destruct (Z.eqb_spec ty TLS_CLIENT_HELLO_TYPE) as [->|Hty]; cbn [negb].
  - rewrite Z.gtb_ltb. destruct (Z.ltb_spec MAX_CLIENT_HELLO_SIZE (be_val (slice (TLS_CLIENT_HELLO_TYPE :: m') 1 4))).
    + destruct Hr as (_ & Hc & Ho & _). split_and!; [done|done|]. left. cbn. by rewrite Hc.
    + apply wp_ret, HQ. by split_and!.
  - assert (∃ rest, whole = raw ++ rest) as [rest Hw] by (destruct Hr as [E _]; eauto).
    apply (send_alert_spec _ raw); [done| |done]. eapply not_hello; [done..|]. cbn. congruence.
Qed.

(** What is read when the loop has ended. *)
Definition read_hello (raw message : bytes) (len : Z) : Prop :=
  records raw message ∧ hello_octets raw (slice message TLS_MESSAGE_HEADER_SIZE (TLS_MESSAGE_HEADER_SIZE + len)).

Lemma hello_loop_spec n raw message ml l :
  has_read raw l → records raw message → length_known message ml → unfinished message →
  MAX_CLIENT_HELLO_SIZE + TLS_MESSAGE_HEADER_SIZE - zlen message < Z.of_nat n →
  wp (hello_loop n raw message ml)
    (λ '(raw, message, len) l', has_read raw l' ∧ read_hello raw message len) refused l.
Proof.
  revert raw message ml l. induction n as [|n IH]; intros raw message ml l Hr Hrec Hk Hun Hn.
  { exfalso. assert (zlen message ≤ MAX_CLIENT_HELLO_SIZE + TLS_MESSAGE_HEADER_SIZE); [|lia].
    destruct Hun as [Hs|(len & (_ & _ & _ & Hlen) & Hs)]; [|lia].
    assert (0 ≤ MAX_CLIENT_HELLO_SIZE) by done. lia. }
  assert (wp (hello_loop (S n) raw message ml) (λ '(raw, message, len) l', has_read raw l' ∧
    read_hello raw message len) refused l ↔ wp ('(header, payload) ← read_record;
            len ← message_length_of (message ++ payload) ml;
            hello_loop n (raw ++ header ++ payload) (message ++ payload) len)
    (λ '(raw, message, len) l', has_read raw l' ∧ read_hello raw message len) refused l) as Hstep.
  { destruct ml as [len|]; [|done]. cbn [hello_loop]. rewrite Z.geb_leb.
    destruct (Z.leb_spec (len + TLS_MESSAGE_HEADER_SIZE) (zlen message)); [|done].
    destruct Hun as [Hs|(len' & (_ & _ & Hlen' & _) & Hs)]; destruct Hk as (Hk1 & _ & Hk3 & _); [lia|].
    lia. }
  apply Hstep. clear Hstep. apply wp_bind, (read_record_spec raw message); [done..|].
  intros header payload l1 Hhp Hr1. apply wp_bind.
  assert (records (raw ++ header ++ payload) (message ++ payload)) as Hrec1 by by apply records_snoc.
  apply (message_length_spec (raw ++ header ++ payload)); [done..|]. intros ml' Hk'.
  assert (0 < zlen payload) as Hpos by (by destruct Hhp as [? ? _ _ _ []]).
  assert (unfinished (message ++ payload) → wp (hello_loop n (raw ++ header ++ payload) (message ++ payload) ml')
    (λ '(raw, message, len) l', has_read raw l' ∧ read_hello raw message len) refused l1) as Hgo.
  { intros Hun'. apply IH; [done..|]. rewrite zlen_app. lia. }
  destruct ml' as [len|]; [|apply Hgo; by left].
  destruct (decide (len + TLS_MESSAGE_HEADER_SIZE ≤ zlen (message ++ payload))) as [Hd|Hd].
  - destruct n; cbn [hello_loop]; rewrite Z.geb_leb, (proj2 (Z.leb_le _ _) Hd);
      (apply wp_ret; split; [done|]; split; [done|by constructor]).
  - apply Hgo. right. exists len. split; [done|lia].
Qed.

Lemma read_client_hello_spec l :
  has_read [] l →
  wp _read_client_hello
    (λ '(raw, hello) l', has_read raw l' ∧
       ∃ body, hello_octets raw body ∧ parse_client_hello body = Ok hello) refused l.
Proof.
  intros Hr. unfold _read_client_hello. apply wp_bind. eapply wp_wand; [apply hello_loop_spec|..];
    [done|constructor|done|by left| |..].
  { unfold HELLO_FUEL. rewrite Nat2Z.inj_succ, Z2Nat.id by done. change (zlen []) with 0. lia. }
  2:{ done. }
  intros [[raw message] len] l1 [Hr1 [Hrec Hh]].
  destruct (parse_client_hello _) as [hello|e] eqn:Ep; [apply wp_ret; eauto|].
  apply wp_if; intros He.
  - assert (∃ rest, whole = raw ++ rest) as [rest Hw] by (destruct Hr1 as [E _]; eauto).
    apply (send_alert_spec _ raw); [done| |done]. by eapply malformed.
  - destruct Hr1 as (E & Hc & Ho & _). split_and!; [|done|left; by rewrite Hc].
    intros ->.
    assert (bytes_ok raw) as Hraw by (rewrite E in Hwhole; apply bytes_ok_app in Hwhole; naive_solver).
    pose proof (parse_client_hello_sound _ (hello_octets_ok _ _ Hh Hraw)) as Hp. by rewrite Ep in Hp.
Qed.

End hello.

(** ** The hello of a connection *)

Section hello_contract.
Context {W L : Type} `{Reading W} `{SSLObject L}.

(** Which hello is taken, and which alert is sent. The octets that are taken are the
    handshake records up to the one that completes the first ClientHello message, in
    however many records it comes, and the hello is what the parser makes of its body;
    nothing was written to the client. Otherwise at most one alert was written, with
    the code that the client's octets justify: unexpected_message, record_overflow or
    decode_error. In no case has OpenSSL seen anything, and the loop ends, because each
    record adds to a message whose length is limited. *)
Theorem client_hello_read (w : W) (o : L) eof shut :
  bytes_ok (incoming w) →
  let '(r, l) := _read_client_hello (mkLink (mkTraced w []) o eof shut false) in
  let written := writes (tr_calls (streams l)) in
  ssl_obj l = o ∧
  match r with
  | Ok (raw, hello) =>
      incoming w = raw ++ incoming (streams l) ∧ written = [] ∧
      ∃ body, hello_octets raw body ∧ parse_client_hello body = Ok hello
  | Err e =>
      e ≠ OutOfFuel ∧
      (written = [] ∨ ∃ d, alert_cause (incoming w) d ∧ written = [alert_octets d])
  end.
Proof.
  intros Hb. set (l := mkLink (mkTraced w []) o eof shut false).
  pose proof (read_client_hello_spec (incoming w) Hb o l ltac:(done)) as Hr.
  unfold wp in Hr. destruct (_read_client_hello l) as [[[raw hello]|e] l'].
  - destruct Hr as [(Hw & Hc & Ho & _) Hh]. split_and!; [done|done|by rewrite Hc|done].
  - destruct Hr as (He & Ho & Hd). by split_and!.
Qed.

End hello_contract.

(** ** The handshake *)

Section handshake.
Context {C W L : Type} `{H2Connection C} `{Reading W} `{SSLObject L}.
Implicit Types (l : @Link (traced W) (logged_tls L)).

(** The octets to come and the calls of OpenSSL stay. *)
Definition keeps_input l l' : Prop :=
  incoming (streams l') = incoming (streams l) ∧ tls_calls (ssl_obj l') = tls_calls (ssl_obj l).

#[export] Instance keeps_input_preorder : PreOrder keeps_input.
Proof.
  unfold keeps_input. split; [done|]. intros x y z [Ha Hb] [Hc Hd]. split; congruence.
Qed.

Lemma keeps_streams {A} (m : M (traced W) A) :
  (∀ w, incoming (m w).2 = incoming w) → stable keeps_input (on_streams m).
Proof.
  intros Hm l. unfold on_streams. specialize (Hm (streams l)).
  by destruct (m (streams l)) as [r w].
Qed.

Lemma keeps_tls {A} (m : M L A) : stable keeps_input (on_ssl (log_tls m [])).
Proof.
  intros l. unfold on_ssl. pose proof (log_tls_calls m [] (ssl_obj l)) as Hc.
  destruct (log_tls m [] (ssl_obj l)) as [r t]. rewrite app_nil_r in Hc. by split.
Qed.

Lemma outgoing_keeps n : stable keeps_input (outgoing_loop n).
Proof.
  induction n as [|n IH]; cbn [outgoing_loop]; [apply stable_raise, _|].
  apply stable_bind; [apply _|apply stable_gets, _|]. intros p.
  destruct (p =? 0); [apply stable_ret, _|].
  apply stable_bind; [apply _|apply keeps_tls|]. intros d.
  apply stable_bind; [apply _|apply keeps_streams, write_incoming|]. intros [].
  apply stable_bind; [apply _| |intros []; apply IH].
  apply stable_try; [apply _|apply stable_timeout, keeps_streams, drain_incoming; apply _|].
  intros e. destruct (bool_decide _); apply stable_raise, _.
Qed.

Lemma try_handshake_keeps : stable keeps_input (try_handshake (W := traced W) (L := logged_tls L)).
Proof.
  apply stable_try; [apply _| |].
  - apply stable_bind; [apply _|apply keeps_tls|]. intros _. apply stable_ret, _.
  - intros []; try apply stable_raise, _; apply stable_ret, _.
Qed.

Context (whole raw : bytes).

(** OpenSSL has been fed the client's octets from the first one on: the hello [raw] and
    pieces after it. *)
Definition fed ds l : Prop :=
  tls_calls (ssl_obj l) = TFeed <$> (raw :: ds) ∧ zlen raw + zlen (concat ds) ≤ MAX_HANDSHAKE_BYTES.

Definition in_step ds l : Prop := fed ds l ∧ whole = raw ++ concat ds ++ incoming (streams l).

Definition left_off l : Prop := ∃ ds, fed ds l ∧ raw ++ concat ds `prefix_of` whole.

Lemma in_step_left ds l : in_step ds l → left_off l.
Proof.
  intros [Hf Hw]. exists ds. split; [done|]. exists (incoming (streams l)). by rewrite Hw, <-app_assoc.
Qed.

Lemma in_step_keeps ds l l' : in_step ds l → keeps_input l l' → in_step ds l'.
Proof. intros [[Hc Hl] Hw] [Hi Ht]. split; [split|]; congruence. Qed.

Lemma wp_in_step {A} (m : M Link A) ds (Q : A → Link → Prop) l :
  in_step ds l → stable keeps_input m → (∀ a l', in_step ds l' → Q a l') →
  wp m Q (λ _, left_off) l.
Proof.
  intros Hl Hm HQ. eapply wp_wand; [by apply (stable_wp keeps_input)|..]; cbn beta.
  - intros a l' Hk. apply HQ. by eapply in_step_keeps.
  - intros e l' Hk. eapply in_step_left, in_step_keeps; eauto.
Qed.

Lemma handshake_loop_spec fuel n ds l :
  in_step ds l →
  wp (handshake_loop fuel n (zlen raw + zlen (concat ds))) (λ _ l', ∃ ds', in_step ds' l')
    (λ _, left_off) l.
Proof.
  revert ds l. induction n as [|n IH]; intros ds l Hl; cbn [handshake_loop].
  { by eapply in_step_left. }
  apply wp_bind, (wp_in_step _ ds); [done|apply try_handshake_keeps|]. intros [] l1 Hl1.
  - apply wp_ret. eauto.
  - apply wp_bind, (wp_in_step _ ds); [done|apply outgoing_keeps|]. intros [] l2 [[Hc Hl2] Hw].
    apply wp_bind, wp_on_streams. unfold wp at 1.
    destruct (reader_read PLAINTEXT_CHUNK_SIZE (streams l2)) as [[d|e] w] eqn:Er.
    2:{ exists ds. split; [done|]. exists (incoming (streams l2)). by rewrite Hw, <-app_assoc. }
    destruct (read_incoming (W := traced W) PLAINTEXT_CHUNK_SIZE _ _ _ ltac:(done) Er) as (Hin & _).
    assert (left_off (set_streams w l2)) as Hleft.
    { exists ds. split; [done|]. exists (incoming (streams l2)). by rewrite Hw, <-app_assoc. }
    destruct d as [|b d]; [done|]. set (k := b :: d) in *. apply wp_if; intros Hmax; [done|].
    rewrite Z.gtb_ltb in Hmax. apply Z.ltb_ge in Hmax.
    apply wp_bind, wp_on_ssl.
    assert (∀ t, tls_calls t = tls_calls (ssl_obj l2) ++ [TFeed k] →
      in_step (ds ++ [k]) (set_ssl_obj t (set_streams w l2))) as Hstep.
    { intros t Et. assert (concat (ds ++ [k]) = concat ds ++ k) as Ec by (rewrite concat_app; cbn; by rewrite app_nil_r).
      split; [split|].
      - change (tls_calls t = TFeed <$> (raw :: ds ++ [k])). by rewrite Et, Hc, fmap_cons, fmap_cons, fmap_app.
      - rewrite Ec, zlen_app. lia.
      - rewrite Ec. change (whole = raw ++ (concat ds ++ k) ++ incoming w). by rewrite Hw, Hin, <-app_assoc. }
    apply wp_log.
    + intros [] t Et. specialize (IH (ds ++ [k]) _ (Hstep t Et)).
      assert (zlen raw + zlen (concat (ds ++ [k])) = zlen raw + zlen (concat ds) + zlen k) as <-; [|exact IH].
      rewrite concat_app, zlen_app. cbn [concat]. rewrite app_nil_r. lia.
    + intros e t Et. by eapply in_step_left, Hstep.
  - apply wp_bind, (wp_in_step _ ds); [done|apply outgoing_keeps|]. intros [] l2 Hl2. by apply IH.
Qed.

End handshake.

(** A record takes at most six octets for one of the message. *)
Lemma records_size raw message : records raw message → zlen raw ≤ 6 * zlen message.
Proof.
  induction 1 as [|raw message header payload _ IH Hh]; [done|].
  destruct Hh as [header payload Hl _ _ []]. rewrite !zlen_app, Hl.
  unfold TLS_RECORD_HEADER_SIZE. lia.
Qed.

Lemma hello_octets_size raw body : hello_octets raw body → zlen raw ≤ MAX_HANDSHAKE_BYTES.
Proof.
  intros [raw' message header payload len Hr Hun [h p Hl _ _ [_ Hp]] _ _].
  apply records_size in Hr. rewrite !zlen_app, Hl.
  assert (zlen message < MAX_CLIENT_HELLO_SIZE + TLS_MESSAGE_HEADER_SIZE).
  { destruct Hun as [Hs|(len' & (_ & _ & _ & Hlen) & Hs)]; [|lia].
    assert (0 ≤ MAX_CLIENT_HELLO_SIZE) by done. lia. }
  change MAX_CLIENT_HELLO_SIZE with 65536 in *. change TLS_MESSAGE_HEADER_SIZE with 4 in *.
  change MAX_TLS_RECORD_SIZE with 16384 in *. change TLS_RECORD_HEADER_SIZE with 5 in *.
  change MAX_HANDSHAKE_BYTES with 1048576. lia.
Qed.

(** The client's octets begin with the hello [hello], in [raw]. *)
Definition offers (whole raw : bytes) (hello : ClientHello) : Prop :=
  raw `prefix_of` whole ∧ ∃ body, hello_octets raw body ∧ parse_client_hello body = Ok hello.

Lemma wp_on_link {C W L A} (m : M (@Link W L) A) (Q : A → @ClientConnection C W L → Prop) E c :
  wp m (λ a l, Q a (set_link l c)) (λ e l, E e (set_link l c)) (link c) → wp (on_link m) Q E c.
Proof. unfold wp, on_link. by destruct (m (link c)) as [[a|e] l]. Qed.

Section handshake_contract.
Context {C W L : Type} `{H2Connection C} `{Reading W} `{SSLObject L}.
Implicit Types (c : @ClientConnection C (traced W) (logged_tls L)).

(** What a handshake can come to. *)
Inductive handshake_outcome (whole : bytes) (r : result unit) c : Prop :=
  | no_hello :
      r ≠ Ok tt → tls_calls (ssl_obj (link c)) = [] →
      (writes (tr_calls (streams (link c))) = [] ∨
       ∃ d, alert_cause whole d ∧ writes (tr_calls (streams (link c))) = [alert_octets d]) →
      handshake_outcome whole r c
  | no_protocol raw hello :
      r ≠ Ok tt → offers whole raw hello → _has_shared_alpn hello = false →
      client_hello (observed c) = Some hello → tls_calls (ssl_obj (link c)) = [] →
      writes (tr_calls (streams (link c))) = [alert_octets 120] →
      handshake_outcome whole r c
  | handed_over raw hello ds :
      offers whole raw hello → _has_shared_alpn hello = true →
      client_hello (observed c) = Some hello →
      tls_calls (ssl_obj (link c)) = TFeed <$> (raw :: ds) →
      raw ++ concat ds `prefix_of` whole → zlen raw + zlen (concat ds) ≤ MAX_HANDSHAKE_BYTES →
      (r = Ok tt → whole = raw ++ concat ds ++ incoming (streams (link c))) →
      handshake_outcome whole r c.

Lemma alpn_alert_spec whole raw o e c :
  has_read whole o raw (link c) →
  wp (_ ← on_link (_send_plaintext_alert 120); raise (A := unit) e) (λ _ _, False)
    (λ _ c', client_hello (observed c') = client_hello (observed c) ∧ ssl_obj (link c') = o ∧
       writes (tr_calls (streams (link c'))) = [alert_octets 120]) c.
Proof.
  intros (Hw & Hc & Ho & Hs). unfold _send_plaintext_alert.
  apply wp_bind, wp_on_link, wp_bind, wp_gets. rewrite Hs.
  apply wp_bind, wp_modify, wp_bind, wp_on_streams.
  apply wp_trace; intros ? t Ht; (cbn in Ht; rewrite Hc in Ht).
  - apply wp_timeout, wp_on_streams.
    apply wp_trace; intros ? t' Ht'; cbn in Ht'; rewrite Ht in Ht'; [apply wp_raise|split];
      (split_and!; [done|done|]); cbn; by rewrite Ht'.
  - split_and!; [done|done|]. cbn. by rewrite Ht.
Qed.

Lemma handshake_spec fuel (w : W) (o : L) peer sock syn :
  bytes_ok (incoming w) →
  let '(r, c) := do_tls_handshake fuel
      (new_connection (C := C) (mkTraced w []) (mkTls o []) peer sock syn) in
  handshake_outcome (incoming w) r c.
Proof.
  intros Hb. set (c0 := new_connection _ _ _ _ _). set (whole := incoming w) in *.
  assert (wp (do_tls_handshake fuel) (λ _, handshake_outcome whole (Ok tt))
    (λ e, handshake_outcome whole (Err e)) c0) as Hw.
  2:{ unfold wp in Hw. by destruct (do_tls_handshake fuel c0) as [[[]|e] c]. }
  unfold do_tls_handshake. apply wp_timeout.
  assert (∀ (r : result unit) e e' c, handshake_outcome whole r c → r = Err e →
    handshake_outcome whole (Err e') c) as Herr.
  { intros r e e' c Ho ->. destruct Ho; [by constructor|by eapply no_protocol|by eapply handed_over]. }
  eapply (wp_wand _ (λ _, handshake_outcome whole (Ok tt)) _ (λ e, handshake_outcome whole (Err e)));
    [|done|]; [|intros e c Ho; split; [done|by eapply Herr]].
  apply wp_bind, wp_timeout, wp_bind, wp_on_link.
  eapply wp_wand; [apply (read_client_hello_spec whole Hb (mkTls o [])); done|..]; cbn beta.
  2:{ intros e l (He & Ho & Hd). split; (apply no_hello; [done|cbn; by rewrite Ho|exact Hd]). }
  intros [raw hello] l [Hr (body & Hbody & Hp)]. apply wp_bind, wp_modify, wp_ret.
  set (c1 := mkConnection _ _ _). destruct Hr as (Hin & Hc & Ho & Hs).
  assert (offers whole raw hello) as Hoff by (split; [rewrite Hin; by eexists|eauto]).
  apply wp_if; intros Halpn.
  { apply negb_true_iff in Halpn.
    eapply wp_wand; [apply (alpn_alert_spec whole raw (mkTls o []) _ c1); done|done|].
    intros e c (Hh & Ho' & Hwr). eapply no_protocol; [done|done|done|by rewrite Hh| |done].
    by rewrite Ho'. }
  apply negb_false_iff in Halpn. apply hello_octets_size in Hbody as Hsize.
  set (I := λ ds (l : Link), in_step (W := W) (L := L) whole raw ds l).
  assert (∀ (r : result unit) ds l', I ds l' → handshake_outcome whole r (set_link l' c1)) as Hin_step.
  { intros r ds l' [[Hf Hmax] Hwh]. eapply (handed_over _ _ _ raw hello ds); [done..| |done|done].
    exists (incoming (streams l')). by rewrite Hwh, <-app_assoc. }
  assert (∀ e l', left_off (W := W) (L := L) whole raw l' → handshake_outcome whole (Err e) (set_link l' c1)) as Hleft.
  { intros e l' (ds & [Hf Hmax] & Hpre). by eapply (handed_over _ _ _ raw hello ds). }
  apply wp_bind, wp_on_link, wp_on_ssl.
  assert (∀ t, tls_calls t = [TFeed raw] → I [] (set_ssl_obj t l)) as Hfirst.
  { intros t Et. split; [split; [done|]|done]. change (zlen (concat [])) with 0. lia. }
  apply wp_log; intros ? t Et; (change (ssl_obj (link c1)) with (ssl_obj l) in Et; rewrite Ho in Et; cbn in Et);
    [|by eapply Hin_step, Hfirst].
  apply Hfirst in Et. apply wp_bind, wp_on_link.
  pose proof (handshake_loop_spec whole raw fuel fuel [] _ Et) as Hl.
  change (zlen raw + zlen (concat [])) with (zlen raw + 0) in Hl. rewrite Z.add_0_r in Hl.
  eapply wp_wand; [exact Hl|..]; cbn beta; [|by intros e l' ?; apply Hleft].
  intros [] l1 [ds Hl1]. apply wp_on_link.
  eapply (wp_wand _ (λ _, I ds) _ (λ _, left_off whole raw)); cbn beta.
  - apply (wp_in_step whole raw _ ds); [exact Hl1|apply outgoing_keeps|done].
  - intros [] l2 Hl2. by eapply Hin_step.
  - intros e l2 Hl2. by apply Hleft.
Qed.


End handshake_contract.

(** ** Witnesses *)

(** A hello that offers HTTP/2 and a protocol the server does not have. *)
Definition offering_hello : ClientHello :=
  mkClientHello 771 (replicate 32 7) [] [4865] [0]
    [mkExtension 16 ([0; 9; 2] ++ u "h2" ++ [5] ++ u "other")].

(** It comes in two records, the second of which arrives in pieces. *)
Definition sample_message : bytes := Eval vm_compute in
  let body := enc_fixed offering_hello (enc_extensions (extensions offering_hello)) in
  1 :: be_bytes 3 (zlen body) ++ body.

Definition as_record (payload : bytes) : bytes := [22; 3; 1] ++ be_bytes 2 (zlen payload) ++ payload.

Definition sample_flight : bytes := Eval vm_compute in
  as_record (take 3 sample_message) ++ as_record (drop 3 sample_message).

Definition sample_client : pipe :=
  mkPipe [take 7 sample_flight; drop 7 (take 30 sample_flight); drop 30 sample_flight; [9; 9]] [] false.

(** A concrete input for [client_hello_read]: the hello in two records. *)
Lemma client_hello_read_witness :
  ∃ body, hello_octets sample_flight body ∧ parse_client_hello body = Ok offering_hello.
Proof.
  pose proof (client_hello_read sample_client (mkClear [] [] None) false false ltac:(by_eval)) as Hr.
  assert ((_read_client_hello (mkLink (mkTraced sample_client []) (mkClear [] [] None) false false false)).1
    = Ok (sample_flight, offering_hello)) as E by (vm_compute; reflexivity).
  destruct (_read_client_hello _) as [r l]. cbn [fst] in E. rewrite E in Hr.
  destruct Hr as (_ & _ & _ & Hh). exact Hh.
Defined.

