(* ===== verification/ConnectionSpec.v ===== *)
(** * Contracts of the client connection (src/solvetls/connection.py)

    Until a connection is closed its transport stays open, and closing it ends the
    transport, at every behaviour of the streams and of OpenSSL. *)

From S2P Require Import Prelude PyText TlsEnums Naming ClientHello Extensions Frames HttpFields Http1.
From S2P Require Import Capture Adapter Session SessionTransport Client Streams Tls Connection HandshakeSpec.

(** ** Closing *)

Section closing.
Context {C W L : Type} `{H2Connection C} `{Streams W} `{SSLObject L}.
Abbreviation conn_t := (@ClientConnection C (traced W) L).
Abbreviation link_t := (@Link (traced W) L).

(** Calls that leave the transport open. *)
Definition open_calls (cs : list stream_call) : Prop := (SClose ∉ cs) ∧ (SAbort ∉ cs).

Definition stays_open (t t' : traced W) : Prop :=
  ∃ cs, tr_calls t' = tr_calls t ++ cs ∧ open_calls cs.

#[export] Instance stays_open_preorder : PreOrder stays_open.
Proof.
  split.
  - intros t. exists []. rewrite app_nil_r. split; [done|]. split; apply not_elem_of_nil.
  - intros x y z (cs & E & Ha & Hb) (cs' & E' & Ha' & Hb'). exists (cs ++ cs').
    rewrite E', E, app_assoc. split; [done|]. split; rewrite elem_of_app; tauto.
Qed.

Lemma stays_open_refl t : stays_open t t.
Proof. reflexivity. Qed.

Lemma trace_open {A} (m : M W A) cs : open_calls cs → stable stays_open (trace_call m cs).
Proof.
  intros Ho t. destruct (trace_call m cs t) as [r t'] eqn:E. apply trace_call_run in E as [_ E].
  by exists cs.
Qed.

Definition link_open (l l' : link_t) : Prop := stays_open (streams l) (streams l').
Definition conn_open (c c' : conn_t) : Prop := link_open (link c) (link c').

#[export] Instance link_open_preorder : PreOrder link_open.
Proof. unfold link_open. split; [intros l; reflexivity|intros x y z Ha Hb; by etrans]. Qed.
#[export] Instance conn_open_preorder : PreOrder conn_open.
Proof. unfold conn_open. split; [intros l; reflexivity|intros x y z Ha Hb; by etrans]. Qed.

Lemma streams_open {A} (m : M (traced W) A) : stable stays_open m → stable link_open (on_streams m).
Proof. intros Hm l. unfold on_streams. specialize (Hm (streams l)). destruct (m (streams l)). exact Hm. Qed.

Lemma ssl_open {A} (m : M L A) : stable link_open (on_ssl m).
Proof. intros l. unfold on_ssl. destruct (m (ssl_obj l)). by change (link_open l l). Qed.

Lemma on_link_open {A} (m : M link_t A) : stable link_open m → stable conn_open (on_link m).
Proof. intros Hm c. unfold on_link. specialize (Hm (link c)). destruct (m (link c)). exact Hm. Qed.

Ltac opens :=
  repeat first
    [ progress unfold _handle_outgoing_data
    | lazymatch goal with
      | |- stable _ (on_streams _) => apply streams_open
      | |- stable _ (on_ssl _) => apply ssl_open
      | |- stable _ (on_link _) => apply on_link_open
      | |- stable _ (modify _) => apply stable_modify; intros ?; apply stays_open_refl
      | |- stable _ (with_timeout _ _) => apply stable_timeout; [apply _|]
      end
    | stable_step ].

Lemma write_open d : stable stays_open (writer_write (W := traced W) d).
Proof. apply trace_open. split; by intros [=]%list_elem_of_singleton. Qed.

Lemma drain_open : stable stays_open (writer_drain (W := traced W)).
Proof. apply trace_open. split; by intros [=]%list_elem_of_singleton. Qed.

Lemma eof_open : stable stays_open (writer_write_eof (W := traced W)).
Proof. apply trace_open. split; by intros [=]%list_elem_of_singleton. Qed.

Lemma read_open n : stable stays_open (reader_read (W := traced W) n).
Proof. apply trace_open. split; apply not_elem_of_nil. Qed.
#[local] Hint Resolve write_open drain_open eof_open read_open : stable.

Lemma outgoing_open n : stable link_open (outgoing_loop n).
Proof. induction n as [|n IH]; cbn [outgoing_loop]; opens. Qed.
#[local] Hint Resolve outgoing_open : stable.

Lemma answer_close_open fuel : stable link_open (_answer_peer_close fuel).
Proof. unfold _answer_peer_close. opens. Qed.

Lemma link_write_open fuel d : stable link_open (write fuel d).
Proof.
  unfold write. stable_step; [opens|]. destruct a.
  - stable_step; [apply answer_close_open|opens].
  - opens.
Qed.
#[local] Hint Resolve link_write_open answer_close_open : stable.

Lemma on_session_open {A} (m : M (@HTTP2Session C link_t) A) :
  stable (at_transport link_open) m → stable conn_open (on_session m).
Proof.
  intros Hm c. unfold on_session. destruct (_http2_session c) as [s|]; [|apply stays_open_refl].
  specialize (Hm (set_transport (link c) s)). destruct (m _) as [r s']. exact Hm.
Qed.

Lemma session_close_open fuel code : stable conn_open (close_session (C := C) (W := traced W) (L := L) fuel code).
Proof.
  unfold close_session, skip_errors.
  apply stable_try; [apply _| |intros e; opens].
  apply stable_bind; [apply _|apply stable_gets, _|]. intros [s|]; [|apply stable_ret, _].
  apply on_session_open, stable_confined. apply (close_moves (H0 := link_transport fuel)); try apply _.
  intros d. apply (stable_confined link_open), link_write_open.
Qed.

(** *** The other methods *)

Lemma readexactly_open n : stable stays_open (reader_readexactly (W := traced W) n).
Proof. apply trace_open. split; apply not_elem_of_nil. Qed.
#[local] Hint Resolve readexactly_open : stable.

Lemma alert_open d : stable link_open (_send_plaintext_alert d).
Proof. unfold _send_plaintext_alert. opens. Qed.
#[local] Hint Resolve alert_open : stable.

Lemma record_open : stable link_open (read_record (W := traced W) (L := L)).
Proof. unfold read_record, _read_exactly. opens; try apply _. Qed.
#[local] Hint Resolve record_open : stable.

Lemma message_length_open m n : stable link_open (message_length_of m n).
Proof. unfold message_length_of. opens. Qed.
#[local] Hint Resolve message_length_open : stable.

Lemma hello_loop_open n raw m ml : stable link_open (hello_loop n raw m ml).
Proof. revert raw m ml. induction n as [|n IH]; intros raw m ml; cbn [hello_loop]; opens. Qed.
#[local] Hint Resolve hello_loop_open : stable.

Lemma read_hello_open : stable link_open (_read_client_hello (W := traced W) (L := L)).
Proof. unfold _read_client_hello. opens. Qed.

Lemma handshake_loop_open fuel n received : stable link_open (handshake_loop fuel n received).
Proof. revert received. induction n as [|n IH]; intros r; cbn [handshake_loop]; unfold try_handshake; opens. Qed.
#[local] Hint Resolve read_hello_open handshake_loop_open : stable.

Lemma handshake_open fuel : stable conn_open (do_tls_handshake (C := C) (W := traced W) (L := L) fuel).
Proof. unfold do_tls_handshake, observe. opens; try apply _. Qed.

Lemma drain_plaintext_open n chunks : stable link_open (drain_plaintext_loop n chunks).
Proof. revert chunks. induction n as [|n IH]; intros c; cbn [drain_plaintext_loop]; opens. Qed.
#[local] Hint Resolve drain_plaintext_open : stable.

Lemma read_loop_open fuel n size : stable link_open (read_loop fuel n size).
Proof. induction n as [|n IH]; cbn [read_loop]; unfold _drain_plaintext; opens; try apply _. Qed.

Lemma link_read_open fuel n : stable link_open (read fuel n).
Proof. apply read_loop_open. Qed.
#[local] Hint Resolve link_read_open : stable.

Lemma preface_open fuel n b : stable link_open (preface_loop fuel n b).
Proof. revert b. induction n as [|n IH]; intros b; cbn [preface_loop]; opens. Qed.

Lemma head_open fuel n b : stable link_open (http1_head_loop fuel n b).
Proof. revert b. induction n as [|n IH]; intros b; cbn [http1_head_loop]; opens. Qed.
#[local] Hint Resolve preface_open head_open : stable.

Lemma handle_open h2_validate new_h2 fuel :
  stable conn_open (handle_http (C := C) (W := traced W) (L := L) h2_validate new_h2 fuel).
Proof.
  assert (∀ d, confined link_open link_open (@t_write _ (link_transport fuel) d)) as Hw.
  { intros d. apply (stable_confined link_open), link_write_open. }
  assert (confined link_open link_open (@t_read _ (link_transport fuel))) as Hr.
  { apply (stable_confined link_open), link_read_open. }
  assert (∀ data, stable conn_open (on_session (initialize (H0 := link_transport fuel) h2_validate data)
    : M conn_t unit)) as Hinit.
  { intros data. apply on_session_open, stable_confined. by apply (initialize_moves (H0 := link_transport fuel)); try apply _. }
  assert (stable conn_open (on_session (receive_request (H0 := link_transport fuel) h2_validate fuel)
    : M conn_t unit)) as Hwait.
  { apply on_session_open, stable_confined. by apply (receive_request_moves (H0 := link_transport fuel)); try apply _. }
  unfold handle_http, observe, open_session, _read_protocol_preface, _read_http1_head.
  repeat first [apply Hinit|apply Hwait|progress opens]; try apply _.
Qed.

Lemma respond_open h2_validate fuel content hs status :
  stable conn_open (send_response (C := C) (W := traced W) (L := L) h2_validate fuel content hs status).
Proof.
  assert (∀ d, confined link_open link_open (@t_write _ (link_transport fuel) d)) as Hw.
  { intros d. apply (stable_confined link_open), link_write_open. }
  assert (confined link_open link_open (@t_read _ (link_transport fuel))) as Hr.
  { apply (stable_confined link_open), link_read_open. }
  assert (∀ hs, stable conn_open (on_session (Session.send_response (H0 := link_transport fuel) h2_validate
    fuel content hs status) : M conn_t unit)) as Hsend.
  { intros hs'. apply on_session_open, stable_confined. by apply (send_response_moves (H0 := link_transport fuel)); try apply _. }
  unfold send_response, _send_http1_response.
  repeat first [apply Hsend|progress opens]; try apply _.
Qed.

Lemma close_tls_open : stable conn_open (close_tls (C := C) (W := traced W) (L := L)).
Proof. unfold close_tls, skip_errors. opens. Qed.

Lemma drain_peer_open n : stable stays_open (drain_peer (W := traced W) n).
Proof. induction n as [|n IH]; cbn [drain_peer]; opens. Qed.
#[local] Hint Resolve drain_peer_open : stable.

Lemma finish_open fuel : stable conn_open (finish_sending (C := C) (W := traced W) (L := L) fuel).
Proof.
  unfold finish_sending, skip_errors, on_wire, _drain_peer. opens; try apply _.
  apply on_link_open, streams_open, drain_peer_open.
Qed.

(** What is done with the transport: it is closed, unless it is closing, and awaited;
    or it is aborted.  Only an exception that is no [Exception] skips both. *)
Inductive shutdown (closing : bool) : result unit → list stream_call → Prop :=
  | awaited r : shutdown closing r ((if closing then [] else [SClose]) ++ [SWaitClosed])
  | aborted r wait :
      wait = [] ∨ wait = [SWaitClosed] →
      shutdown closing r ((if closing then [] else [SClose]) ++ wait ++ [SAbort])
  | skipped e :
      is_Exception e = false → e ≠ CancelledError →
      shutdown closing (Err e) (if closing then [] else [SClose]).

Definition shut_down (t : traced W) (r : result unit) (t' : traced W) : Prop :=
  ∃ cs, tr_calls t' = tr_calls t ++ cs ∧ shutdown (writer_is_closing t) r cs.

Lemma wp_on_wire {A} (m : M (traced W) A) (Q : A → conn_t → Prop) E c :
  wp m (λ a w, Q a (set_link (set_streams w (link c)) c))
    (λ e w, E e (set_link (set_streams w (link c)) c)) (streams (link c)) →
  wp (on_wire m) Q E c.
Proof. intros Hm. by apply wp_on_link, wp_on_streams. Qed.

Lemma close_transport_spec (c : conn_t) :
  wp close_transport (λ _ c', shut_down (streams (link c)) (Ok tt) (streams (link c')))
    (λ e c', shut_down (streams (link c)) (Err e) (streams (link c')) ∧
       (is_Exception e = true → SAbort ∈ drop (length (tr_calls (streams (link c)))) (tr_calls (streams (link c'))))) c.
Proof.
  set (t := streams (link c)). set (b := writer_is_closing t).
  set (cl := if b then [] else [SClose]).
  assert (∀ r t', tr_calls t' = tr_calls t ++ cl ++ [SWaitClosed] → shut_down t r t') as Hwait.
  { intros r t' E. eexists. split; [exact E|]. apply awaited. }
  assert (∀ r wait t', wait = [] ∨ wait = [SWaitClosed] → tr_calls t' = tr_calls t ++ cl ++ wait ++ [SAbort] →
    shut_down t r t') as Habort.
  { intros r wait t' Hwt E. eexists. split; [exact E|]. by apply aborted. }
  set (E0 := λ (e : exn) (c' : conn_t), ∃ wait, (wait = [] ∨ wait = [SWaitClosed]) ∧
    tr_calls (streams (link c')) = tr_calls t ++ cl ++ wait).
  unfold close_transport. apply wp_try.
  eapply (wp_wand _ (λ _ c', shut_down t (Ok tt) (streams (link c'))) _ E0); [|done|].
  - apply wp_bind, wp_gets. change (writer_is_closing (streams (link c))) with b.
    apply wp_bind. eapply (wp_wand _ (λ _ c', tr_calls (streams (link c')) = tr_calls t ++ cl) _ E0); [| |done].
    + unfold cl, E0. apply wp_if; intros Hb; rewrite Hb.
      * apply wp_ret. symmetry. apply app_nil_r.
      * apply wp_on_wire, wp_trace; intros ? t' Ht'; [done|]. exists []. split; [by left|]. unfold cl. rewrite Hb. exact Ht'.
    + intros [] c1 Hc1. apply wp_timeout, wp_on_wire, wp_trace; intros ? t' Ht'; rewrite Hc1 in Ht'.
      * apply Hwait. cbn. by rewrite Ht', <-app_assoc.
      * assert (E0 CancelledError (set_link (set_streams t' (link c1)) c1)) as HE; [|split; exact HE].
        exists [SWaitClosed]. split; [by right|]. cbn. by rewrite Ht', <-app_assoc.
  - intros e c1 (wait & Hwt & Ec).
    assert (∀ (r : result unit) t', tr_calls t' = tr_calls (streams (link c1)) ++ [SAbort] →
      shut_down t r t' ∧ SAbort ∈ drop (length (tr_calls t)) (tr_calls t')) as Hab.
    { intros r t' Et. rewrite Ec, <-!app_assoc in Et. split; [by eapply Habort|].
      rewrite Et, drop_app_length, !elem_of_app, list_elem_of_singleton. tauto. }
    case_bool_decide as He.
    + apply wp_bind, wp_on_wire, wp_trace; intros x t' Ht'; [apply wp_raise|].
      * destruct (Hab (Err e) t' Ht'). by split.
      * destruct (Hab (Err x) t' Ht'). by split.
    + apply wp_if; intros Hx.
      * apply wp_on_wire, wp_trace; intros x t' Ht'; [by apply (Hab (Ok tt))|].
        destruct (Hab (Err x) t' Ht'). by split.
      * apply wp_raise. split; [|congruence].
        destruct Hwt as [-> | ->]; [rewrite app_nil_r in Ec|by apply Hwait].
        exists cl. split; [exact Ec|]. by apply skipped.
Qed.

Lemma skip_errors_spec (m : M conn_t unit) c :
  wp (skip_errors m) (λ _ _, True) (λ e _, is_Exception e = false) c.
Proof.
  unfold skip_errors. apply wp_try. unfold wp at 1. destruct (m c) as [[a|e] c']; [done|].
  apply wp_if; intros He; [by apply wp_ret|by apply wp_raise].
Qed.

Lemma shutdown_any b r cs : shutdown b (Ok tt) cs → shutdown b r cs.
Proof. inversion 1; by constructor. Qed.

(** What comes before the transport is closed. *)
Lemma graceful_spec fuel code c :
  wp (_ ← close_session fuel code; _ ← close_tls; finish_sending fuel) (λ _, conn_open c)
    (λ e c', is_Exception e = false ∧ conn_open c c') c.
Proof.
  eapply wp_wand; [apply wp_and; [|apply (stable_wp conn_open)]|..].
  - do 2 (apply wp_bind; eapply wp_wand; [apply skip_errors_spec| |done]; intros [] ? _).
    apply skip_errors_spec.
  - apply stable_bind; [apply _|apply session_close_open|]. intros [].
    apply stable_bind; [apply _|apply close_tls_open|]. intros []. apply finish_open.
  - by intros [] c' [_ Ho].
  - by intros e c' [He Ho].
Qed.

Lemma close_spec fuel http2_error_code (c : conn_t) :
  let '(r, c') := close fuel http2_error_code c in
  ∃ t1, stays_open (streams (link c)) t1 ∧ shut_down t1 r (streams (link c')) ∧
    ∀ e, r = Err e → is_Exception e = true →
      SAbort ∈ drop (length (tr_calls t1)) (tr_calls (streams (link c'))).
Proof.
  set (Q := λ (r : result unit) (c' : conn_t),
    ∃ t1, stays_open (streams (link c)) t1 ∧ shut_down t1 r (streams (link c')) ∧
    ∀ e, r = Err e → is_Exception e = true →
      SAbort ∈ drop (length (tr_calls t1)) (tr_calls (streams (link c')))).
  assert (wp (close fuel http2_error_code) (λ _, Q (Ok tt)) (λ e, Q (Err e)) c) as Hw.
  2:{ unfold wp in Hw. by destruct (close fuel http2_error_code c) as [[[]|e] c']. }
  unfold close. apply wp_finally.
  eapply wp_wand; [apply graceful_spec|..]; cbn beta; [intros [] c1 Ho|intros e c1 [He Ho]];
    (eapply wp_wand; [apply close_transport_spec|..]; cbn beta).
  - intros [] c2 Hs. exists (streams (link c1)). by split_and!.
  - intros e c2 [Hs Hab]. exists (streams (link c1)). split_and!; [done..|]. intros x [= <-]. done.
  - intros [] c2 Hs. exists (streams (link c1)). split_and!; [done| |intros x [= <-]; congruence].
    destruct Hs as (cs & E & Hs). exists cs. split; [done|]. by apply shutdown_any.
  - intros x c2 [Hs Hab]. exists (streams (link c1)). split_and!; [done..|]. intros y [= <-]. done.
Qed.

(** C9: closing a connection ends its transport, however the shutdown of HTTP/2 and TLS
    goes and whatever fails, expires or is cancelled on the way. Before that only data
    is sent; then the transport is closed exactly once, unless it is closing already, and
    awaited, or it is aborted; nothing is written afterwards. An ordinary exception gets
    out only if even aborting failed. *)
Theorem connection_closed fuel http2_error_code (c : conn_t) :
  let '(r, c') := close fuel http2_error_code c in
  ∃ t1, stays_open (streams (link c)) t1 ∧ shut_down t1 r (streams (link c')) ∧
    ∀ e, r = Err e → is_Exception e = true →
      SAbort ∈ drop (length (tr_calls t1)) (tr_calls (streams (link c'))).
Proof. apply close_spec. Qed.

End closing.
