(* ===== verification/ConnectionEnds.v ===== *)
(** * The loops of a connection end (src/solvetls/connection.py)

    Against a peer that sends finitely many octets and an OpenSSL that comes to rest
    ([Resting]), the fuel of Connection.v is enough once it exceeds a budget: the
    octets that are to come, twice, and what OpenSSL can still do with those it has.
    Every turn of a loop spends some of it, and nothing adds to it. *)

From S2P Require Import Prelude PyText TlsEnums Naming ClientHello Extensions Frames HttpFields Http1.
From S2P Require Import Capture Adapter Session SessionLemmas SessionSpec SessionEnds Client Streams Tls.
From S2P Require Import FrameSpec Fingerprints Report Connection HandshakeSpec.

Lemma finite_in_timeout {S A} (I : S → Prop) expired (m : M S A) :
  finite_in I m → finite_in I (with_timeout expired m).
Proof. intros Hm. unfold with_timeout. repeat finite_step. Qed.
#[export] Hint Resolve finite_in_timeout : finite.

Section link.
Context {W L : Type} `{Reading W} `{Resting L}.
Implicit Types (l : @Link W L).

(** An octet counts once when it is read and once when OpenSSL decrypts it. *)
Definition budget l : nat := work (ssl_obj l) + 2 * length (incoming (streams l)).

Definition affords (k : nat) l : Prop := (budget l ≤ k)%nat ∧ bytes_ok (incoming (streams l)).

Abbreviation fails k := (λ e l, e ≠ OutOfFuel ∧ affords k l).

Lemma affords_streams k l w :
  incoming w `suffix_of` incoming (streams l) → affords k l → affords k (set_streams w l).
Proof.
  intros [read E] [Hb Ho]. unfold affords, budget in *. cbn. rewrite E, length_app in Hb.
  rewrite E in Ho. apply bytes_ok_app in Ho as [_ Ho]. split; [lia|done].
Qed.

Lemma affords_ssl k l o :
  (work o ≤ work (ssl_obj l))%nat → affords k l → affords k (set_ssl_obj o l).
Proof. intros Hw [Hb Ho]. unfold affords, budget in *. cbn. split; [lia|done]. Qed.

(** A call that reads nothing. *)
Lemma on_streams_ends {A} (I : Link → Prop) (m : M W A) :
  (∀ l w, incoming w = incoming (streams l) → I l → I (set_streams w l)) →
  finite m → (∀ w, incoming (m w).2 = incoming w) → finite_in I (on_streams m).
Proof.
  intros HI Hm Hi l Hl. apply wp_on_streams. specialize (Hm (streams l)). specialize (Hi (streams l)).
  unfold wp in *. destruct (m (streams l)) as [[a|e] w]; auto.
Qed.

Lemma affords_same k l w :
  incoming w = incoming (streams l) → affords k l → affords k (set_streams w l).
Proof. intros E. apply affords_streams. by rewrite E. Qed.

Lemma on_ssl_ends {A} k (m : M L A) :
  (∀ n, finite_in (λ o, (work o ≤ n)%nat) m) → finite_in (affords k) (on_ssl m).
Proof.
  intros Hm l Hl. apply wp_on_ssl. eapply wp_wand; [by apply (Hm (work (ssl_obj l)))|..]; cbn beta.
  - intros a o Ho. by apply affords_ssl.
  - intros e o [He Ho]. split; [done|by apply affords_ssl].
Qed.

(** *** Sending *)

(** The first turn empties the outgoing BIO, the second one finds it empty. *)
Lemma outgoing_ends k n : finite_in (affords k) (outgoing_loop (W := W) (L := L) (2 + n)).
Proof.
  intros l Hl. change (outgoing_loop (2 + n)) with (outgoing_loop (W := W) (L := L) (S (S n))).
  cbn [outgoing_loop]. apply wp_bind, wp_gets, wp_if; intros _; [by apply wp_ret|].
  apply wp_bind, wp_on_ssl. eapply wp_wand; [apply bio_read_work|..]; cbn beta.
  2:{ intros e o [He Ho]. split; [done|by apply affords_ssl]. }
  intros d o [Hp Ho]. set (I := λ l, bio_pending (ssl_obj l) = 0 ∧ affords k l).
  assert (I (set_ssl_obj o l)) as HI by (split; [done|by apply affords_ssl]).
  assert (∀ l w, incoming w = incoming (streams l) → I l → I (set_streams w l)) as Hsame.
  { intros l' w E [HI1 HI2]. split; [done|by apply affords_same]. }
  assert (finite_in I (_ ← on_streams (writer_write d);
    try_except (with_timeout (link_expired WriteTime) (on_streams writer_drain))
      (λ e, if bool_decide (e = TimeoutError)
            then raise (ConnectionError (u "Write timeout")) else raise e))) as Hw.
  { repeat first [apply finite_in_timeout | finite_step | apply on_streams_ends];
      auto using write_incoming, drain_incoming with finite. }
  specialize (Hw _ HI). unfold mbind, M_bind in Hw |- *. unfold wp in *.
  destruct (on_streams (writer_write d) _) as [[[]|e] l1]; [|by destruct Hw as [? []]].
  destruct (try_except _ _ l1) as [[[]|e] l2]; [|by destruct Hw as [? []]].
  unfold gets. destruct Hw as [-> Hw]. exact Hw.
Qed.

Lemma unwrap_ends k : finite_in (affords k) (on_ssl (W := W) (L := L) ssl_unwrap).
Proof. apply on_ssl_ends. intros n. apply ssl_unwrap_work. Qed.
#[local] Hint Resolve unwrap_ends : finite.

(** *** Receiving *)

Lemma drain_plaintext_ends n chunks l k :
  affords k l → bytes_ok chunks → (budget l < n)%nat →
  wp (drain_plaintext_loop n chunks) (λ b l', affords k l' ∧ bytes_ok b) (fails k) l.
Proof.
  revert chunks l. induction n as [|n IH]; intros chunks l Hl Hc Hn; [lia|]. cbn [drain_plaintext_loop].
  apply wp_bind, wp_try, wp_bind, wp_on_ssl. eapply wp_wand; [apply ssl_read_work|..]; cbn beta.
  - intros c o [Hco Ho]. apply wp_ret.
    assert (affords k (set_ssl_obj o l)) as Hl' by (apply affords_ssl; [lia|done]).
    destruct c as [|b c]; [by apply wp_bind, wp_modify, wp_ret|].
    apply IH; [done|by apply bytes_ok_app|]. unfold budget in *. cbn in *. lia.
  - intros e o [He Ho]. assert (affords k (set_ssl_obj o l)) as Hl' by (by apply affords_ssl).
    destruct e; try done; by repeat apply wp_ret.
Qed.

(** What is read leaves the budget; feeding it to OpenSSL puts half of it back. *)
Lemma read_spends size l k :
  0 < size → affords k l →
  wp (on_streams (reader_read size))
    (λ b l', bytes_ok b ∧ affords (k - 2 * length b) l' ∧ (2 * length b ≤ k)%nat) (fails k) l.
Proof.
  intros Hsize [Hb Ho]. apply wp_on_streams. unfold wp.
  destruct (reader_read size (streams l)) as [[b|e] w] eqn:E.
  - destruct (read_incoming _ _ _ _ Hsize E) as (Hin & _ & _).
    rewrite Hin in Ho. apply bytes_ok_app in Ho as [? ?].
    unfold affords, budget in *. rewrite Hin, length_app in Hb. cbn. split_and!; [done|lia|done|lia].
  - destruct (read_failed _ _ _ _ E) as (He & _ & Hs). split; [done|]. by apply affords_streams.
Qed.

Lemma feed_spends d l k :
  affords (k - 2 * length d) l → (2 * length d ≤ k)%nat →
  wp (on_ssl (bio_write d)) (λ _, affords (k - length d)) (fails k) l.
Proof.
  intros [Hb Ho] Hd. apply wp_on_ssl. eapply wp_wand; [apply bio_write_work|..]; cbn beta.
  - intros [] o Hw. unfold affords, budget in *. cbn. split; [lia|done].
  - intros e o [He Hw]. unfold affords, budget in *. cbn. split_and!; [done|lia|done].
Qed.

Lemma affords_mono k k' l : (k ≤ k')%nat → affords k l → affords k' l.
Proof. intros Hk [Hb Ho]. split; [lia|done]. Qed.

Lemma affords_budget k l : affords k l → affords (budget l) l ∧ (budget l ≤ k)%nat.
Proof. by intros [Hb Ho]. Qed.

Lemma fails_mono k k' e l : (k ≤ k')%nat → fails k e l → fails k' e l.
Proof. intros Hk [He Hl]. split; [done|by eapply affords_mono]. Qed.

(** *** The ClientHello *)

Lemma alert_ends k d : finite_in (affords k) (_send_plaintext_alert (W := W) (L := L) d).
Proof.
  unfold _send_plaintext_alert.
  repeat first [apply finite_in_timeout | finite_step | apply on_streams_ends];
    auto using write_incoming, drain_incoming, affords_same with finite.
Qed.
#[local] Hint Resolve alert_ends : finite.

(** Octets that were taken and are still to be fed: [raw] of them. *)
Definition keeps_for (k raw : nat) l : Prop := affords (k - 2 * raw) l ∧ (2 * raw ≤ k)%nat.

Lemma read_exactly_ends n raw l k :
  0 ≤ n → keeps_for k raw l →
  wp (_read_exactly n) (λ b l', bytes_ok b ∧ zlen b = n ∧ keeps_for k (raw + length b) l') (fails k) l.
Proof.
  intros Hn [[Hb Ho] Hk]. unfold _read_exactly. apply wp_try, wp_timeout, wp_on_streams.
  pose proof (readexactly_finite n (streams l)) as Hf. unfold wp in *.
  destruct (reader_readexactly n (streams l)) as [[b|e] w] eqn:E.
  - destruct (readexactly_incoming _ _ _ _ Hn E) as [Hin Hz]. rewrite Hin in Ho.
    apply bytes_ok_app in Ho as [? ?]. split_and!; [done|done|].
    unfold keeps_for, affords, budget in *. rewrite Hin, length_app in Hb. cbn. split_and!; [lia|done|lia].
  - assert (affords k (set_streams w l)) as Hl.
    { apply affords_streams; [by eapply readexactly_failed|]. eapply affords_mono; [|by split]. lia. }
    split; destruct (bool_decide _); (split; [done|exact Hl]).
Qed.

Lemma keeps_affords k raw l : keeps_for k raw l → affords k l.
Proof. intros [Hl Hk]. eapply affords_mono; [|done]. lia. Qed.

Lemma read_record_ends raw l k :
  keeps_for k raw l →
  wp read_record (λ '(header, payload) l', bytes_ok payload ∧ 0 < zlen payload ∧
    keeps_for k (raw + length (header ++ payload)) l') (fails k) l.
Proof.
  intros Hl. unfold read_record. apply wp_bind.
  eapply wp_wand; [by apply (read_exactly_ends TLS_RECORD_HEADER_SIZE raw)| |done]. cbn beta.
  intros header l1 (Hh & _ & Hl1). assert (affords k l1) as Ha by (by eapply keeps_affords).
  assert (∀ code e, e ≠ OutOfFuel → ∀ b : bool,
    wp (_ ← (if b then _send_plaintext_alert code else mret tt); raise e)
      (λ '(header, payload) l', bytes_ok payload ∧ 0 < zlen payload ∧
        keeps_for k (raw + length (header ++ payload)) l') (fails k) l1) as Hr.
  { intros code e He b. apply wp_bind. destruct b; [|by apply wp_ret, wp_raise].
    eapply wp_wand; [by apply (alert_ends k)| |done]. cbn beta. intros [] l2 Hl2. by apply wp_raise. }
  apply wp_if; intros _; [by apply Hr|]. cbn zeta. apply wp_if; intros Hlen; [by apply Hr|].
  apply negb_false_iff, andb_true_iff in Hlen as [Hpos _]. apply Z.ltb_lt in Hpos.
  apply wp_bind. eapply wp_wand; [apply (read_exactly_ends _ (raw + length header)); [lia|done]| |done].
  cbn beta. intros payload l2 (Hp & Hz & Hl2). apply wp_ret. rewrite length_app, Nat.add_assoc.
  split_and!; [done|lia|done].
Qed.


(** What the loop knows of the length of its message. *)
Definition limited (message : bytes) (ml : option Z) : Prop :=
  match ml with
  | Some len => len ≤ MAX_CLIENT_HELLO_SIZE
  | None => zlen message < TLS_MESSAGE_HEADER_SIZE
  end.

Lemma message_length_ends message ml raw l k :
  (∀ len, ml = Some len → len ≤ MAX_CLIENT_HELLO_SIZE) → keeps_for k raw l →
  wp (message_length_of message ml) (λ ml' l', limited message ml' ∧ keeps_for k raw l') (fails k) l.
Proof.
  intros Hml Hl. assert (affords k l) as Ha by (by eapply keeps_affords). unfold message_length_of.
  destruct ml as [len|]; [by apply wp_ret; split; [apply Hml|]|].
  rewrite Z.geb_leb. destruct (Z.leb_spec TLS_MESSAGE_HEADER_SIZE (zlen message)); [|by apply wp_ret].
  apply wp_if; intros _.
  { apply wp_bind. eapply wp_wand; [by apply (alert_ends k)| |done]. cbn beta. intros [] l2 Hl2.
    by apply wp_raise. }
  cbn zeta. rewrite Z.gtb_ltb.
  destruct (Z.ltb_spec MAX_CLIENT_HELLO_SIZE (be_val (slice message 1 4))); [by apply wp_raise|by apply wp_ret].
Qed.

(** Every record adds an octet to a message of limited length. *)
Lemma hello_loop_ends n raw message ml l k :
  bytes_ok message → limited message ml → keeps_for k (length raw) l →
  MAX_CLIENT_HELLO_SIZE + TLS_MESSAGE_HEADER_SIZE - zlen message < Z.of_nat n →
  wp (hello_loop n raw message ml)
    (λ '(raw', message', _) l', bytes_ok message' ∧ keeps_for k (length raw') l') (fails k) l.
Proof.
  assert (0 ≤ MAX_CLIENT_HELLO_SIZE) as Hmax by done.
  revert raw message ml l. induction n as [|n IH]; intros raw message ml l Hm Hlim Hl Hn.
  { destruct ml as [len|]; cbn [hello_loop limited] in *; [|lia].
    rewrite Z.geb_leb. destruct (Z.leb_spec (len + TLS_MESSAGE_HEADER_SIZE) (zlen message));
      [by apply wp_ret|lia]. }
  assert (wp ('(header, payload) ← read_record;
      len ← message_length_of (message ++ payload) ml;
      hello_loop n (raw ++ header ++ payload) (message ++ payload) len)
    (λ '(raw', message', _) l', bytes_ok message' ∧ keeps_for k (length raw') l') (fails k) l) as Hstep.
  { apply wp_bind. eapply wp_wand; [by apply (read_record_ends (length raw))| |done]. cbn beta.
    intros [header payload] l1 (Hp & Hpos & Hl1). rewrite <-length_app in Hl1.
    assert (bytes_ok (message ++ payload)) as Hm1 by (by apply bytes_ok_app).
    apply wp_bind. eapply wp_wand; [apply message_length_ends; [|done]| |done]; cbn beta.
    { intros len ->. exact Hlim. }
    intros ml' l2 [Hlim' Hl2]. apply IH; [done..|]. rewrite zlen_app. lia. }
  destruct ml as [len|]; cbn [hello_loop]; [|exact Hstep]. apply wp_if; intros _; [by apply wp_ret|exact Hstep].
Qed.

Lemma read_client_hello_ends l k :
  affords k l →
  wp (_read_client_hello (W := W) (L := L))
    (λ '(raw, hello) l', client_hello_ok hello ∧ keeps_for k (length raw) l') (fails k) l.
Proof.
  intros Hl. unfold _read_client_hello. apply wp_bind.
  eapply wp_wand; [apply hello_loop_ends|..]; cbn beta; [by apply Forall_nil|by vm_compute| | | |done].
  { split; [by rewrite Nat.sub_0_r|cbn; lia]. }
  { unfold HELLO_FUEL. rewrite Nat2Z.inj_succ, Z2Nat.id by done. change (zlen []) with 0. lia. }
  intros [[raw message] len] l1 [Hm Hl1]. cbn zeta.
  assert (bytes_ok (slice message TLS_MESSAGE_HEADER_SIZE (TLS_MESSAGE_HEADER_SIZE + len))) as Hb
    by (by apply bytes_ok_slice).
  pose proof (parse_client_hello_sound _ Hb) as Hp. assert (affords k l1) by (by eapply keeps_affords).
  destruct (parse_client_hello _) as [hello|e]; [by apply wp_ret; split; [apply Hp|]|]. rewrite Hp.
  apply wp_bind. eapply wp_wand; [by apply (alert_ends k)| |done]. cbn beta. intros [] l2 Hl2.
  by apply wp_raise.
Qed.

(** *** Loops over OpenSSL *)

Lemma try_handshake_ends k l :
  affords k l →
  wp (try_handshake (W := W) (L := L))
    (λ step l', affords k l' ∧ (step = WantWrite → affords (k - 1) l' ∧ (1 ≤ k)%nat)) (fails k) l.
Proof.
  intros Hl. unfold try_handshake. apply wp_try, wp_bind, wp_on_ssl.
  eapply wp_wand; [apply do_handshake_work|..]; cbn beta.
  - intros [] o Ho. apply wp_ret. split; [by apply affords_ssl|done].
  - intros e o (He & Ho & Hw). assert (affords k (set_ssl_obj o l)) as Hl' by (by apply affords_ssl).
    destruct e; try done; apply wp_ret; (split; [done|]); try done. intros _.
    specialize (Hw eq_refl). destruct Hl as [Hb Hoct], Hl' as [Hb' Hoct']. unfold affords, budget in *.
    cbn in *. split_and!; [lia|done|lia].
Qed.

Section loops.
Context (fuel : nat) (Hfuel : (2 ≤ fuel)%nat).

Lemma handle_outgoing_ends k : finite_in (affords k) (_handle_outgoing_data (W := W) (L := L) fuel).
Proof. destruct fuel as [|[|n]]; [lia|lia|apply outgoing_ends]. Qed.
#[local] Hint Resolve handle_outgoing_ends : finite.

Lemma answer_close_ends k : finite_in (affords k) (_answer_peer_close (W := W) (L := L) fuel).
Proof. unfold _answer_peer_close. repeat finite_step. Qed.
#[local] Hint Resolve answer_close_ends : finite.

Lemma write_ends k d : finite_in (affords k) (write (W := W) (L := L) fuel d).
Proof.
  unfold write, close_notify_error. repeat first [apply on_ssl_ends; intros; apply ssl_write_work|finite_step].
Qed.

(** *** Reading and the handshake *)

Lemma read_loop_ends n size l k :
  0 < size → affords k l → (k < n)%nat → (k < fuel)%nat →
  wp (read_loop fuel n size) (λ b l', bytes_ok b ∧ affords k l' ∧ b ≠ []) (fails k) l.
Proof.
  intros Hsize. revert k l. induction n as [|n IH]; intros k l Hl Hn Hf; [lia|]. cbn [read_loop].
  apply wp_bind. eapply wp_wand; [apply (drain_plaintext_ends _ _ _ k)|..]; cbn beta;
    [done|constructor|destruct Hl; lia| |done].
  intros plaintext l1 [Hl1 Hp]. apply wp_bind.
  eapply wp_wand; [by apply (handle_outgoing_ends k)| |done]. cbn beta. intros [] l2 Hl2.
  apply wp_bind, wp_gets, wp_if; intros _.
  { apply wp_bind. eapply wp_wand; [by apply (answer_close_ends k)| |done]. cbn beta.
    intros [] l3 Hl3. by apply wp_raise. }
  destruct plaintext as [|b plaintext]; [|by apply wp_ret].
  apply wp_bind, wp_gets, wp_if; intros _; [by apply wp_raise|].
  apply wp_bind, wp_try, wp_timeout. eapply wp_wand; [by apply read_spends|..]; cbn beta.
  2:{ intros e l3 [He Hl3]. split; apply wp_if; intros _; by apply wp_raise. }
  intros data l3 (Hd & Hl3 & Hk). destruct data as [|b data].
  { apply wp_raise. split; [done|]. by rewrite Nat.sub_0_r in Hl3. }
  set (d := b :: data) in *. apply wp_bind. eapply wp_wand; [by apply feed_spends| |done]. cbn beta.
  assert (1 ≤ length d)%nat by (cbn; lia). intros [] l4 Hl4.
  eapply wp_wand; [apply (IH (k - length d)%nat); [done|lia|lia]|..]; cbn beta.
  - intros b' l5 (? & ? & ?). split_and!; [done|by eapply affords_mono; [|done]; lia|done].
  - intros e l5. apply fails_mono. lia.
Qed.

Lemma read_ends n l k :
  0 < n → affords k l → (k < fuel)%nat →
  wp (read fuel n) (λ b l', bytes_ok b ∧ affords k l' ∧ b ≠ []) (fails k) l.
Proof. intros Hn Hl Hk. apply read_loop_ends; [unfold PLAINTEXT_CHUNK_SIZE; lia|done..]. Qed.

Lemma handshake_loop_ends n received l k :
  affords k l → (k < n)%nat → wp (handshake_loop fuel n received) (λ _, affords k) (fails k) l.
Proof.
  revert received l k. induction n as [|n IH]; intros received l k Hl Hn; [lia|]. cbn [handshake_loop].
  apply wp_bind. eapply wp_wand; [by apply try_handshake_ends| |done]. cbn beta.
  intros step l1 [Hl1 Hw]. destruct step; [by apply wp_ret| |].
  - apply wp_bind. eapply wp_wand; [by apply (handle_outgoing_ends k)| |done]. cbn beta. intros [] l2 Hl2.
    apply wp_bind. eapply wp_wand; [apply (read_spends _ _ k); [done|done]| |done]. cbn beta.
    intros data l3 (Hd & Hl3 & Hk). destruct data as [|b data].
    { apply wp_raise. split; [done|]. by rewrite Nat.sub_0_r in Hl3. }
    set (d := b :: data) in *. assert (1 ≤ length d)%nat by (cbn; lia). apply wp_if; intros _.
    { apply wp_raise. split; [done|]. eapply affords_mono; [|done]. lia. }
    apply wp_bind. eapply wp_wand; [by apply feed_spends| |done]. cbn beta. intros [] l4 Hl4.
    eapply wp_wand; [apply (IH _ _ (k - length d)%nat); [done|lia]|..]; cbn beta.
    + intros _ l5. apply affords_mono. lia.
    + intros e l5. apply fails_mono. lia.
  - destruct (Hw eq_refl) as [Hl1' Hk]. apply wp_bind.
    eapply wp_wand; [by apply (handle_outgoing_ends (k - 1))|..]; cbn beta.
    2:{ intros e l2. apply fails_mono. lia. }
    intros [] l2 Hl2. eapply wp_wand; [apply (IH _ _ (k - 1)%nat); [done|lia]|..]; cbn beta.
    + intros _ l5. apply affords_mono. lia.
    + intros e l5. apply fails_mono. lia.
Qed.

(** *** The heads of the protocols *)

Lemma preface_ends n buffered l k :
  bytes_ok buffered → affords k l → (k < fuel)%nat →
  zlen HTTP2_PREFACE - zlen buffered < Z.of_nat n →
  wp (preface_loop fuel n buffered) (λ b l', bytes_ok b ∧ affords k l') (fails k) l.
Proof.
  intros Hb Hl Hk. revert buffered l Hb Hl. induction n as [|n IH]; intros buffered l Hb Hl Hn;
    cbn [preface_loop]; (destruct (Z.ltb_spec (zlen buffered) (zlen HTTP2_PREFACE)); [|by apply wp_ret]).
  { exfalso. unfold zlen in *. lia. }
  apply wp_bind. eapply wp_wand; [by apply (read_ends READ_SIZE _ k)| |done]. cbn beta.
  intros data l1 (Hd & Hl1 & Hne). cbn zeta. assert (bytes_ok (buffered ++ data)) by (by apply bytes_ok_app).
  apply wp_if; intros _; [by apply wp_ret|]. apply IH; [done..|]. rewrite zlen_app.
  destruct data; [done|]. rewrite zlen_cons. pose proof (zlen_nonneg data). lia.
Qed.

Lemma http1_head_ends n data l k :
  affords k l → (k < fuel)%nat → MAX_HEAD_SIZE - zlen data < Z.of_nat n →
  wp (http1_head_loop fuel n data) (λ _, affords k) (fails k) l.
Proof.
  intros Hl Hk. revert data l Hl. induction n as [|n IH]; intros data l Hl Hn; cbn [http1_head_loop];
    (apply wp_bind, wp_lift; [intros [] Hck|intros e He;
      apply check_head_size_err in He; by (destruct He as (? & ? & -> & _) || naive_solver)]);
    (destruct (find HEAD_END data) as [i|] eqn:Ef; [by apply wp_ret|]).
  { pose proof (head_continues _ Hck Ef). lia. }
  apply wp_bind. eapply wp_wand; [by apply (read_ends READ_SIZE _ k)| |done]. cbn beta.
  intros more l1 (_ & Hl1 & Hne). apply IH; [done|]. rewrite zlen_app.
  destruct more; [done|]. rewrite zlen_cons. pose proof (zlen_nonneg more). lia.
Qed.


End loops.

End link.

(** ** The connection *)

Section connection.
Context {C W L : Type} `{H2Connection C} `{Reading W} `{Resting L}.
Context (h2_validate : list field → bool → result unit) (new_h2 : C).
Context (Hh2 : h2_finite C) (Hval : ∀ l b, h2_validate l b ≠ Err OutOfFuel).
Abbreviation conn_t := (@ClientConnection C W L).
Implicit Types (c : conn_t).

(** A connection with this budget left, whose session keeps its limits, and of which a
    report can be made. *)
Definition bounded (k : nat) c : Prop :=
  affords k (link c) ∧ (∀ s, _http2_session c = Some s → captured s) ∧ reportable (observed c).

Abbreviation stops k := (λ e c, e ≠ OutOfFuel ∧ bounded k c).

Lemma bounded_link k l c : affords k l → bounded k c → bounded k (set_link l c).
Proof. intros Hl (_ & Hs & Hr). by split_and!. Qed.

Lemma timeout_ends {A} k f (m : M conn_t A) (Q : A → conn_t → Prop) c :
  wp m Q (stops k) c → wp (with_timeout f m) Q (stops k) c.
Proof.
  intros Hm. apply wp_timeout. eapply wp_wand; [exact Hm|done|]. intros e c' [He Hc]. by split.
Qed.

Lemma on_link_wp {A} k (m : M (@Link W L) A) (Q : A → conn_t → Prop) c :
  bounded k c → wp m (λ a l, Q a (set_link l c)) (λ e l, e ≠ OutOfFuel ∧ affords k l) (link c) →
  wp (on_link m) Q (stops k) c.
Proof.
  intros Hc Hm. apply wp_on_link. eapply wp_wand; [exact Hm|done|]. intros e l [He Hl].
  split; [done|by apply bounded_link].
Qed.

Lemma on_link_ends {A} k (m : M (@Link W L) A) :
  finite_in (affords k) m → finite_in (bounded k) (on_link (C := C) m).
Proof.
  intros Hm c Hc. apply on_link_wp; [done|]. eapply wp_wand; [by apply Hm, Hc| |done].
  intros a l Hl. by apply bounded_link.
Qed.

Lemma observe_ends k f :
  (∀ o, reportable o → reportable (f o)) → finite_in (bounded k) (observe (C := C) (W := W) (L := L) f).
Proof. intros Hf. apply finite_in_modify. intros c (Hl & Hs & Hr). split_and!; [done|done|by apply Hf]. Qed.

(** What is captured can be reported. *)
Lemma captured_reportable (s : @HTTP2Session C (@Link W L)) o :
  captured s → reportable o → reportable (set_http2 (capture s) o).
Proof.
  intros [_ _ _ Hf _ _] [Hsyn Hhello _]. split; [done|done|]. intros h [= <-].
  eapply Forall_impl; [exact Hf|]. intros f (_ & hb & pl & n & Hraw & _ & _ & Hout).
  by eexists _, _, _, _.
Qed.

Lemma reportable_http_version v o : reportable o → reportable (set_http_version v o).
Proof. by intros []. Qed.
Lemma reportable_raw_head v o : reportable o → reportable (set_http1_raw_head v o).
Proof. by intros []. Qed.
Lemma reportable_http1 v o : reportable o → reportable (set_http1 v o).
Proof. by intros []. Qed.

Context (fuel : nat) (Hfuel : (2 ≤ fuel)%nat).

(** The connection is a transport for its session. *)
Lemma link_transport_finite k :
  (k < fuel)%nat → @transport_finite (@Link W L) (link_transport fuel) (affords k).
Proof.
  intros Hk. split; [|intros d; by apply write_ends]. intros l Hl.
  eapply wp_wand; [by apply (read_ends fuel Hfuel READ_SIZE l k)|by intros b l' (? & ? & _)|done].
Qed.

Lemma on_session_ends {A} k (m : M (@HTTP2Session C (@Link W L)) A) :
  finite_in (running (affords k)) m → finite_in (bounded k) (on_session m).
Proof.
  intros Hm c (Hl & Hs & Ho). unfold wp, on_session. destruct (_http2_session c) as [s|] eqn:E.
  2:{ split; [done|]. split_and!; [done|by rewrite E|done]. }
  assert (running (affords k) (set_transport (link c) s)) as Hr.
  { split; [|done]. by destruct (Hs s eq_refl); split. }
  specialize (Hm _ Hr). unfold wp in Hm.
  assert (∀ s', running (affords k) s' →
    bounded k (mkConnection (transport s') (set_http2 (capture s') (observed c)) (Some s'))) as Hb.
  { intros s' [Hc' Hl']. split_and!; [done|by intros ? [= <-]|by apply captured_reportable]. }
  destruct (m _) as [[a|e] s']; [by apply Hb|]. destruct Hm as [He Hm]. split; [done|by apply Hb].
Qed.

(** *** The handshake *)

Lemma handshake_ends k : (k < fuel)%nat → finite_in (bounded k) (do_tls_handshake (C := C) (W := W) (L := L) fuel).
Proof.
  intros Hk c Hc. unfold do_tls_handshake. apply timeout_ends, wp_bind, timeout_ends, wp_bind.
  apply on_link_wp; [done|]. eapply wp_wand; [apply read_client_hello_ends, Hc| |done].
  intros [raw hello] l1 [Hhello Hl1]. apply wp_bind, wp_modify, wp_ret. set (c1 := mkConnection _ _ _).
  assert (bounded k c1) as Hc1.
  { destruct Hc as (_ & Hs & []). split_and!; [by eapply keeps_affords|done|]. split; [done| |done].
    by intros ch [= <-]. }
  apply wp_if; intros _.
  { apply wp_bind. eapply wp_wand; [apply (on_link_ends k); [apply alert_ends|done]| |done]. cbn beta.
    intros [] c2 Hc2. by apply wp_raise. }
  destruct Hl1 as [Hl1 Hraw]. apply wp_bind, on_link_wp; [done|].
  eapply wp_wand; [by apply feed_spends| |done]. cbn beta. intros [] l2 Hl2.
  set (c2 := set_link l2 c1).
  assert (bounded k c2) as Hc2 by (apply bounded_link; [eapply affords_mono; [|done]; lia|done]).
  apply wp_bind, on_link_wp; [done|].
  eapply wp_wand; [apply (handshake_loop_ends fuel Hfuel fuel _ _ k); [apply Hc2|done]| |done].
  cbn beta. intros [] l3 Hl3. apply (on_link_ends k); [by apply handle_outgoing_ends|by apply bounded_link].
Qed.

(** *** The request and the response *)

Lemma parse_request_fuel head : parse_request head ≠ Err OutOfFuel.
Proof. intros E. by destruct (parse_request_err _ _ E) as (? & ? & ? & _). Qed.

Lemma open_session_ends k : finite_in (bounded k) (open_session (C := C) (W := W) (L := L) new_h2).
Proof.
  apply finite_in_modify. intros c (Hl & _ & Ho).
  assert (captured (new_session (link c) new_h2)) as Hs by (split; cbn; try done; constructor).
  split_and!; [done| |by apply captured_reportable]. by intros s [= <-].
Qed.

Lemma captured_fuel k (s : @HTTP2Session C (@Link W L)) n :
  running (affords k) s → (Z.to_nat MAX_CAPTURE_BYTES < n)%nat →
  (Z.to_nat (MAX_CAPTURE_BYTES - _capture_bytes s) < n)%nat.
Proof.
  intros [[_ _ _ _ Hcount _] _]. pose proof (zlen_nonneg (raw_octets (frames (capture s)))).
  pose proof (zlen_nonneg (_buffer s)). lia.
Qed.

Lemma request_ends k :
  (k < fuel)%nat → (Z.to_nat MAX_CAPTURE_BYTES < fuel)%nat →
  finite_in (bounded k) (handle_http h2_validate new_h2 fuel).
Proof.
  intros Hk Hmax c Hc. unfold handle_http. apply timeout_ends, wp_bind, wp_gets, wp_if; intros _.
  - apply wp_bind. eapply wp_wand; [apply (observe_ends k); [apply reportable_http_version|done]| |done]. cbn beta. intros [] c1 Hc1.
    apply wp_bind, on_link_wp; [done|].
    eapply wp_wand; [apply (preface_ends fuel Hfuel PREFACE_FUEL [] _ k);
      [by apply Forall_nil|apply Hc1|done|unfold PREFACE_FUEL, zlen; cbn; lia]| |done]. cbn beta.
    intros data l2 [Hd Hl2]. apply (bounded_link k _ c1) in Hl2 as Hc2; [|done].
    apply wp_bind. eapply wp_wand; [by apply (open_session_ends k)| |done]. cbn beta. intros [] c3 Hc3.
    apply wp_bind. eapply wp_wand; [apply (on_session_ends k); [|done]| |done]; cbn beta.
    { intros s Hs. by apply (initialize_ends h2_validate Hh2 _ (link_transport_finite k Hk) Hval). }
    intros [] c4 Hc4. apply (on_session_ends k); [|done].
    intros s Hs. apply (wait_ends h2_validate Hh2 _ (link_transport_finite k Hk) Hval); [done|].
    by eapply captured_fuel.
  - apply wp_bind. eapply wp_wand; [apply (observe_ends k); [apply reportable_http_version|done]| |done]. cbn beta. intros [] c1 Hc1.
    apply wp_bind, on_link_wp; [done|].
    eapply wp_wand; [by apply (read_ends fuel Hfuel READ_SIZE _ k), Hk; [|apply Hc1]| |done]. cbn beta.
    intros data l2 (_ & Hl2 & _). apply (bounded_link k _ c1) in Hl2 as Hc2; [|done].
    apply wp_bind, on_link_wp; [done|].
    eapply wp_wand; [apply (http1_head_ends fuel Hfuel HTTP1_FUEL data _ k); [apply Hc2|done|]| |done].
    { unfold HTTP1_FUEL. rewrite Nat2Z.inj_succ, Z2Nat.id by done. pose proof (zlen_nonneg data). lia. }
    cbn beta. intros head l3 Hl3. apply (bounded_link k _ c1) in Hl3 as Hc3; [|done].
    apply wp_bind. eapply wp_wand; [apply (observe_ends k); [apply reportable_raw_head|done]| |done]. cbn beta. intros [] c4 Hc4.
    apply wp_bind, wp_lift; [|by intros e E; split; [intros ->; by apply parse_request_fuel in E|]].
    intros request _. apply (observe_ends k); [apply reportable_http1|done].
Qed.


Lemma answer_ends k content hs status :
  (k < fuel)%nat → (Z.to_nat MAX_CAPTURE_BYTES < fuel)%nat →
  finite_in (bounded k) (send_response (C := C) (W := W) (L := L) h2_validate fuel content hs status).
Proof.
  intros Hk Hmax c Hc. unfold send_response. apply wp_bind, wp_gets. cbn zeta.
  apply timeout_ends, wp_bind, wp_gets, wp_if; intros _.
  - apply wp_bind, wp_gets. destruct (_http2_session c) as [s0|]; [|by apply wp_raise].
    apply (on_session_ends k); [|done]. intros s Hs.
    apply (response_ends h2_validate Hh2 _ (link_transport_finite k Hk) Hval); [done|].
    by eapply captured_fuel.
  - apply wp_if; intros _; [|by apply wp_raise]. apply (on_link_ends k); [by apply write_ends|done].
Qed.

(** *** Closing *)

Lemma skip_errors_ends k (m : M conn_t unit) :
  finite_in (bounded k) m → finite_in (bounded k) (skip_errors m).
Proof. intros Hm. unfold skip_errors. repeat finite_step. Qed.

Lemma close_session_ends k code :
  (k < fuel)%nat → finite_in (bounded k) (close_session (C := C) (W := W) (L := L) fuel code).
Proof.
  intros Hk. apply skip_errors_ends. finite_step; [finite_step|]. destruct a as [s0|]; [|finite_step].
  apply on_session_ends. intros s Hs.
  apply (quiet_finite (affords k)); [done|apply close_quiet| |done].
  apply (SessionEnds.close_finite Hh2 _ (link_transport_finite k Hk)).
Qed.

Lemma close_tls_ends k : finite_in (bounded k) (close_tls (C := C) (W := W) (L := L)).
Proof.
  apply skip_errors_ends. repeat first [apply on_link_ends | apply finite_in_modify; done
    | apply on_ssl_ends; intros; apply ssl_unwrap_work | finite_step].
Qed.

Lemma drain_peer_ends n (w : W) :
  (length (incoming w) < n)%nat →
  wp (drain_peer n) (λ _ w', incoming w' `suffix_of` incoming w)
    (λ e w', e ≠ OutOfFuel ∧ incoming w' `suffix_of` incoming w) w.
Proof.
  revert w. induction n as [|n IH]; intros w Hn; [lia|]. cbn [drain_peer]. apply wp_bind. unfold wp at 1.
  destruct (reader_read PLAINTEXT_CHUNK_SIZE w) as [[chunk|e] w1] eqn:E.
  - destruct (read_incoming PLAINTEXT_CHUNK_SIZE w chunk w1 ltac:(done) E) as (Hin & _).
    assert (incoming w1 `suffix_of` incoming w) as Hs by (rewrite Hin; by eexists).
    destruct chunk as [|b chunk]; [by apply wp_ret|].
    eapply wp_wand; [apply IH|..]; cbn beta.
    + rewrite Hin, length_app in Hn. cbn in Hn. lia.
    + intros _ w2 ?. by etrans.
    + intros e w2 [? ?]. split; [done|]. by etrans.
  - destruct (read_failed _ _ _ _ E) as (? & _ & ?). by split.
Qed.

Lemma finish_sending_ends k :
  (k < fuel)%nat → finite_in (bounded k) (finish_sending (C := C) (W := W) (L := L) fuel).
Proof.
  intros Hk. apply skip_errors_ends. finite_step.
  { by apply on_link_ends, handle_outgoing_ends. }
  finite_step; [finite_step|]. finite_step.
  - finite_step; [|finite_step]. apply on_link_ends, on_streams_ends;
      [intros ? ?; apply affords_same|auto with finite|apply write_eof_incoming].
  - apply finite_in_timeout, on_link_ends. intros l Hl. apply wp_on_streams.
    eapply wp_wand; [apply drain_peer_ends; destruct Hl as [Hb _]; unfold budget in Hb; lia|..]; cbn beta.
    + intros _ w Hw. by apply affords_streams.
    + intros e w [He Hw]. split; [done|by apply affords_streams].
Qed.

Lemma close_transport_finite : finite (close_transport (C := C) (W := W) (L := L)).
Proof.
  assert (∀ m : M W unit, finite m → finite (on_wire (C := C) (L := L) m)) as Hw.
  { intros m Hm c. apply wp_on_link. eapply wp_wand; [by apply finite_on_streams|done|done]. }
  unfold close_transport. repeat first [apply Hw | finite_step].
Qed.

Lemma close_ends k code c :
  (k < fuel)%nat → bounded k c →
  wp (close (C := C) (W := W) (L := L) fuel code) (λ _ _, True) (λ e _, e ≠ OutOfFuel) c.
Proof.
  intros Hk Hc. unfold close. apply wp_finally.
  assert (finite_in (bounded k) (_ ← close_session fuel code; _ ← close_tls; finish_sending fuel)) as Hm.
  { finite_step; [by apply close_session_ends|]. finite_step; [apply close_tls_ends|].
    by apply finish_sending_ends. }
  eapply wp_wand; [by apply Hm|..]; cbn beta.
  - intros _ c1 _. by apply close_transport_finite.
  - intros e c1 [He _]. eapply wp_wand; [by apply close_transport_finite|done|done].
Qed.

Lemma new_connection_bounded w o peer sock syn :
  bytes_ok (incoming w) → bytes_ok (default [] syn) →
  bounded (work o + 2 * length (incoming w)) (new_connection (C := C) w o peer sock syn).
Proof. intros Hw Hsyn. split_and!; [by split|done|by split]. Qed.

End connection.

(** C21: a connection comes to an end. Against a peer that sends finitely many octets,
    and if OpenSSL comes to rest and h2 returns, no method of a connection runs out of
    fuel: not the handshake, the request, the response nor closing, in whatever order,
    whatever the others make of the octets. Enough is more than the octets to come,
    counted twice, with what OpenSSL can do by itself; more than what a session
    captures at most. And of every connection a report can be made, before and after
    each of them, whatever it came to. *)
Theorem connection_ends {C W L} `{H2Connection C} `{Reading W} `{Resting L} h2_validate
    (new_h2 : C) fuel k :
  h2_finite C → (∀ l b, h2_validate l b ≠ Err OutOfFuel) →
  (k < fuel)%nat → (Z.to_nat MAX_CAPTURE_BYTES < fuel)%nat →
  let ends m := finite_in (bounded (C := C) (W := W) (L := L) k) m in
  (∀ (w : W) (o : L) peer sock syn,
     bytes_ok (incoming w) → bytes_ok (default [] syn) → (work o + 2 * length (incoming w) ≤ k)%nat →
     bounded k (new_connection (C := C) w o peer sock syn)) ∧
  ends (do_tls_handshake fuel) ∧
  ends (handle_http h2_validate new_h2 fuel) ∧
  (∀ content headers status, ends (send_response h2_validate fuel content headers status)) ∧
  (∀ c : @ClientConnection C W L, bounded k c → ∃ report, build_report (observed c) = Ok report) ∧
  (∀ code (c : @ClientConnection C W L), bounded k c → (close fuel code c).1 ≠ Err OutOfFuel).
Proof.
  intros Hh2 Hval Hk Hmax ends. assert (2 ≤ fuel)%nat as Hfuel by (assert (0 < MAX_CAPTURE_BYTES) by done; lia).
  split_and!.
  - intros w o peer sock syn Hw Hs Hb.
    destruct (new_connection_bounded (C := C) w o peer sock syn Hw Hs) as (Hl & Hc & Hr).
    split_and!; [by eapply affords_mono|done|done].
  - by apply handshake_ends.
  - by apply request_ends.
  - intros content headers status. by apply answer_ends.
  - intros c (_ & _ & Hr). by apply report_returns.
  - intros code c Hc. pose proof (close_ends Hh2 fuel Hfuel k code c Hk Hc) as Hw. unfold wp in Hw.
    destruct (close fuel code c) as [[[]|e] c']; [done|]. by intros [= ->].
Qed.

(** ** A witness *)

Definition served_client : pipe := mkPipe [sample_flight; u "GET / HTTP/1.1" ++ HEAD_END] [] false.

Definition served_connection : @ClientConnection (logged scripted) pipe clear :=
  new_connection served_client (mkClear [] [] None) None None None.

(** Witness of C21: from the hello to the close. *)
Lemma connection_ends_witness :
  let fuel := (1001 + Z.to_nat MAX_CAPTURE_BYTES)%nat in
  (try_finally
     (_ ← do_tls_handshake fuel;
      _ ← handle_http accept_all (conn (connection nearly_full)) fuel;
      send_response accept_all fuel [] None 200)
     (close fuel 0) served_connection).1 ≠ Err OutOfFuel.
Proof.
  intros fuel. assert (1000 < fuel ∧ Z.to_nat MAX_CAPTURE_BYTES < fuel)%nat as [Hk Hmax]
    by (unfold fuel; generalize (Z.to_nat MAX_CAPTURE_BYTES); lia).
  clearbody fuel.
  destruct (connection_ends (W := pipe) (L := clear) accept_all (conn (connection nearly_full)) fuel 1000
    scripted_finite ltac:(discriminate) Hk Hmax)
    as (Hnew & Hshake & Hrequest & Hanswer & _ & Hclose).
  assert (bounded 1000 served_connection) as Hc.
  { apply Hnew; [by apply (bool_decide_unpack _)|by apply Forall_nil|vm_compute; lia]. }
  assert (wp (try_finally
     (_ ← do_tls_handshake fuel;
      _ ← handle_http accept_all (conn (connection nearly_full)) fuel;
      send_response accept_all fuel [] None 200)
     (close fuel 0)) (λ _ _, True) (λ e _, e ≠ OutOfFuel) served_connection) as Hw.
  { assert (finite_in (bounded 1000) (_ ← do_tls_handshake fuel;
      _ ← handle_http accept_all (conn (connection nearly_full)) fuel;
      send_response accept_all fuel [] None 200)) as Hm.
    { apply finite_in_bind; [exact Hshake|]. intros []. apply finite_in_bind; [exact Hrequest|].
      intros []. apply Hanswer. }
    apply wp_finally. eapply wp_wand; [exact (Hm _ Hc)|..]; cbn beta.
    - intros [] c1 Hc1. specialize (Hclose 0 c1 Hc1). unfold wp. destruct (close fuel 0 c1) as [[]]; [done|intros ->; by apply Hclose].
    - intros e c1 [He Hc1]. specialize (Hclose 0 c1 Hc1). unfold wp.
      destruct (close fuel 0 c1) as [[[]|e'] c2]; [exact He|]. intros ->. by apply Hclose. }
  unfold wp in Hw. destruct (try_finally _ _ _) as [[[]|e] c]; [discriminate|]. intros [= ->]. by apply Hw.
Defined.
