(* ===== verification/ResponseSpec.v ===== *)
(** * The HTTP/1.1 response (src/solvetls/connection.py)

    The octets of a response and their way through OpenSSL: one message with the exact
    length of its content, given to OpenSSL once, at every behaviour of the streams. *)

From S2P Require Import Prelude PyText TlsEnums Naming ClientHello Extensions Frames HttpFields Http1.
From S2P Require Import Capture Adapter Session Client Streams Tls Connection HandshakeSpec.

(** ** The message *)

(** Text without line breaks, in ASCII. *)
Definition plain (t : text) : Prop := Forall (λ c, 32 ≤ c ≤ 126) t.
Definition plain_fields (hs : list (text * text)) : Prop := Forall (λ kv, plain kv.1 ∧ plain kv.2) hs.

#[local] Instance plain_dec t : Decision (plain t).
Proof. unfold plain. apply _. Defined.

Lemma plain_app a b : plain (a ++ b) ↔ plain a ∧ plain b.
Proof. apply Forall_app. Qed.

Lemma plain_lower t : plain t → plain (lower t).
Proof.
  unfold plain, lower. intros Ht. apply Forall_fmap. eapply Forall_impl; [exact Ht|].
  intros c Hc. cbn in *. unfold lower_char. destruct (_ || _) eqn:E; lia.
Qed.

Lemma ascii_encode t : Forall (λ c, c < 128) t → encode_utf8 t = t.
Proof.
  induction 1 as [|c t Hc Ht IH]; [done|]. unfold encode_utf8 in *. rewrite fmap_cons. cbn [concat].
  rewrite IH. unfold encode_utf8_char. destruct (Z.ltb_spec c 0x80); [done|lia].
Qed.

Lemma plain_set k v d : plain k → plain v → plain_fields d → plain_fields (dict_set k v d).
Proof.
  intros Hk Hv. induction 1 as [|[k' v'] d Hd Hds IH]; cbn [dict_set]; [by repeat constructor|].
  case_decide; by constructor.
Qed.

Lemma plain_merge d e : plain_fields d → plain_fields e → plain_fields (merge d e).
Proof.
  intros Hd He. revert d Hd. unfold merge. induction He as [|[k v] e [Hk Hv] He IH]; intros d Hd; [done|].
  apply IH. by apply plain_set.
Qed.

Lemma plain_lowered hs : plain_fields hs → plain_fields (dict_of ((λ kv, (lower kv.1, kv.2)) <$> hs)).
Proof.
  intros Hhs. apply (plain_merge [] _ (Forall_nil_2 _)). apply Forall_fmap. eapply Forall_impl; [exact Hhs|].
  intros [k v] [Hk Hv]. split; [by apply plain_lower|done].
Qed.

Lemma plain_int n : 0 ≤ n → plain (str_int n).
Proof.
  intros Hn. apply Forall_forall. intros c Hc. apply str_int_digits in Hc; [|done].
  unfold is_digit in Hc. lia.
Qed.

Lemma plain_reason status : plain (reason_phrase status).
Proof.
  unfold reason_phrase, status_phrase. destruct (List.find _ HTTPStatus) as [[c phrase]|] eqn:E.
  - apply find_some in E as [E _]. cbn.
    assert (Forall (λ s : Z * string, plain (u s.2)) HTTPStatus) as Hall by (apply (bool_decide_unpack _); by vm_compute).
    rewrite Forall_forall in Hall. exact (Hall _ (proj2 (list_elem_of_In _ _) E)).
  - by apply (bool_decide_unpack _).
Qed.

(** The lines of a head, joined. *)
Lemma join_lines l ls :
  l ++ CRLF ++ concat ((λ x, x ++ CRLF) <$> ls) = join CRLF (l :: ls) ++ CRLF.
Proof.
  revert l. induction ls as [|k ls IH]; intros l; [done|].
  change (join CRLF (l :: k :: ls)) with (l ++ CRLF ++ join CRLF (k :: ls)).
  rewrite fmap_cons. cbn [concat]. by rewrite <-!app_assoc, <-IH.
Qed.

Definition field_line_text (kv : text * text) : text := kv.1 ++ u ": " ++ kv.2.

(** One HTTP/1.1 message: its first empty line ends the head, whose lines are a status
    line and the fields; the rest is the content, of the length the fields say. *)
Definition message (status : Z) (fields : list (text * text)) (body octets : bytes) : Prop :=
  ∃ head,
    octets = head ++ HEAD_END ++ body ∧ find HEAD_END octets = Some (zlen head) ∧
    head_lines head =
      (u "HTTP/1.1 " ++ str_int status ++ u " " ++ reason_phrase status) ::
      (field_line_text <$> fields) ∧
    NoDup fields.*1 ∧
    dict_get (u "content-length") fields =
      (if no_content_status status then None else Some (str_int (zlen body))).

(** The fields of a response. *)
Definition response_fields (content : bytes) (hs : list (text * text)) (status : Z) : list (text * text) :=
  merge [(u "connection", u "close")] (prepare_response content (Some hs) status).2.

Lemma prepared_plain content hs status :
  plain_fields hs → plain_fields (prepare_response content (Some hs) status).2.
Proof.
  intros Hhs. apply plain_lowered in Hhs. unfold prepare_response. cbn [default].
  destruct (no_content_status status); cbn [snd].
  - unfold plain_fields in *. rewrite Forall_forall in Hhs |- *. intros kv [_ Hin]%list_elem_of_filter. by apply Hhs.
  - apply plain_set; [by apply (bool_decide_unpack _)|apply plain_int, zlen_nonneg|done].
Qed.

Lemma dict_get_reverse {V} k (d : list (text * V)) : NoDup d.*1 → dict_get k (reverse d) = dict_get k d.
Proof.
  intros Hd. assert (NoDup (reverse d).*1) as Hr by (by rewrite (reverse_Permutation d)).
  destruct (dict_get k d) as [v|] eqn:E.
  - apply dict_get_In; [done|]. rewrite (reverse_Permutation d). by apply dict_get_elem.
  - apply dict_get_None in E. apply dict_get_None. by rewrite (reverse_Permutation d).
Qed.

Lemma merge_NoDup {V} (d e : list (text * V)) : NoDup d.*1 → NoDup (merge d e).*1.
Proof.
  unfold merge. revert d. induction e as [|[k v] e IH]; intros d Hd; [done|]. apply IH. by apply dict_set_NoDup.
Qed.

(** What is encoded. *)
Definition http1_lines (line : text) (fields : list (text * text)) : text :=
  (line ++ CRLF) ++ concat ((λ kv, kv.1 ++ u ": " ++ kv.2 ++ CRLF) <$> fields) ++ CRLF.

(** Its octets are one message. *)
Lemma http1_response_message content hs status :
  0 ≤ status → plain_fields hs →
  message status (response_fields content hs status) (prepare_response content (Some hs) status).1
    (http1_response content (Some hs) status).
Proof.
  intros Hst Hhs. unfold http1_response, response_fields.
  pose proof (prepared_plain content hs status Hhs) as Hp.
  pose proof (prepare_response_framing content (Some hs) status) as Hpr.
  destruct (prepare_response content (Some hs) status) as [body prepared]. cbn [fst snd] in *. cbv zeta.
  set (fields := merge [(u "connection", u "close")] prepared).
  assert (plain_fields fields) as Hf.
  { apply plain_merge; [|done]. constructor; [by split; apply (bool_decide_unpack _)|constructor]. }
  set (line := u "HTTP/1.1 " ++ str_int status ++ u " " ++ reason_phrase status).
  assert (plain line) as Hl.
  { unfold line. rewrite !plain_app. split_and!; [by apply (bool_decide_unpack _)|by apply plain_int|
      by apply (bool_decide_unpack _)|apply plain_reason]. }
  set (ls := line :: (field_line_text <$> fields)).
  assert (Forall (λ l, plain l ∧ l ≠ []) ls) as Hls.
  { constructor; [by split|]. apply Forall_fmap. eapply Forall_impl; [exact Hf|]. intros [k v] [Hk Hv].
    unfold field_line_text. cbn in *. split; [|by destruct k].
    rewrite !plain_app. split_and!; [done|by apply (bool_decide_unpack _)|done]. }
  assert (Forall head_line ls) as Hhead.
  { eapply Forall_impl; [exact Hls|]. intros l [Hpl Hne]. split; [done|]. unfold plain in Hpl.
    rewrite Forall_forall in Hpl. intros H13%Hpl. lia. }
  assert (http1_lines line fields = join CRLF ls ++ HEAD_END) as Et.
  { unfold http1_lines, ls. change HEAD_END with (CRLF ++ CRLF). rewrite (app_assoc (join _ _)), <-join_lines.
    rewrite <-!app_assoc. do 3 f_equal. rewrite <-list_fmap_compose. f_equal. apply list_fmap_ext.
    intros _ [k v] _. unfold field_line_text. cbn. by rewrite <-!app_assoc. }
  assert (encode_utf8 (http1_lines line fields) = join CRLF ls ++ HEAD_END) as Ee.
  { rewrite Et. apply ascii_encode, Forall_app. split; [|by apply (bool_decide_unpack _)].
    apply join_Forall; [by apply (bool_decide_unpack _)|]. eapply Forall_impl; [exact Hls|].
    intros l [Hpl _]. eapply Forall_impl; [exact Hpl|]. cbn. lia. }
  replace (u "HTTP/1.1 " ++ str_int status ++ u " " ++ reason_phrase status ++ CRLF) with (line ++ CRLF)
    by (unfold line; by rewrite <-!app_assoc).
  change (message status fields body (encode_utf8 (http1_lines line fields) ++ body)).
  rewrite Ee, <-app_assoc. destruct Hpr as (Hnd & Hlen & _).
  exists (join CRLF ls). split_and!; [done| |by apply (head_lines_join [] ls); [left| |]| |].
  - unfold find. by rewrite find_head.
  - apply merge_NoDup. repeat constructor. set_solver.
  - unfold fields, merge. rewrite dict_get_merge, dict_get_reverse by done.
    destruct (no_content_status status); destruct Hlen as [-> ->]; done.
Qed.

(** ** On its way *)

Section sent.
Context {C W L : Type} `{H2Connection C} `{Streams W} `{SSLObject L}.
Context (h2_validate : list field → bool → result unit) (fuel : nat).
Abbreviation link_t := (@Link W (logged_tls L)).
Abbreviation conn_t := (@ClientConnection C W (logged_tls L)).
Implicit Types (l : link_t) (c : conn_t).

(** OpenSSL is asked for nothing. *)
Definition same_calls l l' : Prop := tls_calls (ssl_obj l') = tls_calls (ssl_obj l).

#[local] Instance same_calls_preorder : PreOrder same_calls.
Proof. unfold same_calls. split; [done|]. intros x y z Ha Hb. congruence. Qed.

Lemma streams_same_calls {A} (m : M W A) : stable same_calls (on_streams m).
Proof. intros l. unfold on_streams. by destruct (m (streams l)). Qed.

Lemma tls_same_calls {A} (m : M L A) : stable same_calls (on_ssl (log_tls m [])).
Proof.
  intros l. unfold on_ssl, same_calls. pose proof (log_tls_calls m [] (ssl_obj l)) as Hc.
  destruct (log_tls m [] (ssl_obj l)) as [r t]. by rewrite app_nil_r in Hc.
Qed.

Lemma outgoing_same_calls n : stable same_calls (outgoing_loop (W := W) (L := logged_tls L) n).
Proof.
  induction n as [|n IH]; cbn [outgoing_loop]; [apply stable_raise, _|].
  apply stable_bind; [apply _|apply stable_gets, _|]. intros p.
  destruct (p =? 0); [apply stable_ret, _|].
  apply stable_bind; [apply _|apply tls_same_calls|]. intros d.
  apply stable_bind; [apply _|apply streams_same_calls|]. intros [].
  apply stable_bind; [apply _| |intros []; apply IH].
  apply stable_try; [apply _|apply stable_timeout, streams_same_calls; apply _|].
  intros e. destruct (bool_decide _); apply stable_raise, _.
Qed.

(** Everything that was encrypted has been handed to the transport. *)
Lemma outgoing_empties n l :
  wp (outgoing_loop n) (λ _ l', bio_pending (ssl_obj l') = 0) (λ _ _, True) l.
Proof.
  revert l. induction n as [|n IH]; intros l; cbn [outgoing_loop]; [done|].
  apply wp_bind, wp_gets, wp_if; intros Hp; [apply wp_ret; by apply Z.eqb_eq|].
  apply wp_bind. unfold wp at 1. destruct (on_ssl bio_read l) as [[d|e] l1]; [|done].
  apply wp_bind. unfold wp at 1. destruct (on_streams (writer_write d) l1) as [[[]|e] l2]; [|done].
  apply wp_bind. unfold wp at 1. destruct (try_except _ _ l2) as [[[]|e] l3]; [apply IH|done].
Qed.

Lemma flushed l :
  wp (_handle_outgoing_data fuel) (λ _ l', same_calls l l' ∧ bio_pending (ssl_obj l') = 0)
    (λ _ l', same_calls l l') l.
Proof.
  eapply wp_wand; [apply wp_and; [apply (stable_wp same_calls), outgoing_same_calls|apply outgoing_empties]|..];
    [by intros [] l'|by intros e l' [? _]].
Qed.

(** What a write may ask of OpenSSL: the plaintext, once; or nothing but to answer a
    close_notify. *)
Definition asked (octets : bytes) (calls calls' : list tls_call) : Prop :=
  ∃ ds, calls' = calls ++ ds ∧ (ds = [] ∨ ds = [TUnwrap] ∨ ds = [TWrite octets]).

Lemma asked_nothing octets calls : asked octets calls calls.
Proof. exists []. rewrite app_nil_r. auto. Qed.

Lemma write_asks octets l :
  wp (write fuel octets)
    (λ _ l', tls_calls (ssl_obj l') = tls_calls (ssl_obj l) ++ [TWrite octets] ∧ bio_pending (ssl_obj l') = 0)
    (λ _ l', asked octets (tls_calls (ssl_obj l)) (tls_calls (ssl_obj l'))) l.
Proof.
  unfold write. apply wp_bind, wp_gets, wp_if; intros _.
  - apply wp_bind. unfold _answer_peer_close. apply wp_bind, wp_gets, wp_bind.
    set (unwrapped := λ l', ∃ ds, tls_calls (ssl_obj l') = tls_calls (ssl_obj l) ++ ds ∧ (ds = [] ∨ ds = [TUnwrap])).
    assert (∀ l', unwrapped l' → asked octets (tls_calls (ssl_obj l)) (tls_calls (ssl_obj l'))) as Hask.
    { intros l' (ds & E & Hds). exists ds. split; [done|]. tauto. }
    eapply (wp_wand _ (λ _, unwrapped) _ (λ _, unwrapped)); [| |intros e l'; apply Hask].
    + apply wp_if; intros _; [apply wp_ret; exists []; by rewrite app_nil_r; auto|].
      apply wp_bind, wp_try, wp_on_ssl, wp_log; intros ? t' Et.
      * apply wp_modify. exists [TUnwrap]. auto.
      * apply wp_if; intros _; [apply wp_ret, wp_modify|apply wp_raise]; exists [TUnwrap]; auto.
    + intros [] l1 (ds & E1 & Hds). eapply wp_wand; [apply flushed|..]; cbn beta.
      * intros [] l2 [E2 _]. apply wp_raise, Hask. exists ds. split; [|done]. by rewrite E2.
      * intros e l2 E2. apply Hask. exists ds. split; [|done]. by rewrite E2.
  - apply wp_bind, wp_on_ssl, wp_log; intros ? t' Et.
    + eapply wp_wand; [apply flushed|..]; cbn beta.
      * intros [] l2 [E2 Hp]. split; [|done]. by rewrite E2.
      * intros e l2 E2. exists [TWrite octets]. split; [by rewrite E2|auto].
    + exists [TWrite octets]. auto.
Qed.

(** C12: an HTTP/1.1 response is one message, sent once. Its octets have one head, whose
    lines are the status line and the fields and nothing that a field value smuggled in,
    and behind it exactly the content that Content-Length announces, or none where the
    status allows none. OpenSSL is given exactly these octets, and when [send_response]
    returns it has nothing left that was not handed to the transport; when it raises, the
    octets were given whole or not at all. *)
Theorem http1_response_sent c content headers status :
  http_version (observed c) = Some HTTP_1_1 → 0 ≤ status →
  plain (http_date (streams (link c))) → plain_fields (default [] headers) →
  let fields := dated_headers (http_date (streams (link c))) headers in
  let octets := http1_response content (Some fields) status in
  message status (response_fields content fields status) (prepare_response content (Some fields) status).1 octets ∧
  let '(r, c') := send_response h2_validate fuel content headers status c in
  match r with
  | Ok _ =>
      tls_calls (ssl_obj (link c')) = tls_calls (ssl_obj (link c)) ++ [TWrite octets] ∧
      bio_pending (ssl_obj (link c')) = 0
  | Err _ => asked octets (tls_calls (ssl_obj (link c))) (tls_calls (ssl_obj (link c')))
  end.
Proof.
  intros Hv Hst Hd Hhs fields octets. split.
  { apply http1_response_message; [done|]. apply plain_merge; [|by apply plain_lowered].
    constructor; [split; [by apply (bool_decide_unpack _)|done]|constructor]. }
  set (Q := λ (r : result unit) c', match r with
    | Ok _ => tls_calls (ssl_obj (link c')) = tls_calls (ssl_obj (link c)) ++ [TWrite octets] ∧
        bio_pending (ssl_obj (link c')) = 0
    | Err _ => asked octets (tls_calls (ssl_obj (link c))) (tls_calls (ssl_obj (link c')))
    end).
  enough (wp (send_response h2_validate fuel content headers status) (λ a, Q (Ok a)) (λ e, Q (Err e)) c) as Hw.
  { unfold wp in Hw. by destruct (send_response h2_validate fuel content headers status c) as [[]]. }
  unfold send_response. apply wp_bind, wp_gets. fold fields. apply wp_timeout.
  eapply (wp_wand _ (λ a, Q (Ok a)) _ (λ e, Q (Err e))); [|done|by split].
  apply wp_bind, wp_gets. rewrite bool_decide_false by (rewrite Hv; by intros [=]).
  rewrite bool_decide_true by done. apply wp_on_link. unfold _send_http1_response. fold octets.
  eapply wp_wand; [apply write_asks|by intros [] l'|done].
Qed.

End sent.

(** ** Witness *)

Definition answering : @ClientConnection scripted pipe (logged_tls clear) :=
  mkConnection (mkLink (mkPipe [] [] false) (mkTls (mkClear [] [] None) []) false false false)
    (set_http_version HTTP_1_1 (new_observed None None None)) None.

(** Witness of C12: a report that is refused. *)
Lemma http1_response_sent_witness :
  let '(r, c') := send_response (λ _ _, Ok tt) 9 [] (Some [(u "cache-control", u "no-store")]) 503 answering in
  r = Ok tt ∧ ∃ octets, tls_calls (ssl_obj (link c')) = [TWrite octets] ∧
    ∃ fields, message 503 fields [] octets.
Proof.
  pose proof (http1_response_sent (λ _ _, Ok tt) 9 answering [] (Some [(u "cache-control", u "no-store")]) 503
    eq_refl ltac:(lia) ltac:(by apply (bool_decide_unpack _)) ltac:(by apply (bool_decide_unpack _))) as [Hm Hr].
  assert ((send_response (λ _ _, Ok tt) 9 [] (Some [(u "cache-control", u "no-store")]) 503 answering).1 = Ok tt) as E
    by (vm_compute; reflexivity).
  destruct (send_response _ 9 [] _ 503 answering) as [r c']. cbn [fst] in E. subst r.
  split; [reflexivity|]. eexists. split; [exact (proj1 Hr)|]. eexists. exact Hm.
Defined.
