(* ===== verification/RequestSpec.v ===== *)
(** * The request of a connection (src/solvetls/connection.py)

    What [handle_http] keeps of either protocol is a part of the plaintext the client
    sent, wherever TLS records, network reads and failures fall. *)

From S2P Require Import Prelude PyText TlsEnums Naming ClientHello Extensions Frames HttpFields Http1.
From S2P Require Import Capture Adapter Session SessionLemmas SessionTransport Client Streams Tls Connection HandshakeSpec.
From S2P Require Import FrameSpec Fingerprints Report Json JsonSpec ReportSpec SessionSpec Redirect.

Section link.
Context {W L : Type} `{Reading W} `{Decrypting L}.
Implicit Types (l : @Link W L).

(** The plaintext that a connection has yet to deliver. *)
Definition link_plain l : bytes := plaintext (ssl_obj l) (incoming (streams l)).

Definition same_plain l l' : Prop := link_plain l' = link_plain l.

#[export] Instance same_plain_preorder : PreOrder same_plain.
Proof. unfold same_plain. split; [done|]. intros x y z Ha Hb. congruence. Qed.

Lemma plain_streams {A} (m : M W A) :
  (∀ w, incoming (m w).2 = incoming w) → stable same_plain (on_streams m).
Proof.
  intros Hm l. unfold on_streams, same_plain, link_plain. specialize (Hm (streams l)).
  destruct (m (streams l)) as [r w]. cbn in *. by rewrite Hm.
Qed.

Lemma plain_bio_read : stable same_plain (on_ssl bio_read).
Proof.
  intros l. unfold on_ssl, same_plain, link_plain.
  pose proof (bio_read_plaintext (ssl_obj l) (incoming (streams l))).
  by destruct (bio_read (ssl_obj l)) as [r o].
Qed.

Lemma outgoing_plain n : stable same_plain (outgoing_loop n).
Proof.
  induction n as [|n IH]; cbn [outgoing_loop]; [apply stable_raise, _|].
  apply stable_bind; [apply _|apply stable_gets, _|]. intros p.
  destruct (p =? 0); [apply stable_ret, _|].
  apply stable_bind; [apply _|apply plain_bio_read|]. intros d.
  apply stable_bind; [apply _|apply plain_streams, write_incoming|]. intros [].
  apply stable_bind; [apply _| |intros []; apply IH].
  apply stable_try; [apply _|apply stable_timeout, plain_streams, drain_incoming; apply _|].
  intros e. destruct (bool_decide _); apply stable_raise, _.
Qed.

Lemma drain_plaintext_spec n chunks l :
  wp (drain_plaintext_loop n chunks)
    (λ b l', ∃ more, b = chunks ++ more ∧ link_plain l = more ++ link_plain l') (λ _ _, True) l.
Proof.
  revert chunks l. induction n as [|n IH]; intros chunks l; cbn [drain_plaintext_loop]; [done|].
  apply wp_bind, wp_try, wp_bind, wp_on_ssl. unfold wp at 1.
  destruct (ssl_read PLAINTEXT_CHUNK_SIZE (ssl_obj l)) as [[c|e] o] eqn:E.
  - apply wp_ret. pose proof (ssl_read_plaintext _ _ _ _ (incoming (streams l)) E) as Hp.
    destruct c as [|b c].
    + apply wp_bind, wp_modify, wp_ret. exists []. by rewrite app_nil_r.
    + eapply wp_wand; [apply IH| |done]. intros d l' (more & -> & Hm).
      exists ((b :: c) ++ more). rewrite <-app_assoc. split; [done|].
      change (link_plain l = ((b :: c) ++ more) ++ link_plain l'). rewrite <-app_assoc, <-Hm. exact Hp.
  - destruct e; try done; apply wp_ret; apply wp_ret; exists []; (split; [by rewrite app_nil_r|]);
      symmetry; eapply ssl_wait_plaintext; eauto.
Qed.

(** A read that returns gives the next octets of the plaintext, one at least. *)
Lemma plain_read_spec fuel size l :
  0 < size →
  wp (read_loop fuel fuel size) (λ b l', b ≠ [] ∧ link_plain l = b ++ link_plain l') (λ _ _, True) l.
Proof.
  intros Hsize. enough (∀ n l, wp (read_loop fuel n size)
    (λ b l', b ≠ [] ∧ link_plain l = b ++ link_plain l') (λ _ _, True) l) by auto.
  clear l. induction n as [|n IH]; intros l; cbn [read_loop]; [done|].
  apply wp_bind. eapply wp_wand; [apply drain_plaintext_spec| |done]. intros b l1 (more & -> & Hl1).
  cbn [app] in *. apply wp_bind. eapply wp_wand; [apply (stable_wp same_plain), outgoing_plain| |done].
  cbn beta. intros [] l2 Hl2. apply wp_bind, wp_gets, wp_if; intros _.
  { apply wp_bind. unfold wp at 1. by destruct (_answer_peer_close fuel l2) as [[[]|e] l3]. }
  rewrite <-Hl2 in Hl1. destruct more as [|c more]; [|by apply wp_ret].
  apply wp_bind, wp_gets, wp_if; intros _; [done|].
  apply wp_bind, wp_try, wp_timeout, wp_on_streams. unfold wp at 1.
  destruct (reader_read size (streams l2)) as [[d|e] w] eqn:E.
  2:{ split; by apply wp_if; intros _; apply wp_raise. }
  destruct (read_incoming _ _ _ _ Hsize E) as (Hin & _ & _). destruct d as [|c d]; [done|].
  apply wp_bind, wp_on_ssl. unfold wp at 1.
  destruct (bio_write (c :: d) (ssl_obj (set_streams w l2))) as [[[]|e] o] eqn:Eb; [|done].
  eapply wp_wand; [apply IH| |done]. intros b l3 [Hne Hl3]. split; [done|].
  rewrite Hl1, <-Hl3. cbn [app]. unfold link_plain. rewrite Hin. by eapply bio_write_plaintext.
Qed.

Lemma write_plain fuel d : confined same_plain (λ _ _, True) (write fuel d).
Proof.
  intros l. unfold write. apply wp_bind, wp_gets, wp_if; intros _.
  { apply wp_bind. unfold wp at 1. by destruct (_answer_peer_close fuel l) as [[[]|e] l3]. }
  apply wp_bind, wp_on_ssl. pose proof (ssl_write_plaintext d (ssl_obj l) (incoming (streams l))) as Hp.
  unfold wp at 1. destruct (ssl_write d (ssl_obj l)) as [[[]|e] o]; [|done].
  eapply wp_wand; [apply (stable_wp same_plain), outgoing_plain| |done]. cbn beta. intros [] l' Hl'.
  unfold same_plain in *. rewrite Hl'. exact Hp.
Qed.

End link.

(** ** HTTP/1.1 *)

Section http1.
Context {W L : Type} `{Reading W} `{Decrypting L}.
Implicit Types (l : @Link W L).

Lemma http1_head_spec fuel n data whole l :
  whole = data ++ link_plain l →
  wp (http1_head_loop fuel n data) (λ head _, complete_head whole head) (λ _ _, True) l.
Proof.
  revert data l. induction n as [|n IH]; intros data l Hw; cbn [http1_head_loop];
    apply wp_bind, wp_lift; try done; intros [] Hck; destruct (find HEAD_END data) as [e|] eqn:Ef.
  - apply wp_ret. rewrite Hw. by apply head_found.
  - done.
  - apply wp_ret. rewrite Hw. by apply head_found.
  - apply wp_bind. eapply wp_wand; [by apply plain_read_spec| |done]. intros more l' [_ Hl].
    apply IH. by rewrite Hw, Hl, app_assoc.
Qed.

Lemma preface_spec fuel n buffered whole l :
  whole = buffered ++ link_plain l →
  wp (preface_loop fuel n buffered) (λ b l', whole = b ++ link_plain l') (λ _ _, True) l.
Proof.
  revert buffered l. induction n as [|n IH]; intros b l Hw; cbn [preface_loop];
    apply wp_if; intros _; try done.
  apply wp_bind. eapply wp_wand; [by apply plain_read_spec| |done]. intros more l' [_ Hl].
  assert (whole = (b ++ more) ++ link_plain l') as Hw' by (by rewrite Hw, Hl, app_assoc).
  apply wp_if; intros _; [by apply wp_ret|by apply IH].
Qed.

End http1.

(** ** The two protocols *)

Section handle.
Context {C W L : Type} `{H2Connection C} `{Reading W} `{Decrypting L}.
Context (h2_validate : list field → bool → result unit) (new_h2 : C).
Abbreviation conn_t := (@ClientConnection C W L).
Implicit Types (c : conn_t).

(** What an HTTP/1.1 connection keeps is in the plaintext [whole]. *)
Definition http1_seen (whole : bytes) (o : Observed) : Prop :=
  http_version o = Some HTTP_1_1 ∧ http2 o = None ∧
  (∀ head, http1_raw_head o = Some head → complete_head whole head) ∧
  (∀ request, http1 o = Some request →
     ∃ head, http1_raw_head o = Some head ∧ parse_request head = Ok request).

(** The frames of an HTTP/2 connection are the plaintext behind the preface. *)
Definition http2_seen (whole : bytes) (o : Observed) : Prop :=
  http_version o = Some HTTP_2_0 ∧ http1 o = None ∧ http1_raw_head o = None ∧
  ∀ capture, http2 o = Some capture →
    Forall (λ f, frame_of (pf_raw f) f) (frames capture) ∧
    (frames capture = [] ∨ HTTP2_PREFACE ++ raw_octets (frames capture) `prefix_of` whole).

(** Nothing of a request is there yet. *)
Definition fresh c : Prop :=
  http1 (observed c) = None ∧ http1_raw_head (observed c) = None ∧ http2 (observed c) = None ∧
  _http2_session c = None.

Lemma handle_http1_spec fuel c :
  fresh c → selected_alpn_protocol (ssl_obj (link c)) ≠ Some (u "h2") →
  let whole := link_plain (link c) in
  wp (handle_http h2_validate new_h2 fuel)
    (λ _ c', http1_seen whole (observed c') ∧ http1 (observed c') ≠ None)
    (λ _ c', http1_seen whole (observed c')) c.
Proof.
  intros (Hf1 & Hf2 & Hf3 & _) Halpn whole. unfold handle_http. apply wp_timeout.
  eapply (wp_wand _ (λ _ c', http1_seen whole (observed c') ∧ http1 (observed c') ≠ None) _
    (λ _ c', http1_seen whole (observed c'))); [|done|by split].
  apply wp_bind, wp_gets. rewrite bool_decide_false by done. apply wp_bind, wp_modify.
  assert (http1_seen whole (set_http_version HTTP_1_1 (observed c))) as Hnone.
  { split_and!; [done|done|intros h; cbn; congruence|intros r; cbn; congruence]. }
  apply wp_bind, wp_on_link. eapply wp_wand; [by apply plain_read_spec|cbn beta|done].
  intros first l1 [_ Hl1]. apply wp_bind, wp_on_link.
  eapply wp_wand; [apply (http1_head_spec _ _ _ whole); exact Hl1|cbn beta|done].
  intros head l2 Hhead. apply wp_bind, wp_modify, wp_bind, wp_lift.
  - intros request Hreq. apply wp_modify. split; [|done]. split_and!; [done|done| |].
    + by intros h [= <-].
    + intros r [= <-]. by exists head.
  - intros e _. split_and!; [done|done|by intros h [= <-]|]. intros r. cbn. congruence.
Qed.

Lemma wp_on_session {A} (m : M (@HTTP2Session C (@Link W L)) A) (Q : A → conn_t → Prop) E c s :
  _http2_session c = Some s →
  wp m (λ a s', Q a (mkConnection (transport s') (set_http2 (capture s') (observed c)) (Some s')))
    (λ e s', E e (mkConnection (transport s') (set_http2 (capture s') (observed c)) (Some s')))
    (set_transport (link c) s) →
  wp (on_session m) Q E c.
Proof.
  intros Hs. unfold wp, on_session. rewrite Hs. by destruct (m (set_transport (link c) s)) as [[a|e] s'].
Qed.

(** The connection of a request that is complete. *)
Definition http2_complete (whole : bytes) c : Prop :=
  http2_seen whole (observed c) ∧
  ∃ s, _http2_session c = Some s ∧ http2 (observed c) = Some (capture s) ∧
    whole = HTTP2_PREFACE ++ raw_octets (frames (capture s)) ++ _buffer s ++ link_plain (link c).

Lemma handle_http2_spec fuel c :
  fresh c → selected_alpn_protocol (ssl_obj (link c)) = Some (u "h2") →
  let whole := link_plain (link c) in
  bytes_ok whole →
  wp (handle_http h2_validate new_h2 fuel) (λ _, http2_complete whole)
    (λ _ c', http2_seen whole (observed c')) c.
Proof.
  intros (Hf1 & Hf2 & Hf3 & _) Halpn whole Hwhole. unfold handle_http. apply wp_timeout.
  eapply (wp_wand _ (λ _, http2_complete whole) _ (λ _ c', http2_seen whole (observed c')));
    [|done|by split].
  apply wp_bind, wp_gets. rewrite bool_decide_true by done. apply wp_bind, wp_modify.
  assert (∀ o', http2 o' = None → http_version o' = Some HTTP_2_0 → http1 o' = None →
    http1_raw_head o' = None → http2_seen whole o') as Hnone.
  { intros o' E1 E2 E3 E4. split_and!; [done..|]. intros cap. by rewrite E1. }
  assert (∀ (s' : @HTTP2Session C (@Link W L)) o', seen_frames whole s' → http_version o' = Some HTTP_2_0 → http1 o' = None →
    http1_raw_head o' = None → http2_seen whole (set_http2 (capture s') o')) as Hseen.
  { intros s' o' Hs E2 E3 E4. split_and!; [done..|]. by intros cap [= <-]. }
  apply wp_bind, wp_on_link. eapply wp_wand; [apply (preface_spec _ _ [] whole); done|cbn beta|].
  2:{ intros e l _. by apply Hnone. }
  intros incoming l1 Hl1. apply wp_bind, wp_modify.
  set (c1 := mkConnection _ _ _).
  assert (∀ l b l', @t_read _ (link_transport fuel) l = (Ok b, l') → link_plain l = b ++ link_plain l') as Hread.
  { intros l b l' E. pose proof (plain_read_spec fuel (Z.min READ_SIZE PLAINTEXT_CHUNK_SIZE) l ltac:(done)) as Hr.
    apply (wp_run _ _ _ _ _ _ Hr) in E. by destruct E. }
  assert (∀ d l l', @t_write _ (link_transport fuel) d l = (Ok tt, l') → link_plain l' = link_plain l) as Hwrite.
  { intros d l l' E. by apply (wp_run _ _ _ _ _ _ (write_plain fuel d l)) in E. }
  apply wp_bind. eapply wp_on_session; [reflexivity|].
  eapply wp_wand; [apply (initialize_sync (H0 := link_transport fuel) h2_validate link_plain Hwrite whole Hwhole
    incoming l1 new_h2 Hl1)|..]; cbn beta.
  2:{ intros e s' Hs. by apply Hseen. }
  intros [] s1 Hs1. eapply wp_on_session; [reflexivity|].
  assert (set_transport (transport s1) s1 = s1) as Heta by (by destruct s1).
  cbn [link]. rewrite Heta.
  eapply wp_wand; [apply (wait_sync (H0 := link_transport fuel) h2_validate link_plain Hread Hwrite whole Hwhole fuel s1 Hs1)|..];
    cbn beta.
  - intros [] s2 Hs2. split; [apply Hseen; [by eapply in_sync_seen|done..]|]. exists s2. split_and!; [done|done|apply Hs2].
  - intros e s2 Hs2. by apply Hseen.
Qed.

(** C5: an HTTP/1.1 connection shows the request its client sent. Whenever reading ends,
    the raw head that is kept, if any, is the plaintext up to and with its first empty
    line, within the size limit, and the request that is kept is what the parser makes
    of that head; if [handle_http] returns, there is one. Neither depends on how the
    plaintext is cut into TLS records and network reads. *)
Theorem http1_request_faithful fuel c :
  fresh c → selected_alpn_protocol (ssl_obj (link c)) ≠ Some (u "h2") →
  let '(r, c') := handle_http h2_validate new_h2 fuel c in
  http1_seen (link_plain (link c)) (observed c') ∧ (r = Ok tt → http1 (observed c') ≠ None).
Proof.
  intros Hf Ha. pose proof (handle_http1_spec fuel c Hf Ha) as Hw. unfold wp in Hw.
  destruct (handle_http h2_validate new_h2 fuel c) as [[[]|e] c']; [|done]. by destruct Hw.
Qed.

(** C6: an HTTP/2 connection shows the frames its client sent, however the session ends.
    The frames that the report shows, one after the other, are the plaintext right behind
    the connection preface, octet for octet, and each is decoded as its octets say; if
    [handle_http] returns, what follows them is exactly what is still in the session's
    buffer and what is still to be read. *)
Theorem http2_capture_faithful fuel c :
  fresh c → selected_alpn_protocol (ssl_obj (link c)) = Some (u "h2") →
  bytes_ok (link_plain (link c)) →
  let '(r, c') := handle_http h2_validate new_h2 fuel c in
  http2_seen (link_plain (link c)) (observed c') ∧
  (r = Ok tt → http2_complete (link_plain (link c)) c').
Proof.
  intros Hf Ha Hb. pose proof (handle_http2_spec fuel c Hf Ha Hb) as Hw. unfold wp in Hw.
  destruct (handle_http h2_validate new_h2 fuel c) as [[[]|e] c']; [|done]. by split; [apply Hw|].
Qed.

End handle.

(** ** Every request is reported *)

Section reported.
Context {C W L : Type} `{H2Connection C} `{Reading W} `{Decrypting L}.
Context (h2_validate : list field → bool → result unit) (new_h2 : C).
Abbreviation conn_t := (@ClientConnection C (traced W) (logged_tls L)).
Implicit Types (c : conn_t).

(** The handshake observes nothing but the hello. *)
Definition only_hello c c' : Prop :=
  _http2_session c' = _http2_session c ∧ syn_packet (observed c') = syn_packet (observed c) ∧
  http1 (observed c') = http1 (observed c) ∧
  http1_raw_head (observed c') = http1_raw_head (observed c) ∧ http2 (observed c') = http2 (observed c) ∧
  peername (observed c') = peername (observed c) ∧ sockname (observed c') = sockname (observed c).

#[local] Instance only_hello_preorder : PreOrder only_hello.
Proof.
  unfold only_hello. split; [done|]. intros x y z (?&?&?&?&?&?&?) (?&?&?&?&?&?&?). split_and!; congruence.
Qed.

Lemma link_only_hello {A} (m : M (@Link (traced W) (logged_tls L)) A) : stable only_hello (on_link m).
Proof. intros c. unfold on_link. by destruct (m (link c)). Qed.
#[local] Hint Resolve link_only_hello : stable.

Lemma handshake_only_hello fuel : stable only_hello (do_tls_handshake (C := C) fuel).
Proof.
  unfold do_tls_handshake. apply stable_timeout; [apply _|].
  apply stable_bind; [apply _| |].
  - apply stable_timeout; [apply _|]. apply stable_bind; [apply _|auto with stable|].
    intros [raw hello]. apply stable_bind; [apply _|by apply stable_modify|].
    intros []. apply stable_ret, _.
  - intros [data hello]. repeat stable_step.
Qed.

(** The request does not touch the rest. *)
Definition same_hello c c' : Prop :=
  client_hello (observed c') = client_hello (observed c) ∧
  syn_packet (observed c') = syn_packet (observed c) ∧
  peername (observed c') = peername (observed c) ∧ sockname (observed c') = sockname (observed c).

#[local] Instance same_hello_preorder : PreOrder same_hello.
Proof. unfold same_hello. split; [done|]. intros x y z (?&?&?&?) (?&?&?&?). split_and!; congruence. Qed.

Lemma handle_same_hello fuel : stable same_hello (handle_http h2_validate new_h2 fuel).
Proof.
  assert (∀ A (m : M (@Link (traced W) (logged_tls L)) A), stable same_hello (on_link m)) as Hl.
  { intros A m c. unfold on_link. by destruct (m (link c)). }
  assert (∀ A (m : M (@HTTP2Session C (@Link (traced W) (logged_tls L))) A), stable same_hello (on_session m)) as Hs.
  { intros A m c. unfold on_session. destruct (_http2_session c); [|done]. by destruct (m _). }
  unfold handle_http. apply stable_timeout; [apply _|].
  repeat first [apply Hl|apply Hs|apply stable_modify; intros ?; split_and!; reflexivity|stable_step].
Qed.

Lemma octets_of fs whole :
  bytes_ok whole → fs = [] ∨ HTTP2_PREFACE ++ raw_octets fs `prefix_of` whole →
  Forall (λ f, bytes_ok (pf_raw f)) fs.
Proof.
  intros Hw [->|[k ->]]; [constructor|]. rewrite !bytes_ok_app in Hw. destruct Hw as [[_ Hw] _].
  unfold raw_octets in Hw. induction fs as [|f fs IH]; [constructor|].
  cbn in Hw. apply bytes_ok_app in Hw as [Hf Hfs]. constructor; auto.
Qed.

(** C7: whatever a client sends after its handshake, the report can be built and read:
    when [handle_http] has returned or raised, the hello is in range, the head consists of
    octets and the frames are what their octets say, so [build_report] returns; and where
    the header fields that h2 hands over are octets, what it returns is JSON whose text
    reads back as the report. *)
Theorem request_reported fuel (w : W) (o : L) peer sock syn c r c' :
  bytes_ok (incoming w) → bytes_ok (default [] syn) →
  do_tls_handshake fuel (new_connection (mkTraced w []) (mkTls o []) peer sock syn) = (Ok tt, c) →
  bytes_ok (link_plain (link c)) → handle_http h2_validate new_h2 fuel c = (r, c') →
  observed_ok (observed c') ∧ ∃ report, build_report (observed c') = Ok report ∧
    ((∀ a, peer = Some a → chars a.1) → (∀ a, sock = Some a → chars a.1) →
     (∀ capture, http2 (observed c') = Some capture →
        octet_fields (default [] (Capture.headers capture)) ∧ octet_fields (trailers capture)) →
     observed_text (observed c') ∧ loads (dumps 0 (JDict report)) = Some (JDict report)).
Proof.
  intros Hw Hsyn Hh Hp Hr.
  pose proof (handshake_only_hello fuel (new_connection (mkTraced w []) (mkTls o []) peer sock syn)) as Ho.
  pose proof (handshake_spec (C := C) fuel w o peer sock syn Hw) as Hspec. rewrite Hh in Ho, Hspec.
  destruct Ho as (E1 & E2 & E3 & E4 & E5 & E6 & E7). cbn [snd] in *.
  assert (fresh c) as Hfresh by (split_and!; done).
  assert (∀ ch, client_hello (observed c) = Some ch → client_hello_ok ch) as Hch.
  { intros ch Ech. destruct Hspec as [Hno _ _|raw hello Hno _ _ _ _ _|raw hello ds [Hraw (body & Hb & Hparse)] _ Eh _ _ _ _];
      [done|done|]. assert (ch = hello) as -> by congruence.
    assert (bytes_ok raw) as Hraw' by (destruct Hraw as [k Hk]; rewrite Hk in Hw; apply bytes_ok_app in Hw; tauto).
    pose proof (parse_client_hello_sound body (hello_octets_ok _ _ Hb Hraw')) as Hs.
    rewrite Hparse in Hs. apply Hs. }
  pose proof (handle_same_hello fuel c) as Hsame. rewrite Hr in Hsame. destruct Hsame as (S1 & S2 & S3 & S4). cbn [snd] in *.
  assert (http1_seen (link_plain (link c)) (observed c') ∨ http2_seen (link_plain (link c)) (observed c')) as Hseen.
  { destruct (decide (selected_alpn_protocol (ssl_obj (link c)) = Some (u "h2"))) as [Ha|Ha]; [right|left].
    - pose proof (wp_run _ _ _ _ _ _ (handle_http2_spec h2_validate new_h2 fuel c Hfresh Ha Hp) Hr) as Hs.
      destruct r; [apply Hs|exact Hs].
    - pose proof (wp_run _ _ _ _ _ _ (handle_http1_spec h2_validate new_h2 fuel c Hfresh Ha) Hr) as Hs.
      destruct r; [apply Hs|exact Hs]. }
  assert (observed_ok (observed c')) as Hok.
  { split.
    - by rewrite S2, E2.
    - intros ch Ech. apply Hch. congruence.
    - intros h Eh. destruct Hseen as [(_ & _ & Hs & _)|(_ & _ & Hs & _)]; [|congruence].
      destruct (Hs h Eh) as (pre & rest & -> & Hwh & _). rewrite Hwh in Hp. rewrite !bytes_ok_app in *. tauto.
    - intros h2 E. destruct Hseen as [(_ & Hs & _)|(_ & _ & _ & Hs)]; [congruence|].
      destruct (Hs h2 E) as [Hf Hpre]. pose proof (octets_of _ _ Hp Hpre) as Hoct.
      apply Forall_and. split; [|done]. eapply Forall_impl; [exact Hf|].
      intros f (_ & hb & pl & k & Hraw & _ & _ & Hout). by eexists _, _, _, _. }
  split; [done|]. destruct (report_total _ Hok) as [report Er]. exists report. split; [done|].
  intros Hpeer Hsock Hfields. assert (observed_text (observed c')) as Ht.
  { split; [by rewrite S3, E6|by rewrite S4, E7| | |done].
    - intros v Ev. destruct Hseen as [(Hv & _)|(Hv & _)]; rewrite Hv in Ev; injection Ev as <-; apply u_chars.
    - intros r1 Er1. destruct Hseen as [(_ & _ & Hhead & Hs)|(_ & Hno & _)]; [|congruence].
      destruct (Hs r1 Er1) as (head & Eh & Hparse). exists head. split; [|done]. by apply (ob_head _ Hok). }
  split; [done|]. apply dumps_loads, dict_text. by eapply report_text.
Qed.

End reported.

(** ** Witnesses *)

Definition http1_client : pipe := mkPipe [sample_head ++ u "body"] [] false.

Definition http2_octets : bytes := HTTP2_PREFACE ++ client_settings ++ client_headers ++ client_data.

Definition http2_client (before : bytes) : pipe :=
  mkPipe [before; take 40 http2_octets; drop 40 http2_octets] [] false.

Definition sample_h2 : scripted := mkScripted sample_events None [].

(** Witness of C5 *)
Lemma http1_request_faithful_witness :
  let c := new_connection (C := scripted) http1_client (mkClear [] [] None) None None None in
  http1 (observed (handle_http accept_all sample_h2 100 c).2) ≠ None ∧
  complete_head (sample_head ++ u "body") sample_head.
Proof.
  set (c := new_connection _ _ _ _ _).
  pose proof (http1_request_faithful accept_all sample_h2 100 c
    ltac:(split_and!; reflexivity) ltac:(discriminate)) as Hr.
  assert ((handle_http accept_all sample_h2 100 c).1 = Ok tt ∧
    http1_raw_head (observed (handle_http accept_all sample_h2 100 c).2) = Some sample_head) as [E1 E2]
    by (vm_compute; split; reflexivity).
  cbn zeta. destruct (handle_http accept_all sample_h2 100 c) as [r c']. cbn [fst snd] in *.
  destruct Hr as [(_ & _ & Hh & _) Hn]. split; [exact (Hn E1)|]. apply (Hh _ E2).
Defined.

(** Witness of C6 *)
Lemma http2_capture_faithful_witness :
  let c := new_connection (http2_client []) (mkClear [] [] (Some (u "h2"))) None None None in
  http2_complete http2_octets (handle_http accept_all sample_h2 100 c).2.
Proof.
  set (c := new_connection _ _ _ _ _).
  pose proof (http2_capture_faithful accept_all sample_h2 100 c
    ltac:(split_and!; reflexivity) eq_refl ltac:(by_eval)) as Hr.
  assert ((handle_http accept_all sample_h2 100 c).1 = Ok tt) as E by (vm_compute; reflexivity).
  assert (link_plain (link c) = http2_octets) as Ep by (vm_compute; reflexivity).
  cbn zeta. destruct (handle_http accept_all sample_h2 100 c) as [r c']. cbn [fst snd] in *.
  rewrite Ep in Hr. exact (proj2 Hr E).
Defined.

Definition reported_start : ClientConnection :=
  new_connection (C := scripted) (mkTraced (http2_client sample_flight) [])
    (mkTls (mkClear [] [] (Some (u "h2"))) []) None None None.

(** The header fields of a connection, where they are octets. *)
Definition octet_request (o : Observed) : bool :=
  match http2 o with
  | Some h => bool_decide (octet_fields (default [] (Capture.headers h)) ∧ octet_fields (trailers h))
  | None => true
  end.

(** Witness of C7 *)
Lemma request_reported_witness :
  ∃ report, build_report (observed
    (handle_http accept_all sample_h2 100 (do_tls_handshake 100 reported_start).2).2) = Ok report ∧
    loads (dumps 0 (JDict report)) = Some (JDict report).
Proof.
  assert (octet_request (observed (handle_http accept_all sample_h2 100 (do_tls_handshake 100 reported_start).2).2) = true)
    as Hoct by (vm_compute; reflexivity).
  destruct (do_tls_handshake 100 reported_start) as [r c] eqn:Ec. cbn [snd] in Hoct.
  destruct (handle_http accept_all sample_h2 100 c) as [r' c'] eqn:Eh. cbn [snd] in *. rewrite Eh in *. cbn [snd] in *.
  assert (r = Ok tt) as Hr.
  { transitivity (do_tls_handshake 100 reported_start).1; [by rewrite Ec|vm_compute; reflexivity]. }
  assert (link_plain (link c) = http2_octets) as Hp.
  { transitivity (link_plain (link (do_tls_handshake 100 reported_start).2)); [by rewrite Ec|].
    vm_compute. reflexivity. }
  subst r.
  destruct (request_reported accept_all sample_h2 100 (http2_client sample_flight)
    (mkClear [] [] (Some (u "h2"))) None None None c r' c' ltac:(by_eval) ltac:(constructor) Ec
    ltac:(rewrite Hp; by_eval) Eh) as (_ & report & Hb & Hl).
  exists report. split; [exact Hb|]. apply Hl; [discriminate|discriminate|].
  intros capture E. unfold octet_request in Hoct. rewrite E in Hoct. exact (bool_decide_eq_true_1 _ Hoct).
Defined.
