(* ===== verification/Lifecycle.v ===== *)
(** * The life of the server (src/solvetls/server.py)

    The state of [SolveTLS] that its tasks share, and the segments of its methods
    between two [await]s as functions on it: what one segment does no other task can
    interrupt.  [step] runs the segments of all tasks in any order.  A connection, its
    writer and the task that serves it have one number; so have a listening server and
    its sockets.  What serving a client does is in Server.v. *)

From S2P Require Import Prelude PyText.

Definition MAX_CLIENTS : Z := 32.
Definition MAX_REPORTS : Z := 4.

(** The progress of [_shutdown]: created, waiting for the clients of its snapshot,
    gathering them after those that were not done were aborted and cancelled, done. *)
Inductive cleanup :=
  | Scheduled
  | Draining (servers : list nat) (clients : gset nat)
  | Gathering (servers : list nat) (clients cancelled : gset nat)
  | Finished.

Record SolveTLS := mkServer {
  _server : option nat;
  _http_server : option nat;
  _https_ports : list (Z * Z);
  _clients : gset nat;
  _report_clients : gset nat;
  _serving : gset nat;
  _close_task : option cleanup;
  _closing : bool;
}.

(** [SolveTLS(cert_file, key_file)] *)
Definition new_server : SolveTLS := mkServer None None [] ∅ ∅ ∅ None false.

Definition set_servers (a b : option nat) (s : SolveTLS) : SolveTLS :=
  mkServer a b (_https_ports s) (_clients s) (_report_clients s) (_serving s) (_close_task s)
    (_closing s).

Definition set_https_ports (v : list (Z * Z)) (s : SolveTLS) : SolveTLS :=
  mkServer (_server s) (_http_server s) v (_clients s) (_report_clients s) (_serving s)
    (_close_task s) (_closing s).

Definition set_clients (v : gset nat) (s : SolveTLS) : SolveTLS :=
  mkServer (_server s) (_http_server s) (_https_ports s) v (_report_clients s) (_serving s)
    (_close_task s) (_closing s).

Definition set_report_clients (v : gset nat) (s : SolveTLS) : SolveTLS :=
  mkServer (_server s) (_http_server s) (_https_ports s) (_clients s) v (_serving s)
    (_close_task s) (_closing s).

Definition set_serving (v : gset nat) (s : SolveTLS) : SolveTLS :=
  mkServer (_server s) (_http_server s) (_https_ports s) (_clients s) (_report_clients s) v
    (_close_task s) (_closing s).

Definition set_close_task (v : option cleanup) (closing : bool) (s : SolveTLS) : SolveTLS :=
  mkServer (_server s) (_http_server s) (_https_ports s) (_clients s) (_report_clients s)
    (_serving s) v closing.

(** ** Clients *)

(** [self._https_ports.get(family, next(iter(...)))]; [StopIteration] without a port. *)
Definition https_port (family : Z) (ports : list (Z * Z)) : result Z :=
  match ports with
  | [] => Err StopIteration
  | (_, first) :: _ => Ok (default first (dict_get family ports))
  end.

(** What becomes of a new connection. *)
Inductive admission :=
  | CloseWriter
  | AbortTransport
  | HandleClient
  | HandleRedirect (port : Z)
  | CallbackFailed (e : exn).

(** [_accept_client]; [redirect] is the socket's family on the HTTP port. *)
Definition _accept_client (redirect : option Z) (w : nat) (s : SolveTLS) : admission * SolveTLS :=
  if _closing s then (CloseWriter, s)
  else if Z.of_nat (size (_clients s)) >=? MAX_CLIENTS then (AbortTransport, s)
  else
    match redirect with
    | None => (HandleClient, set_clients ({[w]} ∪ _clients s) s)
    | Some family =>
        match https_port family (_https_ports s) with
        | Ok port => (HandleRedirect port, set_clients ({[w]} ∪ _clients s) s)
        | Err e => (CallbackFailed e, s)
        end
    end.

(** [_client_done]; the flag says that the writer has to be closed yet. *)
Definition _client_done (w : nat) (is_closing : bool) (s : SolveTLS) : bool * SolveTLS :=
  (negb is_closing, set_clients (_clients s ∖ {[w]}) s).

(** The first lines of [_send_report]: a slot for the client, or none is free. *)
Definition admit_report (w : nat) (s : SolveTLS) : option SolveTLS :=
  if decide (w ∈ _report_clients s) then Some s
  else if Z.of_nat (size (_report_clients s)) >=? MAX_REPORTS then None
  else Some (set_report_clients ({[w]} ∪ _report_clients s) s).

(** The [finally] of [_handle_client]. *)
Definition release_report (w : nat) (s : SolveTLS) : SolveTLS :=
  set_report_clients (_report_clients s ∖ {[w]}) s.

(** ** Starting *)

Definition cleanup_done (s : SolveTLS) : bool :=
  match _close_task s with None | Some Finished => true | _ => false end.

(** Up to the first [await]; [None] is the [RuntimeError]. *)
Definition start_begin (s : SolveTLS) : option SolveTLS :=
  if negb (bool_decide (_server s = None)) || negb (bool_decide (_http_server s = None)) ||
     negb (cleanup_done s)
  then None
  else Some (set_close_task None false s).

Definition start_listening (server : nat) (ports : list (Z * Z)) (s : SolveTLS) : SolveTLS :=
  set_https_ports ports (set_servers (Some server) (_http_server s) s).

Definition start_http (server : nat) (s : SolveTLS) : SolveTLS :=
  set_servers (_server s) (Some server) s.

(** [except BaseException]: create the cleanup. *)
Definition start_failed (s : SolveTLS) : SolveTLS := set_close_task (Some Scheduled) true s.

(** ** Closing *)

(** [_close] under the lock. *)
Definition close_begin (expected_server : option nat) (s : SolveTLS) : SolveTLS :=
  if bool_decide (is_Some expected_server ∧ _server s ≠ expected_server) then s
  else
    match _close_task s with
    | None => set_close_task (Some Scheduled) true s
    | Some _ => s
    end.

Definition servers (s : SolveTLS) : list nat := omap id [_server s; _http_server s].

(** [_shutdown] up to [wait]: the servers are closed, the clients noted. *)
Definition shutdown_begin (s : SolveTLS) : SolveTLS :=
  set_close_task (Some (Draining (servers s) (_clients s))) (_closing s) s.

(** The [finally]: the clients of the snapshot that are not done are aborted and
    cancelled. *)
Definition shutdown_abort (running : gset nat) (servers : list nat) (clients : gset nat)
    (s : SolveTLS) : SolveTLS :=
  set_close_task (Some (Gathering servers clients (clients ∩ running))) (_closing s) s.

Definition shutdown_end (s : SolveTLS) : SolveTLS :=
  set_close_task (Some Finished) (_closing s) (set_servers None None s).

(** ** Serving *)

(** [serve_forever] up to its [await]. *)
Definition serve_begin (s : SolveTLS) : result (nat * SolveTLS) :=
  match _server s with
  | None => Err (RuntimeError (u "start() must run first"))
  | Some server =>
      if decide (server ∈ _serving s) then
        Err (RuntimeError (u "serve_forever() is already running"))
      else Ok (server, set_serving ({[server]} ∪ _serving s) s)
  end.

(** The last line of its [finally]. *)
Definition serve_end (server : nat) (s : SolveTLS) : SolveTLS :=
  set_serving (_serving s ∖ {[server]}) s.

(** ** All tasks together

    [lock] is [_lifecycle_lock] with the progress of the [start] that holds it; [running]
    are the client tasks that have not ended; [used] are the numbers given out. *)
Inductive lifecycle_lock := Free | Binding | Listening | RollingBack.

Record system := mkSystem {
  srv : SolveTLS;
  lock : lifecycle_lock;
  running : gset nat;
  used : gset nat;
}.

Definition initial : system := mkSystem new_server Free ∅ ∅.

Definition has_task (a : admission) : bool :=
  match a with HandleClient | HandleRedirect _ => true | _ => false end.

(** One segment of one task. *)
Inductive step : system → system → Prop :=
  | step_accept redirect w s l r n a s' :
      w ∉ n → _accept_client redirect w s = (a, s') →
      step (mkSystem s l r n)
        (mkSystem s' l (if has_task a then {[w]} ∪ r else r) ({[w]} ∪ n))
  | step_admit w s l r n s' :
      w ∈ r → admit_report w s = Some s' → step (mkSystem s l r n) (mkSystem s' l r n)
  | step_finish w s l r n :
      w ∈ r → step (mkSystem s l r n) (mkSystem (release_report w s) l (r ∖ {[w]}) n)
  | step_done w is_closing s l r n :
      w ∈ _clients s → w ∉ r →
      step (mkSystem s l r n) (mkSystem (_client_done w is_closing s).2 l r n)
  | step_start s r n s' :
      start_begin s = Some s' → step (mkSystem s Free r n) (mkSystem s' Binding r n)
  | step_bind_failed s r n : step (mkSystem s Binding r n) (mkSystem s Free r n)
  | step_bound server ports s r n :
      server ∉ n →
      step (mkSystem s Binding r n)
        (mkSystem (start_listening server ports s) Listening r ({[server]} ∪ n))
  | step_http_bound server s r n :
      server ∉ n →
      step (mkSystem s Listening r n) (mkSystem (start_http server s) Listening r ({[server]} ∪ n))
  | step_started s r n : step (mkSystem s Listening r n) (mkSystem s Free r n)
  | step_start_failed s r n :
      step (mkSystem s Listening r n) (mkSystem (start_failed s) RollingBack r n)
  | step_start_over s r n : step (mkSystem s RollingBack r n) (mkSystem s Free r n)
  | step_close expected s r n :
      step (mkSystem s Free r n) (mkSystem (close_begin expected s) Free r n)
  | step_shutdown s l r n :
      _close_task s = Some Scheduled → step (mkSystem s l r n) (mkSystem (shutdown_begin s) l r n)
  | step_abort ss cs s l r n :
      _close_task s = Some (Draining ss cs) →
      step (mkSystem s l r n) (mkSystem (shutdown_abort r ss cs s) l r n)
  | step_gathered ss cs ca s l r n :
      (** [gather] returns when every client is done, and their callbacks ran before. *)
      _close_task s = Some (Gathering ss cs ca) → cs ∩ _clients s = ∅ →
      step (mkSystem s l r n) (mkSystem (shutdown_end s) l r n)
  | step_serve server s l r n s' :
      serve_begin s = Ok (server, s') → step (mkSystem s l r n) (mkSystem s' l r n)
  | step_served server s l r n :
      step (mkSystem s l r n) (mkSystem (serve_end server s) l r n).

Definition reachable (s : system) : Prop := rtc step initial s.

(** ** Paths

    The states that other tasks take the system through while one waits. *)
Fixpoint chained (R : relation system) (s : system) (path : list system) : Prop :=
  match path with
  | [] => True
  | s' :: path => R s s' ∧ chained R s' path
  end.

Lemma last_of {A} (x d : A) l : List.last (x :: l) d = List.last l x.
Proof.
  revert x d. induction l as [|y l IH]; intros x d; [done|].
  change (List.last (y :: l) d = List.last (y :: l) x). by rewrite !IH.
Qed.

Lemma chained_last R s path : chained R s path → rtc R s (List.last path s).
Proof.
  revert s. induction path as [|s1 path IH]; intros s Hp; [reflexivity|]. destruct Hp as [Hs Hp].
  rewrite last_of. eapply rtc_l; [exact Hs|by apply IH].
Qed.

(** What the other tasks do while the task of the connection [w] waits: any steps but
    its own, so its task, its slot and its entry stay as they are. *)
Definition by_others (w : nat) (s s' : system) : Prop :=
  step s s' ∧ (w ∈ running s ↔ w ∈ running s') ∧
  (w ∈ _report_clients (srv s) ↔ w ∈ _report_clients (srv s')) ∧
  (w ∈ _clients (srv s) → w ∈ _clients (srv s')).

(** The steps on the way, those of the task itself included: a slot for its report. *)
Definition served_step (w : nat) (s s' : system) : Prop :=
  by_others w s s' ∨
  ∃ shared, w ∈ running s ∧ admit_report w (srv s) = Some shared ∧
    s' = mkSystem shared (lock s) (running s) (used s).

Lemma served_is_step w s s' : served_step w s s' → step s s'.
Proof.
  intros [[Hs _]|(shared & Hw & Ha & ->)]; [done|]. destruct s as [s l r n]. by apply (step_admit w).
Qed.

Lemma served_running w s s' : rtc (served_step w) s s' → w ∈ running s → w ∈ running s'.
Proof.
  induction 1 as [s|s s1 s2 Hs _ IH]; [done|]. intros Hw. apply IH.
  destruct Hs as [(_ & Hr & _)|(shared & _ & _ & ->)]; [by apply Hr|done].
Qed.

Lemma served_client w s s' :
  rtc (served_step w) s s' → w ∈ _clients (srv s) → w ∈ _clients (srv s').
Proof.
  induction 1 as [s|s s1 s2 Hs _ IH]; [done|]. intros Hw. apply IH.
  destruct Hs as [(_ & _ & _ & Hc)|(shared & _ & Ha & ->)]; [by apply Hc|].
  unfold admit_report in Ha. case_decide; [by injection Ha as <-|].
  destruct (_ >=? _); [done|]. by injection Ha as <-.
Qed.

(** A task that has ended is not begun again, nor given a slot. *)
Lemma others_ended w s s' :
  rtc (by_others w) s s' → (w ∉ running s) → (w ∉ _report_clients (srv s)) →
  (w ∉ running s') ∧ (w ∉ _report_clients (srv s')).
Proof.
  induction 1 as [s|s s1 s2 (_ & Hr & Hs & _) _ IH]; [done|]. intros ??. apply IH; [by rewrite <-Hr|by rewrite <-Hs].
Qed.

Lemma served_slot w s s' :
  rtc (served_step w) s s' → w ∈ _report_clients (srv s) → w ∈ _report_clients (srv s').
Proof.
  induction 1 as [s|s s1 s2 Hs _ IH]; [done|]. intros Hw. apply IH.
  destruct Hs as [(_ & _ & Hr & _)|(shared & _ & Ha & ->)]; [by apply Hr|].
  unfold admit_report in Ha. case_decide; [|done]. by injection Ha as <-.
Qed.

(** ** The invariant *)

(** The clients that a cleanup noted. *)
Definition snapshot (c : cleanup) : option (gset nat) :=
  match c with Draining _ cs | Gathering _ cs _ => Some cs | Scheduled | Finished => None end.

(** Those it cancelled. *)
Definition cancelled (c : cleanup) : option (gset nat) :=
  match c with Gathering _ _ ca => Some ca | _ => None end.

Record wf (s : system) : Prop := mkWf {
  wf_clients : Z.of_nat (size (_clients (srv s))) ≤ MAX_CLIENTS;
  wf_reports : Z.of_nat (size (_report_clients (srv s))) ≤ MAX_REPORTS;
  wf_slots : _report_clients (srv s) ⊆ running s;
  wf_running : running s ⊆ _clients (srv s);
  wf_used : _clients (srv s) ⊆ used s;
  wf_closing : _closing (srv s) = bool_decide (is_Some (_close_task (srv s)));
  (** The cleanup knows every client there is. *)
  wf_snapshot c cs :
    _close_task (srv s) = Some c → snapshot c = Some cs → _clients (srv s) ⊆ cs;
  (** Once it gathers, whoever still runs was cancelled. *)
  wf_cancelled c ca :
    _close_task (srv s) = Some c → cancelled c = Some ca → running s ⊆ ca;
  wf_finished :
    _close_task (srv s) = Some Finished →
    _clients (srv s) = ∅ ∧ _server (srv s) = None ∧ _http_server (srv s) = None;
  (** Who starts the server does it alone. *)
  wf_binding :
    lock s = Binding →
    _close_task (srv s) = None ∧ _server (srv s) = None ∧ _http_server (srv s) = None;
  wf_listening : lock s = Listening → _close_task (srv s) = None;
}.

Lemma size_add_le (X : gset nat) w n :
  Z.of_nat (size X) < n → Z.of_nat (size ({[w]} ∪ X)) ≤ n.
Proof.
  intros Hn. destruct (decide (w ∈ X)) as [Hw|Hw].
  - replace ({[w]} ∪ X) with X by set_solver. lia.
  - rewrite size_union, size_singleton by set_solver. lia.
Qed.

Lemma size_sub_le (X : gset nat) w n : Z.of_nat (size X) ≤ n → Z.of_nat (size (X ∖ {[w]})) ≤ n.
Proof.
  intros Hn. assert (size (X ∖ {[w]}) ≤ size X)%nat by (apply subseteq_size; set_solver). lia.
Qed.

Lemma wf_initial : wf initial.
Proof. by split. Qed.

(** A step of a client task: the rest of the server stays. *)
Lemma wf_clients_step s s' l r r' n n' :
  wf (mkSystem s l r n) →
  s' = set_report_clients (_report_clients s') (set_clients (_clients s') s) →
  Z.of_nat (size (_clients s')) ≤ MAX_CLIENTS → Z.of_nat (size (_report_clients s')) ≤ MAX_REPORTS →
  _report_clients s' ⊆ r' → r' ⊆ _clients s' → _clients s' ⊆ n' →
  (_clients s' ⊆ _clients s ∧ r' ⊆ r ∨ _close_task s = None) → wf (mkSystem s' l r' n').
Proof.
  intros [H1 H2 H3 H4 H5 H6 H7 Hca H8 H9 H10] Es Hc Hr Hs Hrun Hn Hsub.
  destruct s' as [a b ports cl rep sv ct closing]. cbn in *. injection Es as -> -> -> -> -> ->.
  split; cbn; try done.
  - intros c cs Hd Hk. destruct Hsub as [[Hsub _]|Hsub]; [|congruence].
    etrans; [exact Hsub|]. by apply (H7 c).
  - intros c ca Hd Hk. destruct Hsub as [[_ Hsub]|Hsub]; [|congruence].
    etrans; [exact Hsub|]. by apply (Hca c).
  - intros Hd. destruct Hsub as [[Hsub _]|Hsub]; [|congruence]. destruct (H8 Hd) as (E & ? & ?).
    split_and!; [|done..]. rewrite E in Hsub. clear -Hsub. set_solver.
Qed.

Lemma accept_wf redirect w s l r n :
  wf (mkSystem s l r n) → w ∉ n →
  wf (mkSystem (_accept_client redirect w s).2 l
        (if has_task (_accept_client redirect w s).1 then {[w]} ∪ r else r) ({[w]} ∪ n)).
Proof.
  intros Hwf Hw. pose proof Hwf as [H1 H2 H3 H4 H5 H6 _ _ _ _ _]. cbn in *.
  assert (wf (mkSystem s l r ({[w]} ∪ n))) as Hsame.
  { eapply wf_clients_step; [exact Hwf|by destruct s|done..| |by left]. clear -H5. set_solver. }
  unfold _accept_client. destruct (_closing s) eqn:Ec; [exact Hsame|].
  destruct (Z.geb_spec (Z.of_nat (size (_clients s))) MAX_CLIENTS); [exact Hsame|].
  assert (_close_task s = None) as Hct.
  { symmetry in H6. apply bool_decide_eq_false in H6. by apply eq_None_not_Some. }
  assert (wf (mkSystem (set_clients ({[w]} ∪ _clients s) s) l ({[w]} ∪ r) ({[w]} ∪ n))) as Hadd.
  { eapply wf_clients_step; [exact Hwf|by destruct s|by apply size_add_le|done|..|by right]; cbn.
    - clear -H3. set_solver.
    - clear -H4. set_solver.
    - clear -H5. set_solver. }
  destruct redirect as [family|]; [|exact Hadd]. by destruct (https_port _ _).
Qed.

Lemma admit_wf w s s' l r n :
  wf (mkSystem s l r n) → w ∈ r → admit_report w s = Some s' → wf (mkSystem s' l r n).
Proof.
  intros Hwf Hw E. pose proof Hwf as [H1 H2 H3 H4 H5 _ _ _ _ _ _]. cbn in *.
  unfold admit_report in E. case_decide; [by injection E as <-|].
  destruct (Z.geb_spec (Z.of_nat (size (_report_clients s))) MAX_REPORTS); [done|].
  injection E as <-. eapply wf_clients_step; [exact Hwf|by destruct s|done|by apply size_add_le|..|by left];
    cbn; [clear -H3 Hw; set_solver|done|done].
Qed.

Lemma finish_wf w s l r n :
  wf (mkSystem s l r n) → wf (mkSystem (release_report w s) l (r ∖ {[w]}) n).
Proof.
  intros Hwf. pose proof Hwf as [H1 H2 H3 H4 H5 _ _ _ _ _ _]. cbn in *.
  eapply wf_clients_step; [exact Hwf|by destruct s|done|by apply size_sub_le|..|left; cbn; clear; set_solver]; cbn.
  - clear -H3. set_solver.
  - clear -H4. set_solver.
  - done.
Qed.

Lemma done_wf w b s l r n :
  wf (mkSystem s l r n) → w ∉ r → wf (mkSystem (_client_done w b s).2 l r n).
Proof.
  intros Hwf Hw. pose proof Hwf as [H1 H2 H3 H4 H5 _ _ _ _ _ _]. cbn in *.
  eapply wf_clients_step; [exact Hwf|by destruct s|by apply size_sub_le|done|..]; cbn.
  - done.
  - clear -H4 Hw. set_solver.
  - clear -H5. set_solver.
  - left. clear. set_solver.
Qed.

(** A step of the life of the server: the clients stay. *)
Lemma wf_life_step s s' l l' r n n' :
  wf (mkSystem s l r n) → n ⊆ n' →
  _clients s' = _clients s → _report_clients s' = _report_clients s →
  _closing s' = bool_decide (is_Some (_close_task s')) →
  (∀ c cs, _close_task s' = Some c → snapshot c = Some cs → _clients s ⊆ cs) →
  (∀ c ca, _close_task s' = Some c → cancelled c = Some ca → r ⊆ ca) →
  (_close_task s' = Some Finished → _clients s = ∅ ∧ _server s' = None ∧ _http_server s' = None) →
  (l' = Binding → _close_task s' = None ∧ _server s' = None ∧ _http_server s' = None) →
  (l' = Listening → _close_task s' = None) → wf (mkSystem s' l' r n').
Proof.
  intros [H1 H2 H3 H4 H5 _ _ _ _ _ _] Hn Ec Er. cbn in *. intros Hcl Hsnap Hcan Hfin Hbind Hlis.
  split; cbn; rewrite ?Ec, ?Er; try done. by etrans.
Qed.

Lemma start_wf s s' r n :
  wf (mkSystem s Free r n) → start_begin s = Some s' → wf (mkSystem s' Binding r n).
Proof.
  intros Hwf E. unfold start_begin in E. destruct (_ || _) eqn:Eg; [done|]. injection E as <-.
  apply orb_false_iff in Eg as [[Ea Eb]%orb_false_iff _].
  apply negb_false_iff, bool_decide_eq_true in Ea, Eb.
  by eapply wf_life_step; [exact Hwf|try done..]; intros c ? [= <-].
Qed.

Lemma close_wf expected s r n :
  wf (mkSystem s Free r n) → wf (mkSystem (close_begin expected s) Free r n).
Proof.
  intros Hwf. unfold close_begin. case_bool_decide; [done|].
  destruct (_close_task s) as [c|] eqn:Ec; [done|].
  by eapply wf_life_step; [exact Hwf|try done..]; intros c ? [= <-].
Qed.

(** The steps of a cleanup. *)
Lemma cleanup_wf s s' l r n c c' :
  wf (mkSystem s l r n) → _close_task s = Some c → _close_task s' = Some c' → c' ≠ Scheduled →
  _clients s' = _clients s → _report_clients s' = _report_clients s → _closing s' = _closing s →
  (∀ cs, snapshot c' = Some cs → _clients s ⊆ cs) →
  (∀ ca, cancelled c' = Some ca → r ⊆ ca) →
  (c' = Finished → _clients s = ∅ ∧ _server s' = None ∧ _http_server s' = None) →
  wf (mkSystem s' l r n).
Proof.
  intros Hwf E E' Hne Hc Hr Hcl Hsnap Hcan Hfin. pose proof Hwf as [_ _ _ _ _ H6 _ _ _ H9 H10]. cbn in *.
  eapply wf_life_step; [exact Hwf|done|done|done| | | | | |]; rewrite ?E'.
  - by rewrite Hcl, H6, E.
  - intros ? cs [= <-]. apply Hsnap.
  - intros ? ca [= <-]. apply Hcan.
  - intros [= ->]. by apply Hfin.
  - intros Hl. destruct (H9 Hl). congruence.
  - intros Hl. specialize (H10 Hl). congruence.
Qed.

Lemma step_wf s s' : step s s' → wf s → wf s'.
Proof.
  intros Hs Hwf. destruct Hs as [redirect w s l r n a s' Hw E|w s l r n s' Hw E|w s l r n Hw
    |w b s l r n Hc Hw|s r n s' E|s r n|server ports s r n Hn|server s r n Hn|s r n|s r n|s r n
    |expected s r n|s l r n E|ss cs s l r n E|ss cs ca s l r n E Hg|server s l r n s' E|server s l r n].
  - pose proof (accept_wf redirect w s l r n Hwf Hw) as Ha. by rewrite E in Ha.
  - by eapply admit_wf.
  - by apply finish_wf.
  - by apply done_wf.
  - by eapply start_wf.
  - pose proof Hwf as [_ _ _ _ _ H6 H7 Hca H8 H9 H10]; cbn in *. by eapply wf_life_step; [exact Hwf|..].
  - pose proof Hwf as [_ _ _ _ _ H6 H7 Hca H8 H9 H10]; cbn in *. destruct (H9 eq_refl) as (Hc & _).
    by eapply wf_life_step; [exact Hwf|set_solver|done..| | | | |]; cbn; rewrite ?Hc.
  - pose proof Hwf as [_ _ _ _ _ H6 H7 Hca H8 H9 H10]; cbn in *. specialize (H10 eq_refl).
    by eapply wf_life_step; [exact Hwf|set_solver|done..| | | | |]; cbn; rewrite ?H10.
  - pose proof Hwf as [_ _ _ _ _ H6 H7 Hca H8 H9 H10]; cbn in *. by eapply wf_life_step; [exact Hwf|..].
  - by eapply wf_life_step; [exact Hwf|try done..]; intros c ? [= <-].
  - pose proof Hwf as [_ _ _ _ _ H6 H7 Hca H8 H9 H10]; cbn in *. by eapply wf_life_step; [exact Hwf|..].
  - by apply close_wf.
  - eapply cleanup_wf; [exact Hwf|exact E|reflexivity|done..| |done|done]. by intros cs [= <-].
  - pose proof (wf_snapshot _ Hwf _ cs E eq_refl) as Hsn. pose proof (wf_running _ Hwf) as Hrn. cbn in Hsn, Hrn.
    eapply cleanup_wf; [exact Hwf|exact E|reflexivity|done..| | |done].
    + by intros ? [= <-].
    + intros ? [= <-]. clear -Hsn Hrn. set_solver.
  - assert (_clients s = ∅) as Hno.
    { pose proof (wf_snapshot _ Hwf _ cs E eq_refl) as Hs. cbn in Hs. clear -Hs Hg. set_solver. }
    by eapply cleanup_wf; [exact Hwf|exact E|reflexivity|..].
  - unfold serve_begin in E. destruct (_server s) eqn:Es; [|done]. case_decide; [done|].
    injection E as <- <-. pose proof Hwf as [_ _ _ _ _ H6 H7 Hca H8 H9 H10]; cbn in *.
    by eapply wf_life_step; [exact Hwf|..].
  - pose proof Hwf as [_ _ _ _ _ H6 H7 Hca H8 H9 H10]; cbn in *. by eapply wf_life_step; [exact Hwf|..].
Qed.

Lemma steps_wf s s' : rtc step s s' → wf s → wf s'.
Proof. induction 1; eauto using step_wf. Qed.

Lemma reachable_wf s : reachable s → wf s.
Proof. intros Hr. eapply steps_wf; [exact Hr|apply wf_initial]. Qed.

(** ** What holds at every moment *)

(** No socket is open. *)
Definition nothing_listens (s : system) : Prop := _server (srv s) = None ∧ _http_server (srv s) = None.

(** Nobody is served and nothing is open. *)
Definition quiescent (s : system) : Prop :=
  _clients (srv s) = ∅ ∧ running s = ∅ ∧ _report_clients (srv s) = ∅ ∧ nothing_listens s.

Lemma finished_quiescent_wf s : wf s → _close_task (srv s) = Some Finished → quiescent s.
Proof.
  intros Hwf Hf. destruct (wf_finished _ Hwf Hf) as (E & E1 & E2).
  pose proof (wf_running _ Hwf) as Hrun. pose proof (wf_slots _ Hwf) as Hslots. rewrite E in Hrun.
  split_and!; [done| | |by split]; clear -Hrun Hslots; set_solver.
Qed.

(** C10: whatever the order in which clients come, are served, fail and go, and in which
    the server is started and closed: at most [MAX_CLIENTS] connections are served at a
    time, and at most [MAX_REPORTS] of them make a report; a report slot is only held by
    a client whose task has not ended, so no slot is ever lost; every task that has not
    ended is known to the server, so that closing it will reach it; while the server closes,
    the cleanup knows every client there is, and once it gathers them, whoever still runs was
    cancelled; and a cleanup that has finished left nothing behind: no client, no task, no
    slot and no open socket. *)
Theorem server_limits s :
  reachable s →
  Z.of_nat (size (_clients (srv s))) ≤ MAX_CLIENTS ∧
  Z.of_nat (size (_report_clients (srv s))) ≤ MAX_REPORTS ∧
  _report_clients (srv s) ⊆ running s ∧ running s ⊆ _clients (srv s) ∧
  (∀ ss cs, _close_task (srv s) = Some (Draining ss cs) → _clients (srv s) ⊆ cs) ∧
  (∀ ss cs ca, _close_task (srv s) = Some (Gathering ss cs ca) →
     _clients (srv s) ⊆ cs ∧ running s ⊆ ca) ∧
  (_close_task (srv s) = Some Finished →
     _clients (srv s) = ∅ ∧ running s = ∅ ∧ _report_clients (srv s) = ∅ ∧
     _server (srv s) = None ∧ _http_server (srv s) = None).
Proof.
  intros Hr%reachable_wf. pose proof (finished_quiescent_wf s Hr) as Hq.
  destruct Hr as [H1 H2 H3 H4 _ _ H7 H8 _ _ _]. split_and!; [done..| | |exact Hq].
  - intros ss cs E. by eapply H7.
  - intros ss cs ca E. split; [by eapply H7|by eapply H8].
Qed.

(** The server is closing or closed, for as long as no [start] begins. *)
Definition closed_down (s : system) : Prop := is_Some (_close_task (srv s)).

Lemma closing_step s s' :
  step s s' → wf s → closed_down s → lock s' ≠ Binding →
  closed_down s' ∧ _clients (srv s') ⊆ _clients (srv s) ∧ running s' ⊆ running s.
Proof.
  intros Hs Hwf [c Hc] Hl. unfold closed_down in *.
  destruct Hs as [redirect w s l r n a s' Hw E|w s l r n s' Hw E|w s l r n Hw
    |w b s l r n Hd Hw|s r n s' E|s r n|server ports s r n Hn|server s r n Hn|s r n|s r n|s r n
    |expected s r n|s l r n E|ss cs s l r n E|ss cs ca s l r n E Hg|server s l r n s' E|server s l r n];
    cbn in *; try done.
  - unfold _accept_client in E. pose proof (wf_closing _ Hwf) as Hcl. cbn in Hcl.
    rewrite Hc in Hcl. rewrite Hcl in E. injection E as <- <-. by rewrite Hc.
  - unfold admit_report in E. case_decide; [injection E as <-; by rewrite Hc|].
    destruct (_ >=? _); [done|]. injection E as <-. cbn. by rewrite Hc.
  - rewrite Hc. split_and!; [done|done|]. clear. set_solver.
  - rewrite Hc. split_and!; [done| |done]. clear. set_solver.
  - unfold close_begin. case_bool_decide; [by rewrite Hc|]. rewrite Hc. by rewrite Hc.
  - unfold serve_begin in E. destruct (_server s); [|done]. case_decide; [done|].
    injection E as <- <-. cbn. by rewrite Hc.
Qed.

(** ** Closing *)

(** Steps with no [start] among them. *)
Definition step_on (s s' : system) : Prop := step s s' ∧ lock s' ≠ Binding.

Lemma closing_steps s s' :
  rtc step_on s s' → wf s → closed_down s →
  wf s' ∧ closed_down s' ∧ _clients (srv s') ⊆ _clients (srv s) ∧ running s' ⊆ running s.
Proof.
  induction 1 as [s|s s1 s2 [Hs Hl] _ IH]; intros Hwf Hc; [done|].
  destruct (closing_step _ _ Hs Hwf Hc Hl) as (Hc1 & Hsub & Hr).
  destruct (IH (step_wf _ _ Hs Hwf) Hc1) as (? & ? & ? & ?). split_and!; [done|done|by etrans..].
Qed.

(** A start that gets through finds nothing left of the run before. *)
Lemma start_finds s r n s' :
  wf (mkSystem s Free r n) → start_begin s = Some s' → _close_task s ≠ None →
  _close_task s = Some Finished ∧ _clients s = ∅ ∧ r = ∅.
Proof.
  intros Hwf E Hne. unfold start_begin in E. destruct (_ || _) eqn:Eg; [done|].
  apply orb_false_iff in Eg as [_ Ed]. apply negb_false_iff in Ed. unfold cleanup_done in Ed.
  destruct (_close_task s) as [[]|] eqn:Ec; try done.
  destruct (wf_finished _ Hwf Ec) as (Hc & _). cbn in Hc. split_and!; [done|done|].
  pose proof (wf_running _ Hwf) as Hr. cbn in Hr. rewrite Hc in Hr. clear -Hr. set_solver.
Qed.

(** Closing is final. Once a cleanup was created, by [close], by the end of
    [serve_forever] or by a start that failed, no connection is served that was not
    served before, and further calls of [close] create no second cleanup, until a
    [start] gets through, which is only when the cleanup has finished; and when it has,
    every client task has ended and was forgotten, no report slot is held and no socket
    listens. *)
Theorem closing_final s s' :
  reachable s → closed_down s → rtc step_on s s' →
  _clients (srv s') ⊆ _clients (srv s) ∧ running s' ⊆ running s ∧
  (∀ expected, close_begin expected (srv s') = srv s') ∧
  (_close_task (srv s') ≠ Some Finished → start_begin (srv s') = None) ∧
  (_close_task (srv s') = Some Finished →
     _clients (srv s') = ∅ ∧ running s' = ∅ ∧ _report_clients (srv s') = ∅ ∧
     _server (srv s') = None ∧ _http_server (srv s') = None).
Proof.
  intros Hr Hc Hs. destruct (closing_steps _ _ Hs (reachable_wf _ Hr) Hc) as (Hwf & [c Hc'] & ? & ?).
  split_and!; [done|done|..].
  - intros expected. unfold close_begin. rewrite Hc'. by case_bool_decide.
  - intros Hne. unfold start_begin, cleanup_done. rewrite Hc' in *. destruct c; try done;
      by rewrite orb_true_r.
  - by apply finished_quiescent_wf.
Qed.

(** What a cleanup does and waits for, and nothing else: its own segments, the ends of the
    tasks it has cancelled, and the callbacks of tasks that have ended. *)
Inductive cleanup_step : system → system → Prop :=
  | cleanup_begins s l r n :
      _close_task s = Some Scheduled →
      cleanup_step (mkSystem s l r n) (mkSystem (shutdown_begin s) l r n)
  | cleanup_aborts ss cs s l r n :
      _close_task s = Some (Draining ss cs) →
      cleanup_step (mkSystem s l r n) (mkSystem (shutdown_abort r ss cs s) l r n)
  | client_cancelled ss cs ca w s l r n :
      _close_task s = Some (Gathering ss cs ca) → w ∈ ca → w ∈ r →
      cleanup_step (mkSystem s l r n) (mkSystem (release_report w s) l (r ∖ {[w]}) n)
  | client_forgotten w is_closing s l r n :
      w ∈ _clients s → w ∉ r →
      cleanup_step (mkSystem s l r n) (mkSystem (_client_done w is_closing s).2 l r n)
  | cleanup_gathered ss cs ca s l r n :
      _close_task s = Some (Gathering ss cs ca) → cs ∩ _clients s = ∅ →
      cleanup_step (mkSystem s l r n) (mkSystem (shutdown_end s) l r n).

Lemma cleanup_is_step s s' : cleanup_step s s' → step s s'.
Proof. destruct 1; by econstructor. Qed.

Lemma cleanup_frame s s' : cleanup_step s s' → lock s' = lock s ∧ used s' = used s.
Proof. by destruct 1. Qed.

(** What is left to do: the segments of the cleanup, the tasks and the callbacks. *)
Definition segments_left (c : option cleanup) : nat :=
  match c with
  | Some Scheduled => 3
  | Some (Draining _ _) => 2
  | Some (Gathering _ _ _) => 1
  | _ => 0
  end.

Definition work_left (s : system) : nat :=
  segments_left (_close_task (srv s)) + size (running s) + size (_clients (srv s)).

Lemma size_sub_lt (X : gset nat) w : w ∈ X → (size (X ∖ {[w]}) < size X)%nat.
Proof. intros Hw. apply subset_size. set_solver. Qed.

Lemma cleanup_step_works s s' : cleanup_step s s' → (work_left s' < work_left s)%nat.
Proof.
  unfold work_left. intros [s0 l r n E|ss cs s0 l r n E|ss cs ca w s0 l r n E _ Hw|w b s0 l r n Hw _|ss cs ca s0 l r n E _];
    cbn; rewrite ?E; cbn; try lia; apply size_sub_lt in Hw; lia.
Qed.

(** It never waits for anything else. *)
Lemma cleanup_goes_on s :
  wf s → closed_down s → _close_task (srv s) = Some Finished ∨ ∃ s', cleanup_step s s'.
Proof.
  intros Hwf [c Hc]. destruct s as [s l r n]. cbn in Hc.
  destruct c as [|ss cs|ss cs ca|]; [right; by eexists; apply cleanup_begins|
    right; by eexists; eapply cleanup_aborts| |by left].
  right. destruct (set_choose_or_empty r) as [[w Hw]|Hr].
  { eexists. eapply client_cancelled; [exact Hc| |exact Hw].
    by apply (wf_cancelled _ Hwf (Gathering ss cs ca) ca Hc eq_refl). }
  destruct (set_choose_or_empty (_clients s)) as [[w Hw]|Hn].
  { eexists. eapply (client_forgotten w true); [exact Hw|]. clear -Hr. set_solver. }
  eexists. eapply cleanup_gathered; [exact Hc|]. clear -Hn. set_solver.
Qed.

Lemma cleanup_keeps s s' : cleanup_step s s' → wf s → closed_down s → wf s' ∧ closed_down s'.
Proof.
  intros Hs Hwf Hc. pose proof (cleanup_is_step _ _ Hs) as Hst. split; [by eapply step_wf|].
  eapply closing_step; [done..|]. destruct (cleanup_frame _ _ Hs) as [-> _]. intros El.
  destruct (wf_binding _ Hwf El) as [E _]. destruct Hc as [c Hc]. congruence.
Qed.

Lemma cleanup_run k s s' :
  nsteps cleanup_step k s s' → wf s → closed_down s →
  wf s' ∧ closed_down s' ∧ rtc step s s' ∧ lock s' = lock s ∧ used s' = used s ∧
  (k + work_left s' ≤ work_left s)%nat.
Proof.
  induction 1 as [s|k s s1 s2 Hs _ IH]; intros Hwf Hc; [by split_and!; [done..|reflexivity|done|done|lia]|].
  destruct (cleanup_keeps _ _ Hs Hwf Hc) as [Hwf1 Hc1]. destruct (IH Hwf1 Hc1) as (? & ? & ? & ? & ? & ?).
  destruct (cleanup_frame _ _ Hs). pose proof (cleanup_step_works _ _ Hs).
  split_and!; [done|done|by eapply rtc_l; [apply cleanup_is_step|]|congruence|congruence|lia].
Qed.

Lemma cleanup_ends s :
  wf s → closed_down s → ∃ s', rtc cleanup_step s s' ∧ _close_task (srv s') = Some Finished.
Proof.
  remember (work_left s) as m eqn:Em. revert s Em.
  induction m as [m IH] using (well_founded_induction lt_wf); intros s -> Hwf Hc.
  destruct (cleanup_goes_on s Hwf Hc) as [Hf|[s1 Hs]]; [by exists s|].
  destruct (cleanup_keeps _ _ Hs Hwf Hc). pose proof (cleanup_step_works _ _ Hs) as Hm.
  destruct (IH _ Hm s1) as (s2 & ? & ?); [done..|]. exists s2. split; [by eapply rtc_l|done].
Qed.

(** C11: closing finishes. From every moment at which a cleanup exists, whatever came
    before, it ends through its own work alone: its segments, the ends of the tasks that it
    has cancelled, and the callbacks of tasks that have ended; no lock, slot, other call or
    client of its own accord has to be waited for. It goes on as long as it has not
    finished; it takes at most three segments, an end for each task and a callback for each
    client, in any order; so it does finish, and then nobody is served and nothing is
    open. *)
Theorem closing_finishes s :
  reachable s → closed_down s →
  (∀ k s', nsteps cleanup_step k s s' →
     rtc step s s' ∧ lock s' = lock s ∧ used s' = used s ∧
     (k ≤ 3 + size (running s) + size (_clients (srv s)))%nat ∧
     (_close_task (srv s') = Some Finished ∨ ∃ s2, cleanup_step s' s2)) ∧
  ∃ s', rtc cleanup_step s s' ∧ _close_task (srv s') = Some Finished ∧ quiescent s'.
Proof.
  intros Hr%reachable_wf Hc. split.
  - intros k s' Hs. destruct (cleanup_run _ _ _ Hs Hr Hc) as (Hwf & Hc' & ? & ? & ? & Hk).
    split_and!; [done..| |by apply cleanup_goes_on]. unfold work_left, segments_left in Hk.
    destruct (_close_task (srv s)) as [[]|]; lia.
  - destruct (cleanup_ends s Hr Hc) as (s' & Hs & Hf). exists s'. split_and!; [done|done|].
    apply finished_quiescent_wf; [|done]. apply rtc_nsteps in Hs as [k Hs].
    by destruct (cleanup_run _ _ _ Hs Hr Hc).
Qed.

(** What becomes of a new connection: closed if the server is closing, aborted if it
    is full, and otherwise, and only then, a task that is known to the server until it
    has ended. A redirect goes to the HTTPS port of the connection's address family, or
    to the first one. *)
Theorem accept_client_spec redirect w s :
  let '(a, s') := _accept_client redirect w s in
  (a = CloseWriter ↔ _closing s = true) ∧
  (a = AbortTransport ↔ _closing s = false ∧ MAX_CLIENTS ≤ Z.of_nat (size (_clients s))) ∧
  (has_task a = true → s' = set_clients ({[w]} ∪ _clients s) s ∧ _closing s = false ∧
     Z.of_nat (size (_clients s)) < MAX_CLIENTS) ∧
  (has_task a = false → s' = s) ∧
  (∀ port, a = HandleRedirect port → ∃ family, redirect = Some family ∧
     (dict_get family (_https_ports s) = Some port ∨
      dict_get family (_https_ports s) = None ∧ snd <$> head (_https_ports s) = Some port)).
Proof.
  unfold _accept_client. destruct (_closing s) eqn:Ec; [split_and!; naive_solver|].
  destruct (Z.geb_spec (Z.of_nat (size (_clients s))) MAX_CLIENTS); [split_and!; naive_solver|].
  destruct redirect as [family|].
  2:{ split_and!; try done. split; [done|]. intros [_ ?]. lia. }
  destruct (https_port family (_https_ports s)) as [port|e] eqn:E.
  - split_and!; try done.
    + split; [done|]. intros [_ ?]. lia.
    + intros p [= <-]. exists family. split; [done|]. unfold https_port in E.
      destruct (_https_ports s) as [|[f first] ports]; [done|].
      destruct (dict_get family ((f, first) :: ports)) as [q|]; injection E as <-; auto.
  - split_and!; try done. split; [done|]. intros [_ ?]. lia.
Qed.

(** ** Witnesses *)

(** A server that listens on two families and serves a client, who makes a report. *)
Definition serving_server : SolveTLS :=
  mkServer (Some 1%nat) None [(2, 8443); (10, 9443)] {[7%nat]} {[7%nat]} ∅ None false.

Definition serving_system : system :=
  mkSystem serving_server Free {[7%nat]} {[7%nat; 1%nat]}.

Lemma serving_reachable : reachable serving_system.
Proof.
  unfold reachable.
  eapply rtc_l; [by apply (step_start new_server ∅ ∅)|].
  eapply rtc_l; [by apply (step_bound 1 [(2, 8443); (10, 9443)]); set_solver|].
  eapply rtc_l; [apply step_started|].
  eapply rtc_l; [eapply (step_accept None 7); [set_solver|reflexivity]|].
  eapply rtc_l; [apply (step_admit 7); [set_solver|reflexivity]|].
  match goal with |- rtc _ ?x ?y => replace y with x by (vm_compute; reflexivity) end. reflexivity.
Qed.


(** The same server, after [close] was called. *)
Definition closing_system : system :=
  mkSystem (close_begin None serving_server) Free {[7%nat]} {[7%nat; 1%nat]}.

Lemma closing_reachable : reachable closing_system.
Proof. eapply rtc_r; [exact serving_reachable|]. apply step_close. Qed.

(** The same server when its client was cancelled. *)
Definition gathering_system : system :=
  mkSystem (shutdown_abort {[7%nat]} [1%nat] {[7%nat]} (shutdown_begin (srv closing_system))) Free
    {[7%nat]} {[7%nat; 1%nat]}.

Lemma gathering_reachable : reachable gathering_system.
Proof.
  eapply rtc_r; [eapply rtc_r; [exact closing_reachable|]|].
  - by apply (step_shutdown (srv closing_system) Free {[7%nat]} {[7%nat; 1%nat]}).
  - by apply (step_abort [1%nat] {[7%nat]} (shutdown_begin (srv closing_system)) Free {[7%nat]}).
Qed.

(** Witness of C10 *)
Lemma server_limits_witness :
  reachable gathering_system ∧ Z.of_nat (size (_clients (srv gathering_system))) ≤ MAX_CLIENTS ∧
  running gathering_system ⊆ ({[7%nat]} : gset nat).
Proof.
  split; [exact gathering_reachable|].
  destruct (server_limits gathering_system gathering_reachable) as (Hc & _ & _ & _ & _ & Hg & _).
  split; [exact Hc|]. exact (proj2 (Hg [1%nat] {[7%nat]} {[7%nat]} eq_refl)).
Defined.

(** A concrete input for [closing_final]: the client ends, and later calls change nothing. *)
Lemma closing_final_witness :
  let s' := mkSystem (release_report 7 (srv closing_system)) Free ({[7%nat]} ∖ {[7%nat]}) {[7%nat; 1%nat]} in
  rtc step_on closing_system s' ∧ start_begin (srv s') = None ∧ running s' ⊆ running closing_system.
Proof.
  intros s'. assert (rtc step_on closing_system s') as Hs.
  { apply rtc_once. split; [|discriminate]. apply step_finish. set_solver. }
  split; [exact Hs|].
  destruct (closing_final closing_system s' closing_reachable ltac:(eexists; reflexivity) Hs)
    as (_ & Hr & _ & Hstart & _).
  split; [|exact Hr]. apply Hstart. discriminate.
Defined.

(** Witness of C11 *)
Lemma closing_finishes_witness :
  ∃ s', rtc cleanup_step closing_system s' ∧ _close_task (srv s') = Some Finished ∧ quiescent s'.
Proof.
  exact (proj2 (closing_finishes closing_system closing_reachable ltac:(eexists; reflexivity))).
Defined.
