(* ===== verification/Storage.v ===== *)
(** * Report storage (src/solvetls/storage.py)

    The process-wide state of the storage module and its life: one database client that
    is owned, replaced and closed.  The MongoDB driver and Beanie are the interface
    [Database]; its calls may fail or be cancelled at any point. *)

From S2P Require Import Prelude PyText Streams.

(** How one [await shield(closing)] ends: the task is done, the waiting is cancelled, or
    both at once. *)
Inductive wake := TaskDone | Interrupted | DoneInterrupted.

(** [D] is the driver's side of the world, [K] its clients. *)
Class Database (D K : Type) := {
  AsyncMongoClient : text → M D K;
  init_beanie : K → M D unit;
  insert : json → M D unit;
  client_close : K → M D unit;
  next_wake : D → wake * D;
  (** Whether the cancellation just raised is that of the expired deadline. *)
  database_deadline : D → bool;
}.

(** The types of the document's fields: [str | None] and [dict | None]. *)
Inductive field_type := StrOrNone | DictOrNone.

(** [Fingerprint(Document)]: the fields that a report gives; [created_at] is the clock's. *)
Definition Fingerprint : list (text * field_type) :=
  [(u "source", StrOrNone); (u "ip", StrOrNone); (u "http_version", StrOrNone);
   (u "method", StrOrNone); (u "user_agent", StrOrNone); (u "error", StrOrNone);
   (u "tls", DictOrNone); (u "http1", DictOrNone); (u "http2", DictOrNone);
   (u "tcpip", DictOrNone)].

Definition has_type (t : field_type) (j : json) : bool :=
  match t, j with
  | _, JNull | StrOrNone, JStr _ | DictOrNone, JDict _ => true
  | _, _ => false
  end.

(** A keyword argument that is a field of the document and has its type: pydantic would
    ignore others, and refuse a value of another type. *)
Definition stored_field (kv : text * json) : bool :=
  match dict_get kv.1 Fingerprint with Some t => has_type t kv.2 | None => false end.

(** The module's globals, and the driver. *)
Record storage (D K : Type) := mkStorage {
  database : D;
  _enabled : bool;
  _client : option K;
}.
Arguments mkStorage {_ _} _ _ _.
Arguments database {_ _} _.
Arguments _enabled {_ _} _.
Arguments _client {_ _} _.

Section storage.
Context {D K : Type} `{Database D K}.
Abbreviation ST := (M (storage D K)).
Context (fuel : nat).

Definition on_database {A} (m : M D A) : ST A := λ s,
  let '(r, d) := m (database s) in (r, mkStorage d (_enabled s) (_client s)).

Definition set_enabled (v : bool) (s : storage D K) : storage D K :=
  mkStorage (database s) v (_client s).

Definition set_client (v : option K) (s : storage D K) : storage D K :=
  mkStorage (database s) (_enabled s) v.

Definition _close_with_timeout (client : K) : M D unit :=
  try_except (client_close client) (λ e, if is_Exception e then mret tt else raise e).

(** [await shield(closing)], where [closing] is the task of [_close_with_timeout]: whether
    the task is done, and whether [CancelledError] is raised. *)
Definition shield_closing (client : K) : M D (bool * bool) :=
  let finish := try_except (_ ← _close_with_timeout client; mret false)
    (λ e, if bool_decide (e = CancelledError) then mret true else raise e) in
  w ← (λ d, let '(w, d) := next_wake d in (Ok w, d));
  match w with
  | TaskDone => cancelled ← finish; mret (true, cancelled)
  | Interrupted => mret (false, true)
  | DoneInterrupted => _ ← finish; mret (true, true)
  end.

(** [while not closing.done()] *)
Fixpoint wait_closing (n : nat) (client : K) (finished : bool) : M D unit :=
  if finished then mret tt
  else
    match n with
    | O => raise OutOfFuel
    | S n => '(finished, _) ← shield_closing client; wait_closing n client finished
    end.

Definition _close_client (client : K) : M D unit :=
  '(finished, cancelled) ← shield_closing client;
  if cancelled : bool then
    _ ← wait_closing fuel client finished;
    raise CancelledError
  else mret tt.

Definition close_storage : ST unit :=
  _ ← modify (set_enabled false);
  client ← gets _client;
  _ ← modify (set_client None);
  match client with
  | None => mret tt
  | Some client => on_database (_close_client client)
  end.

Definition deadline_over (s : storage D K) : bool := database_deadline (database s).

(** The [try] of [init_storage]; the [finally] closes a client that was not kept. *)
Definition open_client (connection_string : text) : ST unit :=
  client ← with_timeout deadline_over (on_database (AsyncMongoClient connection_string));
  _ ← try_except (with_timeout deadline_over (on_database (init_beanie client)))
        (λ e, _ ← on_database (_close_client client); raise e);
  _ ← modify (set_client (Some client));
  modify (set_enabled true).

Definition init_storage (connection_string : text) : ST bool :=
  _ ← close_storage;
  match connection_string with
  | [] => mret false
  | _ => _ ← open_client connection_string; mret true
  end.

Definition save_fingerprint (report : json) : ST unit :=
  enabled ← gets _enabled;
  if enabled : bool then
    try_except (with_timeout deadline_over (on_database (insert report)))
      (λ e, if is_Exception e then mret tt else raise e)
  else mret tt.

End storage.

(** ** A driver with a log *)

Inductive database_call (K : Type) :=
  | DOpen (client : K)
  | DClose (client : K)
  | DInsert (report : json).
Arguments DOpen {_} _.
Arguments DClose {_} _.
Arguments DInsert {_} _.

Record logged_database (D K : Type) := mkDatabase {
  db_world : D;
  db_calls : list (database_call K);
}.
Arguments mkDatabase {_ _} _ _.
Arguments db_world {_ _} _.
Arguments db_calls {_ _} _.

Definition log_database {D K A} (m : M D A) (cs : result A → list (database_call K))
    : M (logged_database D K) A := λ d,
  let '(r, w) := m (db_world d) in (r, mkDatabase w (db_calls d ++ cs r)).

#[export] Instance logged_db {D K} `{Database D K} : Database (logged_database D K) K := {|
  AsyncMongoClient c := log_database (AsyncMongoClient c)
    (λ r, match r with Ok k => [DOpen k] | Err _ => [] end);
  init_beanie k := log_database (init_beanie k) (λ _, []);
  insert j := log_database (insert j) (λ _, [DInsert j]);
  client_close k := log_database (client_close k) (λ _, [DClose k]);
  next_wake d := let '(w, d') := next_wake (db_world d) in (w, mkDatabase d' (db_calls d));
  database_deadline d := database_deadline (db_world d);
|}.

Section ownership.
Context {D K : Type} `{Database D K}.
Implicit Types (s : storage (logged_database D K) K).

Definition opened (cs : list (database_call K)) : list K :=
  omap (λ c, match c with DOpen k => Some k | _ => None end) cs.

Definition closed (cs : list (database_call K)) : list K :=
  omap (λ c, match c with DClose k => Some k | _ => None end) cs.

Definition log_of s : list (database_call K) := db_calls (database s).

(** Every client was closed, in the order they were opened, but for the one in use; it is
    in use exactly when storage is enabled. *)
Definition owned s : Prop :=
  opened (log_of s) = closed (log_of s) ++ option_list (_client s) ∧
  (_enabled s = true ↔ is_Some (_client s)).

(** The operations of the module. *)
Inductive storage_call :=
  | Init (connection_string : text)
  | CloseStorage
  | Save (report : json).

Definition run_storage (fuel : nat) (c : storage_call) : M (storage (logged_database D K) K) unit :=
  match c with
  | Init t => _ ← init_storage fuel t; mret tt
  | CloseStorage => close_storage fuel
  | Save j => save_fingerprint j
  end.

(** The log after a call. *)
Definition adds cs s s' : Prop :=
  log_of s' = log_of s ++ cs ∧ _enabled s' = _enabled s ∧ _client s' = _client s.

Lemma wp_database {A} (m : M (logged_database D K) A) (Q : A → _ → Prop) E s :
  wp m (λ a d, Q a (mkStorage d (_enabled s) (_client s)))
    (λ e d, E e (mkStorage d (_enabled s) (_client s))) (database s) →
  wp (on_database m) Q E s.
Proof. unfold wp, on_database. by destruct (m (database s)) as [[]]. Qed.

Lemma wp_log_db {A} (m : M D A) cs d (Q : A → _ → Prop) E :
  (∀ a d', db_calls d' = db_calls d ++ cs (Ok a) → Q a d') →
  (∀ e d', db_calls d' = db_calls d ++ cs (Err e) → E e d') →
  wp (log_database m cs : M (logged_database D K) A) Q E d.
Proof. unfold wp, log_database. intros HQ HE. destruct (m (db_world d)) as [[]]; auto. Qed.

(** Closing a client closes it once, and a cancellation waits for it. *)
Lemma close_with_timeout_spec k d :
  wp (_close_with_timeout k) (λ _ d', db_calls d' = db_calls d ++ [DClose k])
    (λ e d', db_calls d' = db_calls d ++ [DClose k] ∧ is_Exception e = false) d.
Proof.
  unfold _close_with_timeout. apply wp_try, wp_log_db; [done|]. intros e d' E.
  apply wp_if; intros He; [by apply wp_ret|by apply wp_raise].
Qed.

Lemma shield_spec k d :
  wp (shield_closing k)
    (λ '(finished, cancelled) d',
       db_calls d' = db_calls d ++ (if finished : bool then [DClose k] else []) ∧
       (finished = false → cancelled = true))
    (λ e d', db_calls d' = db_calls d ++ [DClose k]) d.
Proof.
  unfold shield_closing. apply wp_bind. unfold wp at 1. cbn [next_wake logged_db].
  destruct (next_wake (db_world d)) as [w d0]. set (d1 := mkDatabase d0 (db_calls d)).
  assert (∀ (Q : bool → _ → Prop), (∀ b d', db_calls d' = db_calls d ++ [DClose k] → Q b d') →
    wp (try_except (_ ← _close_with_timeout k; mret false)
      (λ e, if bool_decide (e = CancelledError) then mret true else raise e)) Q
      (λ e d', db_calls d' = db_calls d ++ [DClose k]) d1) as Hfin.
  { intros Q HQ. apply wp_try, wp_bind. eapply wp_wand; [apply close_with_timeout_spec|..]; cbn beta.
    - intros [] d2 E2. by apply wp_ret, HQ.
    - intros e d2 [E2 _]. apply wp_if; intros _; [by apply wp_ret, HQ|by apply wp_raise]. }
  destruct w.
  - apply wp_bind, Hfin. intros b d2 E2. by apply wp_ret.
  - apply wp_ret. by rewrite app_nil_r.
  - apply wp_bind, Hfin. intros b d2 E2. by apply wp_ret.
Qed.

Lemma wait_closing_spec n k finished d :
  wp (wait_closing n k finished)
    (λ _ d', db_calls d' = db_calls d ++ (if finished then [] else [DClose k]))
    (λ e d', e = OutOfFuel ∨ db_calls d' = db_calls d ++ (if finished then [] else [DClose k])) d.
Proof.
  revert finished d. induction n as [|n IH]; intros [|] d; cbn [wait_closing];
    try (apply wp_ret; by rewrite app_nil_r); [by left|].
  apply wp_bind. eapply wp_wand; [apply shield_spec|..]; cbn beta; [|auto].
  intros [finished cancelled] d1 [E _]. eapply wp_wand; [apply IH|..]; cbn beta.
  - intros [] d2 E2. rewrite E2, E, <-app_assoc. by destruct finished.
  - intros e d2 [?|E2]; [by left|right]. rewrite E2, E, <-app_assoc. by destruct finished.
Qed.

Lemma close_client_spec fuel k d :
  wp (_close_client fuel k) (λ _ d', db_calls d' = db_calls d ++ [DClose k])
    (λ e d', e = OutOfFuel ∨ db_calls d' = db_calls d ++ [DClose k]) d.
Proof.
  unfold _close_client. apply wp_bind. eapply wp_wand; [apply shield_spec|..]; cbn beta; [|auto].
  intros [finished cancelled] d1 [E Hf]. destruct cancelled.
  - apply wp_bind. eapply wp_wand; [apply wait_closing_spec|..]; cbn beta.
    + intros [] d2 E2. apply wp_raise. right. rewrite E2, E, <-app_assoc. by destruct finished.
    + intros e d2 [?|E2]; [by left|right]. rewrite E2, E, <-app_assoc. by destruct finished.
  - apply wp_ret. destruct finished; [done|]. by specialize (Hf eq_refl).
Qed.

(** Nothing is in use. *)
Definition idle s : Prop :=
  opened (log_of s) = closed (log_of s) ∧ _enabled s = false ∧ _client s = None.

Lemma idle_owned s : idle s → owned s.
Proof.
  intros (E & E1 & E2). unfold owned. rewrite E1, E2, app_nil_r. split; [done|].
  split; [done|]. by intros [? [=]].
Qed.

Lemma closed_snoc cs k : closed (cs ++ [DClose k]) = closed cs ++ [k].
Proof. unfold closed. by rewrite omap_app. Qed.

Lemma opened_snoc cs k : opened (cs ++ [DClose k]) = opened cs.
Proof. unfold opened. by rewrite omap_app, app_nil_r. Qed.

Lemma close_storage_spec fuel s :
  owned s → wp (close_storage fuel) (λ _, idle) (λ e s', e = OutOfFuel ∨ idle s') s.
Proof.
  intros [Ho He]. unfold close_storage.
  apply wp_bind, wp_modify, wp_bind, wp_gets, wp_bind, wp_modify.
  change (_client (set_enabled false s)) with (_client s).
  destruct (_client s) as [k|] eqn:Ek; [|apply wp_ret; split_and!; [|done|done]; by rewrite app_nil_r in Ho].
  apply wp_database.
  assert (∀ d, db_calls d = log_of s ++ [DClose k] → idle (mkStorage d false None)) as Hi.
  { intros d E. split_and!; [|done|done]. unfold log_of. cbn. rewrite E, closed_snoc, opened_snoc. exact Ho. }
  eapply wp_wand; [apply close_client_spec|..]; cbn beta.
  - intros [] d E. by apply Hi.
  - intros e d [?|E]; [by left|right; by apply Hi].
Qed.

Lemma open_client_spec fuel t s :
  idle s → wp (open_client fuel t) (λ _ s', owned s' ∧ _enabled s' = true) (λ e s', e = OutOfFuel ∨ idle s') s.
Proof.
  intros (Ho & He & Hc). unfold open_client. apply wp_bind, wp_timeout, wp_database, wp_log_db.
  2:{ intros e d E. rewrite app_nil_r in E.
      assert (idle (mkStorage d (_enabled s) (_client s))); [|split; by right].
      split_and!; [|done|done]. unfold log_of. cbn. by rewrite E. }
  intros k d E. apply wp_bind, wp_try, wp_timeout, wp_database, wp_log_db; cbn [database] in *.
  - intros [] d2 E2. rewrite app_nil_r in E2. apply wp_bind, wp_modify, wp_modify. split; [|done]. split.
    + unfold log_of. cbn. rewrite E2, E. unfold opened, closed. rewrite !omap_app. cbn.
      rewrite app_nil_r. f_equal. exact Ho.
    + split; [by eexists|done].
  - intros e d2 E2. rewrite app_nil_r in E2.
    assert (∀ e, wp (_ ← on_database (_close_client fuel k); raise (A := unit) e) (λ _ _, False)
      (λ e s', e = OutOfFuel ∨ idle s') (mkStorage d2 (_enabled s) (_client s))) as Hclose.
    { intros e'. apply wp_bind, wp_database.
      assert (∀ d3, db_calls d3 = db_calls d2 ++ [DClose k] →
        idle (mkStorage d3 (_enabled s) (_client s))) as Hi.
      { intros d3 E3. split_and!; [|done|done]. unfold log_of. cbn. rewrite E3, closed_snoc, opened_snoc, E2, E.
        unfold opened, closed. rewrite !omap_app. cbn. rewrite app_nil_r. f_equal. exact Ho. }
      eapply wp_wand; [apply close_client_spec|..]; cbn beta.
      - intros [] d3 E3. right. by apply Hi.
      - intros x d3 [?|E3]; [by left|right; by apply Hi]. }
    split; (eapply wp_wand; [apply Hclose|done|done]).
Qed.

Lemma save_spec j s :
  owned s → wp (save_fingerprint j) (λ _, owned) (λ e s', is_Exception e = false ∧ owned s') s.
Proof.
  intros [Ho He]. unfold save_fingerprint. apply wp_bind, wp_gets, wp_if; intros Hen; [|by apply wp_ret].
  assert (∀ d, db_calls d = log_of s ++ [DInsert j] → owned (mkStorage d (_enabled s) (_client s))) as Hi.
  { intros d E. split; [|done]. unfold log_of. cbn. rewrite E. unfold opened, closed.
    rewrite !omap_app, !app_nil_r. exact Ho. }
  apply wp_try, wp_timeout, wp_database, wp_log_db.
  - intros [] d E. by apply Hi.
  - intros e d E. apply Hi in E.
    split; (apply wp_if; intros Hx; [by apply wp_ret|by apply wp_raise]).
Qed.

(** C23: the module owns its database client. Whatever the driver does, and however often
    a call is cancelled: after every call of [init_storage], [close_storage] and
    [save_fingerprint] that ends, each client that was opened has been closed exactly
    once, before the next was opened, but for one that is in use, and one is in use
    exactly when storage is enabled; [init_storage] that fails and [close_storage] leave
    none in use. Saving raises nothing but what is no [Exception]. *)
Theorem storage_owned fuel c s :
  owned s →
  let '(r, s') := run_storage fuel c s in
  r = Err OutOfFuel ∨
  owned s' ∧
  match c with
  | Init t => (r ≠ Ok tt ∨ t = [] → idle s') ∧ (r = Ok tt → t ≠ [] → _enabled s' = true)
  | CloseStorage => idle s'
  | Save _ => ∀ e, r = Err e → is_Exception e = false
  end.
Proof.
  intros Hs. destruct c as [t| |j]; cbn [run_storage].
  - set (Q := λ (r : result unit) s', r = Err OutOfFuel ∨ owned s' ∧
      (r ≠ Ok tt ∨ t = [] → idle s') ∧ (r = Ok tt → t ≠ [] → _enabled s' = true)).
    enough (wp (_ ← init_storage fuel t; mret tt) (λ _, Q (Ok tt)) (λ e, Q (Err e)) s) as Hw.
    { unfold wp in Hw. by destruct ((_ ← init_storage fuel t; mret tt) s) as [[[]|e] s']. }
    assert (∀ e s', e = OutOfFuel ∨ idle s' → Q (Err e) s') as Herr.
    { intros e s' [->|Hi]; [by left|right]. split_and!; [by apply idle_owned|done|done]. }
    apply wp_bind, wp_bind. eapply wp_wand; [by apply close_storage_spec|cbn beta|auto].
    intros [] s1 Hi. destruct t as [|c t].
    + apply wp_ret, wp_ret. right. split_and!; [by apply idle_owned|done|done].
    + apply wp_bind. eapply wp_wand; [by apply open_client_spec|cbn beta|auto].
      intros [] s2 [Ho He]. apply wp_ret, wp_ret. right. split_and!; [done| |done]. by intros [|].
  - pose proof (close_storage_spec fuel s Hs) as Hw. unfold wp in Hw.
    destruct (close_storage fuel s) as [[[]|e] s']; [|destruct Hw as [->|Hw]; [by left|]];
      right; (split; [by apply idle_owned|done]).
  - pose proof (save_spec j s Hs) as Hw. unfold wp in Hw.
    destruct (save_fingerprint j s) as [[[]|e] s']; right; [done|]. destruct Hw.
    split; [done|]. by intros x [= <-].
Qed.

End ownership.

(** ** Witness *)

(** A driver that fails to initialise a client whose number is odd, and whose closing is
    first cancelled. *)
Record sample_driver := mkDriver { next_client : nat; wakes : list wake }.

#[export] Instance sample_database : Database sample_driver nat := {|
  AsyncMongoClient _ d := (Ok (next_client d), mkDriver (S (next_client d)) (wakes d));
  init_beanie k := if Nat.odd k then raise (OSError []) else mret tt;
  insert _ := raise TimeoutError;
  client_close _ := mret tt;
  next_wake d :=
    match wakes d with [] => (TaskDone, d) | w :: ws => (w, mkDriver (next_client d) ws) end;
  database_deadline _ := false;
|}.

Definition sample_storage : storage (logged_database sample_driver nat) nat :=
  mkStorage (mkDatabase (mkDriver 1 [Interrupted; TaskDone]) [DOpen 0%nat]) true (Some 0%nat).

(** Witness of C23: replacing a client is cancelled while the old one is closed: it is
    closed all the same, and none is opened. *)
Lemma storage_owned_witness :
  let '(r, s') := run_storage 5 (Init (u "mongodb://a/b")) sample_storage in
  r = Err CancelledError ∧ owned s' ∧ idle s'.
Proof.
  assert (owned sample_storage) as Ho.
  { split; [reflexivity|]. split; [intros _; eexists; reflexivity|reflexivity]. }
  pose proof (storage_owned 5 (Init (u "mongodb://a/b")) sample_storage Ho) as Hr.
  assert ((run_storage 5 (Init (u "mongodb://a/b")) sample_storage).1 = Err CancelledError) as E
    by (vm_compute; reflexivity).
  destruct (run_storage 5 _ sample_storage) as [r s']. cbn [fst] in E. subst r.
  split; [reflexivity|]. destruct Hr as [Hr|(Ho' & Hi & _)]; [discriminate Hr|].
  split; [exact Ho'|]. apply Hi. left. discriminate.
Defined.
