(* ===== verification/Server.v ===== *)
(** * Serving a client (src/solvetls/server.py)

    What the server does with one connection: the handshake, the request, the response
    policy, the report, the mapping of failures, closing and storing.  The state that the
    tasks share is the [system] of Lifecycle.v.  Whenever the handler waits, the other
    tasks take steps on it; which ones is up to the [Tasks], and a call that waits may
    fail in any way, by a cancellation too. *)

From S2P Require Import Prelude PyText Naming Frames HttpFields Uri Http1 Capture Adapter Session.
From S2P Require Import Client Report Streams Tls Connection Json Storage Lifecycle Logs.

Definition FAVICON_PATH : text := u "/favicon.ico".
Definition REPORT_HEADERS : list (text * text) :=
  [(u "content-type", u "application/json"); (u "cache-control", u "no-store")].

Definition EC_COMPRESSION_ERROR : Z := Eval compute in member ErrorCode "COMPRESSION_ERROR".
Definition EC_INTERNAL_ERROR : Z := Eval compute in member ErrorCode "INTERNAL_ERROR".

(** The [try] of [_response_policy]: whether the Expect fields fail. *)
Definition expectation_fails (hs : list (text * text)) : result bool :=
  match parse_expectations
          ((λ nv, FStr nv.2) <$> List.filter (λ nv, bool_decide (lower nv.1 = u "expect")) hs) with
  | Ok expectations => Ok (existsb (λ v, negb (bool_decide (v = u "100-continue"))) expectations)
  | Err e => if is_ValueError e then Ok true else Err e
  end.

Definition _response_policy (client : Observed) : result (Z * option text) :=
  path ← routing_path client;
  if bool_decide (path = Some FAVICON_PATH) then mret (204, None)
  else
    failed ← expectation_fails (match http1 client with Some r => Http1.headers r | None => [] end);
    if failed ||
       (match http2 client with Some c => expectation_failed c | None => false end)
    then mret (417, Some (u "Unsupported expectation"))
    else if bool_decide (request_method client = Some (u "CONNECT")) then
      mret (501, Some (u "CONNECT tunnels are not supported"))
    else mret (200, None).

(** [report["error"] = error] *)
Definition with_error (error : option text) (report : list (text * json)) : list (text * json) :=
  match error with
  | Some ((_ :: _) as e) => dict_set (u "error") (JStr e) report
  | _ => report
  end.

Definition report_content (report : list (text * json)) : bytes :=
  encode_utf8 (dumps 0 (JDict report)).

(** The code of the GOAWAY for what the [except] clauses of [_serve_client] catch after
    [HTTP1Error]; [None] for what they let through. *)
Definition goaway_code (e : exn) : option Z :=
  match e with
  | ProtocolError _ error_code => Some error_code
  | H2Error _ => Some EC_PROTOCOL_ERROR
  | HTTP2FrameParsingError _ code => Some code
  | _ =>
      if is_SSLError e then Some EC_NO_ERROR
      else if is_ConnectionError e || bool_decide (e = TimeoutError) then Some EC_NO_ERROR
      else if is_HPACKError e then Some EC_COMPRESSION_ERROR
      else if is_ValueError e then Some EC_PROTOCOL_ERROR
      else if is_Exception e then Some EC_INTERNAL_ERROR
      else None
  end.

(** The call of the logger in each of those clauses. *)
Definition failure_log (e : exn) : option logger_call :=
  match e with
  | ProtocolError _ _ | H2Error _ | HTTP2FrameParsingError _ _ => Some (LogInfo (u "Bad HTTP/2 request: ") e)
  | _ =>
      if is_SSLError e then Some (LogDebug (u "TLS handshake failed: ") (Some e))
      else if is_ConnectionError e || bool_decide (e = TimeoutError) then
        Some (LogDebug (u "Connection lost: ") (Some e))
      else if is_ValueError e || is_HPACKError e then Some (LogInfo (u "Bad request: ") e)
      else if is_Exception e then Some (LogException (u "Unhandled error while serving"))
      else None
  end.

(** The other tasks of the process: the states that they take the server through while the
    task of a connection waits. *)
Class Tasks (T : Type) := meanwhile : T → nat → system → list system * T.

Section server.
Context {C W L D K T : Type} `{H2Connection C} `{Streams W} `{SSLObject L} `{Database D K} `{Tasks T}.
Context (h2_validate : list field → bool → result unit) (new_h2 : C) (fuel : nat).
(** The number of the connection. *)
Context (w : nat).

Abbreviation conn_t := (@ClientConnection C W L).

(** [store] is the storage as this handler uses it, [journal] its calls of the logger. *)
Record handling := mkHandling {
  client : conn_t;
  sys : system;
  store : storage D K;
  tasks : T;
  journal : list logger_call;
}.

Abbreviation HM := (M handling).

Definition others_run (s : handling) : handling :=
  let '(path, t) := meanwhile (tasks s) w (sys s) in
  mkHandling (client s) (List.last path (sys s)) (store s) t (journal s).

(** What is done with the client and the storage touches nothing of the server, so what the
    others do at its waits is done when it ends. *)
Definition on_client {A} (m : M conn_t A) : HM A := λ s,
  let '(r, c) := m (client s) in (r, others_run (mkHandling c (sys s) (store s) (tasks s) (journal s))).

Definition on_store {A} (m : M (storage D K) A) : HM A := λ s,
  let '(r, t) := m (store s) in (r, others_run (mkHandling (client s) (sys s) t (tasks s) (journal s))).

Definition set_server (v : SolveTLS) (s : handling) : handling :=
  mkHandling (client s) (mkSystem v (lock (sys s)) (running (sys s)) (used (sys s))) (store s) (tasks s) (journal s).

Definition log_line (c : logger_call) (s : handling) : handling :=
  mkHandling (client s) (sys s) (store s) (tasks s) (journal s ++ [c]).

Definition respond (content : bytes) (hs : option (list (text * text))) (status : Z) : HM unit :=
  on_client (send_response h2_validate fuel content hs status).

Definition _send_json (report : list (text * json)) (status_code : Z) : HM Z :=
  let content := report_content report in
  _ ← respond content (Some REPORT_HEADERS) status_code;
  mret (zlen content).

Definition _send_report (status : Z) (error : option text)
    : HM (Z * Z * option (list (text * json))) :=
  shared ← gets (λ s, srv (sys s));
  match admit_report w shared with
  | None =>
      _ ← respond [] (Some [(u "cache-control", u "no-store")]) 503;
      mret (503, 0, None)
  | Some shared =>
      _ ← modify (set_server shared);
      c ← gets client;
      report ← lift (build_report (observed c));
      let report := with_error error report in
      content_length ← _send_json report status;
      mret (status, content_length, Some report)
  end.

(** The [try] block of [_serve_client]: the report to save, and the code to close with. *)
Definition serve : HM (option (list (text * json)) * Z) :=
  _ ← on_client (do_tls_handshake fuel);
  _ ← on_client (handle_http h2_validate new_h2 fuel);
  c ← gets client;
  '(status, error) ← lift (_response_policy (observed c));
  '(status, content_length, report_to_save) ←
    (if status =? 204 then
       _ ← respond [] None status;
       mret (status, 0, None)
     else _send_report status error);
  c ← gets client;
  _ ← modify (log_line (LogRequest (request_method (observed c)) (request_path (observed c))
                          (http_version (observed c)) status content_length));
  mret (report_to_save, EC_NO_ERROR).

(** Its [except] clauses. *)
Definition serve_failed (e : exn) : HM (option (list (text * json)) * Z) :=
  match e with
  | HTTP1Error message status_code =>
      _ ← modify (log_line (LogInfo (u "Bad HTTP/1.1 request: ") e));
      try_except
        ('(_, _, report_to_save) ← _send_report status_code (Some message);
         mret (report_to_save, EC_NO_ERROR))
        (λ e,
          if is_ConnectionError e || bool_decide (e = TimeoutError) || is_SSLError e then
            _ ← modify (log_line (LogDebug (u "Could not send HTTP/1.1 error response") None));
            mret (None, EC_NO_ERROR)
          else raise e)
  | _ =>
      _ ← (match failure_log e with Some c => modify (log_line c) | None => mret tt end);
      match goaway_code e with
      | Some code => mret (None, code)
      | None => raise e
      end
  end.

Definition save (report_to_save : option (list (text * json))) : HM unit :=
  match report_to_save with
  | Some report => on_store (save_fingerprint (JDict report))
  | None => mret tt
  end.

Definition _serve_client : HM unit := λ s,
  match try_except serve serve_failed s with
  | (Ok (report_to_save, http2_error_code), s) =>
      (_ ← on_client (close fuel http2_error_code); save report_to_save) s
  | (Err e, s) => (_ ← on_client (close fuel EC_NO_ERROR); raise e) s
  end.

(** The [finally] of [_handle_client], with which the task ends. *)
Definition end_task (s : handling) : handling :=
  let shared := sys s in
  mkHandling (client s)
    (mkSystem (release_report w (srv shared)) (lock shared) (running shared ∖ {[w]}) (used shared))
    (store s) (tasks s) (journal s).

(** [_handle_client] behind the construction of its [ClientConnection]. *)
Definition _handle_client : HM unit := finally _serve_client end_task.

(** [_client_done], the callback of the task; what it raises only reaches the event loop. *)
Definition client_done : HM unit := λ s,
  let is_closing := writer_is_closing (streams (link (client s))) in
  let '(must_close, shared) := _client_done w is_closing (srv (sys s)) in
  let s := set_server shared s in
  if must_close then
    let '(_, c) := on_link (on_streams writer_close) (client s) in
    (Ok tt, mkHandling c (sys s) (store s) (tasks s) (journal s))
  else (Ok tt, s).

(** The task that [_accept_client] creates, and its callback. *)
Definition client_task : HM unit := λ s,
  let '(_, s) := _handle_client s in
  client_done (others_run s).

End server.
