(* ===== verification/PolicySpec.v ===== *)
(** * The response policy (src/solvetls/server.py, _response_policy)

    Which answer a request gets, stated on the request itself: the path in its target, its
    expectations and its method, with no word of how the code finds them. *)

From S2P Require Import Prelude PyText HttpFields Uri Http1 Capture Client Report Redirect Server.

(** ** The path of a request *)

(** A path, and the query behind it if there is one. *)
Definition path_and_query (t path : text) : Prop :=
  (63 ∉ path) ∧ ∃ rest, t = path ++ rest ∧ (rest = [] ∨ ∃ query, rest = 63 :: query).

(** The path of an absolute target: behind the scheme, and behind the authority if it has
    one. *)
Inductive absolute_form : text → text → Prop :=
  | absolute_authority_form s authority t path :
      forallb scheme_char s = true → (∀ c, c ∈ authority → c ∉ u "/?#") →
      (t = [] ∨ startswith (u "/") t = true ∨ startswith (u "?") t = true) → path_and_query t path →
      absolute_form (s ++ u "://" ++ authority ++ t) path
  | absolute_plain_form s t path :
      forallb scheme_char s = true → startswith (u "//") t = false → path_and_query t path →
      absolute_form (s ++ u ":" ++ t) path.

(** The path that a request asks for: none for a tunnel; over HTTP/2, and in the origin
    form, what the target has in front of its query; in the absolute form that of the URI,
    where the empty path means the root. *)
Inductive requested_path (o : Observed) : option text → Prop :=
  | no_target : request_path o = None ∨ request_path o = Some [] → requested_path o None
  | tunnel_target : request_method o = Some (u "CONNECT") → requested_path o None
  | origin_target t path :
      request_path o = Some t → t ≠ [] → request_method o ≠ Some (u "CONNECT") →
      http_version o = Some HTTP_2_0 ∨ startswith (u "/") t = true ∨ t = u "*" →
      path_and_query t path → requested_path o (Some path)
  | absolute_target t path :
      request_path o = Some t → t ≠ [] → request_method o ≠ Some (u "CONNECT") →
      http_version o ≠ Some HTTP_2_0 → startswith (u "/") t = false → t ≠ u "*" →
      absolute_form t path → requested_path o (Some (match path with [] => u "/" | _ => path end)).

Lemma path_and_query_of t path : path_and_query t path ↔ path = path_of t.
Proof.
  unfold path_of. split.
  - intros (Hp & rest & -> & [->|[q ->]]); [by rewrite app_nil_r, partition_none|by rewrite partition_app].
  - intros ->. destruct (partition_ 63 t) as [[h s] q] eqn:E.
    destruct (partition_spec _ _ _ _ _ E) as (Hh%mem_false & -> & _). cbn. split; [done|].
    destruct s; [|exists []; rewrite app_nil_r; auto]. exists (63 :: q). eauto.
Qed.

(** The path that is left of a scheme. *)
Definition path_behind (k : text) : text :=
  path_of (if startswith (u "//") k then (span (λ c, negb (mem c (u "/?#"))) (drop 2 k)).2 else k).

Lemma absolute_form_of s k path :
  forallb scheme_char s = true → (35 ∉ k) → absolute_form (s ++ 58 :: k) path ↔ path = path_behind k.
Proof.
  intros Hs Hk. assert (∀ s2 k2, forallb scheme_char s2 = true → s2 ++ 58 :: k2 = s ++ 58 :: k → k2 = k) as Hinj.
  { intros s2 k2 Hs2 E. assert (partition_ 58 (s2 ++ 58 :: k2) = partition_ 58 (s ++ 58 :: k)) as Ep by (by rewrite E).
    rewrite !partition_app in Ep by (by apply scheme_no_colon). by injection Ep. }
  unfold path_behind. split.
  - intros Hf. inversion Hf as [s2 a t p Hs2 Ha Ht Hp E|s2 t p Hs2 Ht Hp E]; subst.
    + apply Hinj in E as <-; [|done]. change (startswith (u "//") _) with true. cbn beta iota.
      change (drop 2 _) with (a ++ t). rewrite span_app; [by apply path_and_query_of|..].
      * apply Forall_forall. intros c Hc. apply negb_true_iff, mem_false. by apply Ha.
      * destruct Ht as [->|[Ht|Ht]]; [done|..]; apply startswith_app in Ht as [t' ->]; done.
    + apply Hinj in E as <-; [|done]. rewrite Ht. by apply path_and_query_of.
  - intros ->. destruct (startswith (u "//") k) eqn:Ek.
    + apply startswith_app in Ek as [k2 ->]. change (drop 2 _) with k2.
      destruct (span _ k2) as [a r] eqn:En. destruct (span_spec _ _ _ _ En) as (-> & Ha & Hr). cbn [snd].
      apply (absolute_authority_form s a r); [done| | |by apply path_and_query_of].
      * intros c Hc. eapply Forall_forall in Ha; [|exact Hc]. by apply negb_true_iff, mem_false in Ha.
      * destruct r as [|c r]; [by left|right]. apply negb_false_iff, mem_In in Hr.
        change (u "/?#") with [47; 63; 35] in Hr. rewrite !elem_of_cons in Hr.
        destruct Hr as [->|[->|[->|[]%elem_of_nil]]]; [by left|by right|].
        destruct Hk. change (u "//" ++ a ++ 35 :: r) with (47 :: 47 :: a ++ 35 :: r).
        do 2 (apply elem_of_cons; right). apply elem_of_app. right. apply elem_of_cons. by left.
    + apply (absolute_plain_form s k); [done|done|by apply path_and_query_of].
Qed.

(** ** Expectations *)

(** The values of the Expect fields of a request in HTTP/1.1, as one list (RFC 9110, 5.3):
    every member of it is the one expectation that there is, in any case of letters. *)
Definition expectations_met (values : list text) : Prop :=
  ∃ chunks, chunks ≠ [] ∧ Forall list_chunk chunks ∧ join [COMMA] values = join [COMMA] chunks ∧
    ∀ m, m ∈ members chunks → lower m = u "100-continue".

Definition expect_values (o : Observed) : list text :=
  match http1 o with
  | Some r => snd <$> filter (λ nv, lower nv.1 = u "expect") (Http1.headers r)
  | None => []
  end.

(** The session of HTTP/2 keeps a record of its own. *)
Definition expectation_refused (o : Observed) : Prop :=
  ¬ expectations_met (expect_values o) ∨ ∃ c, http2 o = Some c ∧ expectation_failed c = true.

Lemma filter_decided {A} (P : A → Prop) `{∀ x, Decision (P x)} (l : list A) :
  List.filter (λ x, bool_decide (P x)) l = filter P l.
Proof.
  induction l as [|x l IH]; [done|]. cbn [List.filter]. rewrite filter_cons, IH. by case_decide; case_bool_decide.
Qed.

Lemma expectation_fails_met (o : Observed) :
  ∃ b, expectation_fails (match http1 o with Some r => Http1.headers r | None => [] end) = Ok b ∧
    (b = false ↔ expectations_met (expect_values o)).
Proof.
  unfold expectation_fails. set (hs := match http1 o with Some r => _ | None => _ end).
  assert (expect_values o = snd <$> filter (λ nv, lower nv.1 = u "expect") hs) as Ev
    by (subst hs; unfold expect_values; by destruct (http1 o)).
  rewrite filter_decided. set (fs := filter _ hs) in *.
  assert (as_text <$> ((λ nv, FStr nv.2) <$> fs) = expect_values o) as Et
    by (rewrite Ev, <-list_fmap_compose; by apply list_fmap_ext).
  unfold parse_expectations. pose proof (http_list_exact ((λ nv, FStr nv.2) <$> fs)) as Hx. rewrite Et in Hx.
  destruct (parse_http_list _) as [r|e] eqn:E; cbn [mbind result_bind mret result_ret].
  - eexists. split; [done|]. rewrite <-not_true_iff_false, existsb_exists. unfold expectations_met. split.
    + intros Hn. destruct Hx as (chunks & Hne & Hc & Hj & ->). exists chunks. split_and!; [done..|].
      intros m Hm. destruct (decide (lower m = u "100-continue")) as [?|Hd]; [done|]. destruct Hn.
      exists (lower m). split; [by apply in_map, list_elem_of_In|]. by rewrite bool_decide_eq_false_2.
    + intros (chunks & Hne & Hc & Hj & Hall) (v & Hv & Hd). apply in_map_iff in Hv as (m & <- & Hm).
      assert (parse_http_list ((λ nv, FStr nv.2) <$> fs) = Ok (members chunks)) as E'
        by (apply http_list_iff; exists chunks; by rewrite Et).
      rewrite E in E'. injection E' as ->. apply list_elem_of_In in Hm. rewrite (Hall m Hm) in Hd. done.
  - destruct Hx as [-> Hno]. eexists. split; [done|]. split; [done|].
    intros (chunks & ? & ? & ? & _). destruct Hno. by exists chunks.
Qed.

(** ** The policy *)

(** The request that a connection has when its response is decided. *)
Definition request_known (o : Observed) : Prop :=
  http_version o = Some HTTP_2_0 ∨
  (http_version o = Some HTTP_1_1 ∧ http2 o = None ∧
   ∃ head request, http1 o = Some request ∧ parse_request head = Ok request).

(** An absolute target that was accepted has a scheme and no fragment. *)
Lemma validate_absolute_form t p :
  validate_absolute t = Ok tt → split_absolute_uri t = Ok p →
  ∃ s k, t = s ++ 58 :: k ∧ forallb scheme_char s = true ∧ (35 ∉ k) ∧ Uri.path p = path_behind k.
Proof.
  intros Hv Hp. destruct (validate_absolute_ok _ Hv) as [Hl _]. unfold validate_absolute in Hv.
  destruct (_ || _) eqn:Ef; [done|]. clear Hv. apply orb_false_iff in Ef as [Hs%negb_false_iff H35%mem_false].
  unfold _SCHEME_RE in Hs. destruct t as [|c t]; [done|]. apply andb_true_iff in Hs as [Hc Hs].
  destruct (span scheme_char (c :: t)) as [s r] eqn:Es. destruct (span_spec _ _ _ _ Es) as (Et & Hsc & _).
  cbn [snd] in Hs. apply startswith_app in Hs as [k ->]. change (u ":" ++ k) with (58 :: k) in *.
  assert (forallb scheme_char s = true) as Hsc'.
  { apply forallb_forall. intros x Hx%list_elem_of_In. by eapply Forall_forall in Hsc. }
  rewrite Et in *. exists s, k. assert (35 ∉ k) as Hk.
  { intros Hin. apply H35, elem_of_app. right. apply elem_of_cons. by right. }
  split_and!; [done|done|done|]. eapply absolute_path; [done|done| |done|done].
  destruct s as [|c' s]; [|injection Et as -> _; eauto]. cbn in Et. injection Et as -> _. by compute in Hc.
Qed.

Lemma routing_path_spec o :
  request_known o → ∃ path, routing_path o = Ok path ∧ ∀ path', requested_path o path' ↔ path' = path.
Proof.
  intros Hk. unfold routing_path.
  destruct (request_path o) as [t|] eqn:Ep.
  2:{ eexists. split; [done|]. intros path'. split; [|intros ->; apply no_target; auto].
      intros [ | | |]; congruence. }
  destruct (decide (t = [])) as [->|Hne].
  { eexists. split; [done|]. intros path'. split; [|intros ->; apply no_target; auto].
    intros [ | | |]; congruence. }
  replace (match t with [] => _ | _ :: _ => _ end) with
    (if bool_decide (request_method o = Some (u "CONNECT")) then Ok None
     else if bool_decide (http_version o = Some HTTP_2_0) || startswith (u "/") t || bool_decide (t = u "*") then
       Ok (Some (path_of t))
     else parsed ← split_absolute_uri t; mret (Some (match Uri.path parsed with [] => u "/" | p => p end)))
    by (by destruct t).
  case_bool_decide as Hm.
  { eexists. split; [done|]. intros path'. split; [|intros ->; by apply tunnel_target].
    intros [ | | |]; congruence. }
  destruct (_ || _ || _) eqn:Ef.
  { assert (http_version o = Some HTTP_2_0 ∨ startswith (u "/") t = true ∨ t = u "*") as Hf.
    { apply orb_true_iff in Ef as [[Ef%bool_decide_eq_true|Ef]%orb_true_iff|Ef%bool_decide_eq_true]; auto. }
    eexists. split; [done|]. intros path'. split.
    - intros [[?|?]|?|t' p' Et _ _ _ Hq|t' p' Et _ _ H2 Hs Ha _]; [congruence..| |].
      + rewrite Ep in Et. injection Et as <-. f_equal. by apply path_and_query_of.
      + destruct Hf as [?|[?|?]]; congruence.
    - intros ->. eapply origin_target; [done..|]. by apply path_and_query_of. }
  apply orb_false_iff in Ef as [[H2%bool_decide_eq_false Hs]%orb_false_iff Ha%bool_decide_eq_false].
  destruct Hk as [?|(_ & H2' & head & request & H1 & Hp)]; [done|].
  apply parse_request_iff in Hp as (_ & _ & _ & (Ht & _)).
  unfold request_method, request_path in Hm, Ep. rewrite H2', H1 in Hm, Ep. cbn in Ep, Hm.
  assert (Http1.path request = t) as Et by congruence. rewrite Et in Ht.
  assert (method request ≠ u "CONNECT") as Hm' by congruence.
  unfold _validate_target in Ht. rewrite !bool_decide_false in Ht by done. rewrite Hs in Ht.
  destruct (validate_absolute_ok _ Ht) as [_ [p Esp]]. rewrite Esp. cbn [mbind result_bind mret result_ret].
  destruct (validate_absolute_form _ _ Ht Esp) as (s & k & Etk & Hsc & Hk & Ek). clear Et. subst t. rewrite Ek.
  eexists. split; [done|]. intros path'.
  assert (request_path o = Some (s ++ 58 :: k)) as Ep'
    by (unfold request_path; rewrite H2', H1; cbn; congruence).
  assert (request_method o ≠ Some (u "CONNECT")) as Hmo
    by (unfold request_method; rewrite H2', H1; cbn; congruence).
  split.
  - intros [[?|?]|?|t' p' Et' _ _ Hf Hq|t' p' Et' _ _ _ _ _ Hf]; [congruence..| |].
    + destruct Hf as [?|[?|?]]; congruence.
    + rewrite Ep' in Et'. apply (inj Some) in Et' as <-. apply absolute_form_of in Hf as ->; [|done|done]. by destruct (path_behind k).
  - intros ->. assert (requested_path o (Some (match path_behind k with [] => u "/" | _ => path_behind k end))) as Hr.
    { eapply absolute_target; [exact Ep'|done|done|congruence|done|done|]. by apply absolute_form_of. }
    by destruct (path_behind k).
Qed.

(** The answers, in the order in which they are considered. *)
Inductive policy (o : Observed) : Z * option text → Prop :=
  | policy_favicon : requested_path o (Some FAVICON_PATH) → policy o (204, None)
  | policy_expectation :
      ¬ requested_path o (Some FAVICON_PATH) → expectation_refused o →
      policy o (417, Some (u "Unsupported expectation"))
  | policy_tunnel :
      ¬ requested_path o (Some FAVICON_PATH) → ¬ expectation_refused o →
      request_method o = Some (u "CONNECT") →
      policy o (501, Some (u "CONNECT tunnels are not supported"))
  | policy_report :
      ¬ requested_path o (Some FAVICON_PATH) → ¬ expectation_refused o →
      request_method o ≠ Some (u "CONNECT") → policy o (200, None).

(** C28: every request gets a decision, and exactly this one: 204 where its path, whatever
    its query and the form of its target, is that of the favicon; then 417 where the Expect
    fields are no list of expectations, or one with a member other than 100-continue, or
    where the session of HTTP/2 noted one; then 501 for CONNECT; and the report, with 200,
    for everything else. *)
Theorem response_policy_exact o :
  request_known o → (∃ answer, policy o answer) ∧ ∀ answer, _response_policy o = Ok answer ↔ policy o answer.
Proof.
  intros Hk. destruct (routing_path_spec o Hk) as (path & Ep & Hpath).
  destruct (expectation_fails_met o) as (b & Eb & Hb).
  set (b2 := match http2 o with Some c => expectation_failed c | None => false end).
  assert (b || b2 = true ↔ expectation_refused o) as Href.
  { unfold expectation_refused. rewrite <-Hb, orb_true_iff, not_false_iff_true. unfold b2.
    destruct (http2 o) as [c|]; naive_solver. }
  set (answer := if bool_decide (path = Some FAVICON_PATH) then (204, None)
    else if b || b2 then (417, Some (u "Unsupported expectation"))
    else if bool_decide (request_method o = Some (u "CONNECT")) then
      (501, Some (u "CONNECT tunnels are not supported"))
    else (200, None)).
  assert (_response_policy o = Ok answer) as ->.
  { unfold _response_policy. rewrite Ep. cbn [mbind result_bind]. subst answer.
    case_bool_decide; [done|]. rewrite Eb. cbn [mbind result_bind]. fold b2.
    destruct (b || b2); [done|]. by case_bool_decide. }
  assert (policy o answer) as Hp.
  { subst answer. case_bool_decide as Hf; [by apply policy_favicon, Hpath|].
    assert (¬ requested_path o (Some FAVICON_PATH)) by (rewrite Hpath; congruence).
    destruct (b || b2) eqn:Eb2; [apply policy_expectation; tauto|].
    assert (¬ expectation_refused o) by (rewrite <-Href; done).
    case_bool_decide; [by apply policy_tunnel|by apply policy_report]. }
  split; [by exists answer|]. intros a. split; [by intros <-%(inj Ok)|]. intros Ha. f_equal.
  clearbody answer. destruct Hp, Ha; (done || tauto).
Qed.

(** ** Witness *)

(** A client that asks for the favicon with a query, in the absolute form. *)
Definition icon_head : bytes := Eval vm_compute in
  u "GET http://a/favicon.ico?v=2 HTTP/1.1" ++ CRLF ++ u "Host: a" ++ HEAD_END.

Definition icon_client : Observed :=
  mkObserved None None None (Some HTTP_1_1) None
    (match parse_request icon_head with Ok r => Some r | Err _ => None end) (Some icon_head) None.

(** Witness of C28: it is the favicon all the same. *)
Lemma response_policy_exact_witness :
  _response_policy icon_client = Ok (204, None) ∧ requested_path icon_client (Some FAVICON_PATH).
Proof.
  assert (request_known icon_client) as Hk.
  { right. split; [reflexivity|]. split; [reflexivity|]. exists icon_head. eexists.
    split; [reflexivity|]. vm_compute. reflexivity. }
  assert (_response_policy icon_client = Ok (204, None)) as E by (vm_compute; reflexivity).
  split; [exact E|].
  assert (policy icon_client (204, None)) as Hp by exact (proj1 (proj2 (response_policy_exact icon_client Hk) _) E).
  assert (∀ a, policy icon_client a → a = (204, None) → requested_path icon_client (Some FAVICON_PATH)) as Hi
    by (intros a [Hr| | |]; [intros _; exact Hr|discriminate..]).
  exact (Hi _ Hp eq_refl).
Defined.
