(* ===== verification/ServerSpec.v ===== *)
(** * Contracts of serving a client (src/solvetls/server.py)

    What a response says, and what a whole handler does at every behaviour of its peer, of
    OpenSSL, of h2 and of the database. *)

From S2P Require Import Prelude PyText Naming Frames HttpFields Uri Http1 Capture Adapter Session.
From S2P Require Import Client Report Streams Tls Connection HandshakeSpec ConnectionSpec Json Storage Lifecycle.
From S2P Require Import JsonSpec ReportSpec ResponseSpec RequestSpec SessionSpec Redirect Server.

(** ** The body of a response *)

Lemma content_text report : report_content report = dumps 0 (JDict report).
Proof.
  unfold report_content. apply ascii_encode. eapply Forall_impl; [apply dumps_ascii|]. cbn. lia.
Qed.

(** The error that a report shows. *)
Definition shown_error (error : option text) : option text :=
  match error with Some ((_ :: _) as e) => Some e | _ => None end.

Lemma with_error_text error report :
  (∀ e, error = Some e → chars e) → members_text report → members_text (with_error error report).
Proof.
  intros He Hr. unfold with_error. destruct error as [[|x e]|]; [done| |done].
  apply members_set; [apply u_chars|constructor; by apply He|done].
Qed.

(** No key of a report is that of its error. *)
Lemma no_error_key c r : build_report c = Ok r → dict_get (u "error") r = None.
Proof.
  intros Hr. destruct (report_fields c r Hr) as (tls & http & tcpip & _ & Hp & ->). unfold merge.
  rewrite dict_get_merge. destruct Hp; reflexivity.
Qed.

Lemma with_error_inj c c' e e' r r' :
  build_report c = Ok r → build_report c' = Ok r' → with_error e r = with_error e' r' →
  shown_error e = shown_error e' ∧ r = r'.
Proof.
  intros Hr%no_error_key Hr'%no_error_key. unfold with_error, shown_error.
  assert (∀ x (d : list (text * json)), dict_get (u "error") d = None → dict_set (u "error") (JStr x) d = d ++ [(u "error", JStr x)])
    as Hset by (intros x d Hd; by apply dict_set_new, dict_get_None).
  assert (∀ x (d d' : list (text * json)), dict_get (u "error") d' = None → d ++ [(u "error", JStr x)] ≠ d') as Hno.
  { intros x d d' Hd' <-. revert Hd'. induction d as [|[k v] d IH]; [done|]. cbn [app dict_get]. by case_decide. }
  destruct e as [[|x e]|], e' as [[|x' e']|]; rewrite ?Hset by done; intros E; try done;
    try (exfalso; eapply Hno; [|exact E]; done); try (exfalso; eapply Hno; [|symmetry; exact E]; done).
  by apply app_inj_tail in E as [-> [= -> ->]].
Qed.

(** *** The stored document *)

Abbreviation stored report := (Forall (λ kv, stored_field kv = true) report).

Lemma stored_set k v (d : list (text * json)) :
  stored_field (k, v) = true → stored d → stored (dict_set k v d).
Proof.
  intros Hk. induction 1 as [|[k' v'] d Hk' Hd IH]; cbn [dict_set]; [by repeat constructor|].
  case_decide as E; [subst k'|]; by constructor.
Qed.

Lemma stored_merge (d e : list (text * json)) : stored d → stored e → stored (merge d e).
Proof.
  intros Hd He. revert d Hd. induction He as [|[k v] e Hk He IH]; intros d Hd; [done|].
  by apply IH, stored_set.
Qed.

Lemma stored_dict k j :
  dict_get k Fingerprint = Some DictOrNone → has_type DictOrNone j = true → stored_field (k, j) = true.
Proof. intros Hk Hj. unfold stored_field. cbn [fst snd]. by rewrite Hk. Qed.

Lemma stored_str k (o : option text) :
  dict_get k Fingerprint = Some StrOrNone → stored_field (k, json_opt_str o) = true.
Proof. intros Hk. unfold stored_field. cbn [fst snd]. rewrite Hk. by destruct o. Qed.

Lemma tls_report_dict o j : _tls_report o = Ok j → has_type DictOrNone j = true.
Proof.
  unfold _tls_report. destruct o as [ch|]; [|by intros [= <-]].
  intros (a & _ & (b & _ & (c & _ & [= <-])%bind_Ok)%bind_Ok)%bind_Ok. done.
Qed.

Lemma http2_report_dict o j : _http2_report o = Ok j → has_type DictOrNone j = true.
Proof. unfold _http2_report. intros (a & _ & Hj)%bind_Ok. by destruct o; injection Hj as <-. Qed.

Lemma tcpip_report_dict c j : _tcpip_report c = Ok j → has_type DictOrNone j = true.
Proof. unfold _tcpip_report. intros ([s|] & _ & [= <-])%bind_Ok; done. Qed.

(** Every part of a report is a field of the document. *)
Lemma report_stored c r : build_report c = Ok r → stored r.
Proof.
  unfold build_report. intros (tls & Htls & (http & Hhttp & (tcpip & Htcpip & Hr)%bind_Ok)%bind_Ok)%bind_Ok.
  injection Hr as <-. apply stored_merge.
  - repeat (apply Forall_cons; split; [first [by apply stored_str | idtac]|]); [done| |by apply Forall_nil].
    apply stored_dict; [done|by eapply tls_report_dict].
  - apply Forall_app. split; [|by apply Forall_singleton, stored_dict; [|eapply tcpip_report_dict]].
    case_bool_decide; [|case_bool_decide; injection Hhttp as <-; by repeat constructor].
    apply bind_Ok in Hhttp as (j & Hj & [= <-]).
    by apply Forall_singleton, stored_dict; [|eapply http2_report_dict].
Qed.

Lemma with_error_stored e report : stored report → stored (with_error e report).
Proof. intros Hr. destruct e as [[|x e]|]; [done| |done]. by apply stored_set. Qed.

(** What a report shows of a connection. *)
Definition same_shown (c c' : Observed) : Prop :=
  http_version c = http_version c' ∧ client_hello c = client_hello c' ∧
  format_address (peername c) = format_address (peername c') ∧
  (http_version c = Some HTTP_2_0 → shown_capture <$> http2 c = shown_capture <$> http2 c') ∧
  (http_version c = Some HTTP_1_1 → shown_http1 c = shown_http1 c').

(** C27: the body of a response says what was observed. It is JSON that reads back as the
    report, whatever the client sent, with the error if there was one; every key of it is
    a field of the stored document, with a value of its type; and two responses with the
    same body had the same error and came from connections with the same
    protocol, ClientHello (every suite, extension and octet of it, in order), address and
    request: over HTTP/2 the same settings, header fields, trailers and frames, octet for
    octet; over HTTP/1.1 the same method, target, fields and raw head. *)
Theorem report_published c c' e e' r r' :
  observed_ok c → observed_text c → observed_ok c' → observed_text c' →
  (∀ t, e = Some t → chars t) → (∀ t, e' = Some t → chars t) →
  build_report c = Ok r → build_report c' = Ok r' →
  loads (report_content (with_error e r)) = Some (JDict (with_error e r)) ∧
  stored (with_error e r) ∧
  (report_content (with_error e r) = report_content (with_error e' r') →
   shown_error e = shown_error e' ∧ same_shown c c').
Proof.
  intros Hok Ht Hok' Ht' He He' Hr Hr'.
  assert (json_text (JDict (with_error e r))) as Hj
    by exact (dict_text _ (with_error_text _ _ He (report_text c r Hok Ht Hr))).
  assert (json_text (JDict (with_error e' r'))) as Hj'
    by exact (dict_text _ (with_error_text _ _ He' (report_text c' r' Hok' Ht' Hr'))).
  rewrite !content_text. split; [by apply dumps_loads|].
  split; [by eapply with_error_stored, report_stored|]. intros E. apply dumps_inj in E; [|done..].
  assert (with_error e r = with_error e' r') as E' by congruence.
  destruct (with_error_inj _ _ _ _ _ _ Hr Hr' E') as [Hshown <-].
  split; [done|]. by apply (build_report_faithful c c' r).
Qed.

(** ** A whole handler *)

(** The other tasks only take steps, and none of the task's own. *)
Class Interleaved (T : Type) `{Tasks T} : Prop :=
  meanwhile_others t w s : chained (by_others w) s (meanwhile t w s).1.

Section handler.
Context {C W L D K T : Type} `{H2Connection C} `{Streams W} `{SSLObject L} `{Database D K} `{Interleaved T}.
Context (h2_validate : list field → bool → result unit) (new_h2 : C) (fuel : nat) (w : nat).

Abbreviation conn_t := (@ClientConnection C (traced W) L).
Abbreviation state := (@handling C (traced W) L (logged_database D K) K T).
Implicit Types (s : state).

(** The report that was sent: what [build_report] makes of the connection, with the error
    if there is one. *)
Definition reported (o : Observed) (report : list (text * json)) : Prop :=
  ∃ base error, build_report o = Ok base ∧ report = with_error error base.

(** A report was sent completely, and left the connection [c]. *)
Definition sent_report (report : list (text * json)) (c : conn_t) : Prop :=
  ∃ c1 status, reported (observed c1) report ∧
    send_response h2_validate fuel (report_content report) (Some REPORT_HEADERS) status c1 = (Ok tt, c).

(** What a part of the handler leaves: steps of the server, in which the task keeps its
    place and what it got; nothing stored; the transport open. *)
Definition working s s' : Prop :=
  rtc (served_step w) (sys s) (sys s') ∧ store s' = store s ∧ conn_open (client s) (client s').

#[local] Instance working_preorder : PreOrder working.
Proof.
  split.
  - intros s. split; [reflexivity|]. split; [done|reflexivity].
  - intros x y z (Ha & Hb & Hc) (Ha' & Hb' & Hc'). split; [by etrans|split; [congruence|by etrans]].
Qed.

Lemma others_path s : rtc (by_others w) (sys s) (sys (others_run w s)).
Proof.
  unfold others_run. pose proof (meanwhile_others (tasks s) w (sys s)) as Ho.
  destruct (meanwhile (tasks s) w (sys s)) as [path t]. by apply chained_last.
Qed.

Lemma others_served s : rtc (served_step w) (sys s) (sys (others_run w s)).
Proof. eapply rtc_subrel; [|apply others_path]. intros x y. by left. Qed.

Lemma others_keep s :
  client (others_run w s) = client s ∧ store (others_run w s) = store s.
Proof. unfold others_run. by destruct (meanwhile _ _ _). Qed.

Lemma others_working s : working s (others_run w s).
Proof.
  destruct (others_keep s) as [Ec Es]. split; [apply others_served|].
  split; [done|]. rewrite Ec. reflexivity.
Qed.

Lemma client_run {A} (m : M conn_t A) s :
  let '(r, s') := on_client w m s in
  r = (m (client s)).1 ∧ client s' = (m (client s)).2 ∧ store s' = store s ∧
  rtc (served_step w) (sys s) (sys s').
Proof.
  unfold on_client. destruct (m (client s)) as [r c].
  set (s1 := mkHandling c (sys s) (store s) (tasks s) (journal s)).
  destruct (others_keep s1) as [Ec Es]. split_and!; [done|done|done|]. exact (others_served s1).
Qed.

Lemma client_working {A} (m : M conn_t A) :
  stable conn_open m → stable working (on_client w m : M state A).
Proof.
  intros Hm s. specialize (Hm (client s)). pose proof (client_run m s) as Hr.
  destruct (on_client w m s) as [r s'], Hr as (_ & Ec & Es & Hs).
  cbn [snd]. split_and!; [done|done|]. by rewrite Ec.
Qed.

Lemma respond_working content hs status :
  stable working (respond h2_validate fuel w content hs status : M state unit).
Proof. apply client_working, respond_open. Qed.

(** The task holds a slot. *)
Definition holds_slot s : Prop := w ∈ _report_clients (srv (sys s)).

Lemma working_holds s s' : working s s' → holds_slot s → holds_slot s'.
Proof. intros (Hs & _). by apply served_slot. Qed.

Lemma admit_working s shared :
  w ∈ running (sys s) → admit_report w (srv (sys s)) = Some shared →
  working s (set_server shared s) ∧ holds_slot (set_server shared s).
Proof.
  intros Hw Ha. split.
  - split; [|by split]. apply rtc_once. right. by exists shared.
  - unfold holds_slot. cbn. unfold admit_report in Ha. case_decide; [by injection Ha as <-|].
    destruct (_ >=? _); [done|]. injection Ha as <-. cbn. set_solver.
Qed.

(** What an attempt that decided on a report to save leaves: it was sent, and the slot is
    held. *)
Definition to_save (rep : option (list (text * json))) s' : Prop :=
  ∀ report, rep = Some report → sent_report report (client s') ∧ holds_slot s'.

Lemma send_report_spec status error s :
  w ∈ running (sys s) →
  wp (_send_report h2_validate fuel w status error)
    (λ '(_, _, rep) s', working s s' ∧ to_save rep s') (λ _ s', working s s') s.
Proof.
  intros Hrun. unfold _send_report. apply wp_bind, wp_gets.
  destruct (admit_report w (srv (sys s))) as [shared|] eqn:Ea.
  - apply wp_bind, wp_modify, wp_bind, wp_gets. destruct (admit_working _ _ Hrun Ea) as [Hw Hh].
    set (s1 := set_server shared s) in *. apply wp_bind, wp_lift; [|done].
    intros base Hbase. set (report := with_error error base).
    apply wp_bind. unfold _send_json. apply wp_bind.
    pose proof (respond_working (report_content report) (Some REPORT_HEADERS) status s1) as Hr.
    unfold wp at 1. unfold respond in *.
    pose proof (client_run (send_response h2_validate fuel (report_content report) (Some REPORT_HEADERS) status) s1) as Hc.
    destruct (on_client w _ s1) as [r s2]. destruct Hc as (Er & Ec & _). destruct r as [[]|e]; [|by etrans].
    apply wp_ret, wp_ret. split; [by etrans|]. intros rep [= <-].
    split; [|by eapply working_holds]. exists (client s1), status. split; [by exists base, error|].
    rewrite Er, Ec. by destruct (send_response _ _ _ _ _ _).
  - apply wp_bind. eapply wp_wand; [apply (stable_wp working), respond_working|..]; cbn beta; [|done].
    intros [] s' Hs. by apply wp_ret.
Qed.

Lemma serve_spec s :
  w ∈ running (sys s) →
  wp (serve h2_validate new_h2 fuel w)
    (λ '(rep, _) s', working s s' ∧ to_save rep s') (λ _ s', working s s') s.
Proof.
  intros Hrun. unfold serve. apply wp_bind.
  eapply wp_wand; [apply (stable_wp working), client_working, handshake_open|..]; cbn beta; [|done].
  intros [] s1 H1'. apply wp_bind.
  eapply wp_wand; [apply (stable_wp working), client_working, handle_open|..]; cbn beta; [|intros ? s' Hs'; etrans; [|exact Hs']; assumption].
  intros [] s2 H2'. assert (working s s2) as Hs2 by (by etrans). clear H1' H2'.
  apply wp_bind, wp_gets, wp_bind, wp_lift; [|done]. intros [status error] _. apply wp_bind.
  apply wp_wand with (Q := λ '(_, _, rep) s', working s s' ∧ to_save rep s') (E := λ _, working s).
  - apply wp_if; intros _.
    + apply wp_bind. eapply wp_wand; [apply (stable_wp working), respond_working|..]; cbn beta; [|intros ? s' Hs'; by etrans].
      intros [] s3 Hs3. apply wp_ret. split; [by etrans|done].
    + eapply wp_wand; [apply send_report_spec; eapply served_running; [apply Hs2|done]|..]; cbn beta;
        [|intros ? s' Hs'; by etrans].
      intros [[st len] rep] s3 [Hs3 Hrep]. split; [by etrans|done].
  - intros [[st len] rep] s3 Hs3. by apply wp_bind, wp_gets, wp_bind, wp_modify, wp_ret.
  - done.
Qed.

Lemma serve_failed_spec e s :
  w ∈ running (sys s) →
  wp (serve_failed h2_validate fuel w e)
    (λ '(rep, _) s', working s s' ∧ to_save rep s') (λ _ s', working s s') s.
Proof.
  intros Hrun.
  assert (∀ e, wp (_ ← (match failure_log e with Some c => modify (log_line c) | None => mret tt end);
      match goaway_code e with Some code => mret (None, code) | None => raise e end)
    (λ '((rep, _) : option (list (text * json)) * Z) s', working s s' ∧ to_save rep s')
    (λ _ s', working s s') s) as Hcode.
  { intros e'. apply wp_bind. apply wp_wand with (Q := λ _, working s) (E := λ _, working s); [|intros [] s1 Hs1|done].
    - destruct (failure_log e'); [apply wp_modify|apply wp_ret]; exact (reflexivity (R := working) s).
    - destruct (goaway_code e'); [apply wp_ret; by split|by apply wp_raise]. }
  destruct e; try apply Hcode. cbn [serve_failed]. apply wp_bind, wp_modify. set (s0 := log_line _ s).
  assert (working s s0) as Hs0 by exact (reflexivity (R := working) s). apply wp_try, wp_bind.
  eapply wp_wand; [by apply send_report_spec|..]; cbn beta.
  - intros [[st len] rep] s1 [Hs1 Hrep]. apply wp_ret. split; [by etrans|done].
  - intros e s1 Hs1. apply wp_if; intros _; [|apply wp_raise; by etrans].
    apply wp_bind, wp_modify, wp_ret. split; [by etrans|done].
Qed.

Lemma save_logged j (t : storage (logged_database D K) K) :
  let stored t' := log_of t' = log_of t ++ (if _enabled t then [DInsert j] else []) in
  wp (save_fingerprint j) (λ _, stored) (λ _, stored) t.
Proof.
  intros stored. subst stored. cbn beta. unfold save_fingerprint. apply wp_bind, wp_gets.
  destruct (_enabled t); [|apply wp_ret; by rewrite app_nil_r].
  apply wp_try, wp_timeout, wp_database, wp_log_db; [done|]. intros e d E.
  split; (apply wp_if; intros _; [by apply wp_ret|by apply wp_raise]).
Qed.

Abbreviation attempt := (try_except (serve h2_validate new_h2 fuel w) (serve_failed h2_validate fuel w)
  : M state (option (list (text * json)) * Z)).

Lemma attempt_spec s :
  w ∈ running (sys s) →
  wp attempt (λ '(rep, _) s', working s s' ∧ to_save rep s') (λ _ s', working s s') s.
Proof.
  intros Hrun. apply wp_try. eapply wp_wand; [by apply serve_spec|..]; cbn beta; [done|]. intros e s1 Hs1.
  eapply wp_wand; [apply serve_failed_spec|..]; cbn beta.
  - eapply served_running; [apply Hs1|done].
  - intros [rep code] s2 [Hs2 Hrep]. split; [by etrans|done].
  - intros x s2 Hs2. by etrans.
Qed.

(** What is stored of a client whose serving ended as [outcome] and its closing as [r]. *)
Definition saved (enabled : bool) (outcome : result (option (list (text * json)) * Z)) (r : result unit)
    : list (database_call K) :=
  match outcome, r with
  | Ok (Some report, _), Ok _ => if enabled then [DInsert (JDict report)] else []
  | _, _ => []
  end.

(** How serving, from [s], is concluded after the state [s1]: the transport is ended, and
    only then something is stored. *)
Definition concluded s outcome s1 s' : Prop :=
  ∃ t1 closing,
    rtc (served_step w) (sys s1) (sys s') ∧
    stays_open (streams (link (client s))) t1 ∧ shut_down t1 closing (streams (link (client s'))) ∧
    log_of (store s') = log_of (store s) ++ saved (_enabled (store s)) outcome closing.

Lemma closing_run code s s1 :
  working s s1 →
  let '(r, s2) := on_client w (close fuel code) s1 in
  store s2 = store s ∧ rtc (served_step w) (sys s1) (sys s2) ∧
  ∃ t1, stays_open (streams (link (client s))) t1 ∧ shut_down t1 r (streams (link (client s2))).
Proof.
  intros (_ & Hst & Hop). pose proof (client_run (close fuel code) s1) as Hr.
  pose proof (close_spec fuel code (client s1)) as Hc.
  destruct (on_client w (close fuel code) s1) as [r s2], Hr as (Er & Ec & Es & Hs).
  destruct (close fuel code (client s1)) as [r' c2], Hc as (t1 & Ho & Hd & _). cbn in *. subst r' c2.
  split; [congruence|]. split; [done|]. exists t1. split; [by etrans|done].
Qed.

Lemma save_run rep s2 :
  let '(_, s3) := save w rep s2 in
  client s3 = client s2 ∧ rtc (served_step w) (sys s2) (sys s3) ∧
  log_of (store s3) = log_of (store s2) ++
    match rep with Some report => if _enabled (store s2) then [DInsert (JDict report)] else [] | None => [] end.
Proof.
  unfold save. destruct rep as [report|]; [|cbn; by rewrite app_nil_r].
  pose proof (save_logged (JDict report) (store s2)) as Hl. unfold wp in Hl. unfold on_store.
  destruct (save_fingerprint (JDict report) (store s2)) as [r t].
  set (s3 := mkHandling (client s2) (sys s2) t (tasks s2) (journal s2)).
  destruct (others_keep s3) as [Ec Es]. split_and!; [done|exact (others_served s3)|].
  rewrite Es. by destruct r.
Qed.

Lemma serve_client_spec s :
  w ∈ running (sys s) →
  let '(outcome, s1) := attempt s in
  let '(_, s2) := _serve_client h2_validate new_h2 fuel w s in
  working s s1 ∧ concluded s outcome s1 s2 ∧
  ∀ rep code, outcome = Ok (rep, code) → to_save rep s1.
Proof.
  intros Hrun. pose proof (attempt_spec s Hrun) as Ha. unfold wp in Ha. unfold _serve_client.
  destruct (attempt s) as [[[rep code]|e] s1]; cbn beta iota in Ha.
  - destruct Ha as [Hs1 Hrep]. unfold mbind, M_bind.
    pose proof (closing_run code s s1 Hs1) as Hc.
    destruct (on_client w (close fuel code) s1) as [[[]|x] s2]; destruct Hc as (Es & Hs2 & t1 & Ho & Hd).
    + pose proof (save_run rep s2) as Hv. destruct (save w rep s2) as [r s3].
      destruct Hv as (Ec & Hs3 & El). split_and!; [done| |naive_solver].
      exists t1, (Ok tt). rewrite Ec, El, Es. split_and!; [by etrans|done|done|by destruct rep].
    + split_and!; [done| |naive_solver]. exists t1, (Err x). split_and!; [done..|].
      rewrite Es. destruct rep; by rewrite app_nil_r.
  - unfold mbind, M_bind. pose proof (closing_run EC_NO_ERROR s s1 Ha) as Hc.
    destruct (on_client w (close fuel EC_NO_ERROR) s1) as [[[]|x] s2]; destruct Hc as (Es & Hs2 & t1 & Ho & Hd);
      (split_and!; [done| |naive_solver]); [exists t1, (Ok tt)|exists t1, (Err x)];
      cbn; rewrite app_nil_r; split_and!; try done; by rewrite Es.
Qed.

(** The callback closes the writer, unless it is closing. *)
Definition forgotten (t t' : traced W) : Prop :=
  tr_calls t' = tr_calls t ++ (if writer_is_closing t then [] else [SClose]).

Lemma client_done_run s :
  let '(_, s') := client_done w s in
  sys s' = mkSystem (_client_done w true (srv (sys s))).2 (lock (sys s)) (running (sys s)) (used (sys s)) ∧
  forgotten (streams (link (client s))) (streams (link (client s'))) ∧ store s' = store s.
Proof.
  unfold client_done, forgotten. cbn [_client_done]. cbv zeta.
  destruct (writer_is_closing (streams (link (client s)))) eqn:Ec; cbn [negb].
  - split_and!; [done|cbn; by rewrite app_nil_r|done].
  - unfold on_link, on_streams. cbn [set_server client sys store].
    destruct (writer_close (streams (link (client s)))) as [r t] eqn:Et.
    split_and!; [done| |done]. cbn. by apply trace_call_run in Et as [_ ->].
Qed.

Lemma end_task_run s :
  w ∈ running (sys s) → w ∈ _clients (srv (sys s)) →
  let s' := others_run w (end_task w s) in
  rtc step (sys s) (sys s') ∧ (w ∉ running (sys s')) ∧ (w ∉ _report_clients (srv (sys s'))) ∧
  w ∈ _clients (srv (sys s')) ∧ client s' = client s ∧ store s' = store s.
Proof.
  intros Hrun Hin s'. destruct (others_keep (end_task w s)) as [Ec Es].
  pose proof (others_path (end_task w s)) as Hp.
  assert (step (sys s) (sys (end_task w s))) as Hf.
  { unfold end_task. destruct (sys s). by apply step_finish. }
  destruct (others_ended _ _ _ Hp) as [? ?]; [cbn; set_solver..|].
  split_and!; [|done|done| |done|done].
  - eapply rtc_l; [exact Hf|]. eapply rtc_subrel; [|exact Hp]. by intros x y [? _].
  - eapply served_client; [exact (others_served (end_task w s))|done].
Qed.

(** C4: a client is served and forgotten, whatever it, OpenSSL, h2 and the database do,
    whatever fails or is cancelled on the way, and whatever the other tasks do while it
    waits. What happened to the server is a sequence of steps of Lifecycle.v, so what is
    proved there of every reachable state holds at every moment of it; at its end the task,
    its report slot and its entry are gone. Its transport stayed open while it was served,
    and then was closed and awaited, or aborted, and the callback closed a writer that was
    not closing yet. The database was asked to insert exactly the report of the connection,
    with the error it was answered with, and only when that report was sent completely, the
    connection closed and storage enabled; and from before the sending to after the
    storing the task held one of the report slots. *)
Theorem client_served s :
  w ∈ running (sys s) → w ∈ _clients (srv (sys s)) →
  let '(outcome, s1) := attempt s in
  let '(_, s2) := _serve_client h2_validate new_h2 fuel w s in
  let '(_, s') := client_task h2_validate new_h2 fuel w s in
  (rtc step (sys s) (sys s1) ∧ rtc step (sys s1) (sys s2) ∧ rtc step (sys s2) (sys s') ∧
   (w ∉ running (sys s')) ∧ (w ∉ _report_clients (srv (sys s'))) ∧ (w ∉ _clients (srv (sys s')))) ∧
  (∃ t1 closing,
    stays_open (streams (link (client s))) t1 ∧ shut_down t1 closing (streams (link (client s2))) ∧
    forgotten (streams (link (client s2))) (streams (link (client s'))) ∧
    log_of (store s') = log_of (store s) ++ saved (_enabled (store s)) outcome closing) ∧
  ∀ rep code, outcome = Ok (rep, code) → ∀ report, rep = Some report →
    sent_report report (client s1) ∧ holds_slot s1 ∧ holds_slot s2.
Proof.
  intros Hrun Hin. pose proof (serve_client_spec s Hrun) as Hs. unfold client_task, _handle_client, finally.
  destruct (attempt s) as [outcome s1].
  destruct (_serve_client h2_validate new_h2 fuel w s) as [r s2].
  destruct Hs as ((Hs1 & _ & _) & (t1 & closing & Hs2 & Ho & Hd & Hl) & Hrep).
  assert (∀ x y, rtc (served_step w) x y → rtc step x y) as Hsteps
    by (intros x y; apply rtc_subrel; intros ??; apply served_is_step).
  assert (w ∈ running (sys s2) ∧ w ∈ _clients (srv (sys s2))) as [Hrun2 Hin2].
  { split; [eapply served_running; [exact Hs2|]; by eapply served_running|].
    eapply served_client; [exact Hs2|]. by eapply served_client. }
  set (s3 := end_task w s2). destruct (end_task_run s2 Hrun2 Hin2) as (H3' & Hr3 & Hp3 & Hc3 & Ec3 & Es3).
  fold s3 in H3', Hr3, Hp3, Hc3, Ec3, Es3.
  pose proof (client_done_run (others_run w s3)) as Hdone.
  destruct (client_done w (others_run w s3)) as [r' s4], Hdone as (E4 & Hf & Es4).
  rewrite Ec3 in Hf. rewrite Es3 in Es4.
  split; [|split; [exists t1, closing; by rewrite Es4|intros rep code E report Er]].
  - split_and!; [by apply Hsteps|by apply Hsteps|..]; rewrite E4.
    + eapply rtc_r; [exact H3'|]. destruct (sys (others_run w s3)). by apply step_done.
    + done.
    + done.
    + cbn. set_solver.
  - destruct (Hrep rep code E report Er) as [Hsent Hh]. split_and!; [done|done|].
    by eapply served_slot.
Qed.

End handler.

(** ** Witnesses *)

Lemma sample_observed_text b : observed_text (sample_observed b).
Proof.
  split; cbn.
  - intros a [= <-]. apply u_chars.
  - intros a [= <-]. apply u_chars.
  - intros v [= <-]. apply u_chars.
  - done.
  - intros h2 [= <-]. destruct b; (split; [by_eval|constructor]).
Qed.

(** Witness of C27: two captures that differ in what is not reported. *)
Lemma report_published_witness :
  ∃ r, build_report (sample_observed false) = Ok r ∧
    loads (report_content (with_error (Some (u "no")) r)) = Some (JDict (with_error (Some (u "no")) r)) ∧
    same_shown (sample_observed false) (sample_observed true).
Proof.
  destruct (report_total _ (sample_observed_ok false)) as [r Hr]. exists r. split; [exact Hr|].
  assert (∀ t, Some (u "no") = Some t → chars t) as He by (intros t [= <-]; apply u_chars).
  destruct (report_published (sample_observed false) (sample_observed true) (Some (u "no")) (Some (u "no")) r r
    (sample_observed_ok false) (sample_observed_text false) (sample_observed_ok true) (sample_observed_text true)
    He He Hr Hr) as (Hl & _ & Hs).
  split; [exact Hl|]. exact (proj2 (Hs eq_refl)).
Defined.

(** Other tasks of which one calls [close] while a client is served. *)
#[export] Instance closing_tasks : Tasks nat := λ t w s,
  match t, lock s with
  | S t, Free => ([mkSystem (close_begin None (srv s)) Free (running s) (used s)], t)
  | _, _ => ([], t)
  end.

#[export] Instance closing_interleaved : Interleaved nat.
Proof.
  intros [|t] w [s l r n]; [done|]. unfold meanwhile, closing_tasks. destruct l; try done.
  split; [|done]. split; [by apply step_close|]. cbn [srv running]. unfold close_begin.
  by repeat case_match.
Qed.

Definition served_system : system :=
  mkSystem (mkServer (Some 1%nat) None [(2, 8443)] {[7%nat]} ∅ ∅ None false) Free {[7%nat]} {[7%nat; 1%nat]}.

(** A client that sends a hello and an HTTP/1.1 request. *)
Definition served_start : handling (C := scripted) (D := logged_database sample_driver nat) (K := nat) :=
  mkHandling
    (new_connection (mkTraced (mkPipe [sample_flight; sample_head] [] false) []) (mkClear [] [] None) None None None)
    served_system (mkStorage (mkDatabase (mkDriver 1 []) []) true (Some 0%nat)) 2%nat [].

Definition is_scheduled (c : option cleanup) : bool := match c with Some Scheduled => true | _ => false end.

(** Witness of C4: a report is sent and stored while the server begins to close. *)
Lemma client_served_witness :
  let '(_, s') := client_task accept_all sample_h2 100 7 served_start in
  rtc step served_system (sys s') ∧ _report_clients (srv (sys s')) = ∅ ∧ closed_down (sys s') ∧
  ∃ report, log_of (store s') = [DInsert (JDict report)].
Proof.
  pose proof (client_served accept_all sample_h2 100 7 served_start
    ltac:(by apply (bool_decide_unpack _)) ltac:(by apply (bool_decide_unpack _))) as Hr.
  assert (let s' := (client_task accept_all sample_h2 100 7 served_start).2 in
    bool_decide (_report_clients (srv (sys s')) = ∅) && is_scheduled (_close_task (srv (sys s'))) &&
    match log_of (store s') with [DInsert (JDict _)] => true | _ => false end = true) as Hc
    by (vm_compute; reflexivity).
  destruct (try_except _ _ served_start) as [outcome s1].
  destruct (_serve_client accept_all sample_h2 100 7 served_start) as [r2 s2].
  destruct (client_task accept_all sample_h2 100 7 served_start) as [r' s'].
  cbn [snd] in Hc. cbv zeta in Hc. apply andb_prop in Hc as [Hc E3]. apply andb_prop in Hc as [E1 E2].
  apply bool_decide_eq_true in E1. destruct Hr as ((H1 & H2 & H3 & _) & _).
  split; [etransitivity; [exact H1|]; etransitivity; [exact H2|exact H3]|]. split; [exact E1|].
  split; [unfold closed_down; destruct (_close_task (srv (sys s'))); [eexists; reflexivity|discriminate E2]|].
  destruct (log_of (store s')) as [|[?|?|[]] [|? ?]]; try discriminate E3. eexists. reflexivity.
Defined.
