(* ===== verification/LogSpec.v ===== *)
(** * What is logged of a request (src/solvetls/server.py, src/solvetls/logs.py)

    The calls of the logger that serving a client makes, and the lines that they become
    once [setup_logging] has run. *)

From S2P Require Import Prelude PyText Config Frames HttpFields Uri Http1 Capture Adapter Session.
From S2P Require Import Client Report Streams Tls Connection Json Storage Lifecycle Logs HandshakeSpec Server.
From S2P Require Import SessionSpec ConnectionSpec ResponseSpec RequestSpec ServerSpec.

(** ** The line of a request *)

Lemma int_printable n : 0 ≤ n → Forall printable (str_int n).
Proof.
  intros Hn. apply Forall_forall. intros c Hc. apply str_int_digits in Hc; [|done].
  unfold is_digit, in_range, printable in *. lia.
Qed.

Lemma loggable_printable value : Forall printable (loggable value).
Proof.
  destruct value as [[|c t]|]; [by apply (bool_decide_unpack _)|..|by apply (bool_decide_unpack _)].
  unfold loggable. destruct (_ >? _); [rewrite Forall_app; split; [|by apply (bool_decide_unpack _)]|];
    apply encode_escape_printable.
Qed.

(** The record of a call, made at [ts]; [elapsed] are the milliseconds of the request. *)
Definition call_record (ts elapsed : text) (c : logger_call) : option log_record :=
  match c with
  | LogRequest method path version status len =>
      Some (mkRecord ts (u "INFO") (u "solvetls.server")
        (request_message method path (str_opt version) status len elapsed) None)
  | _ => None
  end.

(** The lines that the requests of a journal leave, of the connection [id]. *)
Definition request_lines (g : logging) (id ts elapsed : text) (calls : list logger_call) : list text :=
  c ← omap (call_record ts elapsed) calls; log g id INFO c.

(** ** The calls of a handler *)

Section journal.
Context {C W L D K T : Type} `{H2Connection C} `{Streams W} `{SSLObject L} `{Database D K} `{Tasks T}.
Context (h2_validate : list field → bool → result unit) (new_h2 : C) (fuel : nat) (w : nat).

Abbreviation conn_t := (@ClientConnection C W L).
Abbreviation state := (@handling C W L D K T).
Implicit Types (s : state).

(** The response that was sent last, completely: its status and the length of its body. *)
Definition answered (status len : Z) (c : conn_t) : Prop :=
  ∃ content hs c0, send_response h2_validate fuel content hs status c0 = (Ok tt, c) ∧ len = zlen content.

Definition same_journal s s' : Prop := journal s' = journal s.

Lemma others_journal s : journal (others_run w s) = journal s ∧ client (others_run w s) = client s.
Proof. unfold others_run. by destruct (meanwhile _ _ _). Qed.

Lemma client_call {A} (m : M conn_t A) s :
  let '(r, s') := on_client w m s in
  r = (m (client s)).1 ∧ client s' = (m (client s)).2 ∧ same_journal s s'.
Proof.
  unfold on_client, same_journal. destruct (m (client s)) as [r c].
  by destruct (others_journal (mkHandling c (sys s) (store s) (tasks s) (journal s))) as [-> ->].
Qed.

Lemma client_journal {A} (m : M conn_t A) s :
  wp (on_client w m : M state A) (λ _, same_journal s) (λ _, same_journal s) s.
Proof.
  pose proof (client_call m s) as Hc. unfold wp.
  destruct (on_client w m s) as [[a|e] s'], Hc as (_ & _ & Hj); done.
Qed.

Lemma respond_answers content hs status s :
  wp (respond h2_validate fuel w content hs status : M state unit)
    (λ _ s', answered status (zlen content) (client s') ∧ same_journal s s')
    (λ _, same_journal s) s.
Proof.
  unfold respond. pose proof (client_call (send_response h2_validate fuel content hs status) s) as Hc. unfold wp.
  destruct (on_client w _ s) as [[[]|e] s'], Hc as (Er & Ec & Hj); [|done].
  split; [|done]. exists content, hs, (client s).
  destruct (send_response _ _ _ _ _ (client s)) as [r c]. cbn in *. by subst.
Qed.

Lemma send_report_answers status error s :
  wp (_send_report h2_validate fuel w status error : M state _)
    (λ '(st, len, _) s', (st = status ∨ st = 503) ∧ answered st len (client s') ∧ same_journal s s')
    (λ _, same_journal s) s.
Proof.
  unfold _send_report, _send_json. apply wp_bind, wp_gets. destruct (admit_report w (srv (sys s))) as [shared|].
  - apply wp_bind, wp_modify, wp_bind, wp_gets, wp_bind, wp_lift; [|done]. intros r _. cbn zeta.
    apply wp_bind, wp_bind. eapply wp_wand; [apply respond_answers|..]; cbn beta; [|done].
    intros [] s1 [Ha Hj]. apply wp_ret, wp_ret. auto.
  - apply wp_bind. eapply wp_wand; [apply respond_answers|..]; cbn beta; [|done].
    intros [] s1 [Ha Hj]. apply wp_ret. auto.
Qed.

(** The statuses of the policy. *)
Lemma policy_status o status error :
  _response_policy o = Ok (status, error) → status = 204 ∨ status = 417 ∨ status = 501 ∨ status = 200.
Proof.
  unfold _response_policy. intros (path & _ & Hp)%bind_Ok. case_bool_decide; [injection Hp as <-; auto|].
  apply bind_Ok in Hp as (b & _ & Hp). destruct (_ || _); [injection Hp as <-; auto|].
  case_bool_decide; injection Hp as <-; auto.
Qed.

(** The call that is made of an answered request. *)
Definition request_call (status len : Z) (c : conn_t) : logger_call :=
  LogRequest (request_method (observed c)) (request_path (observed c)) (http_version (observed c)) status len.

Lemma serve_journal s :
  wp (serve h2_validate new_h2 fuel w : M state _)
    (λ _ s', ∃ status len, 0 ≤ status ∧ answered status len (client s') ∧
       journal s' = journal s ++ [request_call status len (client s')])
    (λ _, same_journal s) s.
Proof.
  unfold serve. apply wp_bind. eapply wp_wand; [apply client_journal|..]; cbn beta; [|done].
  intros [] s1 Hj1. apply wp_bind. eapply wp_wand; [apply client_journal|..]; cbn beta.
  2:{ intros e s2 Hj2. unfold same_journal in *. congruence. }
  intros [] s2 Hj2. assert (same_journal s s2) as Hs2 by (unfold same_journal in *; congruence). clear Hj1 Hj2.
  apply wp_bind, wp_gets, wp_bind, wp_lift; [|done]. intros [status error] Hp%policy_status. apply wp_bind.
  apply wp_wand with (Q := λ '(st, len, _) s', 0 ≤ st ∧ answered st len (client s') ∧ same_journal s s')
    (E := λ _, same_journal s).
  - apply wp_if; intros _.
    + apply wp_bind. eapply wp_wand; [apply respond_answers|..]; cbn beta; [|unfold same_journal in *; congruence].
      intros [] s3 [Ha Hj]. apply wp_ret. split_and!; [lia|done|unfold same_journal in *; congruence].
    + eapply wp_wand; [apply send_report_answers|..]; cbn beta; [|unfold same_journal in *; congruence].
      intros [[st len] rep] s3 (Hst & Ha & Hj). split_and!; [lia|done|unfold same_journal in *; congruence].
  - intros [[st len] rep] s3 (Hst & Ha & Hj). apply wp_bind, wp_gets, wp_bind, wp_modify, wp_ret.
    exists st, len. split_and!; [done|done|]. cbn. by rewrite Hj.
  - done.
Qed.

(** C18: the log has one line for every request that was answered, and only one. A level name
    that [logging] does not know is refused, with its name in the message. With any other,
    serving a client makes exactly one call of the logger, when its response was sent, with
    the method, the path and the version of its request and the status and the length of
    that response, and none before it fails; the call comes out as one line behind the
    time, the level, the logger and the identifier of the connection, or not at all where
    the level is above INFO. The line is printable ASCII, whatever the method and the path
    are; and nothing that hpack reports for debugging comes out. *)
Theorem request_logged level g id ts elapsed s :
  levels g = [] → Forall printable id → Forall printable ts → Forall printable elapsed →
  let '(r, g') := setup_logging level g in
  let '(outcome, s') := (serve h2_validate new_h2 fuel w : M state _) s in
  match dict_get (upper level) level_numbers with
  | None =>
      ∃ m, r = Err (ValueError m) ∧ (isascii level = true → m = u "Unknown level: " ++ repr (upper level))
  | Some n =>
      r = Ok tt ∧
      match outcome with
      | Ok _ =>
          ∃ status len, answered status len (client s') ∧
            let call := request_call status len (client s') in
            let version := http_version (observed (client s')) in
            let line := ts ++ u " INFO    solvetls.server [" ++ id ++ u "] " ++
              loggable (request_method (observed (client s'))) ++ u " " ++
              loggable (request_path (observed (client s'))) ++ u " " ++ str_opt version ++ u " -> " ++
              str_int status ++ u " " ++ str_int len ++ u " bytes in " ++ elapsed ++ u " ms" in
            journal s' = journal s ++ [call] ∧
            request_lines g' id ts elapsed [call] = (if n <=? INFO then [line] else []) ∧
            ((∀ v, version = Some v → Forall printable v) → Forall printable line)
      | Err _ => journal s' = journal s
      end ∧
      ∀ t, logger_name t = u "hpack" ∨ u "hpack." `prefix_of` logger_name t → log g' id 10 t = []
  end.
Proof.
  intros Hg Hid Hts He. pose proof (serve_journal s) as Hs. unfold wp in Hs.
  unfold setup_logging, mbind, M_bind, modify.
  destruct (dict_get (upper level) level_numbers) as [n|]; destruct (serve _ _ _ _ s) as [outcome s'];
    [|by eexists]. cbn -[log]. rewrite Hg. cbn [dict_set]. split_and!; [done| |].
  - destruct outcome as [[rep code]|e]; [|exact Hs]. destruct Hs as (status & len & Hst & Ha & Hj).
    exists status, len. split; [done|]. cbn zeta. split; [done|]. split.
    + unfold request_lines, request_call. cbn -[log]. rewrite app_nil_r. unfold log.
      change (effective_level _ _) with n. destruct (n <=? INFO); [|done].
      change (u " INFO    solvetls.server [") with (u " " ++ u "INFO" ++ replicate (7 - length (u "INFO")) 32 ++
        u " " ++ u "solvetls.server" ++ u " ["). unfold request_message. cbn. by rewrite <-!app_assoc.
    + intros Hv. assert (0 ≤ len) by (destruct Ha as (content & _ & _ & _ & ->); apply zlen_nonneg).
      assert (Forall printable (str_opt (http_version (observed (client s'))))) as Hv'.
      { destruct (http_version _) as [v|]; [by apply Hv|by apply (bool_decide_unpack _)]. }
      rewrite !Forall_app. split_and!; try done; try apply loggable_printable; try (by apply int_printable);
        by apply (bool_decide_unpack _).
  - intros t Ht. unfold log, effective_level. cbn [levels List.filter snd fst INFO].
    replace (bool_decide (u "hpack" = logger_name t) || bool_decide (u "hpack" ++ u "." `prefix_of` logger_name t))
      with true; [done|]. symmetry. apply orb_true_iff. rewrite !bool_decide_eq_true. destruct Ht as [->|Ht]; auto.
Qed.

End journal.

(** ** Witness *)

(** Witness of C18: a client that is served, at the default level; its line. *)
Lemma request_logged_witness :
  let g := mkLogging 30 [OtherHandler 0] [] in
  let g' := (setup_logging (u "info") g).2 in
  let s' := (serve accept_all sample_h2 100 7 served_start).2 in
  ∃ call, journal s' = [call] ∧
    request_lines g' (u "192.0.2.1:4711") (u "2026-01-01 00:00:00") (u "5") [call] =
      [u "2026-01-01 00:00:00 INFO    solvetls.server [192.0.2.1:4711] GET /a?b HTTP/1.1 -> 200 1539 bytes in 5 ms"].
Proof.
  intros g g' s'.
  pose proof (request_logged accept_all sample_h2 100 7 (u "info") g (u "192.0.2.1:4711") (u "2026-01-01 00:00:00")
    (u "5") served_start eq_refl ltac:(by apply (bool_decide_unpack _)) ltac:(by apply (bool_decide_unpack _))
    ltac:(by apply (bool_decide_unpack _))) as Hr.
  assert (match serve accept_all sample_h2 100 7 served_start with (Ok _, _) => true | _ => false end &&
    bool_decide (request_lines g' (u "192.0.2.1:4711") (u "2026-01-01 00:00:00") (u "5") (journal s') =
      [u "2026-01-01 00:00:00 INFO    solvetls.server [192.0.2.1:4711] GET /a?b HTTP/1.1 -> 200 1539 bytes in 5 ms"])
    = true) as Hc by (vm_compute; reflexivity).
  apply andb_prop in Hc as [Ho Hl]. apply bool_decide_eq_true in Hl.
  subst g' s'. destruct (setup_logging (u "info") g) as [r g'].
  destruct (serve accept_all sample_h2 100 7 served_start) as [[rep|e] s']; [|discriminate Ho].
  destruct Hr as (_ & (status & len & _ & Hj & _) & _). cbn [snd] in *.
  exists (request_call status len (client s')). rewrite Hj in Hl. split; [exact Hj|exact Hl].
Defined.
