(* ===== verification/ServerEnds.v ===== *)
(** * Serving a client ends (src/solvetls/server.py)

    A handler of Server.v ends, whatever its client, the other tasks and the storage do,
    as soon as its connection does (ConnectionEnds.v): its [except] clauses, the report
    and the storage add no loop of their own. *)

From S2P Require Import Prelude PyText Naming Frames HttpFields Uri Http1 Capture Adapter Session.
From S2P Require Import SessionSpec SessionEnds Client Report Streams Tls Connection ConnectionEnds.
From S2P Require Import Redirect HandshakeSpec RequestSpec Storage Lifecycle Server ServerSpec.

(** The driver does not itself raise [OutOfFuel], the mark of a model. *)
Class InsertFinite (D K : Type) `{Database D K} : Prop :=
  insert_finite (report : json) : finite (insert (D := D) report).

Lemma policy_fuel o : _response_policy o ≠ Err OutOfFuel.
Proof.
  unfold _response_policy, routing_path.
  assert (∀ hs, expectation_fails hs ≠ Err OutOfFuel) as He.
  { intros hs. unfold expectation_fails. destruct (parse_expectations _) as [l|e] eqn:E; [done|].
    apply expectations_fuel in E. destruct (is_ValueError e); congruence. }
  assert (∀ r : result (option text), r ≠ Err OutOfFuel → (path ← r;
    (if bool_decide (path = Some FAVICON_PATH) then mret (204, None)
     else
       failed ← expectation_fails (match http1 o with Some r => Http1.headers r | None => [] end);
       if failed || (match http2 o with Some c => expectation_failed c | None => false end)
       then mret (417, Some (u "Unsupported expectation"))
       else if bool_decide (request_method o = Some (u "CONNECT")) then
         mret (501, Some (u "CONNECT tunnels are not supported"))
       else mret (200, None)) : result (Z * option text)) ≠ Err OutOfFuel) as Hrest.
  { intros [path|e] Hr; [|cbn; congruence]. cbn [mbind result_bind]. case_bool_decide; [done|].
    specialize (He (match http1 o with Some r => Http1.headers r | None => [] end)).
    destruct (expectation_fails _) as [b|e]; [|cbn; congruence]. cbn [mbind result_bind].
    by repeat case_match. }
  apply Hrest. destruct (request_path o) as [[|x t]|]; [done| |done].
  case_bool_decide; [done|]. destruct (_ || _ || _); [done|].
  destruct (split_absolute_uri _) as [p|e] eqn:E; [done|]. apply split_absolute_uri_err in E.
  cbn. by intros [= ->].
Qed.

Section ends.
Context {C W L D K T : Type} `{H2Connection C} `{Reading W} `{Resting L} `{InsertFinite D K} `{Tasks T}.
Context (h2_validate : list field → bool → result unit) (new_h2 : C) (fuel w k : nat).
Context (Hh2 : h2_finite C) (Hval : ∀ l b, h2_validate l b ≠ Err OutOfFuel).
Context (Hk : (k < fuel)%nat) (Hmax : (Z.to_nat MAX_CAPTURE_BYTES < fuel)%nat).
Abbreviation state := (@handling C W L D K T).
Implicit Types (s : state).

Definition serving s : Prop := bounded k (client s).

Abbreviation ends m := (finite_in serving m).
Abbreviation stops := (λ e s, e ≠ OutOfFuel ∧ serving s).

Lemma two_turns : (2 ≤ fuel)%nat.
Proof. assert (0 < MAX_CAPTURE_BYTES) by done. lia. Qed.

Lemma on_client_ends {A} (m : M (@ClientConnection C W L) A) :
  finite_in (bounded k) m → ends (on_client w m).
Proof.
  intros Hm s Hs. specialize (Hm (client s) Hs). unfold wp, on_client, others_run, serving in *.
  destruct (m (client s)) as [[a|e] c]; cbn [tasks sys]; by destruct (meanwhile _ _ _).
Qed.

Lemma on_store_ends {A} (m : M (storage D K) A) : finite m → finite (S := state) (on_store w m).
Proof.
  intros Hm s. specialize (Hm (store s)). unfold wp, on_store, others_run in *.
  by destruct (m (store s)) as [[a|e] t].
Qed.

Lemma respond_ends content hs status : ends (respond h2_validate fuel w content hs status).
Proof. apply on_client_ends, answer_ends; [done..|apply two_turns|done|done]. Qed.

Lemma send_report_ends status error : ends (_send_report h2_validate fuel w status error).
Proof.
  intros s Hs. unfold _send_report, _send_json. apply wp_bind, wp_gets.
  destruct (admit_report w (srv (sys s))) as [shared|].
  - apply wp_bind, wp_modify, wp_bind, wp_gets.
    destruct (report_returns (observed (client (set_server shared s)))) as [report Hr]; [apply Hs|].
    apply wp_bind, wp_lift; [|rewrite Hr; done]. intros r _. cbn zeta.
    assert (ends (content_length ← (_ ← respond h2_validate fuel w (report_content (with_error error r))
        (Some REPORT_HEADERS) status; mret (zlen (report_content (with_error error r))));
      mret (status, content_length, Some (with_error error r)))) as Hm; [|by apply Hm].
    repeat first [apply respond_ends | finite_step].
  - assert (ends (_ ← respond h2_validate fuel w [] (Some [(u "cache-control", u "no-store")]) 503;
      mret (503, 0, @None (list (text * json))))) as Hm; [|by apply Hm].
    repeat first [apply respond_ends | finite_step].
Qed.

Lemma serve_ends : ends (serve h2_validate new_h2 fuel w).
Proof.
  unfold serve. pose proof two_turns.
  finite_step; [by apply on_client_ends, handshake_ends|].
  finite_step; [by apply on_client_ends, request_ends|].
  finite_step; [finite_step|]. finite_step; [apply finite_in_lift, policy_fuel|].
  destruct a2 as [status error]. finite_step.
  - finite_step; [finite_step; [apply respond_ends|finite_step]|apply send_report_ends].
  - by repeat finite_step.
Qed.

Lemma serve_failed_ends e : e ≠ OutOfFuel → ends (serve_failed h2_validate fuel w e).
Proof.
  intros He. unfold serve_failed. destruct e; try by repeat finite_step.
  finite_step; [finite_step|]. finite_step.
  - finite_step; [apply send_report_ends|]. by repeat finite_step.
  - by repeat finite_step.
Qed.

Lemma save_finite report : finite (S := state) (save w report).
Proof.
  destruct report as [report|]; [|apply finite_ret]. apply on_store_ends. unfold save_fingerprint.
  finite_step; [finite_step|]. finite_step; [|finite_step]. finite_step.
  - apply finite_timeout. intros t. unfold wp, on_database. pose proof (insert_finite (JDict report) (database t)) as Hi.
    unfold wp in Hi. by destruct (insert _ _) as [[]].
  - by repeat finite_step.
Qed.

Lemma close_client_ends code s :
  serving s → wp (on_client w (close fuel code)) (λ _ _, True) (λ e _, e ≠ OutOfFuel) s.
Proof.
  intros Hs. pose proof (close_ends Hh2 fuel two_turns k code (client s) Hk Hs) as Hc.
  unfold wp, on_client, others_run in *.
  by destruct (close fuel code (client s)) as [[a|e] c].
Qed.

Lemma handler_ends s :
  serving s → wp (_handle_client h2_validate new_h2 fuel w) (λ _ _, True) (λ e _, e ≠ OutOfFuel) s.
Proof.
  intros Hs.
  assert (ends (try_except (serve h2_validate new_h2 fuel w) (serve_failed h2_validate fuel w))) as Hm.
  { apply finite_in_try; [apply serve_ends|apply serve_failed_ends]. }
  specialize (Hm s Hs). unfold wp in Hm. unfold _handle_client, finally, _serve_client, wp at 1.
  destruct (try_except _ _ s) as [[[report code]|e] s1].
  - assert (wp (_ ← on_client w (close fuel code); save w report) (λ _ _, True) (λ e _, e ≠ OutOfFuel) s1) as Hw.
    { apply wp_bind. eapply wp_wand; [by apply close_client_ends| |done]. intros [] s2 _. apply save_finite. }
    unfold wp in Hw. by destruct ((_ ← on_client w (close fuel code); save w report) s1) as [[]].
  - destruct Hm as [He Hm].
    assert (wp (_ ← on_client w (close fuel EC_NO_ERROR); raise (A := unit) e) (λ _ _, True)
      (λ e _, e ≠ OutOfFuel) s1) as Hw.
    { apply wp_bind. eapply wp_wand; [by apply close_client_ends| |done]. intros [] s2 _. by apply wp_raise. }
    unfold wp in Hw. by destruct ((_ ← on_client w (close fuel EC_NO_ERROR); raise (A := unit) e) s1) as [[]].
Qed.

End ends.

(** C20: the task of every client ends. If the client sends finitely many octets, OpenSSL
    comes to rest, and h2 and the database driver return or raise, then [_handle_client]
    returns or raises: its handshake, its request, the report, a refusal, every failure
    and the close come to an end, whatever the other tasks do meanwhile. So its slot and
    its transport are given back after finitely many turns of its loops; the fuel is more
    than twice the octets to come with what OpenSSL can do by itself, and more than a
    session captures. *)
Theorem client_ends {C W L D K T} `{H2Connection C} `{Reading W} `{Resting L} `{InsertFinite D K}
    `{Tasks T} h2_validate (new_h2 : C) fuel w (s : @handling C W L D K T) (x : W) (o : L)
    peer sock syn :
  client s = new_connection x o peer sock syn →
  h2_finite C → (∀ l b, h2_validate l b ≠ Err OutOfFuel) →
  bytes_ok (incoming x) → bytes_ok (default [] syn) →
  (work o + 2 * length (incoming x) < fuel)%nat → (Z.to_nat MAX_CAPTURE_BYTES < fuel)%nat →
  (_handle_client h2_validate new_h2 fuel w s).1 ≠ Err OutOfFuel.
Proof.
  intros Hc Hh2 Hval Hx Hsyn Hk Hmax.
  pose proof (handler_ends h2_validate new_h2 fuel w (work o + 2 * length (incoming x)) Hh2 Hval Hk Hmax s) as Hw.
  unfold serving in Hw. rewrite Hc in Hw. specialize (Hw (new_connection_bounded x o peer sock syn Hx Hsyn)).
  unfold wp in Hw. destruct (_handle_client _ _ _ _ s) as [[[]|e] s']; [done|]. by intros [= ->].
Qed.

(** ** A witness *)

#[export] Instance logged_insert_finite : InsertFinite (logged_database sample_driver nat) nat.
Proof. by intros report d. Qed.

(** Witness of C20: a client whose report cannot be stored. *)
Lemma client_ends_witness :
  let start := mkHandling
    (new_connection (C := scripted) (mkPipe [sample_flight; sample_head] [] false) (mkClear [] [] None)
       None None None)
    served_system (mkStorage (mkDatabase (mkDriver 1 []) []) true (Some 0%nat)) 2%nat [] in
  (_handle_client accept_all sample_h2 (1001 + Z.to_nat MAX_CAPTURE_BYTES) 7 start).1 ≠ Err OutOfFuel.
Proof.
  intros start.
  apply (client_ends accept_all sample_h2 _ 7 start (mkPipe [sample_flight; sample_head] [] false)
    (mkClear [] [] None) None None None eq_refl script_finite ltac:(discriminate)).
  - by apply (bool_decide_unpack _).
  - by apply Forall_nil.
  - apply Nat.lt_lt_add_r. vm_compute. lia.
  - generalize (Z.to_nat MAX_CAPTURE_BYTES). lia.
Defined.
