(* ===== verification/Serving.v ===== *)
(** * Starting, serving and closing (src/solvetls/server.py)

    The methods of [SolveTLS] that its owner calls, one after the other as they are
    written: [start], [serve_forever] and [close].  Whenever one of them waits, the other
    tasks of the process (clients, the cleanup, other callers) take steps of Lifecycle.v;
    which steps, and how the waiting ends, is up to the [Host].  The theorems show that
    what the methods do are steps of Lifecycle.v too, so that what is proved there of
    every reachable state holds of every use of the server. *)

From S2P Require Import Prelude PyText Streams Lifecycle.

(** The event loop and the operating system.  An operation may raise anything, a
    cancellation included. *)
Class Host (H : Type) := {
  (** The states that the others take the system through while one waits; the flag says
      that the one who waits holds the lock. *)
  others : H → bool → system → list system * H;
  (** [asyncio.start_server(...)]: the ports of the new server, by address family. *)
  start_server : M H (list (Z * Z));
  (** [enable_save_syn] on every socket of the HTTPS server. *)
  enable_all : M H (list bool);
  start_serving : nat → M H unit;
  (** [await shield(gather(...))] of the listeners' [serve_forever]. *)
  shield_serving : list nat → M H unit;
  (** [await gather(..., return_exceptions=True)] of the same tasks, cancelled. *)
  gather_cancelled : M H unit;
  (** Waiting for a lock or a task. *)
  sleep : M H unit;
}.

(** A task that calls the server: whether it holds the lock is its own. *)
Record process (H : Type) := mkProcess {
  host : H;
  sys : system;
  holds : bool;
}.
Arguments mkProcess {_} _ _ _.
Arguments host {_} _.
Arguments sys {_} _.
Arguments holds {_} _.

Section methods.
Context {H : Type} `{Host H} (fuel : nat).
Abbreviation PM := (M (process H)).

Definition on_host {A} (m : M H A) : PM A := λ p,
  let '(r, h) := m (host p) in (r, mkProcess h (sys p) (holds p)).

(** The others first, then the waiting ends; with the result, whether [seen] held on the
    way. *)
Definition await_seen {A} (seen : system → bool) (m : M H A) : PM (A * bool) := λ p,
  let '(path, h) := others (host p) (holds p) (sys p) in
  (a ← on_host m; mret (a, existsb seen path)) (mkProcess h (List.last path (sys p)) (holds p)).

Definition await {A} (m : M H A) : PM A :=
  '(a, _) ← await_seen (λ _, false) m;
  mret a.

(** An assignment to the server, and to the lock. *)
Definition assign (l : lifecycle_lock) (f : SolveTLS → SolveTLS) (p : process H) : process H :=
  mkProcess (host p) (mkSystem (f (srv (sys p))) l (running (sys p)) (used (sys p))) (holds p).

Definition take (p : process H) : process H := mkProcess (host p) (sys p) true.

(** Leaving [async with self._lifecycle_lock]. *)
Definition release (p : process H) : process H :=
  mkProcess (host p) (mkSystem (srv (sys p)) Free (running (sys p)) (used (sys p))) false.

Definition is_free (s : system) : bool := match lock s with Free => true | _ => false end.

(** Entering it. *)
Fixpoint acquire (n : nat) : PM unit :=
  free ← gets (λ p, is_free (sys p));
  if free : bool then modify take
  else
    match n with
    | O => raise OutOfFuel
    | S n => _ ← await sleep; acquire n
    end.

Definition is_finished (s : system) : bool :=
  match _close_task (srv s) with Some Finished => true | _ => false end.

(** [await shield(closing)], where [closing] is the present cleanup. *)
Fixpoint wait_closing (n : nat) : PM unit :=
  finished ← gets (λ p, is_finished (sys p));
  if finished : bool then mret tt
  else
    match n with
    | O => raise OutOfFuel
    | S n =>
        '(_, finished) ← await_seen is_finished sleep;
        if finished : bool then mret tt else wait_closing n
    end.

(** A new server gets a number that no connection and no server had. *)
Definition new_number (p : process H) : nat := fresh (used (sys p)).

Definition bound (ports : list (Z * Z)) (p : process H) : process H :=
  mkProcess (host p)
    (mkSystem (start_listening (new_number p) ports (srv (sys p))) Listening (running (sys p))
       ({[new_number p]} ∪ used (sys p))) (holds p).

Definition http_bound (p : process H) : process H :=
  mkProcess (host p)
    (mkSystem (start_http (new_number p) (srv (sys p))) Listening (running (sys p))
       ({[new_number p]} ∪ used (sys p))) (holds p).

(** The [try] of [_start]. *)
Definition open_sockets (http_port : bool) : PM unit :=
  _ ← (if http_port then _ ← await start_server; modify http_bound else mret tt);
  _ ← on_host enable_all;
  server ← gets (λ p, _server (srv (sys p)));
  _ ← (match server with Some v => await (start_serving v) | None => raise AttributeError end);
  http_server ← gets (λ p, _http_server (srv (sys p)));
  match http_server with Some v => await (start_serving v) | None => mret tt end.

(** Its [except BaseException]. *)
Definition roll_back (e : exn) : PM unit :=
  _ ← modify (assign RollingBack start_failed);
  _ ← wait_closing fuel;
  raise e.

Definition _start (http_port : bool) : PM unit :=
  p ← gets id;
  match start_begin (srv (sys p)) with
  | None => raise (RuntimeError (u "Server is already started or still closing"))
  | Some s =>
      _ ← modify (assign Binding (λ _, s));
      ports ← await start_server;
      _ ← modify (bound ports);
      try_except (open_sockets http_port) roll_back
  end.

Definition start (http_port : bool) : PM unit :=
  _ ← acquire fuel;
  finally (_start http_port) release.

Definition _close (expected_server : option nat) : PM unit :=
  _ ← acquire fuel;
  p ← gets id;
  if bool_decide (is_Some expected_server ∧ _server (srv (sys p)) ≠ expected_server) then
    modify release
  else
    _ ← modify (assign Free (close_begin expected_server));
    _ ← modify release;
    wait_closing fuel.

Definition close : PM unit := _close None.

Definition serve_forever : PM unit :=
  p ← gets id;
  '(server, s) ← lift (serve_begin (srv (sys p)));
  _ ← modify (assign (lock (sys p)) (λ _, s));
  let listeners := server :: option_list (_http_server s) in
  try_finally (await (shield_serving listeners))
    (try_finally (_close (Some server))
       (_ ← await gather_cancelled;
        modify (λ p, assign (lock (sys p)) (serve_end server) p))).

End methods.

(** ** What the others may do

    They take steps; of a lock that somebody holds, and of what it protects while sockets
    are opened, only the holder does. *)
Definition foreign (mine : bool) (s s' : system) : Prop :=
  step s s' ∧
  (mine = true → lock s' = lock s ∧
     (lock s = Listening → _server (srv s') = _server (srv s) ∧ _http_server (srv s') = _http_server (srv s))).

Class Cooperative (H : Type) `{Host H} : Prop := {
  others_foreign h mine s : chained (foreign mine) s (others h mine s).1;
  (** Waiting for a lock or a task ends with it, or is cancelled. *)
  sleep_cancelled h e h' : sleep h = (Err e, h') → e = CancelledError;
}.

(** A state on the way. *)
Lemma chained_seen R s path seen :
  chained R s path → existsb seen path = true →
  ∃ s1, rtc R s s1 ∧ seen s1 = true ∧ rtc R s1 (List.last path s).
Proof.
  revert s. induction path as [|s1 path IH]; intros s Hp; [done|]. destruct Hp as [Hs Hp]. cbn [existsb].
  rewrite last_of, orb_true_iff. intros [He|He].
  - exists s1. split_and!; [by apply rtc_once|done|by apply chained_last].
  - destruct (IH s1 Hp He) as (s2 & ? & ? & ?). exists s2. split_and!; [by eapply rtc_l|done..].
Qed.

Section refinement.
Context {H : Type} `{Cooperative H} (fuel : nat).
Implicit Types (p : process H).

Definition went p p' : Prop := rtc step (sys p) (sys p').

#[local] Instance went_preorder : PreOrder went.
Proof. unfold went. split; [intros p; reflexivity|intros x y z; by etrans]. Qed.

(** While one waits. *)
Definition waited p p' : Prop := rtc (foreign (holds p)) (sys p) (sys p') ∧ holds p' = holds p.

Lemma foreign_steps mine s s' : rtc (foreign mine) s s' → rtc step s s'.
Proof. apply rtc_subrel. by intros x y [Hs _]. Qed.

Lemma foreign_lock s s' :
  rtc (foreign true) s s' → lock s' = lock s ∧
  (lock s = Listening → _server (srv s') = _server (srv s) ∧ _http_server (srv s') = _http_server (srv s)).
Proof.
  induction 1 as [s|s s1 s2 [_ Hs] _ [E IH]]; [done|]. destruct (Hs eq_refl) as [E1 Hsv].
  split; [congruence|]. intros El. destruct (Hsv El). destruct IH; [congruence|]. split; congruence.
Qed.

(** Nobody else starts the server while somebody rolls back, so a cleanup that has
    finished is not forgotten. *)
Lemma finished_stays s s' :
  rtc (foreign true) s s' → lock s = RollingBack → is_finished s = true → is_finished s' = true.
Proof.
  induction 1 as [s|s s1 s2 [Hs Hl] _ IH]; intros El Hf; [done|]. destruct (Hl eq_refl) as [El1 _].
  apply IH; [congruence|]. clear IH Hl. unfold is_finished in *.
  destruct Hs as [redirect w s l r n a s' Hw E|w s l r n s' Hw E|w s l r n Hw
    |w b s l r n Hc Hw|s r n s' E|s r n|server ports s r n Hn|server s r n Hn|s r n|s r n|s r n
    |expected s r n|s l r n E|ss cs s l r n E|ss cs ca s l r n E Hg|server s l r n s' E|server s l r n];
    cbn in *; try done.
  - unfold _accept_client in E. destruct (_closing s); [by injection E as <- <-|].
    destruct (_ >=? _); [by injection E as <- <-|].
    destruct redirect as [f|]; [destruct (https_port _ _)|]; by injection E as <- <-.
  - unfold admit_report in E. case_decide; [by injection E as <-|]. destruct (_ >=? _); [done|].
    by injection E as <-.
  - by rewrite E in Hf.
  - by rewrite E in Hf.
  - unfold serve_begin in E. destruct (_server s); [|done]. case_decide; [done|]. by injection E as <- <-.
Qed.

(** What ends a wait for a lock or a task. *)
Definition interrupted (e : exn) : Prop := e = CancelledError ∨ e = OutOfFuel.

Definition raised {A} (m : M H A) (e : exn) : Prop := ∃ h h', m h = (Err e, h').

Lemma sleep_interrupted e : raised sleep e → interrupted e.
Proof. intros (h & h' & E). left. by eapply sleep_cancelled. Qed.

Lemma await_seen_spec {A} seen (m : M H A) p :
  wp (await_seen seen m)
    (λ '(_, b) p', waited p p' ∧ (b = true →
       ∃ s1, rtc (foreign (holds p)) (sys p) s1 ∧ seen s1 = true ∧ rtc (foreign (holds p)) s1 (sys p')))
    (λ e p', waited p p' ∧ raised m e) p.
Proof.
  unfold await_seen, wp, waited, on_host. pose proof (others_foreign (host p) (holds p) (sys p)) as Hp.
  destruct (others (host p) (holds p) (sys p)) as [path h]. cbn in Hp. unfold mbind, M_bind. cbn.
  pose proof (chained_last _ _ _ Hp) as Hl. destruct (m h) as [[a|e] h'] eqn:Em; cbn; [|split; [done|by eexists _, _]].
  split; [done|]. intros Hs. by apply chained_seen.
Qed.

Lemma await_spec {A} (m : M H A) p : wp (await m) (λ _, waited p) (λ e p', waited p p' ∧ raised m e) p.
Proof.
  unfold await. apply wp_bind. eapply wp_wand; [apply await_seen_spec|..]; cbn beta; [|done].
  intros [a b] p' [Hw _]. by apply wp_ret.
Qed.

Lemma waited_refl p : waited p p.
Proof. by split. Qed.

Lemma waited_went p p' : waited p p' → went p p'.
Proof. intros [Hs _]. by eapply foreign_steps. Qed.

Lemma host_spec {A} (m : M H A) p : wp (on_host m) (λ _, waited p) (λ _, waited p) p.
Proof. unfold wp, on_host. destruct (m (host p)) as [[a|e] h]; by split. Qed.

Lemma take_went p : went p (take p).
Proof. by change (went p p). Qed.

Lemma free_lock s : is_free s = true → lock s = Free.
Proof. unfold is_free. by destruct (lock s). Qed.

(** Taking the lock. *)
Lemma acquire_spec n p :
  holds p = false →
  wp (acquire n) (λ _ p', went p p' ∧ holds p' = true ∧ lock (sys p') = Free)
    (λ e p', went p p' ∧ holds p' = false ∧ interrupted e) p.
Proof.
  revert p. induction n as [|n IH]; intros p Hp; cbn [acquire]; apply wp_bind, wp_gets, wp_if; intros Hf;
    try (apply wp_modify; split_and!; [apply take_went|done|by apply free_lock]).
  - apply wp_raise. split_and!; [reflexivity|done|by right].
  - apply wp_bind. eapply wp_wand; [apply await_spec|..]; cbn beta.
    + intros [] p1 Hw. pose proof (waited_went _ _ Hw) as Hg. destruct Hw as [_ E].
      eapply wp_wand; [apply IH; congruence|..]; cbn beta.
      * intros [] p2 (Hw2 & ? & ?). split_and!; [by etrans|done..].
      * intros e p2 (Hw2 & ?). split; [by etrans|done].
    + intros e p1 [Hw Hr]. split_and!; [by apply waited_went|destruct Hw; congruence|by apply sleep_interrupted].
Qed.

(** Waiting for the cleanup. *)
Lemma wait_cleanup_spec n p :
  wp (wait_closing n)
    (λ _ p', waited p p' ∧ ∃ s1, rtc (foreign (holds p)) (sys p) s1 ∧ is_finished s1 = true ∧
       rtc (foreign (holds p)) s1 (sys p'))
    (λ e p', waited p p' ∧ interrupted e) p.
Proof.
  revert p. induction n as [|n IH]; intros p; cbn [wait_closing]; apply wp_bind, wp_gets, wp_if; intros Hf;
    try (apply wp_ret; split; [apply waited_refl|by exists (sys p)]);
    [split; [apply waited_refl|by right]|].
  apply wp_bind. eapply wp_wand; [apply await_seen_spec|..]; cbn beta;
    [|intros e p1 [Hw Hr]; split; [done|by apply sleep_interrupted]].
  intros [[] b] p1 [Hw Hs]. apply wp_if; intros Hb; [apply wp_ret; auto|].
  destruct Hw as [Hw E]. eapply wp_wand; [apply IH|..]; cbn beta; unfold waited; rewrite E.
  - intros [] p2 ([Hw2 E2] & s1 & ? & ? & ?). split; [split; [by etrans|done]|].
    exists s1. split_and!; [by etrans|done..].
  - intros e p2 [[Hw2 E2] Hi]. split; [split; [by etrans|done]|done].
Qed.

Lemma release_went p : went p (release p).
Proof.
  destruct p as [h [s l r n] b]. unfold went, release. cbn. destruct l; [reflexivity|..]; apply rtc_once; constructor.
Qed.

Lemma assign_close_went expected p :
  lock (sys p) = Free → went p (assign Free (close_begin expected) p).
Proof. destruct p as [h [s l r n] b]. cbn. intros ->. apply rtc_once. constructor. Qed.

(** A moment on the way from [s] to [s'] at which the cleanup had finished. *)
Definition finished_between (s s' : system) : Prop :=
  ∃ s1, rtc step s s1 ∧ rtc step s1 s' ∧ is_finished s1 = true ∧ quiescent s1.

(** What [_close] did, from [p] to [p']: it saw the end of the cleanup, or that the server
    was not the expected one any more; interrupted, it waited for the lock yet, or for the
    cleanup that there was. *)
Definition close_outcome (expected : option nat) (r : result unit) p p' : Prop :=
  match r with
  | Ok _ =>
      finished_between (sys p) (sys p') ∨
      is_Some expected ∧
      ∃ s1, rtc step (sys p) s1 ∧ rtc step s1 (sys p') ∧ _server (srv s1) ≠ expected
  | Err e =>
      interrupted e ∧
      (acquire fuel p = (Err e, p') ∨
       ∃ s1, rtc step (sys p) s1 ∧ rtc step s1 (sys p') ∧ closed_down s1)
  end.

Lemma close_begin_closed expected s :
  ~ (is_Some expected ∧ _server s ≠ expected) → is_Some (_close_task (close_begin expected s)).
Proof. intros He. unfold close_begin. rewrite bool_decide_eq_false_2 by done. by destruct (_close_task s) eqn:E; rewrite ?E. Qed.

Lemma finished_quiescent s : reachable s → is_finished s = true → quiescent s.
Proof.
  intros Hr Hf. apply finished_quiescent_wf; [by apply reachable_wf|]. unfold is_finished in Hf.
  by destruct (_close_task (srv s)) as [[]|].
Qed.

Lemma reachable_went p p' : reachable (sys p) → went p p' → reachable (sys p').
Proof. unfold reachable, went. intros ??. by etrans. Qed.

(** A call that began in [p]. *)
Definition call_done p (Q : result unit → process H → Prop) (r : result unit) p' : Prop :=
  went p p' ∧ holds p' = false ∧ Q r p'.

Lemma close_call_spec expected p :
  reachable (sys p) → holds p = false →
  let '(r, p') := _close fuel expected p in call_done p (λ r, close_outcome expected r p) r p'.
Proof.
  intros Hr Hp. unfold _close, mbind, M_bind. pose proof (acquire_spec fuel p Hp) as Ha. unfold wp in Ha.
  destruct (acquire fuel p) as [[[]|e] p1] eqn:Ea.
  2:{ destruct Ha as (? & ? & ?). split_and!; [done|done|]. split; [done|by left]. }
  destruct Ha as (Hw1 & Hh1 & Hl1). cbn. unfold id. case_bool_decide as Hx; cbn.
  - pose proof (release_went p1) as Hg. split_and!; [by etrans|done|]. right. split; [apply Hx|].
    exists (sys p1). split_and!; [done|exact Hg|apply Hx].
  - set (p2 := release (assign Free (close_begin expected) p1)).
    assert (went p p2) as Hw2.
    { etrans; [exact Hw1|]. etrans; [by apply (assign_close_went expected)|apply release_went]. }
    pose proof (wait_cleanup_spec fuel p2) as Hc. unfold wp in Hc.
    destruct (wait_closing fuel p2) as [[[]|e] p3]; destruct Hc as [Hw Hc]; apply waited_went in Hw as Hw3;
      destruct Hw as [_ Hh]; (split_and!; [by etrans|done|]).
    + left. destruct Hc as (s1 & Hs & Hf & Hs'). apply foreign_steps in Hs, Hs'.
      assert (rtc step (sys p) s1) as Hg by (unfold went in Hw2; by etrans).
      exists s1. split_and!; [done|done|done|]. apply finished_quiescent; [|done]. unfold reachable in *. by etrans.
    + split; [done|right]. exists (sys p2). split_and!; [done|done|]. by apply close_begin_closed.
Qed.

(** While the sockets are opened. *)
Definition opening p p' : Prop :=
  went p p' ∧ holds p' = true ∧ lock (sys p') = Listening ∧
  _server (srv (sys p')) = _server (srv (sys p)) ∧
  (is_Some (_http_server (srv (sys p))) → is_Some (_http_server (srv (sys p')))).

Lemma waited_opening p p' : waited p p' → holds p = true → lock (sys p) = Listening → opening p p'.
Proof.
  intros Hw Hh Hl. pose proof (waited_went _ _ Hw) as Hg. destruct Hw as [Hw E]. rewrite Hh in *.
  apply foreign_lock in Hw as [El Hs]. destruct (Hs Hl) as [Ea Eb]. split_and!; [done..|congruence|done|by rewrite Eb].
Qed.

Lemma opening_trans p p1 p2 : opening p p1 → opening p1 p2 → opening p p2.
Proof.
  intros (A1 & A2 & A3 & A4 & A5) (B1 & B2 & B3 & B4 & B5).
  split_and!; [by etrans|done|done|congruence|auto].
Qed.

Lemma await_opening {A} (m : M H A) p :
  holds p = true → lock (sys p) = Listening → wp (await m) (λ _, opening p) (λ _, opening p) p.
Proof. intros Hh Hl. eapply wp_wand; [apply await_spec|..]; cbn beta; [intros _ p' Hw|intros e p' [Hw _]]; by apply waited_opening. Qed.

Lemma http_bound_opening p :
  holds p = true → lock (sys p) = Listening → opening p (http_bound p) ∧ is_Some (_http_server (srv (sys (http_bound p)))).
Proof.
  intros Hh Hl. split; [|by eexists]. split_and!; [|done..|by eexists].
  destruct p as [h [s l r n] b]. cbn in *. subst l. apply rtc_once, step_http_bound, is_fresh.
Qed.

Lemma open_sockets_spec http p :
  holds p = true → lock (sys p) = Listening →
  wp (open_sockets http)
    (λ _ p', opening p p' ∧ (http = true → is_Some (_http_server (srv (sys p')))))
    (λ _ p', opening p p') p.
Proof.
  intros Hh Hl. unfold open_sockets. apply wp_bind.
  eapply (wp_wand _ (λ _ p', opening p p' ∧ (http = true → is_Some (_http_server (srv (sys p')))))
    _ (λ _ p', opening p p')); [|clear Hh Hl|done].
  { apply wp_if; intros Hhttp; [|apply wp_ret; split; [by apply waited_opening|congruence]].
    apply wp_bind. eapply wp_wand; [by apply await_opening|cbn beta|done].
    intros ports p1 Ho. apply wp_modify. pose proof Ho as (_ & Hh1 & Hl1 & _).
    destruct (http_bound_opening p1 Hh1 Hl1). split; [by eapply opening_trans|done]. }
  intros [] p1 [Ho1 Hs1]. pose proof Ho1 as (_ & Hh1 & Hl1 & _).
  apply wp_bind. eapply wp_wand; [apply host_spec|cbn beta|intros e p2 Hw].
  2:{ eapply opening_trans; [exact Ho1|by apply waited_opening]. }
  intros _ p2 Hw. apply waited_opening in Hw as Ho2; [|done..].
  assert (∀ p3, opening p2 p3 → opening p p3 ∧ (http = true → is_Some (_http_server (srv (sys p3))))) as Hdone.
  { intros p3 Ho3. assert (opening p1 p3) as Ho by (by eapply opening_trans).
    split; [by eapply opening_trans|]. intros Hhttp. apply Ho. auto. }
  pose proof Ho2 as (_ & Hh2 & Hl2 & _).
  apply wp_bind, wp_gets, wp_bind.
  eapply (wp_wand _ (λ _, opening p2) _ (λ _, opening p2)); [| |intros e p3 Ho3; by apply Hdone].
  { destruct (_server (srv (sys p2))); [by apply await_opening|apply wp_raise; by apply waited_opening]. }
  intros [] p3 Ho3. pose proof Ho3 as (_ & Hh3 & Hl3 & _). apply wp_bind, wp_gets.
  destruct (_http_server (srv (sys p3))); [|apply wp_ret; by apply Hdone].
  eapply wp_wand; [by apply await_opening|..]; cbn beta; intros; apply Hdone; by eapply opening_trans.
Qed.

Lemma rolling_closed s s' :
  rtc (foreign true) s s' → lock s = RollingBack → wf s → closed_down s → closed_down s'.
Proof.
  induction 1 as [s|s s1 s2 [Hs Hl] _ IH]; intros El Hwf Hc; [done|]. destruct (Hl eq_refl) as [El1 _].
  apply IH; [congruence|by eapply step_wf|]. eapply closing_step; [done..|]. congruence.
Qed.

(** A start that failed was rolled back: the cleanup has finished, or the wait for it was
    interrupted and it goes on. *)
Definition rolled_back (e0 e : exn) (s : system) : Prop :=
  e = e0 ∧ is_finished s = true ∧ quiescent s ∨ interrupted e ∧ closed_down s.

Lemma roll_back_spec e p :
  reachable (sys p) → holds p = true → lock (sys p) = Listening →
  wp (roll_back fuel e) (λ _ _, False) (λ e' p', went p p' ∧ rolled_back e e' (sys p')) p.
Proof.
  intros Hr Hh Hl. unfold roll_back. apply wp_bind, wp_modify. set (p1 := assign RollingBack start_failed p).
  assert (went p p1) as Hw1.
  { unfold p1. destruct p as [h [s l r n] b]. cbn in *. subst l. apply rtc_once. constructor. }
  assert (reachable (sys p1)) as Hr1 by (by eapply reachable_went).
  apply wp_bind. eapply wp_wand; [apply wait_cleanup_spec|..]; cbn beta.
  - intros [] p2 (Hw & s1 & Ha & Hf & Hb). apply wp_raise. apply waited_went in Hw as Hg.
    change (holds p1) with (holds p) in *. rewrite Hh in *.
    assert (went p p2) as Hw2 by (by etrans). split; [done|left].
    assert (is_finished (sys p2) = true) as Hf2.
    { eapply finished_stays; [exact Hb| |done]. by destruct (foreign_lock _ _ Ha) as [-> _]. }
    split_and!; [done|done|]. apply finished_quiescent; [by eapply reachable_went|done].
  - intros e' p2 [Hw Hi]. split; [etrans; [exact Hw1|by apply waited_went]|right]. split; [done|].
    destruct Hw as [Hw _]. change (holds p1) with (holds p) in Hw. rewrite Hh in Hw.
    eapply rolling_closed; [exact Hw|done|by apply reachable_wf|by eexists].
Qed.

(** A server that was started. *)
Definition listens (http_port : bool) (s : system) : Prop :=
  is_Some (_server (srv s)) ∧ (http_port = true → is_Some (_http_server (srv s))) ∧ _close_task (srv s) = None.

(** Why [start] raised [e], from [p] to [p'], and what it left: *)
Inductive start_failure (http_port : bool) p (e : exn) p' : Prop :=
  (** it never had the lock; *)
  | not_acquired :
      acquire fuel p = (Err e, p') → interrupted e → start_failure http_port p e p'
  (** the server was started or closing, and nothing was touched; *)
  | start_refused p1 :
      acquire fuel p = (Ok tt, p1) → start_begin (srv (sys p1)) = None →
      e = RuntimeError (u "Server is already started or still closing") → p' = release p1 →
      start_failure http_port p e p'
  (** its first socket could not be opened; *)
  | not_bound p1 s p2 :
      acquire fuel p = (Ok tt, p1) → start_begin (srv (sys p1)) = Some s →
      await start_server (assign Binding (λ _, s) p1) = (Err e, p2) → p' = release p2 →
      nothing_listens (sys p') → _close_task (srv (sys p')) = None →
      start_failure http_port p e p'
  (** what came behind failed, with [e0], and was rolled back. *)
  | start_rolled_back p1 s ports p2 e0 p3 :
      acquire fuel p = (Ok tt, p1) → start_begin (srv (sys p1)) = Some s →
      await start_server (assign Binding (λ _, s) p1) = (Ok ports, p2) →
      open_sockets http_port (bound ports p2) = (Err e0, p3) →
      went p3 p' → rolled_back e0 e (sys p') → start_failure http_port p e p'.

Definition start_outcome (http_port : bool) (r : result unit) p p' : Prop :=
  match r with
  | Ok _ => lock (sys p') = Free ∧ listens http_port (sys p')
  | Err e => start_failure http_port p e p'
  end.

Lemma start_spec http p :
  reachable (sys p) → holds p = false →
  let '(r, p') := start fuel http p in call_done p (λ r, start_outcome http r p) r p'.
Proof.
  intros Hr Hh. unfold start, mbind, M_bind. pose proof (acquire_spec fuel p Hh) as Ha. unfold wp in Ha.
  destruct (acquire fuel p) as [[[]|e] p1] eqn:Ea.
  2:{ destruct Ha as (? & ? & ?). split_and!; [done|done|]. by apply not_acquired. }
  destruct Ha as (Hw1 & Hh1 & Hl1). unfold finally, _start, mbind, M_bind. cbn. unfold id.
  assert (∀ p2, went p1 p2 → went p (release p2)) as Hrel.
  { intros p2 Hg. etrans; [exact Hw1|]. etrans; [exact Hg|]. apply release_went. }
  destruct (start_begin (srv (sys p1))) as [s|] eqn:Es.
  2:{ cbn. split_and!; [by apply Hrel|done|]. by eapply start_refused. }
  cbn. set (p2 := assign Binding (λ _, s) p1).
  assert (went p1 p2) as Hw2.
  { unfold p2. destruct p1 as [h [v l r n] b]. cbn in *. subst l. apply rtc_once. by constructor. }
  pose proof (await_spec start_server p2) as Hst. unfold wp in Hst.
  assert (∀ p3, waited p2 p3 → went p1 p3 ∧ holds p3 = true ∧ lock (sys p3) = Binding) as Hwait.
  { intros p3 Hw. apply waited_went in Hw as Hg. destruct Hw as [Hw E]. change (holds p2) with (holds p1) in *.
    rewrite Hh1 in *. destruct (foreign_lock _ _ Hw) as [El _]. split_and!; [by etrans|done|done]. }
  assert (reachable (sys p1)) as Hr1 by (by eapply reachable_went).
  destruct (await start_server p2) as [[ports|e] p3] eqn:Est; cbn.
  2:{ destruct Hst as [Hw _]. destruct (Hwait p3 Hw) as (Hg & _ & El).
      destruct (wf_binding _ (reachable_wf _ (reachable_went _ _ Hr1 Hg)) El) as (? & ? & ?).
      split_and!; [by apply Hrel|done|]. by eapply not_bound. }
  destruct (Hwait p3 Hst) as (Hg3 & Hh3 & El3). set (p4 := bound ports p3).
  assert (went p1 p4) as Hg4.
  { etrans; [exact Hg3|]. unfold p4. destruct p3 as [h [v l r n] b]. cbn in *. subst l.
    apply rtc_once, step_bound, is_fresh. }
  unfold try_except. pose proof (open_sockets_spec http p4 Hh3 eq_refl) as Hop. unfold wp in Hop.
  destruct (open_sockets http p4) as [[[]|e0] p5] eqn:Eop; cbn.
  - destruct Hop as [(Hw & _ & El & Esv & _) Hhttp]. assert (went p1 p5) as Hg5 by (by etrans).
    split_and!; [by apply Hrel|done|]. split; [done|]. split_and!; [cbn; by rewrite Esv; eexists|done|].
    exact (wf_listening _ (reachable_wf _ (reachable_went _ _ Hr1 Hg5)) El).
  - destruct Hop as (Hw & Hh5 & El & _). assert (went p1 p5) as Hg5 by (by etrans).
    pose proof (roll_back_spec e0 p5 (reachable_went _ _ Hr1 Hg5) Hh5 El) as Hrb. unfold wp in Hrb.
    destruct (roll_back fuel e0 p5) as [[[]|e] p6]; [done|]. destruct Hrb as [Hg6 Hrb].
    split_and!; [apply Hrel; by etrans|done|].
    eapply start_rolled_back; [done..|etrans; [exact Hg6|apply release_went]|exact Hrb].
Qed.

(** What [serve_forever] did. It is refused at once, or it serves [server], closes the
    server whatever ended that, unless it was replaced before, and can then be called
    again. *)
Definition serve_outcome (r : result unit) p p' : Prop :=
  match serve_begin (srv (sys p)) with
  | Err e => r = Err e ∧ p' = p
  | Ok (server, s) =>
      let closed := finished_between (sys p) (sys p') ∨
        ∃ s1, rtc step (sys p) s1 ∧ rtc step s1 (sys p') ∧ _server (srv s1) ≠ Some server in
      match r with
      | Ok _ => closed ∧ (server ∉ _serving (srv (sys p')))
      | Err e =>
          raised gather_cancelled e ∨
          (server ∉ _serving (srv (sys p'))) ∧
          (closed ∧ raised (shield_serving (server :: option_list (_http_server s))) e ∨ interrupted e)
      end
  end.

Lemma serve_end_went server p : went p (assign (lock (sys p)) (serve_end server) p).
Proof. destruct p as [h [v l r n] b]. apply rtc_once. apply step_served. Qed.

(** Its last lines. *)
Lemma gather_spec server p :
  holds p = false →
  wp (_ ← await gather_cancelled; modify (λ p, assign (lock (sys p)) (serve_end server) p))
    (λ _ p', went p p' ∧ holds p' = false ∧ (server ∉ _serving (srv (sys p'))))
    (λ e p', went p p' ∧ holds p' = false ∧ raised gather_cancelled e) p.
Proof.
  intros Hh. apply wp_bind. eapply wp_wand; [apply await_spec|..]; cbn beta.
  - intros [] p1 Hw. apply waited_went in Hw as Hg. destruct Hw as [_ E]. apply wp_modify.
    split_and!; [etrans; [exact Hg|apply serve_end_went]|cbn; congruence|]. cbn. clear. set_solver.
  - intros e p1 [Hw Hr]. split_and!; [by apply waited_went|destruct Hw; congruence|done].
Qed.

Lemma finished_between_mono s0 s s' s1 :
  rtc step s0 s → finished_between s s' → rtc step s' s1 → finished_between s0 s1.
Proof. intros ? (s2 & ? & ? & ? & ?) ?. exists s2. split_and!; [by etrans|by etrans|done..]. Qed.

Lemma serve_forever_spec p :
  reachable (sys p) → holds p = false →
  let '(r, p') := serve_forever fuel p in call_done p (λ r, serve_outcome r p) r p'.
Proof.
  intros Hr Hh. unfold serve_outcome, call_done, serve_forever, mbind, M_bind. cbn. unfold id, lift.
  destruct (serve_begin (srv (sys p))) as [[server s]|e] eqn:Es; [|by split_and!]. cbn.
  set (p1 := assign _ _ p).
  assert (went p p1) as Hw1.
  { unfold p1. destruct p as [h [v l r n] b]. cbn in *. apply rtc_once. by econstructor. }
  unfold try_finally at 1. set (listeners := server :: _).
  pose proof (await_spec (shield_serving listeners) p1) as Hs. unfold wp in Hs.
  destruct (await (shield_serving listeners) p1) as [r1 p2].
  assert (went p p2 ∧ holds p2 = false ∧ ∀ e, r1 = Err e → raised (shield_serving listeners) e) as (Hg2 & Hh2 & Hr1).
  { destruct r1 as [[]|e].
    - apply waited_went in Hs as Hg. destruct Hs as [_ E]. split_and!; [by etrans|by rewrite E|done].
    - destruct Hs as [Hs ?]. apply waited_went in Hs as Hg. destruct Hs as [_ E].
      split_and!; [by etrans|by rewrite E|by intros e' [= <-]]. }
  clear Hs. unfold try_finally at 1. pose proof (close_call_spec (Some server) p2 (reachable_went _ _ Hr Hg2) Hh2) as Hc.
  destruct (_close fuel (Some server) p2) as [r2 p3]. destruct Hc as (Hg3 & Hh3 & Hc).
  pose proof (gather_spec server p3 Hh3) as Hga. unfold wp, mbind, M_bind in Hga.
  destruct (await gather_cancelled p3) as [[[]|e] p4]; cbn in Hga |- *.
  2:{ destruct Hga as (Hg4 & Hh4 & Hra). split_and!; [by do 2 (etrans; [eassumption|])|done|by left]. }
  destruct Hga as (Hg4 & Hh4 & Hn). set (p5 := assign _ _ p4) in *.
  assert (went p p5) as Hg5 by (by do 2 (etrans; [eassumption|])).
  destruct r2 as [[]|e2]; cbn.
  2:{ destruct Hc as [Hi _]. split_and!; [done|done|right]. split; [done|by right]. }
  assert (finished_between (sys p) (sys p5) ∨
    ∃ s1, rtc step (sys p) s1 ∧ rtc step s1 (sys p5) ∧ _server (srv s1) ≠ Some server) as Hcl.
  { unfold went in *. destruct Hc as [Hc|(_ & s1 & ? & ? & ?)];
      [left; by apply (finished_between_mono _ (sys p2) (sys p3))|right; exists s1].
    split_and!; [by etrans; [exact Hg2|]|by etrans; [|exact Hg4]|done]. }
  destruct r1 as [[]|e1]; (split; [done|]); (split; [done|]); [by split|right].
  split; [done|left]. auto.
Qed.

(** The calls that the owner of a server makes. *)
Inductive server_call := Start (http_port : bool) | ServeForever | Close.

Definition run_call (c : server_call) : M (process H) unit :=
  match c with
  | Start http_port => start fuel http_port
  | ServeForever => serve_forever fuel
  | Close => close fuel
  end.

(** What a call that ended did, from [p] to [p']. *)
Definition call_outcome (c : server_call) (r : result unit) p p' : Prop :=
  match c with
  | Start http_port => start_outcome http_port r p p'
  | ServeForever => serve_outcome r p p'
  | Close => close_outcome None r p p'
  end.

Lemma server_call_spec c p :
  reachable (sys p) → holds p = false →
  let '(r, p') := run_call c p in call_done p (λ r, call_outcome c r p) r p'.
Proof.
  intros Hr Hp. destruct c as [http| |]; [by apply start_spec|by apply serve_forever_spec|by apply close_call_spec].
Qed.


End refinement.

(** ** Witness *)

(** A host whose other tasks do nothing but the cleanup of a server without clients;
    [start_serving] fails with the given errors first. *)
Definition tidy (mine : bool) (s : system) : list system :=
  match _close_task (srv s), lock s with
  | Some Scheduled, RollingBack | Some Scheduled, Free =>
      if decide (_clients (srv s) = ∅) then
        let s1 := mkSystem (shutdown_begin (srv s)) (lock s) (running s) (used s) in
        let s2 := mkSystem (shutdown_abort (running s) (servers (srv s)) (_clients (srv s)) (srv s1))
                    (lock s) (running s) (used s) in
        [s1; s2; mkSystem (shutdown_end (srv s2)) (lock s) (running s) (used s)]
      else []
  | _, _ => []
  end.

#[export] Instance sample_host : Host (list exn) := {|
  others h mine s := (tidy mine s, h);
  start_server := mret [(2, 8443)];
  enable_all := mret [true];
  start_serving _ := λ h, match h with e :: h => (Err e, h) | [] => (Ok tt, []) end;
  shield_serving _ := raise CancelledError;
  gather_cancelled := mret tt;
  sleep := mret tt;
|}.

#[export] Instance sample_cooperative : Cooperative (list exn).
Proof.
  split; [|done]. intros h mine s. cbn [others sample_host fst]. unfold tidy.
  destruct (_close_task (srv s)) as [[]|] eqn:Ec; try done. destruct s as [s l r n]. cbn in *.
  assert (l ≠ Listening → _clients s = ∅ → chained (foreign mine) (mkSystem s l r n)
    [mkSystem (shutdown_begin s) l r n;
     mkSystem (shutdown_abort r (servers s) (_clients s) (shutdown_begin s)) l r n;
     mkSystem (shutdown_end (shutdown_abort r (servers s) (_clients s) (shutdown_begin s))) l r n]) as Hc.
  { intros Hl Hno. cbn [chained]. split_and!; [..|done]; (split; [|done]).
    - by apply step_shutdown.
    - by apply step_abort.
    - eapply step_gathered; [reflexivity|]. cbn. rewrite Hno. set_solver. }
  destruct l; try done; (case_decide; [by apply Hc|done]).
Qed.

