(* ===== verification/Main.v ===== *)
(** * The process (src/main.py)

    The entry point: the settings, the certificates, then storage, server and their end.
    [main] runs the methods of Serving.v and of Storage.v in its order; whatever ends
    serving, both are closed. *)

From S2P Require Import Prelude PyText Config Logs Streams Lifecycle Storage Serving.

(** How [SolveTLS(cert_file, key_file)] ends. *)
Inductive loading := Loaded | CertificateNotFound | CertificateNotReadable | LoadingFailed (e : exn).

Definition certificate_message (problem : text) (c : constants) (hint : text) : text :=
  u "Cannot start solvetls: TLS certificate or private key " ++ problem ++ [10] ++
  u "Certificate: " ++ CERT_PATH c ++ [10] ++
  u "Private key: " ++ KEY_PATH c ++ [10] ++
  hint ++ [10] ++ u "See README.md (Certificates) for setup.".

Section main.
Context {H D K : Type} `{Host H} `{Database D K} (fuel : nat).

(** The server, the globals of the storage module, and whether SIGTERM cancels. *)
Record program := mkProgram {
  tls_server : process H;
  globals : storage D K;
  sigterm : bool;
}.

Abbreviation MM := (M program).

Definition on_server {A} (m : M (process H) A) : MM A := λ s,
  let '(r, p) := m (tls_server s) in (r, mkProgram p (globals s) (sigterm s)).

Definition on_storage {A} (m : M (storage D K) A) : MM A := λ s,
  let '(r, t) := m (globals s) in (r, mkProgram (tls_server s) t (sigterm s)).

Definition set_sigterm (v : bool) (s : program) : program := mkProgram (tls_server s) (globals s) v.

Definition create_server (l : loading) (c : constants) : MM unit :=
  match l with
  | Loaded => mret tt
  | CertificateNotFound =>
      raise (SystemExit (certificate_message (u "not found.") c
        (u "Provide these files or set SOLVETLS_CERT and SOLVETLS_KEY.")))
  | CertificateNotReadable =>
      raise (SystemExit (certificate_message (u "is not readable.") c
        (u "Grant the server user read access to these files.")))
  | LoadingFailed e => raise e
  end.

(** The [try]; [signals] says whether the loop implements [add_signal_handler]. *)
Definition main_body (signals : bool) (c : constants) : MM unit :=
  _ ← modify (set_sigterm signals);
  _ ← on_storage (init_storage fuel (MONGODB_URL c));
  _ ← on_server (start fuel (bool_decide (is_Some (HTTP_PORT c))));
  on_server (serve_forever fuel).

(** The [finally]. *)
Definition shut_down : MM unit :=
  try_finally (on_server (close fuel))
    (_ ← on_storage (close_storage fuel);
     modify (set_sigterm false)).

Definition main (l : loading) (signals : bool) (c : constants) : MM unit :=
  _ ← create_server l c;
  try_finally (main_body signals c) shut_down.

(** The module beside the state of [logging]. *)
Definition on_logging {A} (m : M logging A) : M (logging * program) A := λ s,
  let '(r, g) := m s.1 in (r, (g, s.2)).

Definition on_program {A} (m : MM A) : M (logging * program) A := λ s,
  let '(r, p) := m s.2 in (r, (s.1, p)).

(** The module: the settings, the log, and [run(main())] under
    [suppress(CancelledError, ...)]. *)
Definition run_module (environ : text → option text) (l : loading) (signals : bool)
    : M (logging * program) unit :=
  c ← lift (load_constants environ);
  _ ← on_logging (setup_logging (LOG_LEVEL c));
  on_program (try_except (main l signals c)
    (λ e, if bool_decide (e = CancelledError) then mret tt else raise e)).

End main.

(** ** What is left when the process ends *)

Section ending.
Context {H D K : Type} `{Cooperative H} `{Database D K} (fuel : nat).
Abbreviation program_t := (@program H (logged_database D K) K).
Implicit Types (s : program_t).

(** The level names that the settings admit are those that [logging] knows. *)
Lemma setup_known level g :
  level ∈ LEVEL_NAMES → ∃ n, dict_get level level_numbers = Some n ∧
    setup_logging level g = (Ok tt, mkLogging n [ConnectionHandler] (dict_set (u "hpack") INFO (levels g))).
Proof.
  intros Hl. assert (∃ n, upper level = level ∧ dict_get level level_numbers = Some n) as (n & Eu & En).
  { unfold LEVEL_NAMES in Hl. set_unfold in Hl. destruct_or?; subst; eexists; split; vm_compute; reflexivity. }
  exists n. split; [done|]. unfold setup_logging. rewrite Eu, En. done.
Qed.

Lemma load_level environ c : load_constants environ = Ok c → LOG_LEVEL c ∈ LEVEL_NAMES.
Proof.
  unfold load_constants. intros E. apply bind_Ok in E as (port & _ & E).
  apply bind_Ok in E as (http & _ & E). apply bind_Ok in E as (level & El & E).
  injection E as <-. cbn. unfold log_level in El. case_bool_decide; [by injection El as <-|done].
Qed.

(** What the [try] did, from [s] to [s']: storage failed and the server was not touched, or
    the server failed to start, or it was started and served. *)
Definition body_outcome (c : constants) (r : result unit) s s' : Prop :=
  let '(ri, t) := init_storage fuel (MONGODB_URL c) (globals s) in
  let http_port := bool_decide (is_Some (HTTP_PORT c)) in
  globals s' = t ∧
  match ri with
  | Err e => r = Err e ∧ tls_server s' = tls_server s
  | Ok _ =>
      (∃ e, r = Err e ∧ start_failure fuel http_port (tls_server s) e (tls_server s')) ∨
      ∃ p, start_outcome fuel http_port (Ok tt) (tls_server s) p ∧ serve_outcome r p (tls_server s')
  end.

(** What the server went through, from [s] to [s'], with no lock kept. *)
Definition served s s' : Prop :=
  rtc step (sys (tls_server s)) (sys (tls_server s')) ∧ holds (tls_server s') = false.

Lemma main_body_spec signals c s :
  reachable (sys (tls_server s)) → holds (tls_server s) = false →
  let '(r, s') := main_body fuel signals c s in served s s' ∧ body_outcome c r s s'.
Proof.
  intros Hr Hh. unfold main_body, body_outcome, served, mbind, M_bind. cbn.
  unfold on_storage. cbn [globals set_sigterm tls_server].
  destruct (init_storage fuel (MONGODB_URL c) (globals s)) as [[b|e] t]; cbn;
    [|by split_and!; [reflexivity|..]].
  unfold on_server at 1. cbn. set (http := bool_decide _).
  pose proof (start_spec fuel http (tls_server s) Hr Hh) as Hs.
  destruct (start fuel http (tls_server s)) as [[[]|e] p]; destruct Hs as (Hg & Hh1 & Hs); cbn.
  2:{ split_and!; [done|done|done|]. left. by exists e. }
  unfold on_server. cbn. pose proof (serve_forever_spec fuel p (reachable_went _ _ Hr Hg) Hh1) as Hv.
  destruct (serve_forever fuel p) as [r p']. destruct Hv as (Hg' & Hh' & Hv). cbn.
  split_and!; [unfold went in *; by etrans|done|done|]. right. by exists p.
Qed.

(** How the process ends, from [s] to [s'] with [r]: behind the [try], which left [s1], the
    server is closed, then storage, both in any case. *)
Definition ended (signals : bool) (c : constants) (r : result unit) s s' : Prop :=
  let '(r1, s1) := main_body fuel signals c s in
  let '(r2, p2) := close fuel (tls_server s1) in
  let '(r3, t3) := close_storage fuel (globals s1) in
  served s s1 ∧ body_outcome c r1 s s1 ∧
  tls_server s' = p2 ∧ served s s' ∧ close_outcome fuel None r2 (tls_server s1) p2 ∧
  globals s' = t3 ∧
  ((init_storage fuel (MONGODB_URL c) (globals s)).1 ≠ Err OutOfFuel →
     r3 ≠ Err OutOfFuel → idle t3) ∧
  (r3 = Ok tt → sigterm s' = false) ∧
  r = match r3, r2 with
      | Err e, _ | Ok _, Err e => Err e
      | Ok _, Ok _ => r1
      end.

Lemma init_storage_owned url (t : storage (logged_database D K) K) :
  owned t → (init_storage fuel url t).1 ≠ Err OutOfFuel → owned (init_storage fuel url t).2.
Proof.
  intros Ho.
  assert (wp (init_storage fuel url) (λ _, owned) (λ e t', e = OutOfFuel ∨ owned t') t) as Hw.
  { unfold init_storage. apply wp_bind. eapply wp_wand; [by apply close_storage_spec|..]; cbn beta.
    - intros [] t1 Hi. destruct url; [apply wp_ret; by apply idle_owned|]. apply wp_bind.
      eapply wp_wand; [by apply open_client_spec|..]; cbn beta.
      + intros [] t2 [Ho2 _]. by apply wp_ret.
      + intros e t2 [?|Hi2]; [by left|right]. by apply idle_owned.
    - intros e t1 [?|Hi]; [by left|right]. by apply idle_owned. }
  unfold wp in Hw. destruct (init_storage fuel url t) as [[b|e] t']; cbn; [done|].
  intros Hne. destruct Hw as [->|Hi]; [by destruct Hne|done].
Qed.

Lemma close_storage_idle (t : storage (logged_database D K) K) :
  owned t → (close_storage fuel t).1 ≠ Err OutOfFuel → idle (close_storage fuel t).2.
Proof.
  intros Ho. pose proof (close_storage_spec fuel t Ho) as Hc. unfold wp in Hc.
  destruct (close_storage fuel t) as [[[]|e] t']; cbn; [done|].
  intros Hne. destruct Hc as [->|Hi]; [by destruct Hne|done].
Qed.

Lemma main_ended signals c s :
  reachable (sys (tls_server s)) → holds (tls_server s) = false → owned (globals s) →
  let '(r, s') := main fuel Loaded signals c s in ended signals c r s s'.
Proof.
  intros Hr Hh Ho. unfold main, ended, mbind, M_bind. cbn. unfold try_finally at 1.
  pose proof (main_body_spec signals c s Hr Hh) as Hb.
  destruct (main_body fuel signals c s) as [r1 s1]. destruct Hb as ([Hg Hh1] & Hb).
  unfold shut_down, try_finally, on_server, on_storage, mbind, M_bind.
  pose proof (close_call_spec fuel None (tls_server s1)) as Hc.
  change (_close fuel None) with (close (H := H) fuel) in Hc.
  assert (reachable (sys (tls_server s1))) as Hr1 by (unfold reachable in *; by etrans).
  destruct (close fuel (tls_server s1)) as [r2 p2]. destruct Hc as (Hg2 & Hh2 & Hc); [done..|].
  assert ((init_storage fuel (MONGODB_URL c) (globals s)).1 ≠ Err OutOfFuel → owned (globals s1)) as Hi.
  { intros Hne. pose proof (init_storage_owned (MONGODB_URL c) (globals s) Ho Hne) as Hi.
    unfold body_outcome in Hb. destruct (init_storage _ _ _) as [ri t]. destruct Hb as [-> _]. exact Hi. }
  assert (served s s1) as Hsv by done. pose proof (close_storage_idle (globals s1)) as Hst.
  assert (∀ t b, served s (mkProgram p2 t b)) as Hsv2 by (split; [unfold went in *; by etrans|done]).
  cbn. destruct (close_storage fuel (globals s1)) as [[[]|e] t3]; cbn; destruct r2 as [[]|e2]; cbn;
    do 2 (split; [done|]); split; [done| |done| |done| |done|];
    (split; [apply Hsv2|]); (split; [done|]); (split; [done|]); (split; [auto|]); by split.
Qed.

(** What [main] leaves. *)
Definition main_left l signals c s (r : result unit) s' : Prop :=
  match l with
  | Loaded => ended signals c r s s'
  | _ => s' = s ∧ ∃ e, r = Err e ∧ create_server l c s = (Err e, s)
  end.

(** C14: the process starts only as it is configured, and cleans up. Settings that cannot be
    are refused before anything is begun. Otherwise the log is set up at the level of the
    settings, which never fails, and [main] runs; without a certificate it fails before
    anything was begun. With one, storage is opened, the server is started, and only a
    server that listens serves. Whatever fails while it starts, and whatever ends serving,
    the server is closed next: when that returns, its cleanup has finished, nobody was
    served and no socket was open at a moment behind the serving; it fails only if it is
    interrupted itself. Whether it failed or not, storage is closed then, and no database
    client is left open, with the reservation on fuel that Storage.v has. An error of
    closing replaces the one that ended serving, which is raised otherwise. All of it was
    steps of Lifecycle.v, with no lock kept. *)
Theorem main_ends environ l signals g s :
  reachable (sys (tls_server s)) → holds (tls_server s) = false → owned (globals s) →
  let '(r, (g', s')) := run_module fuel environ l signals (g, s) in
  match load_constants environ with
  | Err e => r = Err e ∧ g' = g ∧ s' = s
  | Ok c =>
      handlers g' = [ConnectionHandler] ∧ dict_get (LOG_LEVEL c) level_numbers = Some (root_level g') ∧
      ∃ rm, main_left l signals c s rm s' ∧
        r = match rm with Err CancelledError => Ok tt | _ => rm end
  end.
Proof.
  intros Hr Hh Ho. unfold run_module, mbind, M_bind, lift.
  destruct (load_constants environ) as [c|e] eqn:Ec; [|done].
  destruct (setup_known (LOG_LEVEL c) g) as (n & En & Es); [by eapply load_level|].
  unfold on_logging. cbn [fst snd]. rewrite Es. unfold on_program, try_except. cbn [fst snd].
  assert (let '(rm, s') := main fuel l signals c s in main_left l signals c s rm s') as Hm.
  { destruct l; [by apply main_ended|..]; (split; [done|by eexists]). }
  destruct (main fuel l signals c s) as [[[]|e] s'].
  - split_and!; [done|done|]. by exists (Ok tt).
  - case_bool_decide as He; (split_and!; [done|done|]); exists (Err e); [by subst e|].
    split; [done|]. by destruct e.
Qed.

End ending.

(** ** Witness *)

Definition sample_environ (name : text) : option text :=
  if bool_decide (name = u "SOLVETLS_MONGODB_URL") then Some (u "mongodb://a/b") else None.

Definition sample_program : @program (list exn) (logged_database sample_driver nat) nat :=
  mkProgram (mkProcess [] initial false)
    (mkStorage (mkDatabase (mkDriver 0 []) []) false None) false.

(** Witness of C14: the server runs until it is cancelled, and is closed. *)
Lemma main_ends_witness :
  let '(r, (g', s')) := run_module 9 sample_environ Loaded true (mkLogging 30 [] [], sample_program) in
  r = Ok tt ∧ root_level g' = INFO ∧ quiescent (sys (tls_server s')) ∧ idle (globals s') ∧
  ∃ c rm, ended 9 true c rm sample_program s'.
Proof.
  assert (reachable initial) as Hi by (apply rtc_refl).
  assert (owned (globals sample_program)) as Ho.
  { split; [reflexivity|]. split; [discriminate|]. intros [k Hk]. discriminate Hk. }
  pose proof (main_ends 9 sample_environ Loaded true (mkLogging 30 [] []) sample_program Hi eq_refl Ho) as Hm.
  assert (match run_module 9 sample_environ Loaded true (mkLogging 30 [] [], sample_program) with
    | (r, (g', s')) => r = Ok tt ∧ root_level g' = INFO ∧ sys (tls_server s') =
          mkSystem (set_close_task (Some Finished) true (set_https_ports [(2, 8443)] new_server)) Free ∅
            (used (sys (tls_server s'))) ∧
        db_calls (database (globals s')) = [DOpen 0%nat; DClose 0%nat] ∧
        _enabled (globals s') = false ∧ _client (globals s') = None
    end) as Hc by (vm_compute; split_and!; reflexivity).
  destruct (run_module 9 sample_environ Loaded true (mkLogging 30 [] [], sample_program)) as [r [g' s']].
  destruct Hc as (E & Eg & Es & E1 & E2 & E3). split; [exact E|]. split; [exact Eg|].
  split; [rewrite Es; do 3 (split; [reflexivity|]); by split|].
  split; [unfold idle, log_of; rewrite E1; split; [reflexivity|]; split; [exact E2|exact E3]|].
  destruct (load_constants sample_environ) as [c|e].
  - destruct Hm as (_ & _ & rm & Hm & _). exists c, rm. exact Hm.
  - destruct Hm as [Er _]. rewrite E in Er. discriminate Er.
Defined.
